(* ===== verification/_CoqProject ===== *)
-Q . S2P
Prelude.v
Cxx.v
Stream.v
Base64.v
HttpDefs.v
QValue.v
Mime.v
Cookie.v
Net.v
HttpHeader.v
HttpHeaders.v
HttpMessage.v
HeaderMemory.v
HttpParser.v
Termination.v
Resume.v
Fragmentation.v
RequestText.v
HttpResponse.v
TypedHeaders.v
ChunkedBody.v
HttpHandler.v
SegmentTree.v
RouteTable.v
RouteSearch.v
Router.v
MessageQueue.v
MPMC.v
Async.v
Settlement.v
WhenAll.v
Transport.v
WriteQueue.v
TimerPool.v
ClientRequest.v
Client.v
ClientPool.v
ClientLevels.v
ClientFlow.v
Poller.v
Reactor.v
ReactorDispatch.v
Load.v
Endpoint.v
EndpointTimeouts.v
Timeout.v
TimeoutUse.v
Peer.v
Listener.v
ListenerDispatch.v
Description.v
DescriptionRoutes.v
Swagger.v
EmEvents.v
EpollEquiv.v
EmInvariant.v
EmPolled.v
EmCounter.v
EmTimers.v
SslAsync.v
SslStream.v
SslConnect.v
