(* ===== verification/Prelude.v ===== *)
(** * A verification library for the Pistache HTTP framework

    Pistache is an HTTP server and client framework in C++.  Bytes arrive from a
    connection and are collected in a buffer; an incremental parser makes requests
    of them, header by header, with one class per known header; a handler gives each
    request to the application and the application's answer is written into a
    response buffer that the transport sends.  This library models that path
    from [src/common/], [src/server/] and [include/pistache/], and proves what makes
    it correct, or shows where it is not.

    ** Files

    - [Prelude]: results of C++ code (a value, an exception, undefined behaviour,
      fuel used up), the state monad over them with its weakest preconditions, machine
      integers, the lemmas and tactics the other files share.
    - [Cxx]: the parts of the standard library the sources call: [strtol],
      [stoull], [from_chars], [to_string], character classes, [std::hex].
    - [Stream] ([stream.h], [stream.cc]): the request buffer [ArrayStreamBuf], the
      growing response buffer [DynamicStreamBuf], [StreamCursor] and the matchers;
      the parser monad over a cursor and an object.
    - [Base64] ([base64.cc]), [HttpDefs] ([http_defs.h/.cc]: methods, codes, dates),
      [QValue] ([http_headers.cc], [mime.h]: quality values), [Mime] ([mime.h/.cc]),
      [Cookie] ([cookie.h/.cc]), [Net] ([net.h/.cc]: addresses and ports).
    - [HttpHeader] ([http_header.h/.cc]: the header classes, their [parse],
      [parseRaw] and [write]), [HttpHeaders] ([http_headers.h/.cc]: the registry and
      [Collection]), [HttpMessage] ([http.h]: messages, queries).
    - [HttpParser] ([http.h], [http.cc]: the steps, the chunked decoder,
      [ParserBase]).  Its theorems are in [Termination] (the parser returns),
      [HeaderMemory] (a typed header depends on its own line only), [Resume] and
      [Fragmentation] (the cuts between inputs do not matter), [RequestText] (a
      request that is written out is what the parser makes of it).
    - [HttpResponse] ([http.cc]: [ResponseWriter], [ResponseStream]); [ChunkedBody]:
      what a stream writes against what the chunked decoder reads; [TypedHeaders]
      ([http_headers.h]: [tryGet<H>()] and the other templates over the header classes).
    - [HttpHandler] ([http.cc]: [Handler::onInput]).
    - [SegmentTree] ([router.h], [router.cc]: [SegmentTreeNode]); [RouteTable]: the tree
      is a finite map from patterns to handlers; [RouteSearch]: the search against the
      matching of patterns; [Router]: [Rest::Request] and [Router] with its dispatch.
    - [MessageQueue] ([mailbox.h]: [Queue], [PollableQueue]) and [MPMC] ([mailbox.h]:
      [MPMCQueue]): the queues between threads as step relations, one step for each
      access to what threads share, in any order.
    - [Async] ([async.h]): promises as a store of shared objects (cores, continuations,
      collectors) with [then], [Resolver], [Rejection], [whenAll] and [whenAny];
      [Settlement] and [WhenAll]: what becomes of a tree of continuations, and of
      promises settled in any order.
    - [Transport] ([transport.h/.cc]): write queues, peers, timers and the dispatch of
      polled events; [WriteQueue]: what reaches the wire, and which promises settle.
    - [TimerPool] ([timer_pool.h/.cc]); [ClientRequest] ([client.cc]: [splitUrl],
      [writeRequest], [RequestBuilder]): the text a client sends, and what the server's
      parser makes of it; [Client] ([client.h/.cc]): connections, their pool, the queues
      and the client's transport.  Its theorems are in [ClientPool] (the invariant),
      [ClientLevels] (the model's bound on nested closures) and [ClientFlow] (requests over one connection).
    - [Poller] ([os.h/.cc], [flags.h]: [Flags], [Epoll], [NotifyFd], [CpuSet]) and
      [Reactor] ([reactor.h/.cc]: [HandlerList], [SyncImpl], [AsyncImpl], [Reactor]), with
      [ReactorDispatch]: where handlers, keys and events go.  [Load]: load requests, from
      [Listener::requestLoad] to [Transport::handleNotify].
    - [Endpoint] ([endpoint.h/.cc]: the timeouts of [TransportImpl], options, serving) over
      [Transport] and [HttpHandler], with [EndpointTimeouts]; [Timeout] ([http.h],
      [http.cc]: the timeouts of responses) over [Transport], with [TimeoutUse]; [Peer]
      ([peer.h/.cc]); [Listener] ([listener.h/.cc]: binding, accepting, choosing a worker)
      over [Reactor], with [ListenerDispatch].
    - [Description] ([description.h/.cc], [Router::initFromDescription]), with
      [DescriptionRoutes]; [Swagger] ([Swagger::install] and [serveFile] of [http.cc]).
    - [EmEvents] ([eventmeth.cc]: [EmEvent] and the classes derived from it,
      [EventMethEpollEquivImpl]) and [EpollEquiv] ([eventmeth.cc]: the callback and
      [getReadyEmEvents]; [os.cc]: [Epoll] and [NotifyFd]): the poller of the builds with
      libevent.  Its theorems are in [EmInvariant] and [EmPolled] (the lists, a poll),
      [EmCounter] (the substitute of an eventfd) and [EmTimers] (that of a timerfd).
    - [SslAsync] ([ssl_async.h/.cc], [sslclient.cc]: the TLS connections of the client), with
      [SslStream] (the bytes) and [SslConnect] (the handshake and the descriptors).

    ** Conventions

    A function that may throw returns a [result]; one that changes an object is a
    state transformer, and what it stored before an exception stays, as in the code.
    A parser is a state transformer over a cursor and the object being filled; a
    cursor is the text before and the text after the read position.  Integers
    are [Z], wrapped with [wrapu] and [wraps] where the code's types wrap.  A loop
    that is not structural takes fuel, and the initial fuel is what is left of the
    input (or what is left plus one); [Termination] and the theorems of the
    components show it is never used up.

    What is outside the repository or the language is a parameter: [DateLib] (the
    date library), [Resolver] ([inet_pton], [getaddrinfo], ...), [StringMemory] (how
    long a string may get), [Iteration] (the order of the unordered maps),
    [ContentEncodings] and [Compressors] (the build's compression libraries), [Kernel]
    and [System] (what the system calls of the transport and of the client answer),
    [EpollKernel] and [ListenSystem] (those of the poller and of the listener),
    [FileSystem] ([open], [fstat], [canonical]), [HostNames] ([getnameinfo]), [PeerOrder]
    (the order of a map of peers), [LibEvent] (libevent and the calls beside it),
    [Addresses] (the order of a set of pointers), [OpenSsl] (OpenSSL and the calls beside
    it), [Doubles] (floating point), and in [Async] the functions the application gives to
    [then].  Each has a concrete instance
    with which the theorems are applied to examples.

    ** What the theorems show

    - The parser: independence of the cuts between inputs ([Fragmentation]), the
      functional specification on written requests ([RequestText]), termination on
      every input ([Termination]), and chunked coding as the inverse of what
      [ResponseStream] writes ([ChunkedBody]).
      An empty piece of a stream is its last chunk: what follows it is lost.
    - The handler: what every input does; exceptions derived from [std::exception] are
      answered and leave the parser reset, others leave the handler ([HttpHandler]).
    - Responses: the exact text given to the transport, or a rejection, also where
      disarming the timeout throws ([HttpResponse]; [TimeoutUse.timeout_disarm_agrees]
      relates the timeout it has to the objects of [Timeout]).
    - Headers: typed access is safe whatever history a collection has, and finds of the
      lines that were parsed the first of each class ([TypedHeaders]).
    - The values: round trips of Base64, credentials, entity tags, cookies, media types,
      cache directives and quality values; the buffers against their specification.
    - The router: adding and removing routes are insertion into and deletion from a map
      ([RouteTable]); the search is sound, and complete without optional parameters
      ([RouteSearch]); a request reaches the handler added for its path ([Router]).
    - The queues, for every interleaving: first in, first out; no wakeup is lost; no
      item is lost or duplicated in the bounded queue while fewer than 2^63 - [Size]
      items were enqueued, which is before its indexes meet ([MessageQueue], [MPMC]).
    - Promises: settling a core settles the tree of continuations below it, each once, for
      functions that return a value and take it by value; and it makes no difference whether [then] comes before or after; [whenAll] has the
      values by index whatever the order they come in ([Settlement], [WhenAll]).
    - The transport: bytes and promises leave in the order written, each once; draining
      ends; and the cases where a write reaches another peer, a promise is never
      settled, a size is wrong or a loop does not end ([WriteQueue]).
    - The client: what it writes is what the server reads, as far as the header classes
      read what they write ([ClientRequest]); no request
      is settled twice and a connection has one at a time, whatever happens
      ([ClientPool]); queued requests are served in order if no timeout and no partial
      send comes between ([ClientFlow]); and the cases
      where an answer goes to another request, a request is lost or cut short, or a
      thread blocks itself ([ClientFlow]).
    - The reactor: a descriptor is polled by the worker that registered it and its events
      reach the clone of this worker, a loop with one handler gives it what is polled in
      order, and one with two stops ([ReactorDispatch]); a load request stops its worker
      ([Load]).  The listener refines this: a connection has one worker, which alone polls
      it, and the loop that accepts survives the errors of connections ([ListenerDispatch]).
    - Timeouts: each peer is closed exactly if its time is over, with a 408 or without, and
      what that depends on ([EndpointTimeouts]); the timeout of a response refines a machine
      of four phases, and ends the program if it is moved while it waits ([TimeoutUse]).
    - Descriptions: the Swagger text of a path against the router's pattern, and the
      router's table against the description ([DescriptionRoutes]); which files the Swagger
      pages serve ([Swagger]).
    - The poller over libevent: the lists of the pollers agree with their events whatever
      is done; a poll reports what libevent called back for ([EmPolled]); the counter,
      unless it is registered for writing, refines the eventfd of [Poller], the system's
      own ([EmCounter]); a timer counts its
      expirations, and the wait that leaves a deleted timer on a list ([EmTimers]).
    - TLS: for every behaviour of OpenSSL a connection is a stream of bytes each way, a poll
      of it ends after [MAX_LOOP_COUNT] rounds ([SslStream]); no data goes before the
      handshake, and no socket is left open ([SslConnect]).
    - Where the code does not do what it means to, a theorem states what it does: a
      chunk cut between CR and LF, the count of body bytes that survives a reset,
      pipelined requests, integers in a response stream, headers cut off silently, the
      truncated path of a Unix socket, header removal, attributes after an extension
      attribute of a cookie, a second handler in a reactor, load requests, the idle mark of
      a connection, files beside the directory of the Swagger pages, the timer of a wait
      that ends early.

    ** Not modelled, and why

    The libraries that are not here are interfaces: libevent's calls are a trace with the
    answers as a parameter, and what [event_base_loop] calls back is an argument of the
    wait; OpenSSL and the system are a function from the trace of the calls to an answer.
    All other files model the Linux build without libevent.  The parts of the listener and
    of the transport with TLS are left out, and so are the socket functions of the Windows
    build.  Of [eventmeth.cc] the classes [EventMethFns] and
    [EventMethEpollEquiv] pass calls on, and [EventMethBase] sets libevent up.
    The system log and the timing log write for people.  Threads are not
    started: a worker is the loop it runs, the client's threads take turns between
    operations, and mutexes are modelled where a thread can block itself.  The queues'
    memory orders weaker than sequential consistency, and their destructors, are not
    modelled; nor are races on one promise ([Async] is one thread's view), [NoExcept] and
    [Barrier].  The transport is without [clone], [registerPoller] and [removeAllPeers],
    and the endpoint without the registration of its timer: they make system calls in a
    fixed order.  [Timeout] has the armed timeout of a response for itself: [HttpResponse]
    has only what disarming it does, and what the application's handler does about an expired
    one is its own.  The serializer of descriptions, a template over RapidJSON's writer, is
    left out.  Header classes an application registers itself are not among those of
    [HttpHeader].

    ** Plan

    What could follow: the iterators over groups of paths, the parts of the server with TLS,
    the substitutes for [sendfile]. *)

From Stdlib Require Export ZArith Lia ZifyNat.
From stdpp Require Export base list strings sets gmap numbers.

(** ** Bytes and text *)

(** [std::string], [char*] ranges and [std::vector<char>] are lists of bytes. *)
Abbreviation bytes := (list Ascii.ascii).

(** A C string literal. *)
Definition B (s : string) : bytes := String.list_ascii_of_string s.
Arguments B _%_string : simpl never.

(** ** Exceptions and undefined behaviour *)

(** The exception classes the modelled code throws, each with its [what()]. *)
Inductive exn : Type :=
  | RuntimeError (what : bytes)
  | InvalidArgument (what : bytes)
  | OutOfRange (what : bytes)
  | LengthError (what : bytes)
  | RangeError (what : bytes)
  | DomainError (what : bytes)
  | LogicError (what : bytes)
  | ServerError (what : bytes)
  | SocketError (what : bytes)
  | BadAlloc
  | BadFunctionCall
  | HttpError (code : Z) (reason : bytes).

(** The outcome of a C++ expression: a value, a thrown exception, an operation
    whose behaviour the language leaves undefined, or a loop that used up the
    fuel the model gave it, which the theorems show never happens. *)
Inductive result (A : Type) : Type :=
  | Ok (a : A)
  | Throw (e : exn)
  | UB
  | OutOfFuel.
Arguments Ok {A} a.
Arguments Throw {A} e.
Arguments UB {A}.
Arguments OutOfFuel {A}.

#[export] Instance result_ret : MRet result := @Ok.
#[export] Instance result_bind : MBind result := fun A C k m =>
  match m with
  | Ok a => k a
  | Throw e => Throw e
  | UB => UB
  | OutOfFuel => OutOfFuel
  end.

#[export] Instance Ok_inj {A} : Inj (=) (=) (@Ok A).
Proof. by intros x y [= ->]. Qed.

Definition what (e : exn) : bytes :=
  match e with
  | RuntimeError w | InvalidArgument w | OutOfRange w | LengthError w
  | RangeError w | DomainError w | LogicError w | ServerError w | SocketError w => w
  | BadAlloc => B "std::bad_alloc"
  | BadFunctionCall => B "bad_function_call"
  | HttpError _ r => r
  end.

(** ** Effectful code

    A C++ function that mutates an object of type [S] and returns an [A] or
    throws.  The object keeps what was written before a throw, so the state is
    returned beside the result and not inside it. *)
Definition M (S A : Type) : Type := S -> S * result A.

#[export] Instance M_ret {S} : MRet (M S) := fun A a s => (s, Ok a).
#[export] Instance M_bind {S} : MBind (M S) := fun A C k m s =>
  match m s with
  | (s', Ok a) => k a s'
  | (s', Throw e) => (s', Throw e)
  | (s', UB) => (s', UB)
  | (s', OutOfFuel) => (s', OutOfFuel)
  end.

Definition throw {S A : Type} (e : exn) : M S A := fun s => (s, Throw e).
Definition get {S : Type} : M S S := fun s => (s, Ok s).
Definition put {S : Type} (s : S) : M S unit := fun _ => (s, Ok tt).
Definition modify {S : Type} (f : S -> S) : M S unit := fun s => (f s, Ok tt).
Definition lift {S A : Type} (r : result A) : M S A := fun s => (s, r).

(** How one step of a computation runs. *)
Lemma bind_Ok {S A C} (m : M S A) (k : A -> M S C) s s' a :
  m s = (s', Ok a) -> (m ≫= k) s = k a s'.
Proof. intros E. unfold mbind, M_bind. by rewrite E. Qed.

Lemma bind_Throw {S A C} (m : M S A) (k : A -> M S C) s s' e :
  m s = (s', Throw e) -> (m ≫= k) s = (s', Throw e).
Proof. intros E. unfold mbind, M_bind. by rewrite E. Qed.

(** The weakest precondition of a computation that does not run out of fuel:
    [Q] holds of a normal return, [E] of an exception, [U] if the behaviour is
    undefined. *)
Definition wpg {S A} (U : Prop) (m : M S A) (Q : A -> S -> Prop) (E : exn -> S -> Prop) (s : S) : Prop :=
  match m s with
  | (s', Ok a) => Q a s'
  | (s', Throw e) => E e s'
  | (_, UB) => U
  | (_, OutOfFuel) => False
  end.

(** Without undefined behaviour. *)
Abbreviation wp := (wpg False).

Section WP.
Context {S : Type} (U : Prop).

Lemma wp_bind {A C} (m : M S A) (k : A -> M S C) Q E s :
  wpg U m (fun a s' => wpg U (k a) Q E s') E s -> wpg U (m ≫= k) Q E s.
Proof. unfold wpg, mbind, M_bind. by destruct (m s) as [s' [a|e| |]]. Qed.

Lemma wp_ret {A} (a : A) (Q : A -> S -> Prop) E s : Q a s -> wpg U (mret a) Q E s.
Proof. done. Qed.

Lemma wp_throw {A} e (Q : A -> S -> Prop) (E : exn -> S -> Prop) s : E e s -> wpg U (throw e) Q E s.
Proof. done. Qed.

Lemma wp_lift {A} (r : result A) a (Q : A -> S -> Prop) E s : r = Ok a -> Q a s -> wpg U (lift r) Q E s.
Proof. by intros ->. Qed.

(** A pure computation that may throw or be undefined. *)
Lemma wp_lift_any {A} (r : result A) (Q : A -> S -> Prop) (E : exn -> S -> Prop) s :
  U -> r <> OutOfFuel -> (forall a, r = Ok a -> Q a s) -> (forall e, r = Throw e -> E e s) ->
  wpg U (lift r) Q E s.
Proof. unfold wpg, lift. destruct r; eauto. Qed.

Lemma wp_mono {A} (m : M S A) (Q Q' : A -> S -> Prop) (E E' : exn -> S -> Prop) s :
  wpg U m Q E s -> (forall a s', Q a s' -> Q' a s') -> (forall e s', E e s' -> E' e s') -> wpg U m Q' E' s.
Proof. unfold wpg. intros. destruct (m s) as [s' [a|e| |]]; eauto. Qed.
End WP.

(** ** Machine integers *)

(** The value a conversion to an unsigned [w]-bit type leaves. *)
Definition wrapu (w z : Z) : Z := (z mod 2 ^ w)%Z.

(** The value a conversion to a two's complement [w]-bit type leaves. *)
Definition wraps (w z : Z) : Z :=
  ((z + 2 ^ (w - 1)) mod 2 ^ w - 2 ^ (w - 1))%Z.

Definition size_max : Z := (2 ^ 64 - 1)%Z.

Lemma wrapu_small w z : (0 <= z < 2 ^ w)%Z -> wrapu w z = z.
Proof. apply Z.mod_small. Qed.

Lemma wraps_small w z :
  (1 <= w)%Z -> (- 2 ^ (w - 1) <= z < 2 ^ (w - 1))%Z -> wraps w z = z.
Proof.
  intros Hw Hz. unfold wraps.
  assert (2 ^ w = 2 * 2 ^ (w - 1))%Z as E.
  { replace w with (Z.succ (w - 1)) at 1 by lia. apply Z.pow_succ_r. lia. }
  rewrite Z.mod_small; lia.
Qed.

Lemma wrapu_range w z : (0 <= w)%Z -> (0 <= wrapu w z < 2 ^ w)%Z.
Proof. intros. apply Z.mod_pos_bound. apply Z.pow_pos_nonneg; lia. Qed.

(** ** Lists *)

Section Lists.
Context {A : Type}.
Implicit Types l k : list A.

Lemma take_app_exact l k n : n = length l -> take n (l ++ k) = l.
Proof. intros ->. apply take_app_length. Qed.

Lemma drop_app_exact l k n : n = length l -> drop n (l ++ k) = k.
Proof. intros ->. apply drop_app_length. Qed.

Lemma take_drop_eq l n : take n l ++ drop n l = l.
Proof. apply take_drop. Qed.
End Lists.

(** Induction by groups of three and of four elements. *)
Lemma list_ind3 {A} (P : list A -> Prop) :
  P [] -> (forall a, P [a]) -> (forall a b, P [a; b]) ->
  (forall a b c l, P l -> P (a :: b :: c :: l)) -> forall l, P l.
Proof.
  intros H0 H1 H2 H3. fix IH 1. intros [|a [|b [|c l]]]; [done|done|done|]. apply H3, IH.
Qed.

Lemma length_4 {A} k (l : list A) :
  length l = (4 * S k)%nat -> exists a b c d l', l = a :: b :: c :: d :: l' /\ length l' = (4 * k)%nat.
Proof. destruct l as [|a [|b [|c [|d l]]]]; simpl; intros; try lia. eexists _, _, _, _, _. split; [done|lia]. Qed.

Lemma length_3 {A} k (l : list A) :
  length l = (3 * S k)%nat -> exists a b c l', l = a :: b :: c :: l' /\ length l' = (3 * k)%nat.
Proof. destruct l as [|a [|b [|c l]]]; simpl; intros; try lia. eexists _, _, _, _. split; [done|lia]. Qed.

(** ** Automation *)

Create HintDb pistache.
Create Rewrite HintDb pistache.
#[export] Hint Rewrite @length_app @length_take @length_drop @app_nil_r
  @length_reverse : pistache.

(** Case on every test and every match the goal or a hypothesis is stuck on. *)
Ltac case_tests :=
  repeat (case_match || case_decide || case_bool_decide); simplify_eq/=.

(** Turn boolean hypotheses into propositions. *)
Ltac bool_to_prop :=
  repeat match goal with
  | H : andb _ _ = true |- _ => apply andb_true_iff in H as [? ?]
  | H : orb _ _ = false |- _ => apply orb_false_iff in H as [? ?]
  | H : negb _ = true |- _ => apply negb_true_iff in H
  | H : negb _ = false |- _ => apply negb_false_iff in H
  | H : Z.eqb _ _ = true |- _ => apply Z.eqb_eq in H
  | H : Z.eqb _ _ = false |- _ => apply Z.eqb_neq in H
  | H : Z.leb _ _ = true |- _ => apply Z.leb_le in H
  | H : Z.leb _ _ = false |- _ => apply Z.leb_gt in H
  | H : Z.ltb _ _ = true |- _ => apply Z.ltb_lt in H
  | H : Z.ltb _ _ = false |- _ => apply Z.ltb_ge in H
  | H : Nat.eqb _ _ = true |- _ => apply Nat.eqb_eq in H
  | H : Nat.eqb _ _ = false |- _ => apply Nat.eqb_neq in H
  | H : Nat.leb _ _ = true |- _ => apply Nat.leb_le in H
  | H : Nat.leb _ _ = false |- _ => apply Nat.leb_gt in H
  | H : Nat.ltb _ _ = true |- _ => apply Nat.ltb_lt in H
  | H : Nat.ltb _ _ = false |- _ => apply Nat.ltb_ge in H
  end.

(** Length side conditions of list lemmas. *)
Ltac len := autorewrite with pistache in *; simpl in *; lia.

(** A statement about every byte, by cases. *)
Ltac each_byte :=
  intros [[] [] [] [] [] [] [] []]; vm_compute; try reflexivity; try done.
