(* ===== verification/Cxx.v ===== *)
(** * The fragment of the C++ standard library the modelled code calls

    Characters in the "C" locale with [char] signed (the x86-64 ABI),
    [std::from_chars], [std::stoull], [std::strtol], [std::to_string] and
    [std::string]'s searches.  Nothing here is Pistache code. *)

From S2P Require Import Prelude.

Local Open Scope Z_scope.

(** ** Characters *)

(** A byte as [unsigned char] and as [char]. *)
Definition uchar (a : Ascii.ascii) : Z := Z.of_N (Ascii.N_of_ascii a).
Definition schar (a : Ascii.ascii) : Z := let n := uchar a in if n <? 128 then n else n - 256.

(** The byte an integer conversion to [char] leaves. *)
Definition chr (z : Z) : Ascii.ascii := Ascii.ascii_of_N (Z.to_N (z mod 256)).

Definition CR : Ascii.ascii := chr 13.
Definition LF : Ascii.ascii := chr 10.
Definition crlf : bytes := [CR; LF].

Definition between (lo : Z) (a : Ascii.ascii) (hi : Z) : bool := (lo <=? uchar a) && (uchar a <=? hi).

Definition isdigit (a : Ascii.ascii) : bool := between 48 a 57.
Definition isupper (a : Ascii.ascii) : bool := between 65 a 90.
Definition islower (a : Ascii.ascii) : bool := between 97 a 122.
Definition isalpha (a : Ascii.ascii) : bool := isupper a || islower a.
Definition isalnum (a : Ascii.ascii) : bool := isalpha a || isdigit a.
Definition isblank (a : Ascii.ascii) : bool := (uchar a =? 32) || (uchar a =? 9).
Definition isspace (a : Ascii.ascii) : bool := (uchar a =? 32) || between 9 a 13.
Definition tolower (a : Ascii.ascii) : Ascii.ascii := if isupper a then chr (uchar a + 32) else a.

Definition digit_val (a : Ascii.ascii) : Z := uchar a - 48.
Definition digit (n : Z) : Ascii.ascii := chr (n + 48).

(** The value of an alphanumeric digit, as [std::from_chars] reads it. *)
Definition xdigit_val (a : Ascii.ascii) : option Z :=
  if isdigit a then Some (uchar a - 48)
  else if isupper a then Some (uchar a - 55)
  else if islower a then Some (uchar a - 87)
  else None.

Lemma uchar_range a : 0 <= uchar a < 256.
Proof. revert a. each_byte. Qed.

Lemma chr_uchar a : chr (uchar a) = a.
Proof. revert a. each_byte. Qed.

Lemma uchar_chr z : 0 <= z < 256 -> uchar (chr z) = z.
Proof.
  intros Hz. unfold uchar, chr. rewrite Z.mod_small by lia.
  rewrite Ascii.N_ascii_embedding by lia. lia.
Qed.

Lemma uchar_inj a c : uchar a = uchar c -> a = c.
Proof. intros E. rewrite <- (chr_uchar a), <- (chr_uchar c). by f_equal. Qed.

Lemma tolower_idemp a : tolower (tolower a) = tolower a.
Proof. revert a. each_byte. Qed.

Lemma isdigit_digit n : 0 <= n < 10 -> isdigit (digit n) = true.
Proof.
  intros. unfold isdigit, between, digit. rewrite uchar_chr by lia.
  apply andb_true_iff; split; apply Z.leb_le; lia.
Qed.

Lemma digit_val_digit n : 0 <= n < 10 -> digit_val (digit n) = n.
Proof. intros. unfold digit_val, digit. rewrite uchar_chr; lia. Qed.

Lemma digit_val_range a : isdigit a = true -> 0 <= digit_val a < 10.
Proof. unfold isdigit, between, digit_val. intros. bool_to_prop. lia. Qed.

(** Every byte, for checks by evaluation over all of them. *)
Definition all_bytes : bytes := map (fun n => Ascii.ascii_of_nat n) (seq 0 256).

Lemma forall_bytes (p : Ascii.ascii -> bool) : forallb p all_bytes = true -> forall a, p a = true.
Proof.
  rewrite forallb_forall. intros H a. apply H. unfold all_bytes.
  apply in_map_iff. exists (Ascii.nat_of_ascii a). split; [apply Ascii.ascii_nat_embedding|].
  apply in_seq. pose proof (Ascii.nat_ascii_bounded a). lia.
Qed.

(** [at(i)] of a vector or a string, read and written. *)
Definition at_ {A} (l : list A) (i : nat) : result A :=
  match l !! i with Some a => Ok a | None => Throw (OutOfRange (B "at")) end.
Definition set_at {A} (l : list A) (i : nat) (a : A) : result (list A) :=
  if (i <? length l)%nat then Ok (<[i := a]> l) else Throw (OutOfRange (B "at")).

Lemma at_app {A} (p l : list A) i : at_ (p ++ l) (length p + i) = at_ l i.
Proof. unfold at_. rewrite lookup_app_r by lia. by replace (length p + i - length p)%nat with i by lia. Qed.

Lemma set_at_app {A} (p l : list A) i a :
  (i < length l)%nat -> set_at (p ++ l) (length p + i) a = Ok (p ++ <[i := a]> l).
Proof.
  intros. unfold set_at. rewrite length_app.
  rewrite (proj2 (Nat.ltb_lt _ _)) by lia. f_equal. rewrite insert_app_r_alt by lia.
  by replace (length p + i - length p)%nat with i by lia.
Qed.

(** ** Searches *)

(** The longest prefix of [l] whose bytes satisfy [p]. *)
Fixpoint span (p : Ascii.ascii -> bool) (l : bytes) : bytes :=
  match l with
  | [] => []
  | a :: l' => if p a then a :: span p l' else []
  end.

Lemma span_all p l : Forall (fun a => p a = true) (span p l).
Proof. induction l as [|a l IH]; simpl; [done|]. destruct (p a) eqn:E; auto. Qed.

Lemma span_prefix p l : span p l ++ drop (length (span p l)) l = l.
Proof. induction l as [|a l IH]; simpl; [done|]. destruct (p a); simpl; [by f_equal|done]. Qed.

Lemma span_app p l k :
  Forall (fun a => p a = true) l ->
  match k with [] => True | a :: _ => p a = false end ->
  span p (l ++ k) = l.
Proof.
  intros Hl Hk. induction Hl as [|a l Ha Hl IH]; simpl.
  - destruct k as [|a k]; simpl; [done|]. by rewrite Hk.
  - by rewrite Ha, IH.
Qed.

(** [std::string::find] of one character. *)
Fixpoint find_char (c : Ascii.ascii) (l : bytes) : option nat :=
  match l with
  | [] => None
  | a :: l' => if decide (a = c) then Some 0%nat else S <$> find_char c l'
  end.

Lemma find_char_Some c l n :
  find_char c l = Some n ->
  l = take n l ++ c :: drop (S n) l /\ c ∉ take n l.
Proof.
  revert n. induction l as [|a l IH]; intros n; simpl; [done|].
  case_decide; [intros; simplify_eq/=; split; [done|set_solver]|].
  intros (k & E & ->)%fmap_Some. apply IH in E as [E1 E2]. simpl.
  split; [by f_equal|set_solver].
Qed.

Lemma find_char_None c l : find_char c l = None <-> c ∉ l.
Proof.
  induction l as [|a l IH]; simpl; [set_solver|].
  case_decide; [set_solver|].
  rewrite fmap_None, IH. set_solver.
Qed.

Lemma find_char_app c l k : c ∉ l -> find_char c (l ++ c :: k) = Some (length l).
Proof.
  induction l as [|a l IH]; simpl; intros Hc; [by rewrite decide_True|].
  rewrite decide_False by set_solver. rewrite IH by set_solver. done.
Qed.

(** ** C strings

    [strncmp(s, t, n) == 0] and [strncasecmp(s, t, n) == 0]: the first [n]
    characters agree after [f], or agree up to a NUL.  The end of a list reads
    as NUL. *)
Definition NUL : Ascii.ascii := chr 0.

Fixpoint strn_eq (f : Ascii.ascii -> Ascii.ascii) (n : nat) (s t : bytes) : bool :=
  match n with
  | O => true
  | S n' =>
      let a := f (default NUL (head s)) in
      bool_decide (a = f (default NUL (head t)))
      && (bool_decide (a = NUL) || strn_eq f n' (tail s) (tail t))
  end.

Definition strncmp_eq : nat -> bytes -> bytes -> bool := strn_eq (fun a => a).
Definition strncasecmp_eq : nat -> bytes -> bytes -> bool := strn_eq tolower.

Lemma strn_eq_spec f n s t :
  (forall a, f a = NUL <-> a = NUL) ->
  (n <= length s)%nat -> Forall (fun a => a <> NUL) (take n s) ->
  Forall (fun a => a <> NUL) t ->
  strn_eq f n s t = true <-> (n <= length t)%nat /\ map f (take n s) = map f (take n t).
Proof.
  intros Hf. revert s t. induction n as [|n IH]; intros s t Hs Fs Ft; simpl.
  { split; [split; [lia|done]|done]. }
  destruct s as [|a s]; simpl in *; [lia|]. inversion Fs as [|? ? Ha Fs']; subst.
  destruct t as [|c t]; simpl.
  - split; [|lia]. intros E. bool_to_prop. apply bool_decide_eq_true in H.
    exfalso. apply Ha, Hf. rewrite H. by apply Hf.
  - inversion Ft as [|? ? Hc Ft']; subst.
    rewrite andb_true_iff, bool_decide_eq_true, (bool_decide_eq_false_2 (f a = NUL))
      by (intros E; by apply Ha, Hf).
    simpl. rewrite IH by (done || lia). split.
    + intros (E & ? & E'). split; [lia|]. by f_equal.
    + intros [? E]. injection E as E1 E2. repeat split; [done|lia|done].
Qed.

Lemma tolower_NUL a : tolower a = NUL <-> a = NUL.
Proof. revert a. each_byte. Qed.

(** ** Numbers *)

(** The value of a digit string in a base, most significant digit first. *)
Definition base_value (base : Z) (l : bytes) : Z :=
  fold_left (fun acc a => acc * base + default 0 (xdigit_val a)) l 0.

Definition is_base_digit (base : Z) (a : Ascii.ascii) : bool :=
  match xdigit_val a with Some d => d <? base | None => false end.

Inductive errc : Set := errc_ok | errc_invalid_argument | errc_out_of_range.

(** [std::from_chars]'s error code, the offset of its [ptr] and the value it
    stored (the old value when [ec] is set). *)
Record from_chars_result : Set := FromChars { ec : errc; ptr : nat; value : Z }.

(** [std::from_chars] on the range [l] into an unsigned type of maximum [max]. *)
Definition from_chars_u (base max : Z) (l : bytes) (old : Z) : from_chars_result :=
  let ds := span (is_base_digit base) l in
  if decide (ds = []) then FromChars errc_invalid_argument 0 old
  else if base_value base ds <=? max then FromChars errc_ok (length ds) (base_value base ds)
  else FromChars errc_out_of_range (length ds) old.

(** The same into [int], base 10: one leading minus sign is accepted. *)
Definition from_chars_int (l : bytes) (old : Z) : from_chars_result :=
  match l with
  | a :: l' =>
      if decide (a = chr 45) then
        let r := from_chars_u 10 (2 ^ 31) l' 0 in
        match ec r with
        | errc_ok => FromChars errc_ok (S (ptr r)) (- value r)
        | errc_invalid_argument => FromChars errc_invalid_argument 0 old
        | errc_out_of_range => FromChars errc_out_of_range (S (ptr r)) old
        end
      else from_chars_u 10 (2 ^ 31 - 1) l old
  | [] => from_chars_u 10 (2 ^ 31 - 1) l old
  end.

(** What [strtol] and [strtoull] read first: white space, a sign, digits. *)
Definition strto_prefix (l : bytes) : bool * bytes * bytes :=
  let l1 := drop (length (span isspace l)) l in
  match l1 with
  | a :: l2 =>
      if decide (a = chr 45) then (true, span isdigit l2, l1)
      else if decide (a = chr 43) then (false, span isdigit l2, l1)
      else (false, span isdigit l1, l1)
  | [] => (false, [], [])
  end.

(** [std::stoull(data, nullptr, 10)]. *)
Definition stoull (l : bytes) : result Z :=
  let '(neg, ds, _) := strto_prefix l in
  if decide (ds = []) then Throw (InvalidArgument (B "stoull"))
  else let v := base_value 10 ds in
       if v <=? size_max then Ok (if neg : bool then wrapu 64 (- v) else v)
       else Throw (OutOfRange (B "stoull")).

(** [strtol(s, &end, 10)]: the value and the bytes [end] points to.  The value
    saturates at the ends of [long]. *)
Definition strtol (l : bytes) : Z * bytes :=
  let '(neg, ds, l1) := strto_prefix l in
  if decide (ds = []) then (0, l)
  else
    let v := if neg : bool then - base_value 10 ds else base_value 10 ds in
    let signed := match l1 with a :: _ => bool_decide (a = chr 45) || bool_decide (a = chr 43) | [] => false end in
    (Z.max (- 2 ^ 63) (Z.min v (2 ^ 63 - 1)),
     drop (length ds + if signed then 1 else 0)%nat l1).

(** [std::to_string] and [operator<<] of a non-negative integer: the digits,
    least significant first, then reversed.  [fuel] bounds the number of digits. *)
Fixpoint digits_rev (fuel : nat) (n : Z) : bytes :=
  match fuel with
  | O => []
  | S f => if n <? 10 then [digit n] else digit (n mod 10) :: digits_rev f (n / 10)
  end.

Definition to_string_u (n : Z) : bytes := reverse (digits_rev (S (Z.to_nat (Z.log2 n))) n).

Definition to_string (n : Z) : bytes :=
  if n <? 0 then chr 45 :: to_string_u (- n) else to_string_u n.

(** [std::hex]. *)
Definition xdigit (n : Z) : Ascii.ascii := if n <? 10 then digit n else chr (n + 87).
Fixpoint hex_rev (fuel : nat) (n : Z) : bytes :=
  match fuel with
  | O => []
  | S f => if n <? 16 then [xdigit n] else xdigit (n mod 16) :: hex_rev f (n / 16)
  end.
Definition to_hex (n : Z) : bytes := reverse (hex_rev (S (Z.to_nat (Z.log2 n))) n).

(** *** Printing and reading back *)

Section PositionalDigits.
  Variables (base : Z) (dig : Z -> Ascii.ascii) (rev_digits : nat -> Z -> bytes).
Hypothesis base_ge2 : 2 <= base.
Hypothesis dig_val : forall n, 0 <= n < base -> xdigit_val (dig n) = Some n.
Hypothesis rev_digits_S : forall f n,
  rev_digits (S f) n =
  if n <? base then [dig n] else dig (n mod base) :: rev_digits f (n / base).

Lemma base_value_snoc l a :
  base_value base (l ++ [a]) = base_value base l * base + default 0 (xdigit_val a).
Proof. unfold base_value. by rewrite fold_left_app. Qed.

Lemma rev_digits_spec f n :
  0 <= n < 2 ^ Z.of_nat (S f) ->
  base_value base (reverse (rev_digits (S f) n)) = n
  /\ Forall (fun a => is_base_digit base a = true) (rev_digits (S f) n).
Proof.
  assert (forall k, 0 <= k < base -> is_base_digit base (dig k) = true) as Hd.
  { intros k Hk. unfold is_base_digit. rewrite dig_val by lia. apply Z.ltb_lt. lia. }
  revert n. induction f as [|f IH]; intros n Hn; rewrite rev_digits_S.
  - rewrite (proj2 (Z.ltb_lt n base)) by lia. cbn.
    rewrite dig_val by lia. split; [done|]. repeat constructor. apply Hd. lia.
  - destruct (n <? base) eqn:E.
    + apply Z.ltb_lt in E. cbn. rewrite dig_val by lia. split; [done|].
      repeat constructor. apply Hd. lia.
    + apply Z.ltb_ge in E.
      assert (0 <= n / base < 2 ^ Z.of_nat (S f)) as Hq.
      { split; [apply Z.div_pos; lia|]. apply Z.div_lt_upper_bound; [lia|].
        replace (Z.of_nat (S (S f))) with (Z.succ (Z.of_nat (S f))) in Hn by lia.
        rewrite Z.pow_succ_r in Hn by lia. nia. }
      pose proof (Z.mod_pos_bound n base ltac:(lia)) as Hm.
      destruct (IH _ Hq) as [IH1 IH2]. split; [|constructor; [by apply Hd|done]].
      rewrite reverse_cons, base_value_snoc, IH1, dig_val by lia. simpl.
      pose proof (Z.div_mod n base). lia.
Qed.

Lemma rev_digits_nonempty f n : rev_digits (S f) n <> [].
Proof. rewrite rev_digits_S. by destruct (n <? base). Qed.
End PositionalDigits.

Lemma log2_fuel n : 0 <= n -> 0 <= n < 2 ^ Z.of_nat (S (Z.to_nat (Z.log2 n))).
Proof.
  intros Hn. split; [done|].
  rewrite Nat2Z.inj_succ, Z2Nat.id by apply Z.log2_nonneg.
  destruct (decide (n = 0)) as [->|]; [done|]. apply Z.log2_spec. lia.
Qed.

Lemma xdigit_val_digit n : 0 <= n < 10 -> xdigit_val (digit n) = Some n.
Proof.
  intros. unfold xdigit_val. rewrite isdigit_digit by lia.
  unfold digit. rewrite uchar_chr by lia. f_equal. lia.
Qed.

Lemma xdigit_val_xdigit n : 0 <= n < 16 -> xdigit_val (xdigit n) = Some n.
Proof.
  intros. unfold xdigit. destruct (n <? 10) eqn:E.
  - apply Z.ltb_lt in E. apply xdigit_val_digit. lia.
  - apply Z.ltb_ge in E.
    assert (n = 10 \/ n = 11 \/ n = 12 \/ n = 13 \/ n = 14 \/ n = 15) as Hn by lia.
    repeat destruct Hn as [-> | Hn]; subst; reflexivity.
Qed.

Lemma to_string_u_spec n :
  0 <= n ->
  base_value 10 (to_string_u n) = n
  /\ Forall (fun a => is_base_digit 10 a = true) (to_string_u n)
  /\ to_string_u n <> [].
Proof.
  intros Hn. unfold to_string_u.
  destruct (rev_digits_spec 10 digit digits_rev ltac:(lia) xdigit_val_digit
              ltac:(done) _ n (log2_fuel n Hn)) as [E F].
  split; [done|]. split; [by apply Forall_reverse|].
  intros E'. apply (f_equal reverse) in E'. rewrite reverse_involutive in E'.
  by apply (rev_digits_nonempty 10 digit digits_rev ltac:(done)) in E'.
Qed.

Lemma to_hex_spec n :
  0 <= n ->
  base_value 16 (to_hex n) = n
  /\ Forall (fun a => is_base_digit 16 a = true) (to_hex n)
  /\ to_hex n <> [].
Proof.
  intros Hn. unfold to_hex.
  destruct (rev_digits_spec 16 xdigit hex_rev ltac:(lia) xdigit_val_xdigit
              ltac:(done) _ n (log2_fuel n Hn)) as [E F].
  split; [done|]. split; [by apply Forall_reverse|].
  intros E'. apply (f_equal reverse) in E'. rewrite reverse_involutive in E'.
  by apply (rev_digits_nonempty 16 xdigit hex_rev ltac:(done)) in E'.
Qed.

(** A digit string followed by something else is read back whole. *)
Lemma from_chars_u_app base max ds rest old :
  ds <> [] ->
  Forall (fun a => is_base_digit base a = true) ds ->
  match rest with [] => True | a :: _ => is_base_digit base a = false end ->
  base_value base ds <= max ->
  from_chars_u base max (ds ++ rest) old = FromChars errc_ok (length ds) (base_value base ds).
Proof.
  intros Hne Hds Hrest Hmax. unfold from_chars_u. rewrite span_app by done.
  rewrite decide_False by done. by rewrite (proj2 (Z.leb_le _ _) Hmax).
Qed.

Lemma is_base_digit_10 a : is_base_digit 10 a = isdigit a.
Proof. revert a. each_byte. Qed.

(** The digits of a number, none of which is a blank or a sign. *)
Lemma to_string_u_digits n : 0 <= n -> Forall (fun a => isdigit a = true) (to_string_u n).
Proof.
  intros Hn. destruct (to_string_u_spec n Hn) as (_ & F & _).
  eapply Forall_impl; [|exact F]. intros a Ha. by rewrite <- is_base_digit_10.
Qed.

Lemma isdigit_class a : isdigit a = true -> isspace a = false /\ a <> chr 45 /\ a <> chr 43.
Proof. revert a. intros [[] [] [] [] [] [] [] []]; vm_compute; intros; split_and!; congruence. Qed.

(** What [strtol] and [strtoull] see of a digit string. *)
Lemma strto_prefix_digits ds rest :
  ds <> [] -> Forall (fun a => isdigit a = true) ds ->
  match rest with [] => True | a :: _ => isdigit a = false end ->
  strto_prefix (ds ++ rest) = (false, ds, ds ++ rest).
Proof.
  intros Hne Hds Hr. unfold strto_prefix. destruct ds as [|a ds]; [done|].
  inversion Hds as [|? ? Ha _]; subst. destruct (isdigit_class a Ha) as (Hs & Hm & Hp).
  cbn [app span]. rewrite Hs. cbn [length drop].
  rewrite !decide_False by done. change (a :: ds ++ rest) with ((a :: ds) ++ rest). by rewrite span_app.
Qed.

Lemma stoull_to_string n :
  0 <= n <= size_max -> stoull (to_string_u n) = Ok n.
Proof.
  intros Hn. destruct (to_string_u_spec n ltac:(lia)) as (E & _ & Hne).
  pose proof (strto_prefix_digits (to_string_u n) [] Hne (to_string_u_digits n ltac:(lia)) I) as Hp.
  rewrite app_nil_r in Hp. unfold stoull. rewrite Hp, decide_False, E by done.
  by rewrite (proj2 (Z.leb_le _ size_max)) by lia.
Qed.

Lemma strtol_to_string_u n rest :
  0 <= n < 2 ^ 63 -> match rest with [] => True | a :: _ => isdigit a = false end ->
  strtol (to_string_u n ++ rest) = (n, rest).
Proof.
  intros Hn Hr. destruct (to_string_u_spec n ltac:(lia)) as (E & _ & Hne).
  pose proof (to_string_u_digits n ltac:(lia)) as Hd.
  unfold strtol. rewrite (strto_prefix_digits _ rest Hne Hd Hr), decide_False, E by done.
  destruct (to_string_u n) as [|a l]; [done|]. inversion Hd as [|? ? Ha _]; subst.
  destruct (isdigit_class a Ha) as (_ & Hm & Hp). cbn [app].
  rewrite !bool_decide_eq_false_2 by done. cbn [orb]. rewrite Nat.add_0_r.
  change (a :: l ++ rest) with ((a :: l) ++ rest). rewrite drop_app_length. f_equal. lia.
Qed.

Lemma to_string_pos n : 0 <= n -> to_string n = to_string_u n.
Proof. intros. unfold to_string. by rewrite (proj2 (Z.ltb_ge _ _)) by lia. Qed.

Lemma digits_rev_length fuel n : (length (digits_rev fuel n) <= fuel)%nat.
Proof.
  revert n. induction fuel as [|f IH]; intros n; simpl; [lia|].
  destruct (n <? 10); simpl; [lia|]. specialize (IH (n / 10)). lia.
Qed.
