(* ===== verification/Stream.v ===== *)
(** * Byte streams: [include/pistache/stream.h] and [src/common/stream.cc]

    [StreamBuf]'s get area is a zipper: the bytes before [gptr] and the bytes
    from [gptr] to [egptr].  [ArrayStreamBuf] (the request buffer) adds its
    limit, [DynamicStreamBuf] (the response buffer) is the vector with its put
    pointers, and the [match_*] functions are the primitives every parser of
    the library is written with. *)

From S2P Require Import Prelude Cxx.

Local Open Scope Z_scope.

(** ** The get area and [StreamCursor] *)

Record cursor : Set := Cursor { before : bytes; after : bytes }.

Definition Eof : Z := -1.

(** [RawStreamBuf] over [str], [len]. *)
Definition RawStreamBuf (str : bytes) : cursor := Cursor [] str.

Definition in_avail (c : cursor) : nat := length (after c).
Definition remaining (c : cursor) : nat := in_avail c.
Definition position (c : cursor) : nat := length (before c).

(** [snext]: [eof] at the end of the area, else [*(gptr + 1)]; [None] is the
    read one past the area that [next] guards against. *)
Definition snext (c : cursor) : option Z :=
  match after c with
  | [] => Some Eof
  | [_] => None
  | _ :: a :: _ => Some (schar a)
  end.

Definition next (c : cursor) : Z :=
  if (in_avail c <=? 1)%nat then Eof else default Eof (snext c).

(** [current] casts [sgetc()] to a signed [char], so byte 255 reads as [Eof]. *)
Definition current (c : cursor) : Z :=
  match after c with [] => Eof | a :: _ => schar a end.

Definition eol (c : cursor) : bool :=
  match after c with a :: _ => bool_decide (a = CR) | [] => false end && (next c =? schar LF).

Definition eof (c : cursor) : bool := (remaining c =? 0)%nat.

(** [count] calls to [sbumpc], each of which stops at the end of the area. *)
Definition sbump (n : nat) (c : cursor) : cursor :=
  Cursor (before c ++ take n (after c)) (drop n (after c)).

(** [advance] takes a [size_t] and compares it as a signed value. *)
Definition advance (count : Z) (c : cursor) : bool * cursor :=
  if Z.of_nat (in_avail c) <? wraps 64 count then (false, c)
  else (true, sbump (Z.to_nat (Z.min count (Z.of_nat (in_avail c)))) c).

(** How many times [advance] runs the body of its loop. *)
Definition advance_iterations (count : Z) (c : cursor) : Z :=
  if Z.of_nat (in_avail c) <? wraps 64 count then 0 else count.

(** [diff(size_t other)]. *)
Definition diff (other : nat) (c : cursor) : nat := (position c - other)%nat.

(** [std::string(cursor.offset(start), cursor.diff(start))], and what a
    [Token] created at position [start] yields as [text()]. *)
Definition Token_text (start : nat) (c : cursor) : bytes := drop start (before c).
(** [rawText()]: every byte from the token's start to the end of the area. *)
Definition Token_raw (start : nat) (c : cursor) : bytes := drop start (before c ++ after c).
Definition Token_size (start : nat) (c : cursor) : nat := (position c - start)%nat.

Definition cursor_reset (_ : cursor) : cursor := Cursor [] [].

(** *** Loops of the parsers

    [while (!stop(cursor)) if (!cursor.advance(1)) return ...;]: the flag is
    [false] when [advance] failed, which is at the end of the area. *)
Fixpoint scan_rest (stop : bytes -> bool) (l : bytes) : bytes * bytes * bool :=
  if stop l then ([], l, true)
  else match l with
       | [] => ([], [], false)
       | a :: l' => let '(pre, post, ok) := scan_rest stop l' in (a :: pre, post, ok)
       end.

Definition scan (stop : cursor -> bool) (c : cursor) : bool * cursor :=
  let '(pre, post, ok) := scan_rest (fun l => stop (Cursor [] l)) (after c) in
  (ok, Cursor (before c ++ pre) post).

(** ** Matching primitives *)

Inductive CaseSensitivity : Set := Sensitive | Insensitive.

Definition match_raw (buf : bytes) (c : cursor) : bool * cursor :=
  if (remaining c <? length buf)%nat then (false, c)
  else if bool_decide (take (length buf) (after c) = buf)
       then (true, sbump (length buf) c) else (false, c).

Definition match_string (str : bytes) (cs : CaseSensitivity) (c : cursor) : bool * cursor :=
  if (remaining c <? length str)%nat then (false, c)
  else
    let same := match cs with
                | Sensitive => strncmp_eq (length str) (after c) str
                | Insensitive =>
                    bool_decide (map tolower str = map tolower (take (length str) (after c)))
                end in
    if same : bool then (true, sbump (length str) c) else (false, c).

Definition match_literal (ch : Ascii.ascii) (cs : CaseSensitivity) (c : cursor) : bool * cursor :=
  match after c with
  | [] => (false, c)
  | a :: _ =>
      let same := match cs with
                  | Sensitive => bool_decide (ch = a)
                  | Insensitive => bool_decide (tolower ch = tolower a)
                  end in
      if same : bool then (true, sbump 1 c) else (false, c)
  end.

(** [match_until]'s [find]: the listed character is lowered in the insensitive
    mode, the character read is lowered in the sensitive one. *)
Definition until_find (chars : list Ascii.ascii) (cs : CaseSensitivity) (val : Ascii.ascii) : bool :=
  existsb (fun ch =>
    let lhs := match cs with Sensitive => ch | Insensitive => tolower ch end in
    let rhs := match cs with Insensitive => val | Sensitive => tolower val end in
    bool_decide (lhs = rhs)) chars.

Definition until_stop (chars : list Ascii.ascii) (cs : CaseSensitivity) (c : cursor) : bool :=
  match after c with [] => false | a :: _ => until_find chars cs a end.

Definition match_until (chars : list Ascii.ascii) (cs : CaseSensitivity) (c : cursor) : bool * cursor :=
  if eof c then (false, c) else scan (until_stop chars cs) c.

(** [skip_whitespaces]: [advance(1)] while the character is a blank. *)
Fixpoint skip_blanks (pre l : bytes) : cursor :=
  match l with
  | a :: l' => if (schar a =? 32) || (schar a =? 9) then skip_blanks (pre ++ [a]) l' else Cursor pre l
  | [] => Cursor pre []
  end.
Definition skip_whitespaces (c : cursor) : cursor := skip_blanks (before c) (after c).

(** ** [ArrayStreamBuf]: the buffer a parser is fed through *)

Record ArrayStreamBuf : Set := Array { area : cursor; array_maxSize : nat }.

Definition ArrayStreamBuf_new (maxSize : nat) : ArrayStreamBuf := Array (Cursor [] []) maxSize.
Definition array_bytes (b : ArrayStreamBuf) : bytes := before (area b) ++ after (area b).

Definition ArrayStreamBuf_feed (data : bytes) (b : ArrayStreamBuf) : bool * ArrayStreamBuf :=
  if (array_maxSize b <? length (array_bytes b) + length data)%nat then (false, b)
  else (true, Array (Cursor (before (area b)) (after (area b) ++ data)) (array_maxSize b)).

Definition ArrayStreamBuf_reset (b : ArrayStreamBuf) : ArrayStreamBuf :=
  Array (Cursor [] []) (array_maxSize b).

(** ** [RawBuffer] *)

Record RawBuffer : Set := Raw { raw_data : bytes; raw_length : nat }.

Definition RawBuffer_empty : RawBuffer := Raw [] 0.
Definition RawBuffer_of_string (d : bytes) (length : nat) : RawBuffer := Raw d length.
Definition RawBuffer_of_chars (d : bytes) (length : nat) : RawBuffer := Raw (take length d) length.

Definition RawBuffer_copy (fromIndex : nat) (b : RawBuffer) : result RawBuffer :=
  if bool_decide (raw_data b = []) then Ok RawBuffer_empty
  else if (raw_length b <? fromIndex)%nat
  then Throw (RangeError (B "Trying to detach buffer from an index bigger than lengthght."))
  else if (length (raw_data b) <? fromIndex)%nat
  then Throw (OutOfRange (B "basic_string::substr"))
  else let newDatalength := (raw_length b - fromIndex)%nat in
       Ok (Raw (take newDatalength (drop fromIndex (raw_data b))) newDatalength).

(** ** [DynamicStreamBuf]: the buffer a response is written to *)

Record DynamicStreamBuf : Set := Dynamic {
  data_ : bytes;      (* the vector *)
  pptr : nat;         (* put pointer, an offset into the vector *)
  epptr : nat;        (* end of the put area *)
  maxSize_ : Z }.

Definition resize (n : nat) (l : bytes) : bytes := take n (l ++ replicate (n - length l) NUL).

Definition reserve (size : Z) (d : DynamicStreamBuf) : DynamicStreamBuf :=
  let size := if maxSize_ d <? size then maxSize_ d else size in
  Dynamic (resize (Z.to_nat size) (data_ d)) (length (data_ d)) (Z.to_nat size) (maxSize_ d).

Definition DynamicStreamBuf_new (size maxSize : Z) : DynamicStreamBuf :=
  reserve size (Dynamic [] 0 0 maxSize).

Definition DynamicStreamBuf_clear (d : DynamicStreamBuf) : DynamicStreamBuf :=
  Dynamic (data_ d) 0 (length (data_ d)) (maxSize_ d).

Definition DynamicStreamBuf_buffer (d : DynamicStreamBuf) : RawBuffer :=
  RawBuffer_of_chars (data_ d) (pptr d).

(** [*pptr() = ch; pbump(1)]. *)
Definition store (a : Ascii.ascii) (d : DynamicStreamBuf) : DynamicStreamBuf :=
  Dynamic (<[pptr d := a]> (data_ d)) (S (pptr d)) (epptr d) (maxSize_ d).

(** [overflow]; [None] is [traits_type::eof()]. *)
Definition overflow (ch : option Ascii.ascii) (d : DynamicStreamBuf) : bool * DynamicStreamBuf :=
  match ch with
  | None => (false, d)
  | Some a =>
      let size := Z.of_nat (length (data_ d)) in
      if size <? maxSize_ d
      then (true, store a (reserve ((if size =? 0 then 1 else size) * 2) d))
      else (false, d)
  end.

(** [std::streambuf::sputc] and [sputn]. *)
Definition sputc (a : Ascii.ascii) (d : DynamicStreamBuf) : bool * DynamicStreamBuf :=
  if (pptr d <? epptr d)%nat then (true, store a d) else overflow (Some a) d.

Fixpoint sputn (l : bytes) (d : DynamicStreamBuf) : bool * DynamicStreamBuf :=
  match l with
  | [] => (true, d)
  | a :: l' => let '(ok, d') := sputc a d in if ok : bool then sputn l' d' else (false, d')
  end.

(** A [std::ostream] on the buffer: once a write fails, later ones do nothing. *)
Record ostream : Set := OStream { rdbuf : DynamicStreamBuf; good : bool }.

Definition ostream_write (l : bytes) (os : ostream) : ostream :=
  if good os then let '(ok, d) := sputn l (rdbuf os) in OStream d ok else os.

(** ** Parsers

    A function that reads from a cursor and fills an object of type [X]. *)

Abbreviation parser X := (M (cursor * X)).

Definition cursor_ {X : Type} : parser X cursor := fun s => (s, Ok (fst s)).
Definition on_cursor {X A : Type} (f : cursor -> A * cursor) : parser X A := fun s =>
  let '(a, c) := f (fst s) in ((c, snd s), Ok a).
Definition object_ {X : Type} : parser X X := fun s => (s, Ok (snd s)).
Definition on_object {X : Type} (f : X -> X) : parser X unit := fun s => ((fst s, f (snd s)), Ok tt).

(** ** Cursor lemmas *)

(** [c'] is [c] advanced over the bytes [pre]. *)
Definition moves (c : cursor) (pre : bytes) (c' : cursor) : Prop :=
  after c = pre ++ after c' /\ before c' = before c ++ pre.

Lemma moves_refl c : moves c [] c.
Proof. split; [done|by rewrite app_nil_r]. Qed.

Lemma moves_trans c1 c2 c3 p q : moves c1 p c2 -> moves c2 q c3 -> moves c1 (p ++ q) c3.
Proof. intros [E1 F1] [E2 F2]. split; [by rewrite E1, E2, app_assoc|by rewrite F2, F1, app_assoc]. Qed.

Lemma moves_sbump n c : moves c (take n (after c)) (sbump n c).
Proof. split; [|done]. simpl. by rewrite take_drop. Qed.

Lemma moves_bytes c p c' : moves c p c' -> before c' ++ after c' = before c ++ after c.
Proof. intros [E F]. by rewrite F, E, app_assoc. Qed.

Lemma moves_Token_text c p c' : moves c p c' -> Token_text (position c) c' = p.
Proof. intros [_ F]. unfold Token_text, position. rewrite F. apply drop_app_length. Qed.

Lemma moves_remaining c p c' : moves c p c' -> (remaining c = length p + remaining c')%nat.
Proof. intros [E _]. unfold remaining, in_avail. by rewrite E, length_app. Qed.

#[export] Hint Resolve moves_refl moves_sbump moves_trans : pistache.

Lemma advance_1 c :
  advance 1 c = match after c with [] => (false, c) | _ :: _ => (true, sbump 1 c) end.
Proof.
  unfold advance, in_avail. rewrite wraps_small by lia.
  destruct (after c) as [|a l] eqn:E; [done|].
  rewrite (proj2 (Z.ltb_ge _ _)) by (simpl; lia). by rewrite Z.min_l by (simpl; lia).
Qed.

(** Within the area, [advance] moves over exactly [count] bytes; a count the
    area cannot satisfy is refused. *)
Lemma advance_spec count c :
  0 <= count < 2 ^ 63 ->
  advance count c = if Z.of_nat (remaining c) <? count then (false, c)
                    else (true, sbump (Z.to_nat count) c).
Proof.
  intros Hc. unfold advance. rewrite wraps_small by lia. fold (remaining c).
  destruct (Z.of_nat (remaining c) <? count) eqn:E; [done|].
  apply Z.ltb_ge in E. by rewrite Z.min_l.
Qed.

Lemma scan_rest_spec stop l pre post ok :
  scan_rest stop l = (pre, post, ok) ->
  l = pre ++ post
  /\ (forall k, (k < length pre)%nat -> stop (drop k l) = false)
  /\ (if ok then stop post = true else post = [] /\ stop [] = false).
Proof.
  revert pre post ok. induction l as [|a l IH]; intros pre post ok; simpl.
  - destruct (stop []) eqn:E; intros; simplify_eq/=; repeat split; try done; lia.
  - destruct (stop (a :: l)) eqn:E; [intros; simplify_eq/=; repeat split; try done; lia|].
    destruct (scan_rest stop l) as [[p q] o] eqn:Es. intros; simplify_eq/=.
    destruct (IH _ _ _ eq_refl) as (-> & Hk & Ho). repeat split; [|done].
    intros [|k] Hlt; [done|]. simpl. apply Hk. lia.
Qed.

Lemma scan_spec stop c ok c' :
  (forall p l, stop (Cursor p l) = stop (Cursor [] l)) ->
  scan stop c = (ok, c') ->
  exists pre, moves c pre c'
  /\ (forall k, (k < length pre)%nat -> stop (Cursor [] (drop k (after c))) = false)
  /\ (if ok then stop c' = true else eof c' = true).
Proof.
  intros Hstop. unfold scan.
  destruct (scan_rest _ _) as [[pre post] o] eqn:E. intros; simplify_eq.
  apply scan_rest_spec in E as (E & Hk & Ho). exists pre.
  repeat split; [done|done|]. destruct ok; [by rewrite Hstop|]. by destruct Ho as [-> _].
Qed.

(** A scan stops at the first place its test holds. *)
Lemma scan_stop stop c pre post :
  after c = pre ++ post ->
  (forall k, (k < length pre)%nat -> stop (Cursor [] (drop k (after c))) = false) ->
  stop (Cursor [] post) = true ->
  scan stop c = (true, Cursor (before c ++ pre) post).
Proof.
  intros E Hk Hs. unfold scan.
  enough (scan_rest (fun l => stop (Cursor [] l)) (after c) = (pre, post, true)) as -> by done.
  revert E Hk. generalize (after c). clear c. induction pre as [|a pre IH]; intros l -> Hk; simpl in *.
  - destruct post; simpl; by rewrite Hs.
  - pose proof (Hk 0%nat ltac:(lia)) as H0. simpl in H0. rewrite H0. rewrite (IH (pre ++ post)); [done|done|].
    intros k Hlt. apply (Hk (S k)). lia.
Qed.

(** ** [match_until], [match_string] and [match_raw] *)

Lemma until_stop_area chars cs p l :
  until_stop chars cs (Cursor p l) = until_stop chars cs (Cursor [] l).
Proof. done. Qed.

Lemma scan_prefix_forall (f : Ascii.ascii -> bool) pre post :
  (forall k, (k < length pre)%nat ->
     match drop k (pre ++ post) with [] => false | a :: _ => f a end = false) ->
  Forall (fun a => f a = false) pre.
Proof.
  induction pre as [|a pre IH]; intros Hk; [done|]. constructor.
  - apply (Hk 0%nat). simpl. lia.
  - apply IH. intros k Hlt. apply (Hk (S k)). simpl. lia.
Qed.

Lemma match_until_moves chars cs c ok c' :
  match_until chars cs c = (ok, c') ->
  exists pre, moves c pre c' /\ Forall (fun a => until_find chars cs a = false) pre
  /\ (if ok then exists a l, after c' = a :: l /\ until_find chars cs a = true
      else eof c' = true).
Proof.
  unfold match_until. destruct (eof c) eqn:E.
  { intros; simplify_eq. exists []. repeat split; [by rewrite app_nil_r|done|done]. }
  intros Hs. apply scan_spec in Hs as (pre & Hm & Hk & Ho); [|apply until_stop_area].
  exists pre. split; [done|]. split.
  - apply (scan_prefix_forall _ _ (after c')). intros k Hlt.
    rewrite <- (proj1 Hm). by apply Hk.
  - destruct ok; [|done]. unfold until_stop in Ho. destruct (after c') as [|a l]; [done|]. eauto.
Qed.

Lemma until_find_insensitive chars a :
  until_find chars Insensitive a = true <-> exists ch, ch ∈ chars /\ tolower ch = a.
Proof.
  unfold until_find. rewrite existsb_exists. split.
  - intros (ch & Hin & Hb). apply bool_decide_eq_true in Hb. exists ch. by rewrite list_elem_of_In.
  - intros (ch & Hin & <-). exists ch. rewrite <- list_elem_of_In. split; [done|].
    by apply bool_decide_eq_true.
Qed.

Lemma sbump_prefix l c post : after c = l ++ post -> sbump (length l) c = Cursor (before c ++ l) post.
Proof. intros E. unfold sbump. by rewrite E, take_app_length, drop_app_length. Qed.

(** ** Theorems *)

(** [match_until] in its default mode, for separators without upper-case
    letters (all the separators the library's parsers use): it stops on the
    first separator, having moved over exactly the bytes that precede it, and
    fails only at the end of the area, when none occurs. *)
Lemma match_until_first chars c :
  Forall (fun ch => tolower ch = ch) chars ->
  exists pre c', moves c pre c' /\ Forall (fun a => a ∉ chars) pre
  /\ (match_until chars Insensitive c = (true, c') /\ (exists a l, after c' = a :: l /\ a ∈ chars)
      \/ match_until chars Insensitive c = (false, c') /\ after c' = []).
Proof.
  intros Hlow. rewrite list.Forall_forall in Hlow.
  assert (forall a, until_find chars Insensitive a = true <-> a ∈ chars) as Hf.
  { intros a. rewrite until_find_insensitive. split.
    - intros (ch & Hin & <-). by rewrite Hlow.
    - intros Hin. exists a. split; [done|by apply Hlow]. }
  destruct (match_until chars Insensitive c) as [ok c'] eqn:E.
  pose proof E as E'. apply match_until_moves in E' as (pre & Hm & Fp & Ho).
  exists pre, c'. split; [done|]. split.
  - eapply Forall_impl; [|exact Fp]. simpl. intros a Ha Hin. apply Hf in Hin. congruence.
  - destruct ok; [left|right]; (split; [done|]).
    + destruct Ho as (a & l & ? & Ha). exists a, l. split; [done|]. by apply Hf.
    + unfold eof, remaining, in_avail in Ho. bool_to_prop. by apply length_zero_iff_nil.
Qed.

(** The case handling of [match_until] is inverted: in its sensitive mode it
    lowers the character it reads, so an upper-case separator is never found,
    even on an area that starts with it. *)
Theorem match_until_sensitive_misses_upper ch c :
  isupper ch = true ->
  match_until [ch] Sensitive c = (false, Cursor (before c ++ after c) []).
Proof.
  intros Hup.
  assert (forall a, until_find [ch] Sensitive a = false) as Hf.
  { intros a. unfold until_find. simpl. rewrite orb_false_r.
    apply bool_decide_eq_false. intros ->. revert Hup. revert a. each_byte. }
  destruct (match_until [ch] Sensitive c) as [ok c'] eqn:E.
  apply match_until_moves in E as (pre & [E1 E2] & _ & Ho). destruct ok.
  - destruct Ho as (a & l & _ & Ha). by rewrite Hf in Ha.
  - assert (after c' = []) as E3.
    { unfold eof, remaining, in_avail in Ho. bool_to_prop. by apply length_zero_iff_nil. }
    rewrite E3, app_nil_r in E1. rewrite E1, <- E2. by destruct c' as [p q]; simpl in *; subst.
Qed.

(** The part of a text a comparison looks at. *)
Definition case_fold (cs : CaseSensitivity) (l : bytes) : bytes :=
  match cs with Sensitive => l | Insensitive => map tolower l end.

Lemma length_case_fold cs l : length (case_fold cs l) = length l.
Proof. destruct cs; [done|apply length_map]. Qed.

Lemma match_string_test str cs c :
  Forall (fun a => a <> NUL) str ->
  (cs = Sensitive -> Forall (fun a => a <> NUL) (after c)) ->
  match_string str cs c =
    if bool_decide ((length str <= length (after c))%nat
                    /\ case_fold cs (take (length str) (after c)) = case_fold cs str)
    then (true, sbump (length str) c) else (false, c).
Proof.
  intros Fs Fc. unfold match_string, remaining, in_avail.
  destruct (length (after c) <? length str)%nat eqn:E; bool_to_prop.
  { rewrite bool_decide_eq_false_2; [done|]. intros [? _]. lia. }
  match goal with |- (if ?x then _ else _) = (if ?y then _ else _) => assert (x = y) as -> end;
    [|done].
  destruct cs; simpl.
  - apply eq_true_iff_eq. rewrite bool_decide_eq_true. unfold strncmp_eq.
    rewrite strn_eq_spec; [|done|lia| |done].
    + rewrite !map_id, (take_ge str) by lia. intuition lia.
    + apply Forall_take. by apply Fc.
  - apply bool_decide_ext. split; [intros ->; auto|by intros [_ ->]].
Qed.

(** [match_string] accepts exactly the areas that start with its literal, up to
    case when insensitive, and moves over it; otherwise the cursor stays. *)
Theorem match_string_spec str cs c :
  Forall (fun a => a <> NUL) str ->
  (cs = Sensitive -> Forall (fun a => a <> NUL) (after c)) ->
  (exists l post, after c = l ++ post /\ case_fold cs l = case_fold cs str
     /\ match_string str cs c = (true, Cursor (before c ++ l) post))
  \/ ((forall l post, after c = l ++ post -> case_fold cs l <> case_fold cs str)
      /\ match_string str cs c = (false, c)).
Proof.
  intros Fs Fc. rewrite match_string_test by done. case_bool_decide as E.
  - left. destruct E as [Hlen Hfold].
    exists (take (length str) (after c)), (drop (length str) (after c)).
    split; [by rewrite take_drop|]. by split.
  - right. split; [|done]. intros l post El Hl. apply E.
    apply (f_equal length) in Hl as Hlen. rewrite !length_case_fold in Hlen.
    rewrite El, length_app, <- Hlen, take_app_length. split; [lia|done].
Qed.

(** [ArrayStreamBuf::feed] accepts data exactly when it fits, appends it after
    the unread bytes and leaves the read position and the bound alone; data it
    refuses leaves the buffer as it was. *)
Theorem feed_spec data b :
  (length (array_bytes b) <= array_maxSize b)%nat ->
  let '(ok, b') := ArrayStreamBuf_feed data b in
  ok = bool_decide (length (array_bytes b) + length data <= array_maxSize b)%nat
  /\ array_bytes b' = array_bytes b ++ (if ok then data else [])
  /\ position (area b') = position (area b)
  /\ array_maxSize b' = array_maxSize b
  /\ (length (array_bytes b') <= array_maxSize b')%nat.
Proof.
  intros Hb. unfold ArrayStreamBuf_feed.
  destruct (array_maxSize b <? _)%nat eqn:E; bool_to_prop.
  - rewrite bool_decide_eq_false_2 by lia. by rewrite app_nil_r.
  - rewrite bool_decide_eq_true_2 by lia. repeat split.
    + unfold array_bytes. simpl. by rewrite app_assoc.
    + unfold array_bytes in *. simpl. rewrite app_assoc, length_app. lia.
Qed.

(** *** Symbolic execution of parsers *)

Lemma wp_on_cursor {X A} U (f : cursor -> A * cursor) (Q : A -> cursor * X -> Prop) E s :
  (forall a c', f (fst s) = (a, c') -> Q a (c', snd s)) -> wpg U (on_cursor f) Q E s.
Proof. intros H. unfold wpg, on_cursor. destruct (f (fst s)) as [a c'] eqn:Ef. by apply H. Qed.

Lemma wp_cursor_ {X} U (Q : cursor -> cursor * X -> Prop) E s : Q (fst s) s -> wpg U cursor_ Q E s.
Proof. done. Qed.

Lemma wp_on_object {X} U f (Q : unit -> cursor * X -> Prop) E s :
  Q tt (fst s, f (snd s)) -> wpg U (on_object f) Q E s.
Proof. done. Qed.

(** One symbolic step of a parser. *)
Ltac wp_step_with raise_tac :=
  match goal with
  | |- wpg _ (_ ≫= _) _ _ _ => apply wp_bind
  | |- wpg _ (mret _) _ _ _ => apply wp_ret
  | |- wpg _ (throw _) _ _ _ => apply wp_throw
  | |- wpg _ cursor_ _ _ _ => apply wp_cursor_
  | |- wpg _ (on_cursor _) _ _ _ => apply wp_on_cursor; intros ? ? ?
  | |- wpg _ (on_object _) _ _ _ => apply wp_on_object
  | |- wpg _ (if ?b then _ else _) _ _ _ => let H := fresh "Hb" in destruct b eqn:H
  | |- _ => raise_tac
  end; cbn [fst snd] in *.

Lemma match_until_le chars cs c ok c' : match_until chars cs c = (ok, c') -> (remaining c' <= remaining c)%nat.
Proof. intros (pre & Hm & _)%match_until_moves. apply moves_remaining in Hm. lia. Qed.

Lemma sbump_remaining n c : remaining (sbump n c) = (remaining c - n)%nat.
Proof. unfold remaining, in_avail, sbump. simpl. by rewrite length_drop. Qed.

Lemma match_literal_remaining ch cs c ok c' :
  match_literal ch cs c = (ok, c') ->
  if ok then (remaining c' < remaining c)%nat else c' = c.
Proof.
  unfold match_literal. destruct (after c) as [|a l] eqn:E; [intros; by simplify_eq|].
  case_match; intros; simplify_eq; [|done]. rewrite sbump_remaining. unfold remaining, in_avail. rewrite E. simpl. lia.
Qed.

Lemma advance_le n c ok c' : advance n c = (ok, c') -> (remaining c' <= remaining c)%nat.
Proof. unfold advance. destruct (_ <? _); intros; simplify_eq; [lia|]. rewrite sbump_remaining. lia. Qed.

Lemma advance_1_lt c ok c' :
  advance 1 c = (ok, c') -> eof c = false -> (remaining c' < remaining c)%nat.
Proof.
  rewrite advance_1. unfold eof, remaining, in_avail. destruct (after c) eqn:E; [done|].
  intros ? _; simplify_eq. cbn [sbump after]. rewrite length_drop, E. simpl. lia.
Qed.

Lemma match_raw_le buf c ok c' : match_raw buf c = (ok, c') -> (remaining c' <= remaining c)%nat.
Proof.
  unfold match_raw. destruct (_ <? _)%nat; [intros; by simplify_eq|].
  case_bool_decide; intros; simplify_eq; [rewrite sbump_remaining; lia|done].
Qed.

(** What each cursor operation does to the number of bytes left. *)
Ltac cursor_facts := repeat match goal with
  | H : match_until _ _ _ = _ |- _ => apply match_until_le in H
  | H : match_literal _ _ _ = _ |- _ => apply match_literal_remaining in H
  | H : match_raw _ _ = _ |- _ => apply match_raw_le in H
  end.


Lemma advance_1_cons a p l : advance 1 (Cursor p (a :: l)) = (true, Cursor (p ++ [a]) l).
Proof. by rewrite advance_1. Qed.

Lemma on_cursor_eq {X A} (f : cursor -> A * cursor) (c : cursor) (o : X) a c' :
  f c = (a, c') -> on_cursor f (c, o) = ((c', o), Ok a).
Proof. intros E. unfold on_cursor. cbn [fst snd]. by rewrite E. Qed.

(** *** The response buffer *)

Section DynamicBuffer.
Implicit Types d : DynamicStreamBuf.

(** What has been written so far: [buffer().data()]. *)
Definition content d : bytes := take (pptr d) (data_ d).

(** The put area ends with the vector, within the limit. *)
Record dyn_wf d : Prop := {
  wf_pptr : (pptr d <= epptr d)%nat;
  wf_epptr : epptr d = length (data_ d);
  wf_max : Z.of_nat (length (data_ d)) <= maxSize_ d }.

Lemma length_resize n l : length (resize n l) = n.
Proof. unfold resize. rewrite length_take, length_app, length_replicate. lia. Qed.

Lemma take_resize n m l : (n <= length l)%nat -> (n <= m)%nat -> take n (resize m l) = take n l.
Proof. intros. unfold resize. rewrite take_take, Nat.min_l by lia. by rewrite take_app_le. Qed.

Lemma length_content d : dyn_wf d -> length (content d) = pptr d.
Proof. intros []. unfold content. rewrite length_take. lia. Qed.

Lemma new_wf_any size maxSize :
  0 <= size -> 0 <= maxSize ->
  dyn_wf (DynamicStreamBuf_new size maxSize) /\ content (DynamicStreamBuf_new size maxSize) = [].
Proof.
  intros. split; [|done]. unfold DynamicStreamBuf_new, reserve. simpl.
  destruct (maxSize <? size) eqn:E; bool_to_prop; constructor; simpl; rewrite ?length_resize; lia.
Qed.

Lemma new_wf size maxSize :
  0 <= size <= maxSize ->
  dyn_wf (DynamicStreamBuf_new size maxSize) /\ content (DynamicStreamBuf_new size maxSize) = [].
Proof. intros. apply new_wf_any; lia. Qed.

Lemma clear_wf d : dyn_wf d -> dyn_wf (DynamicStreamBuf_clear d) /\ content (DynamicStreamBuf_clear d) = [].
Proof. intros []. split; [|done]. constructor; simpl; lia. Qed.

Lemma buffer_content d : dyn_wf d ->
  DynamicStreamBuf_buffer d = Raw (content d) (length (content d)).
Proof. intros. unfold DynamicStreamBuf_buffer, RawBuffer_of_chars. by rewrite length_content. Qed.

Lemma store_wf a d :
  dyn_wf d -> (pptr d < epptr d)%nat ->
  dyn_wf (store a d) /\ content (store a d) = content d ++ [a] /\ maxSize_ (store a d) = maxSize_ d.
Proof.
  intros [] Hlt. split; [|split; [|done]].
  - constructor; simpl; rewrite ?length_insert; lia.
  - unfold content. simpl. rewrite (take_S_r _ _ a).
    + by rewrite take_insert_ge by lia.
    + apply list_lookup_insert_eq. lia.
Qed.

(** Growing keeps what was written; there is then room for one more byte. *)
Lemma reserve_wf size d :
  dyn_wf d -> pptr d = epptr d -> Z.of_nat (length (data_ d)) < size ->
  Z.of_nat (length (data_ d)) < maxSize_ d ->
  dyn_wf (reserve size d) /\ content (reserve size d) = content d
  /\ maxSize_ (reserve size d) = maxSize_ d /\ (pptr (reserve size d) < epptr (reserve size d))%nat.
Proof.
  intros [] Hfull Hsize Hmax. unfold reserve.
  set (sz := if maxSize_ d <? size then maxSize_ d else size).
  assert (Z.of_nat (length (data_ d)) < sz /\ sz <= maxSize_ d) as Hsz.
  { unfold sz. destruct (maxSize_ d <? size) eqn:E; bool_to_prop; lia. }
  split; [constructor; simpl; rewrite ?length_resize; lia|].
  split; [|split; simpl; [done|lia]].
  unfold content. simpl. rewrite Hfull, wf_epptr0. apply take_resize; lia.
Qed.

Lemma sputc_spec a d :
  dyn_wf d ->
  let '(ok, d') := sputc a d in
  dyn_wf d' /\ maxSize_ d' = maxSize_ d
  /\ ok = bool_decide (Z.of_nat (pptr d) < maxSize_ d)
  /\ content d' = content d ++ (if ok then [a] else []).
Proof.
  intros Hwf. pose proof Hwf as []. unfold sputc.
  destruct (pptr d <? epptr d)%nat eqn:E; bool_to_prop.
  - destruct (store_wf a d) as (? & ? & ?); [done|lia|].
    rewrite bool_decide_eq_true_2 by lia. done.
  - assert (pptr d = epptr d) as Hfull by lia. unfold overflow.
    destruct (_ <? maxSize_ d) eqn:Em; bool_to_prop.
    + destruct (reserve_wf ((if Z.of_nat (length (data_ d)) =? 0 then 1
                             else Z.of_nat (length (data_ d))) * 2) d) as (Hr & Hc & Hx & Hl); [done..| |done|].
      { destruct (_ =? 0) eqn:Z0; bool_to_prop; lia. }
      destruct (store_wf a _ Hr Hl) as (? & Hs & ?).
      rewrite bool_decide_eq_true_2 by lia. rewrite Hs, Hc. split_and!; [done|congruence|done|done].
    + rewrite bool_decide_eq_false_2 by lia. by rewrite app_nil_r.
Qed.

Lemma sputn_wf l d :
  dyn_wf d ->
  let '(ok, d') := sputn l d in
  dyn_wf d' /\ maxSize_ d' = maxSize_ d
  /\ content d' = content d ++ take (Z.to_nat (maxSize_ d) - length (content d)) l
  /\ ok = bool_decide (Z.of_nat (length (content d) + length l) <= maxSize_ d).
Proof.
  revert d. induction l as [|a l IH]; intros d Hwf; simpl.
  - rewrite take_nil, app_nil_r. pose proof Hwf as []. rewrite length_content by done.
    rewrite bool_decide_eq_true_2 by lia. done.
  - pose proof (sputc_spec a d Hwf) as Hc. destruct (sputc a d) as [ok d'].
    destruct Hc as (Hwf' & Hmax & Hok & Hcont). subst ok.
    pose proof Hwf as []. pose proof (length_content d Hwf) as Hlen.
    case_bool_decide as Hroom.
    + specialize (IH d' Hwf'). destruct (sputn l d') as [ok d''].
      destruct IH as (? & ? & Hc & ->). rewrite Hcont, Hmax, length_app in *. simpl.
      replace (Z.to_nat (maxSize_ d) - length (content d))%nat
        with (S (Z.to_nat (maxSize_ d) - (length (content d) + 1)))%nat by lia.
      rewrite Hc, <- app_assoc. split_and!; [done|congruence|done|].
      apply bool_decide_ext. lia.
    + rewrite bool_decide_eq_false_2 by lia. rewrite Hcont.
      replace (Z.to_nat (maxSize_ d) - length (content d))%nat with 0%nat by lia. done.
Qed.
End DynamicBuffer.

(** [DynamicStreamBuf] implements a bounded append: writing [l] through the
    stream appends the longest prefix of [l] that keeps the content within
    [maxSize], and reports success exactly when that is all of [l]; the growth
    by doubling is invisible. *)
Theorem dynamic_buffer_bounded_append l d :
  dyn_wf d ->
  let '(ok, d') := sputn l d in
  let text := content d ++ take (Z.to_nat (maxSize_ d) - length (content d)) l in
  DynamicStreamBuf_buffer d' = Raw text (length text)
  /\ ok = bool_decide (Z.of_nat (length (content d) + length l) <= maxSize_ d)
  /\ dyn_wf d'.
Proof.
  intros Hwf. pose proof (sputn_wf l d Hwf) as H. destruct (sputn l d) as [ok d'].
  destruct H as (Hwf' & _ & Hc & Ho). rewrite buffer_content, Hc by done. done.
Qed.

(** ** Witnesses *)

Lemma match_until_sensitive_misses_upper_witness :
  isupper (chr 65) = true
  /\ match_until [chr 65] Sensitive (RawStreamBuf (B "xAy")) = (false, Cursor (B "xAy") []).
Proof. split; [reflexivity|]. apply (match_until_sensitive_misses_upper (chr 65)). reflexivity. Defined.

Lemma match_string_spec_witness :
  (exists l post, B "HTTP/1.1" = l ++ post /\ case_fold Insensitive l = case_fold Insensitive (B "http")
     /\ match_string (B "http") Insensitive (RawStreamBuf (B "HTTP/1.1")) = (true, Cursor l post))
  \/ ((forall l post, B "HTTP/1.1" = l ++ post ->
        case_fold Insensitive l <> case_fold Insensitive (B "http"))
      /\ match_string (B "http") Insensitive (RawStreamBuf (B "HTTP/1.1"))
         = (false, RawStreamBuf (B "HTTP/1.1"))).
Proof.
  apply (match_string_spec (B "http") Insensitive (RawStreamBuf (B "HTTP/1.1"))).
  - repeat constructor; vm_compute; discriminate.
  - discriminate.
Defined.

Lemma feed_spec_witness :
  let b := ArrayStreamBuf_new 6 in
  let '(ok, b') := ArrayStreamBuf_feed (B "GET /") b in
  ok = true /\ array_bytes b' = B "GET /" /\ position (area b') = 0%nat
  /\ array_maxSize b' = 6%nat /\ (length (array_bytes b') <= 6)%nat.
Proof. apply (feed_spec (B "GET /") (ArrayStreamBuf_new 6)). simpl. lia. Defined.

Lemma dynamic_buffer_bounded_append_witness :
  let d := DynamicStreamBuf_new 2 5 in
  dyn_wf d /\
  let '(ok, d') := sputn (B "abcdefg") d in
  DynamicStreamBuf_buffer d' = Raw (B "abcde") 5 /\ ok = false /\ dyn_wf d'.
Proof.
  split; [apply new_wf; lia|].
  apply (dynamic_buffer_bounded_append (B "abcdefg") (DynamicStreamBuf_new 2 5)).
  apply new_wf. lia.
Defined.
