(* ===== verification/Base64.v ===== *)
(** * Base 64: [src/common/base64.cc]

    [Base64Encoder] and [Base64Decoder] with their writes through [at()] into
    preallocated buffers, and a reference codec on groups of bytes that the two
    loops are proved equal to. *)

From S2P Require Import Prelude Cxx.

Local Open Scope Z_scope.

(** ** [std::byte] shifts, truncated to eight bits *)

Definition byte_shl (z n : Z) : Z := wrapu 8 (Z.shiftl z n).
Definition byte_shr (z n : Z) : Z := Z.shiftr z n.

(** ** [Base64Decoder] *)

Definition DecodeCharacter (a : Ascii.ascii) : Z :=
  let c := uchar a in
  if between 65 a 90 then wrapu 8 (c - 65)
  else if between 97 a 122 then wrapu 8 (c - (97 - 26))
  else if between 48 a 57 then wrapu 8 (c - (48 - 52))
  else if c =? 43 then 62
  else if c =? 47 then 63
  else 255.

Definition decodable (a : Ascii.ascii) : bool := DecodeCharacter a <? 64.

Definition CalculateDecodedSize (s : bytes) : result nat :=
  if bool_decide (s = []) then Ok 0%nat
  else if (length s <? 4)%nat
  then Throw (RuntimeError (B "Base64 encoded stream should always be at least four bytes."))
  else if negb (length s mod 4 =? 0)%nat
  then Throw (RuntimeError (B "Base64 encoded stream length should always be evenly divisible by four."))
  else
    let InputSize := length (span decodable s) in
    let DecodedSize := (InputSize / 4 * 3)%nat in
    match (InputSize mod 4)%nat with
    | 2%nat => Ok (DecodedSize + 1)%nat
    | 3%nat => Ok (DecodedSize + 2)%nat
    | _ => Ok DecodedSize
    end.

(** The three octets of four sextet characters. *)
Definition octet1 (a b : Ascii.ascii) : Ascii.ascii :=
  chr (Z.lor (byte_shl (DecodeCharacter a) 2) (byte_shr (DecodeCharacter b) 4)).
Definition octet2 (b c : Ascii.ascii) : Ascii.ascii :=
  chr (Z.lor (byte_shl (DecodeCharacter b) 4) (byte_shr (DecodeCharacter c) 2)).
Definition octet3 (c d : Ascii.ascii) : Ascii.ascii :=
  chr (Z.lor (byte_shl (DecodeCharacter c) 6) (DecodeCharacter d)).

(** [for (Index = 2; Index < DecodedSize; Index += 3)], with the input and
    output offsets it leaves.  One unit of fuel per iteration. *)
Fixpoint decode_loop (fuel Index InputOffset OutputOffset DecodedSize : nat) (s out : bytes)
  : result (nat * nat * bytes) :=
  if (Index <? DecodedSize)%nat then
    match fuel with
    | O => OutOfFuel
    | S fuel' =>
        a ← at_ s (InputOffset + 0);
        b ← at_ s (InputOffset + 1);
        out ← set_at out (OutputOffset + 0) (octet1 a b);
        c ← at_ s (InputOffset + 2);
        out ← set_at out (OutputOffset + 1) (octet2 b c);
        d ← at_ s (InputOffset + 3);
        out ← set_at out (OutputOffset + 2) (octet3 c d);
        decode_loop fuel' (Index + 3) (InputOffset + 4) (OutputOffset + 3) DecodedSize s out
    end
  else Ok (InputOffset, OutputOffset, out).

Definition Decode (s : bytes) : result bytes :=
  DecodedSize ← CalculateDecodedSize s;
  '(InputOffset, OutputOffset, out) ←
    decode_loop DecodedSize 2 0 0 DecodedSize s (replicate DecodedSize NUL);
  match (DecodedSize mod 3)%nat with
  | 1%nat =>
      a ← at_ s (InputOffset + 0);
      b ← at_ s (InputOffset + 1);
      set_at out (OutputOffset + 0) (octet1 a b)
  | 2%nat =>
      a ← at_ s (InputOffset + 0);
      b ← at_ s (InputOffset + 1);
      out ← set_at out (OutputOffset + 0) (octet1 a b);
      c ← at_ s (InputOffset + 2);
      set_at out (OutputOffset + 1) (octet2 b c)
  | _ => Ok out
  end.

(** ** [Base64Encoder] *)

(** [((4 * DecodedSize / 3) + 3) & ~3] on [size_t]. *)
Definition CalculateEncodedSize (DecodedSize : Z) : Z :=
  Z.land (wrapu 64 (wrapu 64 (4 * DecodedSize) / 3 + 3)) (wrapu 64 (Z.lnot 3)).

Definition EncodeByte (ch : Z) : Ascii.ascii :=
  if ch <? 26 then chr (ch + 65)
  else if ch <? 52 then chr (ch + 71)
  else if ch <? 62 then chr (ch - 4)
  else if ch =? 62 then chr 43
  else if ch =? 63 then chr 47
  else chr 64.

(** The sextets of three octets, and of the one or two octets at the end. *)
Definition sextet1 (a : Ascii.ascii) : Ascii.ascii := EncodeByte (byte_shr (uchar a) 2).
Definition sextet2 (a b : Ascii.ascii) : Ascii.ascii :=
  EncodeByte (Z.lor (byte_shl (Z.land (uchar a) 3) 4) (byte_shr (uchar b) 4)).
Definition sextet3 (b c : Ascii.ascii) : Ascii.ascii :=
  EncodeByte (Z.lor (byte_shl (Z.land (uchar b) 15) 2) (byte_shr (uchar c) 6)).
Definition sextet4 (c : Ascii.ascii) : Ascii.ascii := EncodeByte (Z.land (uchar c) 63).
Definition sextet2_last (a : Ascii.ascii) : Ascii.ascii := EncodeByte (byte_shl (Z.land (uchar a) 3) 4).
Definition sextet3_last (b : Ascii.ascii) : Ascii.ascii := EncodeByte (byte_shl (Z.land (uchar b) 15) 2).

(** [for (Index = 0; Index < OctetTriplets; ++Index)]. *)
Fixpoint encode_loop (OctetTriplets InputOffset OutputOffset : nat) (inp out : bytes)
  : result (nat * nat * bytes) :=
  match OctetTriplets with
  | O => Ok (InputOffset, OutputOffset, out)
  | S n =>
      a ← at_ inp (InputOffset + 0);
      out ← set_at out (OutputOffset + 0) (sextet1 a);
      b ← at_ inp (InputOffset + 1);
      out ← set_at out (OutputOffset + 1) (sextet2 a b);
      c ← at_ inp (InputOffset + 2);
      out ← set_at out (OutputOffset + 2) (sextet3 b c);
      out ← set_at out (OutputOffset + 3) (sextet4 c);
      encode_loop n (InputOffset + 3) (OutputOffset + 4) inp out
  end.

Definition pad : Ascii.ascii := chr 61.

(** [Encode] and [EncodeString], which converts the string to bytes first. *)
Definition Encode (inp : bytes) : result bytes :=
  let size := Z.to_nat (CalculateEncodedSize (Z.of_nat (length inp))) in
  '(InputOffset, OutputOffset, out) ←
    encode_loop (length inp / 3) 0 0 inp (replicate size (chr 33));
  match (length inp mod 3)%nat with
  | 1%nat =>
      a ← at_ inp (InputOffset + 0);
      out ← set_at out (OutputOffset + 0) (sextet1 a);
      out ← set_at out (OutputOffset + 1) (sextet2_last a);
      out ← set_at out (OutputOffset + 2) pad;
      set_at out (OutputOffset + 3) pad
  | 2%nat =>
      a ← at_ inp (InputOffset + 0);
      out ← set_at out (OutputOffset + 0) (sextet1 a);
      b ← at_ inp (InputOffset + 1);
      out ← set_at out (OutputOffset + 1) (sextet2 a b);
      out ← set_at out (OutputOffset + 2) (sextet3_last b);
      set_at out (OutputOffset + 3) pad
  | _ => Ok out
  end.

(** ** The reference codec *)

Fixpoint encode_ref (l : bytes) : bytes :=
  match l with
  | a :: b :: c :: l' => [sextet1 a; sextet2 a b; sextet3 b c; sextet4 c] ++ encode_ref l'
  | [a; b] => [sextet1 a; sextet2 a b; sextet3_last b; pad]
  | [a] => [sextet1 a; sextet2_last a; pad; pad]
  | [] => []
  end.

(** The octets of every group of four characters. *)
Fixpoint octets_ref (s : bytes) : bytes :=
  match s with
  | a :: b :: c :: d :: s' => [octet1 a b; octet2 b c; octet3 c d] ++ octets_ref s'
  | _ => []
  end.

(** ** The decoder's loop is the reference decoder *)

Lemma octets_ref_app k p l :
  length p = (4 * k)%nat ->
  octets_ref (p ++ l) = octets_ref p ++ octets_ref l /\ length (octets_ref p) = (3 * k)%nat.
Proof.
  revert p. induction k as [|k IH]; intros p Hp.
  - by apply nil_length_inv in Hp as ->.
  - apply length_4 in Hp as (a & b & c & d & p' & -> & Hp'). simpl.
    destruct (IH p' Hp') as [-> ->]. split; [done|lia].
Qed.

Lemma insert_replicate_app {A} (o l : list A) a b n :
  set_at (o ++ l ++ replicate (S n) b) (length o + length l) a
  = Ok (o ++ (l ++ [a]) ++ replicate n b).
Proof.
  rewrite set_at_app by (rewrite length_app, length_replicate; lia). do 2 f_equal.
  rewrite insert_app_r_alt by lia. rewrite Nat.sub_diag, <- app_assoc. done.
Qed.

(** The three writes of one iteration. *)
Lemma decode_loop_step fuel size pre suf o m a b c d :
  (length o + 2 < size)%nat ->
  decode_loop (S fuel) (length o + 2) (length pre) (length o) size
    (pre ++ a :: b :: c :: d :: suf) (o ++ replicate (3 + m) NUL)
  = decode_loop fuel (length (o ++ [octet1 a b; octet2 b c; octet3 c d]) + 2)
      (length (pre ++ [a; b; c; d])) (length (o ++ [octet1 a b; octet2 b c; octet3 c d])) size
      ((pre ++ [a; b; c; d]) ++ suf) ((o ++ [octet1 a b; octet2 b c; octet3 c d]) ++ replicate m NUL).
Proof.
  intros Hlt. cbn [decode_loop]. rewrite (proj2 (Nat.ltb_lt _ _)) by lia.
  rewrite !at_app. cbn -[decode_loop replicate].
  pose proof (insert_replicate_app o [] (octet1 a b) NUL (2 + m)) as E1.
  pose proof (insert_replicate_app o [octet1 a b] (octet2 b c) NUL (1 + m)) as E2.
  pose proof (insert_replicate_app o [octet1 a b; octet2 b c] (octet3 c d) NUL m) as E3.
  cbn [app length plus] in E1, E2, E3. cbn [plus].
  rewrite E1. cbn -[decode_loop replicate]. rewrite E2. cbn -[decode_loop replicate]. rewrite E3.
  cbn -[decode_loop replicate]. rewrite !length_app, <- !app_assoc. simpl.
  by replace (length o + 3 + 2)%nat with (length o + 2 + 3)%nat by lia.
Qed.

Lemma decode_loop_ref q r fuel pre p suf o :
  length p = (4 * q)%nat -> (r < 3)%nat -> (q <= fuel)%nat ->
  decode_loop fuel (length o + 2) (length pre) (length o) (length o + (3 * q + r))
    (pre ++ p ++ suf) (o ++ replicate (3 * q + r) NUL)
  = Ok (length pre + 4 * q, length o + 3 * q, o ++ octets_ref p ++ replicate r NUL)%nat.
Proof.
  revert fuel pre p o. induction q as [|q IH]; intros fuel pre p o Hp Hr Hf.
  - apply nil_length_inv in Hp as ->. rewrite !Nat.mul_0_r, !Nat.add_0_r. simpl.
    destruct fuel as [|fuel]; simpl; by rewrite (proj2 (Nat.ltb_ge _ _)) by lia.
  - apply length_4 in Hp as (a & b & c & d & p' & -> & Hp').
    destruct fuel as [|fuel]; [lia|].
    replace (3 * S q + r)%nat with (3 + (3 * q + r))%nat by lia.
    cbn [app]. rewrite decode_loop_step by lia.
    pose proof (IH fuel (pre ++ [a; b; c; d]) p' (o ++ [octet1 a b; octet2 b c; octet3 c d])
                  Hp' Hr ltac:(lia)) as E.
    rewrite !length_app in *. cbn [length] in *.
    replace (length o + (3 + (3 * q + r)))%nat with (length o + 3 + (3 * q + r))%nat by lia.
    rewrite E. cbn [octets_ref app]. rewrite <- !app_assoc. cbn [app].
    do 2 f_equal. f_equal; lia.
Qed.

Lemma span_length_le p l : (length (span p l) <= length l)%nat.
Proof. induction l as [|a l IH]; simpl; [lia|]. destruct (p a); simpl; lia. Qed.

Lemma CalculateDecodedSize_fits s n :
  CalculateDecodedSize s = Ok n ->
  exists k, length s = (4 * k)%nat /\ (n <= 3 * k)%nat.
Proof.
  unfold CalculateDecodedSize. case_bool_decide as E0.
  { intros; simplify_eq. exists 0%nat. split; [done|lia]. }
  destruct (length s <? 4)%nat; [done|].
  destruct (length s mod 4 =? 0)%nat eqn:E4; cbn [negb]; [|done]. bool_to_prop.
  intros E. exists (length s / 4)%nat. pose proof (Nat.div_mod_eq (length s) 4) as Hd.
  rewrite E4 in Hd. split; [lia|]. pose proof (span_length_le decodable s) as Hle.
  pose proof (Nat.div_mod_eq (length (span decodable s)) 4).
  pose proof (Nat.mod_upper_bound (length (span decodable s)) 4 ltac:(lia)).
  destruct (length (span decodable s) mod 4)%nat as [|[|[|[|]]]]; apply (inj Ok) in E; subst n; lia.
Qed.

(** [Decode]'s loop over preallocated storage with its three-way tail computes
    the reference decoder cut at the calculated size. *)
Lemma Decode_is_ref s n :
  CalculateDecodedSize s = Ok n ->
  Decode s = Ok (take n (octets_ref s)) /\ (n <= length (octets_ref s))%nat.
Proof.
  intros Hn. destruct (CalculateDecodedSize_fits s n Hn) as (k & Hk & Hnk).
  destruct (octets_ref_app k s [] Hk) as [_ Hlen]. split; [|lia].
  unfold Decode. rewrite Hn. cbn [mbind result_bind].
  pose proof (Nat.div_mod_eq n 3) as Hd. pose proof (Nat.mod_upper_bound n 3 ltac:(lia)) as Hm.
  set (q := (n / 3)%nat) in *. set (r := (n mod 3)%nat) in *.
  assert (exists p t, s = p ++ t /\ length p = (4 * q)%nat) as (p & t & -> & Hp).
  { exists (take (4 * q) s), (drop (4 * q) s). rewrite take_drop, length_take. split; [done|lia]. }
  destruct (octets_ref_app q p t Hp) as [Eo Elo].
  pose proof (decode_loop_ref q r n [] p t [] Hp Hm ltac:(lia)) as El.
  cbn [length app plus] in El. rewrite <- Hd in El. rewrite El. cbn [mbind result_bind].
  rewrite Eo, Hd, take_app_add' by lia. rewrite length_app in Hk.
  assert (length t = (4 * (k - q))%nat) as Ht by lia.
  destruct r as [|[|[|r']]]; [|..|lia].
  - done.
  - replace (k - q)%nat with (S (k - q - 1)) in Ht by lia.
    apply length_4 in Ht as (a & b & c & d & t' & -> & _).
    rewrite <- Hp, <- Elo, !at_app. cbn -[set_at].
    rewrite set_at_app by (simpl; lia). done.
  - replace (k - q)%nat with (S (k - q - 1)) in Ht by lia.
    apply length_4 in Ht as (a & b & c & d & t' & -> & _).
    rewrite <- Hp, <- Elo, !at_app. cbn -[set_at].
    rewrite set_at_app by (simpl; lia). cbn -[set_at].
    rewrite set_at_app by (simpl; lia). done.
Qed.

(** ** The encoder's loop is the reference encoder *)

Lemma land_not3 x : 0 <= x < 2 ^ 64 -> Z.land x (wrapu 64 (Z.lnot 3)) = x - x mod 4.
Proof.
  intros Hx. change (wrapu 64 (Z.lnot 3)) with (Z.land (Z.ones 64) (Z.lnot (Z.ones 2))).
  rewrite Z.land_assoc, Z.land_ones, Z.mod_small by lia.
  rewrite <- Z.ldiff_land, Z.ldiff_ones_r, Z.shiftl_mul_pow2, Z.shiftr_div_pow2 by lia.
  pose proof (Z.div_mod x 4). change (2 ^ 2) with 4. lia.
Qed.

(** The bit trick rounds up to whole groups, while four times the input does
    not wrap around [size_t]. *)
Lemma CalculateEncodedSize_groups n :
  0 <= n < 2 ^ 62 -> CalculateEncodedSize n = 4 * ((n + 2) / 3).
Proof.
  intros Hn. unfold CalculateEncodedSize.
  rewrite (wrapu_small 64 (4 * n)) by lia.
  assert (0 <= 4 * n / 3 < 2 ^ 63) by (split; [apply Z.div_pos; lia|apply Z.div_lt_upper_bound; lia]).
  rewrite wrapu_small by lia. rewrite land_not3 by lia.
  Z.div_mod_to_equations. lia.
Qed.

Lemma encode_loop_ref q r pre p suf o :
  length p = (3 * q)%nat ->
  encode_loop q (length pre) (length o) (pre ++ p ++ suf) (o ++ replicate (4 * q + r) (chr 33))
  = Ok (length pre + 3 * q, length o + 4 * q, o ++ encode_ref p ++ replicate r (chr 33))%nat.
Proof.
  revert pre p o. induction q as [|q IH]; intros pre p o Hp.
  - apply nil_length_inv in Hp as ->. by rewrite !Nat.mul_0_r, !Nat.add_0_r.
  - apply length_3 in Hp as (a & b & c & p' & -> & Hp').
    replace (4 * S q + r)%nat with (4 + (4 * q + r))%nat by lia. cbn [app encode_loop].
    rewrite !at_app. cbn [at_ lookup list_lookup mbind result_bind].
    remember (4 * q + r)%nat as m eqn:Em.
    pose proof (insert_replicate_app o [] (sextet1 a) (chr 33) (3 + m)) as E1.
    pose proof (insert_replicate_app o [sextet1 a] (sextet2 a b) (chr 33) (2 + m)) as E2.
    pose proof (insert_replicate_app o [sextet1 a; sextet2 a b] (sextet3 b c) (chr 33) (1 + m)) as E3.
    pose proof (insert_replicate_app o [sextet1 a; sextet2 a b; sextet3 b c] (sextet4 c) (chr 33) m) as E4.
    cbn [app length plus] in E1, E2, E3, E4. cbn [plus].
    rewrite E1. cbn [mbind result_bind]. rewrite E2. cbn [mbind result_bind].
    rewrite E3. cbn [mbind result_bind]. rewrite E4. cbn [mbind result_bind].
    pose proof (IH (pre ++ [a; b; c]) p' (o ++ [sextet1 a; sextet2 a b; sextet3 b c; sextet4 c]) Hp') as E.
    rewrite !length_app, <- !app_assoc in E. cbn [length app] in E.
    rewrite E. do 2 f_equal. f_equal; lia.
Qed.

Lemma encode_ref_app k p l :
  length p = (3 * k)%nat ->
  encode_ref (p ++ l) = encode_ref p ++ encode_ref l /\ length (encode_ref p) = (4 * k)%nat.
Proof.
  revert p. induction k as [|k IH]; intros p Hp.
  - by apply nil_length_inv in Hp as ->.
  - apply length_3 in Hp as (a & b & c & p' & -> & Hp'). simpl.
    destruct (IH p' Hp') as [-> ->]. split; [done|lia].
Qed.

(** The tail of [Encode], on the one or two octets that are left. *)
Lemma Encode_is_ref l : Z.of_nat (length l) < 2 ^ 62 -> Encode l = Ok (encode_ref l).
Proof.
  intros Hn. unfold Encode. rewrite CalculateEncodedSize_groups by lia.
  pose proof (Nat.div_mod_eq (length l) 3) as Hd.
  pose proof (Nat.mod_upper_bound (length l) 3 ltac:(lia)) as Hm.
  remember (length l / 3)%nat as q. remember (length l mod 3)%nat as r.
  assert (exists p t, l = p ++ t /\ length p = (3 * q)%nat) as (p & t & El & Hp).
  { exists (take (3 * q) l), (drop (3 * q) l). rewrite take_drop, length_take. split; [done|lia]. }
  destruct (encode_ref_app q p t Hp) as [Eo Elo].
  assert (length t = r) as Ht by (rewrite El, length_app in Hd; lia).
  replace (Z.to_nat (4 * ((Z.of_nat (length l) + 2) / 3)))
    with (4 * q + match r with O => 0 | _ => 4 end)%nat by (destruct r; Z.div_mod_to_equations; lia).
  pose proof (encode_loop_ref q (match r with O => 0 | _ => 4 end)%nat [] p t [] Hp) as E.
  cbn [length app plus] in E. rewrite El, E, Eo. cbn [mbind result_bind].
  rewrite <- Elo, <- Hp. clear - Ht Hm.
  destruct t as [|a [|b [|c t]]]; simpl in Ht; subst r; [..|lia]; cbn -[set_at replicate at_].
  - done.
  - rewrite !at_app. cbn. by repeat (rewrite set_at_app by (simpl; lia); cbn -[set_at]).
  - rewrite !at_app. cbn. by repeat (rewrite set_at_app by (simpl; lia); cbn -[set_at]).
Qed.

(** ** The round trip *)

Lemma DecodeCharacter_EncodeByte x : 0 <= x < 64 -> DecodeCharacter (EncodeByte x) = x.
Proof.
  intros Hx. assert (forallb (fun n => DecodeCharacter (EncodeByte (Z.of_nat n)) =? Z.of_nat n) (seq 0 64) = true)
    as H by reflexivity.
  rewrite forallb_forall in H. specialize (H (Z.to_nat x)). rewrite Z2Nat.id in H by lia.
  apply Z.eqb_eq, H, in_seq. lia.
Qed.

Lemma forall_bytes2 (p : Ascii.ascii -> Ascii.ascii -> bool) :
  forallb (fun a => forallb (p a) all_bytes) all_bytes = true -> forall a b, p a b = true.
Proof. intros H a b. apply (forall_bytes (p a)). exact (forall_bytes (fun a => forallb (p a) all_bytes) H a). Qed.

(** The sextets as arithmetic. *)
Lemma sextets a b :
  byte_shr (uchar a) 2 = uchar a / 4
  /\ Z.lor (byte_shl (Z.land (uchar a) 3) 4) (byte_shr (uchar b) 4) = uchar a mod 4 * 16 + uchar b / 16
  /\ Z.lor (byte_shl (Z.land (uchar a) 15) 2) (byte_shr (uchar b) 6) = uchar a mod 16 * 4 + uchar b / 64
  /\ Z.land (uchar a) 63 = uchar a mod 64
  /\ byte_shl (Z.land (uchar a) 3) 4 = uchar a mod 4 * 16
  /\ byte_shl (Z.land (uchar a) 15) 2 = uchar a mod 16 * 4.
Proof.
  pose proof (forall_bytes2 (fun a b =>
    (byte_shr (uchar a) 2 =? uchar a / 4)
    && (Z.lor (byte_shl (Z.land (uchar a) 3) 4) (byte_shr (uchar b) 4) =? uchar a mod 4 * 16 + uchar b / 16)
    && (Z.lor (byte_shl (Z.land (uchar a) 15) 2) (byte_shr (uchar b) 6) =? uchar a mod 16 * 4 + uchar b / 64)
    && (Z.land (uchar a) 63 =? uchar a mod 64)
    && (byte_shl (Z.land (uchar a) 3) 4 =? uchar a mod 4 * 16)
    && (byte_shl (Z.land (uchar a) 15) 2 =? uchar a mod 16 * 4)) ltac:(vm_compute; reflexivity) a b) as H.
  cbn beta in H. bool_to_prop. split_and!; assumption.
Qed.

(** The octets as arithmetic. *)
Lemma octets x y :
  0 <= x < 64 -> 0 <= y < 64 ->
  Z.lor (byte_shl x 2) (byte_shr y 4) = x * 4 + y / 16
  /\ chr (Z.lor (byte_shl x 4) (byte_shr y 2)) = chr (x mod 16 * 16 + y / 4)
  /\ chr (Z.lor (byte_shl x 6) y) = chr (x mod 4 * 64 + y).
Proof.
  intros Hx Hy.
  assert (forallb (fun n => forallb (fun m =>
    let x := Z.of_nat n in let y := Z.of_nat m in
    (Z.lor (byte_shl x 2) (byte_shr y 4) =? x * 4 + y / 16)
    && bool_decide (chr (Z.lor (byte_shl x 4) (byte_shr y 2)) = chr (x mod 16 * 16 + y / 4))
    && bool_decide (chr (Z.lor (byte_shl x 6) y) = chr (x mod 4 * 64 + y))) (seq 0 64)) (seq 0 64) = true)
    as H by (vm_compute; reflexivity).
  rewrite forallb_forall in H. specialize (H (Z.to_nat x) ltac:(apply in_seq; lia)).
  rewrite forallb_forall in H. specialize (H (Z.to_nat y) ltac:(apply in_seq; lia)).
  cbv zeta in H. rewrite !Z2Nat.id in H by lia. bool_to_prop.
  split_and!; [done|by eapply bool_decide_eq_true_1..].
Qed.

Lemma uchar_arith a b :
  0 <= uchar a / 4 < 64 /\ 0 <= uchar a mod 4 * 16 + uchar b / 16 < 64
  /\ 0 <= uchar a mod 16 * 4 + uchar b / 64 < 64 /\ 0 <= uchar a mod 64 < 64
  /\ 0 <= uchar a mod 4 * 16 < 64 /\ 0 <= uchar a mod 16 * 4 < 64.
Proof. pose proof (uchar_range a). pose proof (uchar_range b). split_and!; Z.div_mod_to_equations; lia. Qed.

Lemma octet1_sextet1 a y c :
  c = EncodeByte y -> 0 <= y < 64 -> y / 16 = uchar a mod 4 -> octet1 (sextet1 a) c = a.
Proof.
  intros -> Hy E. destruct (sextets a a) as (Ea & _). destruct (uchar_arith a a) as (Ha & _).
  unfold octet1, sextet1. rewrite Ea, !DecodeCharacter_EncodeByte by done.
  destruct (octets (uchar a / 4) y) as (-> & _); [done..|].
  transitivity (chr (uchar a)); [f_equal|apply chr_uchar]. rewrite E. pose proof (Z.div_mod (uchar a) 4). lia.
Qed.

Lemma octet2_sextet2 a b y c :
  c = EncodeByte y -> 0 <= y < 64 -> y / 4 = uchar b mod 16 -> octet2 (sextet2 a b) c = b.
Proof.
  intros -> Hy E. destruct (sextets a b) as (_ & Ea & _). destruct (uchar_arith a b) as (_ & Ha & _).
  unfold octet2, sextet2. rewrite Ea, !DecodeCharacter_EncodeByte by done.
  destruct (octets (uchar a mod 4 * 16 + uchar b / 16) y) as (_ & -> & _); [done..|].
  transitivity (chr (uchar b)); [f_equal|apply chr_uchar]. rewrite E. pose proof (uchar_range a). pose proof (uchar_range b).
  Z.div_mod_to_equations. lia.
Qed.

Lemma octet3_sextet3 b c : octet3 (sextet3 b c) (sextet4 c) = c.
Proof.
  destruct (sextets b c) as (_ & _ & Eb & _), (sextets c c) as (_ & _ & _ & Ec & _).
  destruct (uchar_arith b c) as (_ & _ & Hb & _), (uchar_arith c c) as (_ & _ & _ & Hc & _).
  unfold octet3, sextet3, sextet4. rewrite Eb, Ec, !DecodeCharacter_EncodeByte by done.
  destruct (octets (uchar b mod 16 * 4 + uchar c / 64) (uchar c mod 64)) as (_ & _ & ->); [done..|].
  transitivity (chr (uchar c)); [f_equal|apply chr_uchar]. pose proof (uchar_range c).
  Z.div_mod_to_equations. lia.
Qed.

Lemma group1 a b : octet1 (sextet1 a) (sextet2 a b) = a.
Proof.
  destruct (sextets a b) as (_ & Ea & _). destruct (uchar_arith a b) as (_ & Ha & _).
  eapply octet1_sextet1; [unfold sextet2; by rewrite Ea|done|].
  pose proof (uchar_range b). Z.div_mod_to_equations. lia.
Qed.

Lemma group1_last a : octet1 (sextet1 a) (sextet2_last a) = a.
Proof.
  destruct (sextets a a) as (_ & _ & _ & _ & Ea & _). destruct (uchar_arith a a) as (_ & _ & _ & _ & Ha & _).
  eapply octet1_sextet1; [unfold sextet2_last; by rewrite Ea|done|]. Z.div_mod_to_equations. lia.
Qed.

Lemma group2 a b c : octet2 (sextet2 a b) (sextet3 b c) = b.
Proof.
  destruct (sextets b c) as (_ & _ & Ea & _). destruct (uchar_arith b c) as (_ & _ & Ha & _).
  eapply octet2_sextet2; [unfold sextet3; by rewrite Ea|done|].
  pose proof (uchar_range c). Z.div_mod_to_equations. lia.
Qed.

Lemma group2_last a b : octet2 (sextet2 a b) (sextet3_last b) = b.
Proof.
  destruct (sextets b b) as (_ & _ & _ & _ & _ & Ea). destruct (uchar_arith b b) as (_ & _ & _ & _ & _ & Ha).
  eapply octet2_sextet2; [unfold sextet3_last; by rewrite Ea|done|]. Z.div_mod_to_equations. lia.
Qed.

Lemma octets_of_encode l : take (length l) (octets_ref (encode_ref l)) = l.
Proof.
  induction l as [|a|a b|a b c l IH] using list_ind3; [done|..]; cbn.
  - by rewrite group1_last.
  - by rewrite group1, group2_last.
  - by rewrite group1, group2, octet3_sextet3, IH.
Qed.

Lemma EncodeByte_decodable x : 0 <= x < 64 -> decodable (EncodeByte x) = true.
Proof. intros. unfold decodable. rewrite DecodeCharacter_EncodeByte by done. apply Z.ltb_lt. lia. Qed.

(** From here on [lia] understands division by constants. *)
#[local] Ltac Zify.zify_post_hook ::= Z.div_mod_to_equations.

Lemma encode_ref_decodable l :
  length (span decodable (encode_ref l)) = ((4 * length l + 2) / 3)%nat
  /\ length (encode_ref l) = (4 * ((length l + 2) / 3))%nat.
Proof.
  assert (forall a b, decodable (sextet1 a) = true /\ decodable (sextet2 a b) = true
    /\ decodable (sextet3 a b) = true /\ decodable (sextet4 a) = true
    /\ decodable (sextet2_last a) = true /\ decodable (sextet3_last a) = true) as H.
  { intros a b. unfold sextet1, sextet2, sextet3, sextet4, sextet2_last, sextet3_last.
    destruct (sextets a b) as (-> & -> & -> & -> & -> & ->).
    pose proof (uchar_arith a b). split_and!; apply EncodeByte_decodable; tauto. }
  induction l as [|a|a b|a b c l [IH1 IH2]] using list_ind3; [done|..]; cbn [encode_ref app span length].
  - destruct (H a a) as (-> & _ & _ & _ & -> & _). done.
  - destruct (H a b) as (-> & -> & _), (H b b) as (_ & _ & _ & _ & _ & ->). done.
  - destruct (H a b) as (-> & -> & _), (H b c) as (_ & _ & -> & _), (H c c) as (_ & _ & _ & -> & _).
    cbn [length]. rewrite IH1, IH2. clear; split; lia.
Qed.

Lemma CalculateDecodedSize_encode l : CalculateDecodedSize (encode_ref l) = Ok (length l).
Proof.
  destruct (encode_ref_decodable l) as [Hs Hl]. unfold CalculateDecodedSize.
  destruct l as [|a l]; [done|]. case_bool_decide as E.
  { rewrite E in Hl. cbn [length] in Hl. exfalso. lia. }
  cbn [length] in *. remember (S (length l)) as n.
  rewrite (proj2 (Nat.ltb_ge _ _)) by lia.
  rewrite (proj2 (Nat.eqb_eq _ _)) by (rewrite Hl; lia). cbn [negb]. rewrite Hs.
  assert (exists q, n = 3 * q \/ n = 3 * q + 1 \/ n = 3 * q + 2)%nat as (q & Hn).
  { exists (n / 3)%nat. pose proof (Nat.div_mod_eq n 3). pose proof (Nat.mod_upper_bound n 3). lia. }
  destruct Hn as [Hn | Hn]; [|destruct Hn as [Hn | Hn]].
  - replace ((4 * n + 2) / 3)%nat with (4 * q)%nat by lia.
    replace (4 * q mod 4)%nat with 0%nat by lia. f_equal. lia.
  - replace ((4 * n + 2) / 3)%nat with (4 * q + 2)%nat by lia.
    replace ((4 * q + 2) mod 4)%nat with 2%nat by lia. f_equal. lia.
  - replace ((4 * n + 2) / 3)%nat with (4 * q + 3)%nat by lia.
    replace ((4 * q + 3) mod 4)%nat with 3%nat by lia. f_equal. lia.
Qed.

Lemma Decode_encode_ref l : Decode (encode_ref l) = Ok l.
Proof.
  destruct (Decode_is_ref _ _ (CalculateDecodedSize_encode l)) as [-> _]. by rewrite octets_of_encode.
Qed.

(** ** Properties *)

(** Decoding an encoding gives the bytes back, for every input whose encoded
    size does not wrap around [size_t]. *)
Theorem base64_roundtrip l :
  Z.of_nat (length l) < 2 ^ 62 -> exists e, Encode l = Ok e /\ Decode e = Ok l.
Proof. intros Hl. exists (encode_ref l). split; [by apply Encode_is_ref|apply Decode_encode_ref]. Qed.

(** [Decode] on any input at all either reports the bad length
    [CalculateDecodedSize] found or yields exactly the reference decoding cut at
    the calculated size: none of its [at()] accesses can be out of range. *)
Theorem Decode_total s :
  match CalculateDecodedSize s with
  | Ok n => Decode s = Ok (take n (octets_ref s)) /\ (n <= length (octets_ref s))%nat
  | Throw e => Decode s = Throw e
      /\ (length s < 4 \/ length s mod 4 <> 0)%nat /\ exists w, e = RuntimeError w
  | UB | OutOfFuel => False
  end.
Proof.
  destruct (CalculateDecodedSize s) as [n|e| |] eqn:E.
  - by apply Decode_is_ref.
  - split; [unfold Decode; by rewrite E|]. revert E. unfold CalculateDecodedSize.
    case_bool_decide; [done|]. destruct (length s <? 4)%nat eqn:E1; bool_to_prop.
    { intros [= <-]. split; [by left|eauto]. }
    destruct (length s mod 4 =? 0)%nat eqn:E2; cbn [negb]; bool_to_prop.
    + by repeat case_match.
    + intros [= <-]. split; [by right|eauto].
  - revert E. unfold CalculateDecodedSize. by repeat case_match.
  - revert E. unfold CalculateDecodedSize. by repeat case_match.
Qed.

(** ** Witnesses *)

Lemma base64_roundtrip_witness :
  Z.of_nat (length (B "Aladdin:open sesame")) < 2 ^ 62
  /\ exists e, Encode (B "Aladdin:open sesame") = Ok e /\ Decode e = Ok (B "Aladdin:open sesame").
Proof. split; [vm_compute; reflexivity|]. apply base64_roundtrip. vm_compute. reflexivity. Defined.

Example Encode_example : Encode (B "Aladdin:open sesame") = Ok (B "QWxhZGRpbjpvcGVuIHNlc2FtZQ==").
Proof. vm_compute. reflexivity. Qed.
