(* ===== verification/HttpDefs.v ===== *)
(** * Protocol definitions: [include/pistache/http_defs.h], [src/common/http_defs.cc]

    Methods, status codes and versions with their texts, the table the request
    parser looks methods up in, [CacheDirective] and [FullDate].  The date
    library the repository vendors ([third-party/date]) is the class [DateLib]:
    its parser and printer are looked at only through it. *)

From S2P Require Import Prelude Cxx.

Local Open Scope Z_scope.

(** ** Methods *)

Module Method.
Inductive t : Set :=
  | Options | Get | Post | Head | Put | Patch | Delete | Trace | Connect | Acl
  | BaselineControl | Bind | Checkin | Checkout | Copy | Label | Link | Lock | Merge
  | Mkactivity | Mkcalendar | Mkcol | Mkredirectref | Mkworkspace | Move | Orderpatch | Pri
  | Propfind | Proppatch | Rebind | Report | Search | Unbind | Uncheckout | Unlink | Unlock
  | Update | Updateredirectref | VersionControl.

Definition all : list t :=
  [Options; Get; Post; Head; Put; Patch; Delete; Trace; Connect; Acl; BaselineControl;
   Bind; Checkin; Checkout; Copy; Label; Link; Lock; Merge; Mkactivity; Mkcalendar; Mkcol;
   Mkredirectref; Mkworkspace; Move; Orderpatch; Pri; Propfind; Proppatch; Rebind; Report;
   Search; Unbind; Uncheckout; Unlink; Unlock; Update; Updateredirectref; VersionControl].

(** The position of the enumerator, its value in C++. *)
Definition value (m : t) : nat :=
  match m with
  | Options => 0 | Get => 1 | Post => 2 | Head => 3 | Put => 4 | Patch => 5 | Delete => 6
  | Trace => 7 | Connect => 8 | Acl => 9 | BaselineControl => 10 | Bind => 11
  | Checkin => 12 | Checkout => 13 | Copy => 14 | Label => 15 | Link => 16 | Lock => 17
  | Merge => 18 | Mkactivity => 19 | Mkcalendar => 20 | Mkcol => 21 | Mkredirectref => 22
  | Mkworkspace => 23 | Move => 24 | Orderpatch => 25 | Pri => 26 | Propfind => 27
  | Proppatch => 28 | Rebind => 29 | Report => 30 | Search => 31 | Unbind => 32
  | Uncheckout => 33 | Unlink => 34 | Unlock => 35 | Update => 36 | Updateredirectref => 37
  | VersionControl => 38
  end.

Definition str (m : t) : string :=
  match m with
  | Options => "OPTIONS"
  | Get => "GET"
  | Post => "POST"
  | Head => "HEAD"
  | Put => "PUT"
  | Patch => "PATCH"
  | Delete => "DELETE"
  | Trace => "TRACE"
  | Connect => "CONNECT"
  | Acl => "ACL"
  | BaselineControl => "BASELINE-CONTROL"
  | Bind => "BIND"
  | Checkin => "CHECKIN"
  | Checkout => "CHECKOUT"
  | Copy => "COPY"
  | Label => "LABEL"
  | Link => "LINK"
  | Lock => "LOCK"
  | Merge => "MERGE"
  | Mkactivity => "MKACTIVITY"
  | Mkcalendar => "MKCALENDAR"
  | Mkcol => "MKCOL"
  | Mkredirectref => "MKREDIRECTREF"
  | Mkworkspace => "MKWORKSPACE"
  | Move => "MOVE"
  | Orderpatch => "ORDERPATCH"
  | Pri => "PRI"
  | Propfind => "PROPFIND"
  | Proppatch => "PROPPATCH"
  | Rebind => "REBIND"
  | Report => "REPORT"
  | Search => "SEARCH"
  | Unbind => "UNBIND"
  | Uncheckout => "UNCHECKOUT"
  | Unlink => "UNLINK"
  | Unlock => "UNLOCK"
  | Update => "UPDATE"
  | Updateredirectref => "UPDATEREDIRECTREF"
  | VersionControl => "VERSION-CONTROL"
  end.

Lemma all_lookup m : all !! value m = Some m.
Proof. by destruct m. Qed.

#[global] Instance value_inj : Inj (=) (=) value.
Proof. intros m n E. pose proof (all_lookup m) as Em. rewrite E, all_lookup in Em. by simplify_eq. Qed.

#[global] Instance eq_dec : EqDecision t.
Proof. intros m n. destruct (decide (value m = value n)) as [E|E]; [left; by apply (inj value)|right; by intros ->]. Defined.

#[global] Instance countable : Countable t := inj_countable value (fun n => all !! n) all_lookup.
End Method.

Definition methodString (m : Method.t) : bytes := B (Method.str m).

(** [httpMethods] of [src/common/http.cc], filled from the same macro. *)
Definition httpMethods : list (bytes * Method.t) := map (fun m => (methodString m, m)) Method.all.

Fixpoint lookup_text {A} (s : bytes) (l : list (bytes * A)) : option A :=
  match l with
  | [] => None
  | (k, a) :: l' => if decide (k = s) then Some a else lookup_text s l'
  end.

Definition find_method (s : bytes) : option Method.t := lookup_text s httpMethods.

(** ** Status codes *)

Module Code.
Inductive t : Set :=
  | Continue | Switching_Protocols | Processing | Early_Hints | Ok | Created | Accepted
  | NonAuthoritative_Information | No_Content | Reset_Content | Partial_Content
  | MultiStatus | Already_Reported | IM_Used | Multiple_Choices | Moved_Permanently | Found
  | See_Other | Not_Modified | Use_Proxy | Temporary_Redirect | Permanent_Redirect
  | Bad_Request | Unauthorized | Payment_Required | Forbidden | Not_Found
  | Method_Not_Allowed | Not_Acceptable | Proxy_Authentication_Required | Request_Timeout
  | Conflict | Gone | Length_Required | Precondition_Failed | Request_Entity_Too_Large
  | RequestURI_Too_Long | Unsupported_Media_Type | Requested_Range_Not_Satisfiable
  | Expectation_Failed | I_m_a_teapot | Misdirected_Request | Unprocessable_Entity | Locked
  | Failed_Dependency | Upgrade_Required | Precondition_Required | Too_Many_Requests
  | Request_Header_Fields_Too_Large | Connection_Closed_Without_Response
  | Unavailable_For_Legal_Reasons | Client_Closed_Request | Internal_Server_Error
  | Not_Implemented | Bad_Gateway | Service_Unavailable | Gateway_Timeout
  | HTTP_Version_Not_Supported | Variant_Also_Negotiates | Insufficient_Storage
  | Loop_Detected | Not_Extended | Network_Authentication_Required
  | Network_Connect_Timeout_Error.

(** The enumerator's value: what [static_cast<int>] yields. *)
Definition value (c : t) : Z :=
  match c with
  | Continue => 100 | Switching_Protocols => 101 | Processing => 102 | Early_Hints => 103
  | Ok => 200 | Created => 201 | Accepted => 202 | NonAuthoritative_Information => 203
  | No_Content => 204 | Reset_Content => 205 | Partial_Content => 206 | MultiStatus => 207
  | Already_Reported => 208 | IM_Used => 226 | Multiple_Choices => 300
  | Moved_Permanently => 301 | Found => 302 | See_Other => 303 | Not_Modified => 304
  | Use_Proxy => 305 | Temporary_Redirect => 307 | Permanent_Redirect => 308
  | Bad_Request => 400 | Unauthorized => 401 | Payment_Required => 402 | Forbidden => 403
  | Not_Found => 404 | Method_Not_Allowed => 405 | Not_Acceptable => 406
  | Proxy_Authentication_Required => 407 | Request_Timeout => 408 | Conflict => 409
  | Gone => 410 | Length_Required => 411 | Precondition_Failed => 412
  | Request_Entity_Too_Large => 413 | RequestURI_Too_Long => 414
  | Unsupported_Media_Type => 415 | Requested_Range_Not_Satisfiable => 416
  | Expectation_Failed => 417 | I_m_a_teapot => 418 | Misdirected_Request => 421
  | Unprocessable_Entity => 422 | Locked => 423 | Failed_Dependency => 424
  | Upgrade_Required => 426 | Precondition_Required => 428 | Too_Many_Requests => 429
  | Request_Header_Fields_Too_Large => 431 | Connection_Closed_Without_Response => 444
  | Unavailable_For_Legal_Reasons => 451 | Client_Closed_Request => 499
  | Internal_Server_Error => 500 | Not_Implemented => 501 | Bad_Gateway => 502
  | Service_Unavailable => 503 | Gateway_Timeout => 504 | HTTP_Version_Not_Supported => 505
  | Variant_Also_Negotiates => 506 | Insufficient_Storage => 507 | Loop_Detected => 508
  | Not_Extended => 510 | Network_Authentication_Required => 511
  | Network_Connect_Timeout_Error => 599
  end.

Definition str (c : t) : string :=
  match c with
  | Continue => "Continue"
  | Switching_Protocols => "Switching Protocols"
  | Processing => "Processing"
  | Early_Hints => "Early Hints"
  | Ok => "OK"
  | Created => "Created"
  | Accepted => "Accepted"
  | NonAuthoritative_Information => "Non-Authoritative Information"
  | No_Content => "No Content"
  | Reset_Content => "Reset Content"
  | Partial_Content => "Partial Content"
  | MultiStatus => "Multi-Status"
  | Already_Reported => "Already Reported"
  | IM_Used => "IM Used"
  | Multiple_Choices => "Multiple Choices"
  | Moved_Permanently => "Moved Permanently"
  | Found => "Found"
  | See_Other => "See Other"
  | Not_Modified => "Not Modified"
  | Use_Proxy => "Use Proxy"
  | Temporary_Redirect => "Temporary Redirect"
  | Permanent_Redirect => "Permanent Redirect"
  | Bad_Request => "Bad Request"
  | Unauthorized => "Unauthorized"
  | Payment_Required => "Payment Required"
  | Forbidden => "Forbidden"
  | Not_Found => "Not Found"
  | Method_Not_Allowed => "Method Not Allowed"
  | Not_Acceptable => "Not Acceptable"
  | Proxy_Authentication_Required => "Proxy Authentication Required"
  | Request_Timeout => "Request Timeout"
  | Conflict => "Conflict"
  | Gone => "Gone"
  | Length_Required => "Length Required"
  | Precondition_Failed => "Precondition Failed"
  | Request_Entity_Too_Large => "Request Entity Too Large"
  | RequestURI_Too_Long => "Request-URI Too Long"
  | Unsupported_Media_Type => "Unsupported Media Type"
  | Requested_Range_Not_Satisfiable => "Requested Range Not Satisfiable"
  | Expectation_Failed => "Expectation Failed"
  | I_m_a_teapot => "I'm a teapot"
  | Misdirected_Request => "Misdirected Request"
  | Unprocessable_Entity => "Unprocessable Entity"
  | Locked => "Locked"
  | Failed_Dependency => "Failed Dependency"
  | Upgrade_Required => "Upgrade Required"
  | Precondition_Required => "Precondition Required"
  | Too_Many_Requests => "Too Many Requests"
  | Request_Header_Fields_Too_Large => "Request Header Fields Too Large"
  | Connection_Closed_Without_Response => "Connection Closed Without Response"
  | Unavailable_For_Legal_Reasons => "Unavailable For Legal Reasons"
  | Client_Closed_Request => "Client Closed Request"
  | Internal_Server_Error => "Internal Server Error"
  | Not_Implemented => "Not Implemented"
  | Bad_Gateway => "Bad Gateway"
  | Service_Unavailable => "Service Unavailable"
  | Gateway_Timeout => "Gateway Timeout"
  | HTTP_Version_Not_Supported => "HTTP Version Not Supported"
  | Variant_Also_Negotiates => "Variant Also Negotiates"
  | Insufficient_Storage => "Insufficient Storage"
  | Loop_Detected => "Loop Detected"
  | Not_Extended => "Not Extended"
  | Network_Authentication_Required => "Network Authentication Required"
  | Network_Connect_Timeout_Error => "Network Connect Timeout Error"
  end.

Definition all : list t :=
  [Continue; Switching_Protocols; Processing; Early_Hints; Ok; Created; Accepted;
   NonAuthoritative_Information; No_Content; Reset_Content; Partial_Content; MultiStatus;
   Already_Reported; IM_Used; Multiple_Choices; Moved_Permanently; Found; See_Other;
   Not_Modified; Use_Proxy; Temporary_Redirect; Permanent_Redirect; Bad_Request;
   Unauthorized; Payment_Required; Forbidden; Not_Found; Method_Not_Allowed;
   Not_Acceptable; Proxy_Authentication_Required; Request_Timeout; Conflict; Gone;
   Length_Required; Precondition_Failed; Request_Entity_Too_Large; RequestURI_Too_Long;
   Unsupported_Media_Type; Requested_Range_Not_Satisfiable; Expectation_Failed;
   I_m_a_teapot; Misdirected_Request; Unprocessable_Entity; Locked; Failed_Dependency;
   Upgrade_Required; Precondition_Required; Too_Many_Requests;
   Request_Header_Fields_Too_Large; Connection_Closed_Without_Response;
   Unavailable_For_Legal_Reasons; Client_Closed_Request; Internal_Server_Error;
   Not_Implemented; Bad_Gateway; Service_Unavailable; Gateway_Timeout;
   HTTP_Version_Not_Supported; Variant_Also_Negotiates; Insufficient_Storage;
   Loop_Detected; Not_Extended; Network_Authentication_Required;
   Network_Connect_Timeout_Error].

(** The enumerator of a value; C++ lets an enumeration object hold any [int],
    so a code is a [Z] wherever the program casts one. *)
Definition of_value (z : Z) : option t := List.find (fun c => value c =? z) all.

Lemma of_value_value c : of_value (value c) = Some c.
Proof. by destruct c. Qed.

#[global] Instance value_inj : Inj (=) (=) value.
Proof. intros c d E. pose proof (of_value_value c) as Ec. rewrite E, of_value_value in Ec. by simplify_eq. Qed.

#[global] Instance eq_dec : EqDecision t.
Proof. intros m n. destruct (decide (value m = value n)) as [E|E]; [left; by apply (inj value)|right; by intros ->]. Defined.
End Code.

(** [codeString] of a [Code] holding any value: the empty text by default. *)
Definition codeString (z : Z) : bytes :=
  match Code.of_value z with Some c => B (Code.str c) | None => [] end.

(** [HttpError(Code, reason)]. *)
Definition HttpError_ (c : Code.t) (reason : string) : exn := HttpError (Code.value c) (B reason).

(** ** Versions, connection control, expectations *)

Inductive Version : Set := Http10 | Http11.
Inductive ConnectionControl : Set := Close | KeepAlive | ConnectionExt.
Inductive Expectation : Set := ExpectContinue | ExpectationExt.

#[export] Instance Version_eq_dec : EqDecision Version.
Proof. solve_decision. Defined.
#[export] Instance ConnectionControl_eq_dec : EqDecision ConnectionControl.
Proof. solve_decision. Defined.
#[export] Instance Expectation_eq_dec : EqDecision Expectation.
Proof. solve_decision. Defined.

Definition versionString (v : Version) : bytes :=
  match v with Http10 => B "HTTP/1.0" | Http11 => B "HTTP/1.1" end.

(** ** [CacheDirective] *)

Inductive Directive : Set :=
  | NoCache | NoStore | MaxAge | MaxStale | MinFresh | NoTransform | OnlyIfCached
  | Public | Private | MustRevalidate | ProxyRevalidate | SMaxAge | Ext.

#[export] Instance Directive_eq_dec : EqDecision Directive.
Proof. solve_decision. Defined.

(** The four members of the union are one [uint64_t]. *)
Record CacheDirective : Set := CacheDir { directive : Directive; data : Z }.

Definition CacheDirective_default : CacheDirective := CacheDir NoCache 0.

(** [init] on the object [c]; [delta] is the count of an [int64_t] duration. *)
Definition CacheDirective_init (d : Directive) (delta : Z) (c : CacheDirective) : CacheDirective :=
  match d with
  | MaxAge | SMaxAge | MaxStale | MinFresh => CacheDir d (wrapu 64 delta)
  | _ => CacheDir d (data c)
  end.

(** The two constructors. *)
Definition CacheDirective_of (d : Directive) (delta : Z) : CacheDirective :=
  CacheDirective_init d delta (CacheDir NoCache 0).
Definition CacheDirective_plain (d : Directive) : CacheDirective := CacheDirective_of d 0.

Definition CacheDirective_delta (c : CacheDirective) : result Z :=
  match directive c with
  | MaxAge | SMaxAge | MaxStale | MinFresh => Ok (wraps 64 (data c))
  | _ => Throw (DomainError (B "Invalid operation on cache directive"))
  end.

(** ** [FullDate] *)

(** What is used of the vendored date library and of the C library: parsing with
    a format (a time point in nanoseconds), printing with a format, and printing
    the broken-down GMT time of a count of seconds. *)
Class DateLib := {
  date_parse : bytes -> bytes -> option Z;
  date_to_stream : bytes -> Z -> bytes;
  put_gmtime : bytes -> Z -> bytes }.

Inductive DateType : Set := RFC1123 | RFC850 | AscTime | RFC1123GMT.

Section FullDate.
Context `{DateLib}.

Definition parse_RFC_1123 (s : bytes) : option Z :=
  match date_parse (B "%a, %d %b %Y %T %Z") s with
  | None => date_parse (B "%a, %d-%b-%Y %T %Z") s
  | Some tp => Some tp
  end.

Definition parse_RFC_850 (s : bytes) : option Z := date_parse (B "%A, %d-%b-%y %T %Z") s.
Definition parse_asctime (s : bytes) : option Z := date_parse (B "%a %b %d %T %Y") s.

(** [time_point(seconds(n))] counts nanoseconds in an [int64_t]; the conversion
    from the [unsigned long long] wraps, the multiplication may overflow. *)
Definition time_point_of_seconds (n : Z) : result Z :=
  let ns := wraps 64 n * 1000000000 in
  if (- 2 ^ 63 <=? ns) && (ns <? 2 ^ 63) then Ok ns else UB.

(** [None] is [false]; only [std::out_of_range] is caught. *)
Definition parse_epoch (s : bytes) : result (option Z) :=
  if negb (forallb isdigit s) then Ok None
  else match stoull s with
       | Ok n => tp ← time_point_of_seconds n; Ok (Some tp)
       | Throw (OutOfRange _) => Ok None
       | Throw e => Throw e
       | UB => UB
       | OutOfFuel => OutOfFuel
       end.

Definition FullDate_fromString (str : bytes) : result Z :=
  match parse_RFC_1123 str with
  | Some tp => Ok tp
  | None =>
  match parse_RFC_850 str with
  | Some tp => Ok tp
  | None =>
  match parse_asctime str with
  | Some tp => Ok tp
  | None =>
      r ← parse_epoch str;
      match r with
      | Some tp => Ok tp
      | None => Throw (RuntimeError (B "Invalid Date format"))
      end
  end end end.

(** [to_time_t] divides the count of nanoseconds, towards zero. *)
Definition FullDate_write (ty : DateType) (date : Z) : bytes :=
  match ty with
  | RFC1123 => date_to_stream (B "%a, %d %b %Y %T %Z") date
  | RFC1123GMT => put_gmtime (B "%a, %d %b %Y %T GMT") (Z.quot date 1000000000)
  | RFC850 => date_to_stream (B "%a, %d-%b-%y %T %Z") date
  | AscTime => date_to_stream (B "%a %b %d %T %Y") date
  end.
End FullDate.

(** ** Lemmas *)

Lemma lookup_text_Some {A} s (l : list (bytes * A)) a : lookup_text s l = Some a -> (s, a) ∈ l.
Proof.
  induction l as [|[k x] l IH]; simpl; [done|]. case_decide; intros; simplify_eq; [left|right; auto].
Qed.

Lemma find_methodString m : find_method (methodString m) = Some m.
Proof. destruct m; vm_compute; reflexivity. Qed.

Lemma methodString_inj m n : methodString m = methodString n -> m = n.
Proof. intros E. pose proof (find_methodString m) as Hm. rewrite E, find_methodString in Hm. by simplify_eq. Qed.

(** The method table and [methodString] are inverse to each other. *)
Lemma find_method_iff s m : find_method s = Some m <-> s = methodString m.
Proof.
  split; [|intros ->; apply find_methodString].
  intros E%lookup_text_Some. unfold httpMethods in E.
  apply list_elem_of_fmap in E as (n & E & _). by simplify_eq.
Qed.

(** A duration set on a directive that carries one is read back; the others
    refuse [delta]. *)
Lemma delta_of d delta :
  - 2 ^ 63 <= delta < 2 ^ 63 ->
  CacheDirective_delta (CacheDirective_of d delta)
  = match d with
    | MaxAge | SMaxAge | MaxStale | MinFresh => Ok delta
    | _ => Throw (DomainError (B "Invalid operation on cache directive"))
    end.
Proof.
  intros Hd. assert (wraps 64 (wrapu 64 delta) = delta) as E.
  { unfold wraps, wrapu. rewrite Zplus_mod_idemp_l, Z.mod_small by lia. lia. }
  destruct d; cbn; by rewrite ?E.
Qed.

(** ** Properties *)

(** An HTTP date given as a count of seconds since the epoch is accepted up to
    the range of [time_point]; an empty text passes [parse_epoch]'s digit test
    vacuously, so it is refused by [std::stoull]'s exception and not by the
    [Invalid Date format] every other bad text gets. *)
Theorem fromString_epoch `{DateLib} :
  (forall f s, forallb isdigit s = true -> date_parse f s = None) ->
  (forall n, 0 <= n <= 9223372036 -> FullDate_fromString (to_string_u n) = Ok (n * 1000000000))
  /\ FullDate_fromString [] = Throw (InvalidArgument (B "stoull"))
  /\ (forall s, (forall f, date_parse f s = None) -> forallb isdigit s = false ->
        FullDate_fromString s = Throw (RuntimeError (B "Invalid Date format"))).
Proof.
  intros Hlib. unfold FullDate_fromString, parse_RFC_1123, parse_RFC_850, parse_asctime, parse_epoch.
  split_and!.
  - intros n Hn. destruct (to_string_u_spec n ltac:(lia)) as (_ & Hd & _).
    assert (forallb isdigit (to_string_u n) = true) as Hf.
    { apply forallb_forall. intros a Ha%list_elem_of_In. rewrite <- is_base_digit_10.
      by apply (proj1 (list.Forall_forall _ _) Hd). }
    rewrite !Hlib by done. rewrite Hf. cbn [negb]. rewrite stoull_to_string by (unfold size_max; lia).
    unfold time_point_of_seconds. rewrite wraps_small by lia.
    rewrite (proj2 (Z.leb_le _ _)), (proj2 (Z.ltb_lt _ _)) by lia. done.
  - by rewrite !Hlib.
  - intros s Hs Hd. rewrite !Hs, Hd. done.
Qed.

(** The method the request parser finds for a token is the one whose text is
    that token, for every token and method. *)
Theorem find_method_correct s m : find_method s = Some m <-> methodString m = s.
Proof. rewrite find_method_iff. split; congruence. Qed.

(** ** Witnesses *)

(** A date library that parses nothing. *)
Definition no_dates : DateLib :=
  {| date_parse := fun _ _ => None; date_to_stream := fun _ _ => []; put_gmtime := fun _ _ => [] |}.

Lemma fromString_epoch_witness :
  @FullDate_fromString no_dates (B "86400") = Ok 86400000000000
  /\ @FullDate_fromString no_dates [] = Throw (InvalidArgument (B "stoull"))
  /\ @FullDate_fromString no_dates (B "tomorrow") = Throw (RuntimeError (B "Invalid Date format")).
Proof.
  destruct (@fromString_epoch no_dates (fun _ _ _ => eq_refl)) as (H1 & H2 & H3). split_and!.
  - apply (H1 86400). lia.
  - exact H2.
  - apply H3; reflexivity.
Defined.
