(* ===== verification/QValue.v ===== *)
(** * Quality values: [strToQvalue] of [src/common/http_headers.cc] and [Q] of
    [include/pistache/mime.h], [src/common/mime.cc]

    [float] and [double] are the binary32 and binary64 formats of the Standard
    Library's [SpecFloat], with its correctly rounded operations. *)

From S2P Require Import Prelude Cxx HttpDefs.
From Stdlib Require Import SpecFloat.

Local Open Scope Z_scope.

(** ** Floating point *)

Definition float32_of_Z (z : Z) : spec_float := binary_normalize 24 128 z 0 false.
Definition float64_of_Z (z : Z) : spec_float := binary_normalize 53 1024 z 0 false.
Definition div32 : spec_float -> spec_float -> spec_float := SFdiv 24 128.
Definition mul64 : spec_float -> spec_float -> spec_float := SFmul 53 1024.

(** The conversion of a [float] to [double], which is exact. *)
Definition float64_of_float32 (f : spec_float) : spec_float :=
  match f with
  | S754_finite s m e => binary_normalize 53 1024 (cond_Zopp s (Zpos m)) e s
  | _ => f
  end.

(** [static_cast<uint16_t>(round(f))], away from zero on ties. *)
Definition round_u16 (f : spec_float) : result Z :=
  match f with
  | S754_zero _ => Ok 0
  | S754_finite s m e =>
      let n := if 0 <=? e then Zpos m * 2 ^ e else (Zpos m + 2 ^ (- e - 1)) / 2 ^ (- e) in
      let n := cond_Zopp s n in
      if (0 <=? n) && (n <? 2 ^ 16) then Ok n else UB
  | _ => UB
  end.

(** ** [strToQvalue] *)

(** [str[i]]; the text is NUL terminated. *)
Definition char_at (str : bytes) (i : nat) : Ascii.ascii := default NUL (str !! i).

Definition dot : Ascii.ascii := chr 46.

(** The [for] loop: the length it leaves, or [None] for its [return false]. *)
Fixpoint qvalue_scan (todo len : nat) (str : bytes) : option nat :=
  match todo with
  | O => Some len
  | S todo' =>
      let a := char_at str len in
      if bool_decide (a = dot) && negb (len =? 1)%nat then None
      else if bool_decide (a <> dot) && negb (isdigit a) then Some len
      else qvalue_scan todo' (S len) str
  end.

(** The [switch]: thousandths. *)
Definition qvalue_int (len : nat) (str : bytes) : Z :=
  let d i := digit_val (char_at str i) in
  match len with
  | 5%nat => d 4%nat + d 3%nat * 10 + d 2%nat * 100 + d 0%nat * 1000
  | 4%nat => d 3%nat * 10 + d 2%nat * 100 + d 0%nat * 1000
  | 3%nat => d 2%nat * 100 + d 0%nat * 1000
  | 1%nat => d 0%nat * 1000
  | _ => 0
  end.

(** [static_cast<short>(qint) / 1000.0F]. *)
Definition thousandths (n : Z) : spec_float := div32 (float32_of_Z (wraps 16 n)) (float32_of_Z 1000).

(** The value stored and the length, or [None] for [false]: the callers look at
    neither when the result is [false]. *)
Definition strToQvalue (str : bytes) : option (spec_float * nat) :=
  match qvalue_scan 6 0 str with
  | None => None
  | Some len =>
      if (len <? 1)%nat || (len =? 2)%nat || (5 <? len)%nat then None
      else if bool_decide (char_at str 0 <> chr 48) && bool_decide (char_at str 0 <> chr 49) then None
      else
        let qvalue := thousandths (qvalue_int len str) in
        if SFltb (float32_of_Z 1) qvalue then None else Some (qvalue, len)
  end.

(** ** [Q] *)

Definition Q_new (val : Z) : result Z :=
  if 100 <? val
  then Throw (RuntimeError (B "Invalid quality value, must be in the [0; 100] range"))
  else Ok val.

Definition Q_fromFloat (f : spec_float) : result Z :=
  n ← round_u16 (mul64 (float64_of_float32 f) (float64_of_Z 100)); Q_new n.

(** [%.1f] and [%.2f] of [val / 100.0]. *)
Definition Q_toString (val : Z) : bytes :=
  if val =? 0 then B "q=0"
  else if val =? 100 then B "q=1"
  else if val mod 10 =? 0 then B "q=0." ++ [digit (val / 10)]
  else B "q=0." ++ [digit (val / 10); digit (val mod 10)].

(** ** [operator<<] of a [float]

    ["%g"] with six significant digits: the decimal exponent, the significand
    rounded to nearest even, then fixed or scientific notation without trailing
    zeros. *)

Definition round_half_even (num den : Z) : Z :=
  let q := num / den in
  match 2 * (num mod den) ?= den with
  | Lt => q
  | Gt => q + 1
  | Eq => if Z.even q then q else q + 1
  end.

(** The greatest [x] in [lo, lo + fuel] with [10 ^ x <= num / den]. *)
Fixpoint decimal_exponent (fuel : nat) (lo num den : Z) : Z :=
  match fuel with
  | O => lo
  | S fuel' =>
      let x := lo + Z.of_nat fuel in
      if 10 ^ Z.max 0 x * den <=? num * 10 ^ Z.max 0 (- x) then x else decimal_exponent fuel' lo num den
  end.

(** The [n] decimal digits of [z], leading zeros included. *)
Fixpoint fixed_digits (n : nat) (z : Z) : bytes :=
  match n with O => [] | S n' => fixed_digits n' (z / 10) ++ [digit (z mod 10)] end.

Definition strip_zeros (l : bytes) : bytes :=
  reverse (drop (length (span (fun a => bool_decide (a = chr 48)) (reverse l))) (reverse l)).

Definition with_fraction (whole fraction : bytes) : bytes :=
  match strip_zeros fraction with [] => whole | f => whole ++ [dot] ++ f end.

Definition float_text (f : spec_float) : bytes :=
  match f with
  | S754_zero s => if s then B "-0" else B "0"
  | S754_infinity s => if s then B "-inf" else B "inf"
  | S754_nan => B "nan"
  | S754_finite s m e =>
      let num := Zpos m * 2 ^ Z.max 0 e in
      let den := 2 ^ Z.max 0 (- e) in
      let x := decimal_exponent 90 (-50) num den in
      let n := round_half_even (num * 10 ^ Z.max 0 (5 - x)) (den * 10 ^ Z.max 0 (x - 5)) in
      let '(n, x) := if n =? 10 ^ 6 then (10 ^ 5, x + 1) else (n, x) in
      (if s then B "-" else [])
      ++ if (-4 <=? x) && (x <? 6)
         then let decimals := 5 - x in
              with_fraction (to_string (n / 10 ^ decimals)) (fixed_digits (Z.to_nat decimals) (n mod 10 ^ decimals))
         else with_fraction [digit (n / 10 ^ 5)] (fixed_digits 5 (n mod 10 ^ 5))
              ++ B "e" ++ (if x <? 0 then B "-" else B "+") ++ fixed_digits 2 (Z.abs x)
  end.

(** ** Lemmas *)

Lemma forall_below (n : nat) (p : Z -> bool) :
  forallb (fun i => p (Z.of_nat i)) (seq 0 n) = true -> forall z, 0 <= z < Z.of_nat n -> p z = true.
Proof.
  rewrite forallb_forall. intros H z Hz.
  specialize (H (Z.to_nat z) ltac:(apply in_seq; lia)). by rewrite Z2Nat.id in H by lia.
Qed.

Definition q_close (n : Z) : bool :=
  match Q_fromFloat (thousandths n) with
  | Ok q => (0 <=? q) && (q <=? 100) && (Z.abs (10 * q - n) <=? 5)
  | _ => false
  end.

(** Whatever [strToQvalue] can store, [Q::fromFloat] accepts. *)
Lemma Q_fromFloat_thousandths n :
  0 <= n <= 1000 ->
  exists q, Q_fromFloat (thousandths n) = Ok q /\ 0 <= q <= 100 /\ Z.abs (10 * q - n) <= 5.
Proof.
  intros Hn. pose proof (forall_below 1001 q_close ltac:(vm_compute; reflexivity) n ltac:(lia)) as H.
  unfold q_close in H. destruct (Q_fromFloat (thousandths n)) as [q| | |]; [|done..].
  exists q. bool_to_prop. done.
Qed.

Lemma thousandths_above n :
  0 <= n < 2000 -> SFltb (float32_of_Z 1) (thousandths n) = (1000 <? n).
Proof.
  intros Hn. pose proof (forall_below 2000
    (fun n => Bool.eqb (SFltb (float32_of_Z 1) (thousandths n)) (1000 <? n))
    ltac:(vm_compute; reflexivity) n ltac:(lia)) as H.
  by apply eqb_prop in H.
Qed.

(** What [strToQvalue] reads: an integer, or an integer, one character that is
    a dot or a digit, and one to three digits. *)
Definition zero_or_one (a : Ascii.ascii) : Prop := a = chr 48 \/ a = chr 49.
Definition dot_or_digit (a : Ascii.ascii) : bool := bool_decide (a = dot) || isdigit a.

Inductive qvalue_text : bytes -> Z -> Prop :=
  | qvalue_whole c : zero_or_one c -> qvalue_text [c] (1000 * digit_val c)
  | qvalue_frac1 c sep x : zero_or_one c -> dot_or_digit sep = true -> isdigit x = true ->
      qvalue_text [c; sep; x] (1000 * digit_val c + 100 * digit_val x)
  | qvalue_frac2 c sep x y : zero_or_one c -> dot_or_digit sep = true ->
      isdigit x = true -> isdigit y = true ->
      qvalue_text [c; sep; x; y] (1000 * digit_val c + 100 * digit_val x + 10 * digit_val y)
  | qvalue_frac3 c sep x y z : zero_or_one c -> dot_or_digit sep = true ->
      isdigit x = true -> isdigit y = true -> isdigit z = true ->
      qvalue_text [c; sep; x; y; z]
        (1000 * digit_val c + 100 * digit_val x + 10 * digit_val y + digit_val z).

(** The character after the text neither continues it nor is a dot. *)
Definition qvalue_end (rest : bytes) : bool := negb (dot_or_digit (char_at rest 0)).

Lemma qvalue_text_range t n : qvalue_text t n -> 0 <= n < 2000 /\ qvalue_int (length t) t = n.
Proof.
  assert (forall c, zero_or_one c -> 0 <= digit_val c <= 1) as Hc by (intros c Hc; destruct Hc; subst; unfold digit_val; rewrite uchar_chr; lia).
  destruct 1; repeat match goal with
  | H : zero_or_one _ |- _ => apply Hc in H
  | H : isdigit _ = true |- _ => apply digit_val_range in H
  end; cbn -[Z.mul Z.add digit_val]; unfold char_at; cbn -[Z.mul Z.add digit_val]; lia.
Qed.

Lemma qvalue_int_app t rest : (length t <= 5)%nat -> t <> [] ->
  qvalue_int (length t) (t ++ rest) = qvalue_int (length t) t.
Proof.
  intros Hl Hne. destruct t as [|a [|b [|c [|d [|e [|f t]]]]]]; done.
Qed.

(** One step of the loop, by the class of the character. *)
Lemma qvalue_scan_S todo len str :
  qvalue_scan (S todo) len str =
  if negb (dot_or_digit (char_at str len)) then Some len
  else if bool_decide (char_at str len = dot) && negb (len =? 1)%nat then None
  else qvalue_scan todo (S len) str.
Proof.
  cbn [qvalue_scan]. unfold dot_or_digit. destruct (decide (char_at str len = dot)) as [E|E].
  - rewrite (bool_decide_eq_true_2 _ E), (bool_decide_eq_false_2 (_ <> dot)) by tauto.
    cbn. by destruct (len =? 1)%nat.
  - rewrite (bool_decide_eq_false_2 _ E), (bool_decide_eq_true_2 (_ <> dot)) by done.
    cbn. by destruct (isdigit _).
Qed.

Lemma qvalue_scan_stop todo len str :
  negb (dot_or_digit (char_at str len)) = true -> qvalue_scan (S todo) len str = Some len.
Proof. intros H. by rewrite qvalue_scan_S, H. Qed.

Lemma qvalue_scan_digit todo len str :
  isdigit (char_at str len) = true -> qvalue_scan (S todo) len str = qvalue_scan todo (S len) str.
Proof.
  intros H. rewrite qvalue_scan_S. unfold dot_or_digit. rewrite H, orb_true_r.
  rewrite bool_decide_eq_false_2; [done|]. intros E. by rewrite E in H.
Qed.

Lemma qvalue_scan_sep todo str :
  dot_or_digit (char_at str 1) = true -> qvalue_scan (S todo) 1 str = qvalue_scan todo 2 str.
Proof. intros H. rewrite qvalue_scan_S, H. cbn. by rewrite andb_false_r. Qed.

Lemma qvalue_scan_text t n rest :
  qvalue_text t n -> qvalue_end rest = true -> qvalue_scan 6 0 (t ++ rest) = Some (length t).
Proof.
  intros Ht Hr.
  assert (forall c, zero_or_one c -> isdigit c = true) as Hz by (by intros c [-> | ->]).
  destruct Ht as [c H|c sep x H|c sep x y H|c sep x y z H]; apply Hz in H;
    rewrite qvalue_scan_digit by exact H;
    repeat first [ rewrite qvalue_scan_stop by exact Hr
                 | rewrite qvalue_scan_sep by assumption
                 | rewrite qvalue_scan_digit by assumption ]; reflexivity.
Qed.

(** The length the loop leaves determines what it went over. *)
Lemma qvalue_scan_inv todo len str k :
  (0 < todo)%nat -> qvalue_scan todo len str = Some k -> (k < len + todo)%nat ->
  (len <= k)%nat /\ qvalue_end (drop k str) = true
  /\ forall i, (len <= i < k)%nat ->
       dot_or_digit (char_at str i) = true /\ (char_at str i = dot -> i = 1%nat).
Proof.
  revert len. induction todo as [|todo IH]; intros len Ht Hs Hk; [lia|].
  rewrite qvalue_scan_S in Hs. destruct (dot_or_digit (char_at str len)) eqn:Ed; cbn [negb] in Hs.
  - destruct (bool_decide (char_at str len = dot) && negb (len =? 1)%nat) eqn:Eb; [done|].
    destruct todo as [|todo]; [simpl in Hs; simplify_eq; lia|].
    apply IH in Hs as (Hl & He & Hi); [|lia|lia]. split; [lia|]. split; [done|].
    intros i Hin. destruct (decide (i = len)) as [->|]; [|apply Hi; lia].
    split; [done|]. intros E. rewrite bool_decide_eq_true_2 in Eb by done. cbn in Eb. by bool_to_prop.
  - simplify_eq. split; [lia|]. split; [|lia]. unfold qvalue_end, char_at.
    rewrite lookup_drop, Nat.add_0_r. fold (char_at str k). by rewrite Ed.
Qed.

(** At an index other than 1 the text read holds a digit. *)
Lemma char_at_digit str i :
  dot_or_digit (char_at str i) = true -> (char_at str i = dot -> i = 1%nat) -> i <> 1%nat ->
  isdigit (char_at str i) = true.
Proof.
  unfold dot_or_digit. intros H Hd Hi. apply orb_true_iff in H as [H|H]; [|done].
  apply bool_decide_eq_true in H. by apply Hd in H.
Qed.

Lemma char_at_length str i : dot_or_digit (char_at str i) = true -> (i < length str)%nat.
Proof.
  intros H. apply lookup_lt_is_Some. unfold char_at in H.
  destruct (str !! i) eqn:E; [eauto|]. by vm_compute in H.
Qed.

Lemma qvalue_text_of_scan str k :
  qvalue_scan 6 0 str = Some k -> k = 1%nat \/ (3 <= k <= 5)%nat -> zero_or_one (char_at str 0) ->
  exists text rest n, str = text ++ rest /\ k = length text /\ qvalue_text text n /\ qvalue_end rest = true.
Proof.
  intros Hs Hk H0. destruct (qvalue_scan_inv 6 0 str k ltac:(lia) Hs ltac:(lia)) as (_ & He & Hi).
  assert (k <= length str)%nat as Hlen.
  { destruct k as [|k]; [lia|]. apply (char_at_length str k). apply Hi. lia. }
  exists (take k str), (drop k str).
  enough (exists n, qvalue_text (take k str) n) as [n Hn].
  { exists n. rewrite take_drop, length_take. split_and!; [done|lia|done|done]. }
  assert (forall i, (i < k)%nat -> i <> 1%nat -> isdigit (char_at str i) = true) as Hd.
  { intros i Hik Hi1. destruct (Hi i ltac:(lia)). by apply char_at_digit. }
  assert (k = 1 \/ k = 3 \/ k = 4 \/ k = 5)%nat as Hk' by lia. clear Hk Hs He.
  destruct str as [|a [|b [|c [|d [|e str]]]]]; simpl in Hlen;
    repeat destruct Hk' as [-> | Hk']; subst; try lia; cbn [take]; eexists.
  all: constructor; first [exact H0 | exact (proj1 (Hi 1%nat ltac:(lia)))
    | exact (Hd 2%nat ltac:(lia) ltac:(lia)) | exact (Hd 3%nat ltac:(lia) ltac:(lia))
    | exact (Hd 4%nat ltac:(lia) ltac:(lia))].
Qed.

Lemma strToQvalue_inv str v k :
  strToQvalue str = Some (v, k) ->
  exists text rest n, str = text ++ rest /\ k = length text
    /\ qvalue_text text n /\ qvalue_end rest = true /\ n <= 1000 /\ v = thousandths n.
Proof.
  unfold strToQvalue.
  destruct (qvalue_scan 6 0 str) as [len|] eqn:Es; [|done].
  destruct (_ || _ || _) eqn:El; [done|]. bool_to_prop.
  destruct (bool_decide _ && bool_decide _) eqn:E0; [done|].
  assert (zero_or_one (char_at str 0)) as H0z.
  { apply andb_false_iff in E0 as [E0|E0]; apply bool_decide_eq_false, dec_stable in E0; [by left|by right]. }
  destruct (qvalue_text_of_scan str len Es ltac:(lia) H0z) as (text & rest & n & -> & -> & Ht & He).
  destruct (qvalue_text_range _ _ Ht) as [Hn Ei].
  rewrite qvalue_int_app, Ei by (destruct Ht; simpl; done || lia).
  rewrite thousandths_above by done. destruct (1000 <? n) eqn:E1; [done|]. bool_to_prop.
  intros; simplify_eq. eauto 10.
Qed.

Lemma strToQvalue_intro text rest n :
  qvalue_text text n -> qvalue_end rest = true -> n <= 1000 ->
  strToQvalue (text ++ rest) = Some (thousandths n, length text).
Proof.
  intros Ht He Hn. unfold strToQvalue.
  rewrite (qvalue_scan_text _ n) by done. destruct (qvalue_text_range _ _ Ht) as [Hr Ei].
  rewrite qvalue_int_app, Ei by (destruct Ht; simpl; done || lia).
  rewrite thousandths_above by done. rewrite (proj2 (Z.ltb_ge _ _)) by lia.
  assert (zero_or_one (char_at (text ++ rest) 0)) as H0z by (by destruct Ht).
  destruct (bool_decide (_ <> chr 48) && bool_decide _) eqn:E0.
  { apply andb_true_iff in E0 as [E0 E1]. rewrite !bool_decide_eq_true in *. by destruct H0z. }
  destruct Ht; done.
Qed.

(** The text of a quality, without its ["q="]. *)
Lemma Q_toString_text q :
  0 <= q <= 100 ->
  exists text, Q_toString q = B "q=" ++ text /\ qvalue_text text (10 * q)
    /\ Q_fromFloat (thousandths (10 * q)) = Ok q.
Proof.
  intros Hq.
  pose proof (forall_below 101 (fun q => match Q_fromFloat (thousandths (10 * q)) with
    | Ok p => p =? q | _ => false end) ltac:(vm_compute; reflexivity) q ltac:(lia)) as H.
  assert (Q_fromFloat (thousandths (10 * q)) = Ok q) as HQ.
  { cbn beta in H. destruct (Q_fromFloat _); [|done..]. bool_to_prop. by subst. }
  unfold Q_toString. destruct (q =? 0) eqn:E0; bool_to_prop; [subst|].
  { exists [chr 48]. split_and!; [done| |done]. apply (qvalue_whole (chr 48)). by left. }
  destruct (q =? 100) eqn:E1; bool_to_prop; [subst|].
  { exists [chr 49]. split_and!; [done| |done]. apply (qvalue_whole (chr 49)). by right. }
  pose proof (Z.div_mod q 10 ltac:(lia)) as Hdm. pose proof (Z.mod_pos_bound q 10 ltac:(lia)) as Hm.
  assert (0 <= q / 10 < 10) as Hd by (split; [apply Z.div_pos; lia|apply Z.div_lt_upper_bound; lia]).
  destruct (q mod 10 =? 0) eqn:E2; bool_to_prop.
  - exists [chr 48; dot; digit (q / 10)]. split_and!; [done| |done].
    replace (10 * q) with (1000 * digit_val (chr 48) + 100 * digit_val (digit (q / 10))).
    { apply qvalue_frac1; [by left|done|by apply isdigit_digit]. }
    rewrite digit_val_digit by done. change (digit_val (chr 48)) with 0. lia.
  - exists [chr 48; dot; digit (q / 10); digit (q mod 10)]. split_and!; [done| |done].
    replace (10 * q) with (1000 * digit_val (chr 48) + 100 * digit_val (digit (q / 10))
                           + 10 * digit_val (digit (q mod 10))).
    { apply qvalue_frac2; [by left|done|by apply isdigit_digit..]. }
    rewrite !digit_val_digit by done. change (digit_val (chr 48)) with 0. lia.
Qed.

(** No value read from a text makes [Q] throw. *)
Lemma strToQvalue_Q str v k :
  strToQvalue str = Some (v, k) -> exists q, Q_fromFloat v = Ok q /\ 0 <= q <= 100.
Proof.
  intros H. destruct (strToQvalue_inv _ _ _ H) as (text & rest & n & -> & -> & Ht & _ & Hn & ->).
  destruct (qvalue_text_range _ _ Ht) as [Hr _].
  destruct (Q_fromFloat_thousandths n ltac:(lia)) as (q & Hq & ? & _). eauto.
Qed.

(** ** Properties *)

(** [strToQvalue] accepts exactly the texts [qvalue_text] describes up to the
    value 1, followed by something that is not a dot or a digit, and stores the
    nearest [float] to the thousandths written. *)
Theorem strToQvalue_spec str v k :
  strToQvalue str = Some (v, k) <->
  exists text rest n, str = text ++ rest /\ k = length text
    /\ qvalue_text text n /\ qvalue_end rest = true /\ n <= 1000 /\ v = thousandths n.
Proof.
  split; [apply strToQvalue_inv|].
  intros (text & rest & n & -> & -> & Ht & He & Hn & ->). by apply strToQvalue_intro.
Qed.

(** A value [strToQvalue] read never makes [Q]'s constructor throw, and the
    quality in hundredths is within half a hundredth of the text. *)
Theorem qvalue_Q str v k :
  strToQvalue str = Some (v, k) ->
  exists n q, qvalue_text (take k str) n /\ Q_fromFloat v = Ok q
    /\ 0 <= q <= 100 /\ Z.abs (10 * q - n) <= 5.
Proof.
  intros H. destruct (strToQvalue_inv _ _ _ H) as (text & rest & n & -> & -> & Ht & _ & Hn & ->).
  destruct (qvalue_text_range _ _ Ht) as [Hr _].
  destruct (Q_fromFloat_thousandths n ltac:(lia)) as (q & Hq & Hr1 & Hr2).
  exists n, q. rewrite take_app_length. done.
Qed.

(** The separator is never required to be a dot: a digit in its place is
    skipped, so ["012"] is read as 0.2. *)
Theorem strToQvalue_any_separator sep x rest :
  isdigit sep = true -> isdigit x = true -> qvalue_end rest = true ->
  strToQvalue (chr 48 :: sep :: x :: rest) = strToQvalue (chr 48 :: dot :: x :: rest).
Proof.
  intros Hsep Hx Hr. assert (dot_or_digit sep = true) as Hs by (unfold dot_or_digit; by rewrite Hsep, orb_true_r).
  unfold strToQvalue.
  pose proof (qvalue_scan_text [chr 48; sep; x] _ rest
                (qvalue_frac1 _ _ _ (or_introl eq_refl) Hs Hx) Hr) as E1.
  pose proof (qvalue_scan_text [chr 48; dot; x] _ rest
                (qvalue_frac1 _ dot _ (or_introl eq_refl) eq_refl Hx) Hr) as E2.
  cbn [app] in E1, E2. by rewrite E1, E2.
Qed.

(** Every quality prints to a text that reads back to the same quality, binary32
    and binary64 rounding included. *)
Theorem Q_roundtrip q rest :
  0 <= q <= 100 -> qvalue_end rest = true ->
  exists text v, Q_toString q = B "q=" ++ text
    /\ strToQvalue (text ++ rest) = Some (v, length text) /\ Q_fromFloat v = Ok q.
Proof.
  intros Hq Hr. destruct (Q_toString_text q Hq) as (text & -> & Ht & HQ).
  exists text, (thousandths (10 * q)). split_and!; [done|apply strToQvalue_intro; [done..|lia]|done].
Qed.

(** ** Witnesses *)

Lemma Q_roundtrip_witness :
  exists text v, Q_toString 29 = B "q=" ++ text
    /\ strToQvalue (text ++ B "; charset=utf-8") = Some (v, length text) /\ Q_fromFloat v = Ok 29.
Proof. apply (Q_roundtrip 29 (B "; charset=utf-8")); [lia|reflexivity]. Defined.


Lemma qvalue_Q_witness :
  strToQvalue (B "0.345, gzip") = Some (thousandths 345, 5%nat)
  /\ exists n q, qvalue_text (take 5 (B "0.345, gzip")) n /\ Q_fromFloat (thousandths 345) = Ok q
     /\ 0 <= q <= 100 /\ Z.abs (10 * q - n) <= 5.
Proof. split; [reflexivity|]. apply (qvalue_Q (B "0.345, gzip")). reflexivity. Defined.

Lemma strToQvalue_any_separator_witness :
  strToQvalue (B "012") = strToQvalue (B "0.2") /\ strToQvalue (B "0.2") = Some (thousandths 200, 3%nat).
Proof. split; [|reflexivity]. apply (strToQvalue_any_separator (chr 49) (chr 50) []); reflexivity. Defined.
