(* ===== verification/Mime.v ===== *)
(** * Media types: [include/pistache/mime.h] and [src/common/mime.cc]

    [MediaType] with its parser.  The parser's state is the cursor over the text
    and the object it fills, which keeps what was written before a throw. *)

From S2P Require Import Prelude Cxx HttpDefs QValue Stream.

Local Open Scope Z_scope.

(** ** Types, subtypes, suffixes *)

Module Type_.
Inductive t : Set := Star | Text | Image | Audio | Video | Application | Message | Multipart | None.
#[global] Instance eq_dec : EqDecision t.
Proof. solve_decision. Defined.
End Type_.

Module Subtype.
Inductive t : Set :=
  | Star | Plain | Html | Xhtml | Xml | Javascript | Css
  | OctetStream | Json | JsonSchema | JsonSchemaInstance | FormUrlEncoded | FormData
  | Png | Gif | Bmp | Jpeg | Vendor | Ext | None.
#[global] Instance eq_dec : EqDecision t.
Proof. solve_decision. Defined.
End Subtype.

Module Suffix.
Inductive t : Set := Json | Ber | Der | Fastinfoset | Wbxml | Zip | Xml | None | Ext.
#[global] Instance eq_dec : EqDecision t.
Proof. solve_decision. Defined.
End Suffix.

(** The item lists [MIME_TYPES], [MIME_SUBTYPES] and [MIME_SUFFIXES]. *)
Definition MIME_TYPES : list (bytes * Type_.t) :=
  [(B "*", Type_.Star); (B "text", Type_.Text); (B "image", Type_.Image); (B "audio", Type_.Audio);
   (B "video", Type_.Video); (B "application", Type_.Application); (B "message", Type_.Message);
   (B "multipart", Type_.Multipart)].

Definition MIME_SUBTYPES : list (bytes * Subtype.t) :=
  [(B "*", Subtype.Star); (B "plain", Subtype.Plain); (B "html", Subtype.Html);
   (B "xhtml", Subtype.Xhtml); (B "xml", Subtype.Xml); (B "javascript", Subtype.Javascript);
   (B "css", Subtype.Css); (B "octet-stream", Subtype.OctetStream); (B "json", Subtype.Json);
   (B "schema+json", Subtype.JsonSchema); (B "schema-instance+json", Subtype.JsonSchemaInstance);
   (B "x-www-form-urlencoded", Subtype.FormUrlEncoded); (B "form-data", Subtype.FormData);
   (B "png", Subtype.Png); (B "gif", Subtype.Gif); (B "bmp", Subtype.Bmp); (B "jpeg", Subtype.Jpeg)].

Definition MIME_SUFFIXES : list (bytes * Suffix.t) :=
  [(B "json", Suffix.Json); (B "ber", Suffix.Ber); (B "der", Suffix.Der);
   (B "fastinfoset", Suffix.Fastinfoset); (B "wbxml", Suffix.Wbxml); (B "zip", Suffix.Zip);
   (B "xml", Suffix.Xml)].

(** ** [MediaType] *)

Record MediaType : Set := {
  top_ : Type_.t;
  sub_ : Subtype.t;
  suffix_ : Suffix.t;
  raw_ : bytes;
  rawSubIndex : nat * nat;      (* beg, end *)
  rawSuffixIndex : nat * nat;
  params : gmap bytes bytes;
  q_ : option Z }.

Definition set_top (t : Type_.t) (m : MediaType) : MediaType :=
  {| top_ := t; sub_ := sub_ m; suffix_ := suffix_ m; raw_ := raw_ m; rawSubIndex := rawSubIndex m;
     rawSuffixIndex := rawSuffixIndex m; params := params m; q_ := q_ m |}.
Definition set_sub (s : Subtype.t) (m : MediaType) : MediaType :=
  {| top_ := top_ m; sub_ := s; suffix_ := suffix_ m; raw_ := raw_ m; rawSubIndex := rawSubIndex m;
     rawSuffixIndex := rawSuffixIndex m; params := params m; q_ := q_ m |}.
Definition set_suffix (s : Suffix.t) (m : MediaType) : MediaType :=
  {| top_ := top_ m; sub_ := sub_ m; suffix_ := s; raw_ := raw_ m; rawSubIndex := rawSubIndex m;
     rawSuffixIndex := rawSuffixIndex m; params := params m; q_ := q_ m |}.
Definition set_raw (r : bytes) (m : MediaType) : MediaType :=
  {| top_ := top_ m; sub_ := sub_ m; suffix_ := suffix_ m; raw_ := r; rawSubIndex := rawSubIndex m;
     rawSuffixIndex := rawSuffixIndex m; params := params m; q_ := q_ m |}.
Definition set_rawSubIndex (i : nat * nat) (m : MediaType) : MediaType :=
  {| top_ := top_ m; sub_ := sub_ m; suffix_ := suffix_ m; raw_ := raw_ m; rawSubIndex := i;
     rawSuffixIndex := rawSuffixIndex m; params := params m; q_ := q_ m |}.
Definition set_rawSuffixIndex (i : nat * nat) (m : MediaType) : MediaType :=
  {| top_ := top_ m; sub_ := sub_ m; suffix_ := suffix_ m; raw_ := raw_ m; rawSubIndex := rawSubIndex m;
     rawSuffixIndex := i; params := params m; q_ := q_ m |}.
Definition set_params (p : gmap bytes bytes) (m : MediaType) : MediaType :=
  {| top_ := top_ m; sub_ := sub_ m; suffix_ := suffix_ m; raw_ := raw_ m; rawSubIndex := rawSubIndex m;
     rawSuffixIndex := rawSuffixIndex m; params := p; q_ := q_ m |}.

Definition setQuality (quality : Z) (m : MediaType) : MediaType :=
  {| top_ := top_ m; sub_ := sub_ m; suffix_ := suffix_ m; raw_ := raw_ m; rawSubIndex := rawSubIndex m;
     rawSuffixIndex := rawSuffixIndex m; params := params m; q_ := Some quality |}.

(** The constructors. *)
Definition MediaType_of (t : Type_.t) (s : Subtype.t) (x : Suffix.t) : MediaType :=
  {| top_ := t; sub_ := s; suffix_ := x; raw_ := []; rawSubIndex := (0, 0)%nat;
     rawSuffixIndex := (0, 0)%nat; params := ∅; q_ := None |}.
Definition MediaType_default : MediaType := MediaType_of Type_.None Subtype.None Suffix.None.

(** [rawSub]: the bytes of [raw_] between the two indexes, both included.
    [Index::splice] asserts that they are ordered. *)
Definition splice (i : nat * nat) (str : bytes) : result bytes :=
  let '(beg, end_) := i in
  if (end_ <? beg)%nat then UB
  else if (length str <? beg)%nat then Throw (OutOfRange (B "basic_string::substr"))
  else Ok (take (end_ - beg + 1) (drop beg str)).
Definition rawSub (m : MediaType) : result bytes := splice (rawSubIndex m) (raw_ m).

Definition getParam (name : bytes) (m : MediaType) : option bytes := params m !! name.
Definition setParam (name value : bytes) (m : MediaType) : MediaType :=
  set_params (<[name := value]> (params m)) m.

Definition MediaType_isValid (m : MediaType) : bool :=
  negb (bool_decide (top_ m = Type_.None)) && negb (bool_decide (sub_ m = Subtype.None)).

(** [operator==] *)
Definition MediaType_eqb (a b : MediaType) : bool :=
  bool_decide (top_ a = top_ b) && bool_decide (sub_ a = sub_ b) && bool_decide (suffix_ a = suffix_ b).

(** ** [fromFile] *)

Definition KnownExtensions : list (bytes * (Type_.t * Subtype.t)) :=
  [(B "jpg", (Type_.Image, Subtype.Jpeg)); (B "jpeg", (Type_.Image, Subtype.Jpeg));
   (B "png", (Type_.Image, Subtype.Png)); (B "bmp", (Type_.Image, Subtype.Bmp));
   (B "txt", (Type_.Text, Subtype.Plain)); (B "md", (Type_.Text, Subtype.Plain));
   (B "bin", (Type_.Application, Subtype.OctetStream))].

(** The scan for the last ['.']: what follows it. *)
Fixpoint last_extension (p : bytes) (extensionOffset : option bytes) : option bytes :=
  match p with
  | [] => extensionOffset
  | a :: p' => last_extension p' (if decide (a = dot) then Some p' else extensionOffset)
  end.

Definition MediaType_fromFile (fileName : bytes) : MediaType :=
  match last_extension fileName None with
  | None => MediaType_default
  | Some ext =>
      match lookup_text ext KnownExtensions with
      | Some (t, s) => MediaType_of t s Suffix.None
      | None => MediaType_default
      end
  end.

(** ** [parseRaw] *)

Definition raise {S A : Type} (str : string) : M S A :=
  throw (HttpError_ Code.Unsupported_Media_Type str).


(** A chain of [if (match_string(...)) { ...; break; }]. *)
Fixpoint match_first {A : Type} (l : list (bytes * A)) (c : cursor) : option A * cursor :=
  match l with
  | [] => (None, c)
  | (s, a) :: l' =>
      let '(ok, c') := match_string s Insensitive c in
      if ok : bool then (Some a, c') else match_first l' c'
  end.

Definition semicolon : Ascii.ascii := chr 59.
Definition plus : Ascii.ascii := chr 43.

(** One iteration of the loop over the parameters.  [str] is the memory the
    text lies in, up to the terminating NUL: the quality value is read from
    there and not from the cursor. *)
Definition parse_param (str : bytes) : parser MediaType unit :=
  c ← cursor_;
  if (current c =? 59) || (current c =? 32) then
    if (next c =? Eof) || (next c =? 0)
    then raise "Malformed Media Type, expected parameter got EOF"
    else _ ← on_cursor (advance 1); mret tt
  else
    isq ← on_cursor (match_literal (chr 113) Insensitive);
    if isq : bool then
      c ← cursor_;
      if eof c then raise "Invalid quality factor"
      else
        iseq ← on_cursor (match_literal (chr 61) Insensitive);
        if iseq : bool then
          c ← cursor_;
          match strToQvalue (drop (position c) str) with
          | None => raise "Invalid quality factor"
          | Some (val, qvalue_len) =>
              _ ← on_cursor (advance (Z.of_nat qvalue_len));
              q ← lift (Q_fromFloat val);
              on_object (setQuality q)
          end
        else raise "Missing quality factor"
    else
      key0 ← cursor_;
      _ ← on_cursor (match_until [chr 61] Insensitive);
      c ← cursor_;
      if eof c || (next c =? Eof) || (next c =? 0) then raise "Unfinished Media Type parameter"
      else
        let key := Token_text (position key0) c in
        _ ← on_cursor (advance 1);
        value0 ← cursor_;
        _ ← on_cursor (match_until [chr 32; semicolon] Insensitive);
        c ← cursor_;
        let value := Token_text (position value0) c in
        on_object (fun m => match params m !! key with
                           | Some _ => m
                           | None => set_params (<[key := value]> (params m)) m
                           end).

(** [while (!cursor.eof())], one unit of fuel per iteration. *)
Fixpoint parse_params (fuel : nat) (str : bytes) : parser MediaType unit :=
  c ← cursor_;
  if eof c then mret tt
  else match fuel with
       | O => lift OutOfFuel
       | S fuel' => _ ← parse_param str; parse_params fuel' str
       end.

(** The optional suffix. *)
Definition parse_suffix : parser MediaType unit :=
  isplus ← on_cursor (match_literal plus Insensitive);
  if isplus : bool then
    c ← cursor_;
    if eof c then raise "Malformed Media Type, expected suffix, got EOF"
    else
      let start := position c in
      suffix ← on_cursor (match_first MIME_SUFFIXES);
      match suffix with
      | Some x => on_object (set_suffix x)
      | None =>
          _ ← on_cursor (match_until [semicolon; plus] Insensitive);
          c ← cursor_;
          _ ← on_object (set_rawSuffixIndex (start, position c - 1)%nat);
          on_object (set_suffix Suffix.Ext)
      end
  else mret tt.

(** The subtype. *)
Definition parse_subtype : parser MediaType unit :=
  c ← cursor_;
  let start := position c in
  vnd ← on_cursor (match_raw (B "vnd."));
  sub ← (if vnd : bool then mret Subtype.Vendor
         else (s ← on_cursor (match_first MIME_SUBTYPES); mret (default Subtype.Ext s)));
  _ ← (if bool_decide (sub = Subtype.Ext) || bool_decide (sub = Subtype.Vendor) then
         _ ← on_cursor (match_until [semicolon; plus] Insensitive);
         c ← cursor_;
         on_object (set_rawSubIndex (start, position c - 1)%nat)
       else mret tt);
  on_object (set_sub sub).

Definition parse_media (str : bytes) (len : nat) : parser MediaType unit :=
  _ ← on_object (set_raw (take len str));
  top ← on_cursor (match_first MIME_TYPES);
  match top with
  | None => raise "Unknown Media Type"
  | Some t =>
      _ ← on_object (set_top t);
      slash ← on_cursor (match_literal (chr 47) Insensitive);
      if negb slash then raise "Malformed Media Type, expected a '/' after the top type"
      else
        c ← cursor_;
        if eof c then raise "Malformed Media type, missing subtype"
        else
          _ ← parse_subtype;
          c ← cursor_;
          if eof c then mret tt
          else
            _ ← parse_suffix;
            parse_params len str
  end.

(** [parseRaw(str, len)]: [str] is the memory from the pointer on. *)
Definition MediaType_parseRaw (str : bytes) (len : nat) : M MediaType unit := fun m =>
  let '((_, m'), r) := parse_media str len (RawStreamBuf (take len str), m) in (m', r).

Definition MediaType_fromRaw (str : bytes) (len : nat) : result MediaType :=
  let '(m, r) := MediaType_parseRaw str len MediaType_default in _ ← r; Ok m.
Definition MediaType_fromString (str : bytes) : result MediaType := MediaType_fromRaw str (length str).

(** ** [toString] *)

Fixpoint text_of {A : Type} `{EqDecision A} (a : A) (l : list (bytes * A)) : bytes :=
  match l with
  | [] => []
  | (s, x) :: l' => if decide (x = a) then s else text_of a l'
  end.

(** [order] is the sequence the [unordered_map] of parameters is iterated in. *)
Definition MediaType_toString (order : gmap bytes bytes -> list (bytes * bytes)) (m : MediaType) : bytes :=
  if bool_decide (raw_ m <> []) then raw_ m
  else
    text_of (top_ m) MIME_TYPES ++ B "/" ++ text_of (sub_ m) MIME_SUBTYPES
    ++ (if bool_decide (suffix_ m <> Suffix.None)
        then match text_of (suffix_ m) MIME_SUFFIXES with [] => [] | s => B "+" ++ s end
        else [])
    ++ match q_ m with Some quality => B "; " ++ Q_toString quality | None => [] end
    ++ concat (map (fun '(k, v) => B "; " ++ k ++ B "=" ++ v) (order (params m))).

(** ** The parser returns, and refuses with 415 only *)

Definition unsupported (e : exn) : Prop := exists w, e = HttpError (Code.value Code.Unsupported_Media_Type) w.

Lemma wp_raise {S A} str (Q : A -> S -> Prop) s : wp (raise str) Q (fun e _ => unsupported e) s.
Proof. apply wp_throw. by eexists. Qed.

Lemma match_first_le {A} (l : list (bytes * A)) c r c' :
  match_first l c = (r, c') -> (remaining c' <= remaining c)%nat.
Proof.
  induction l as [|[s a] l IH]; simpl; [intros; by simplify_eq|].
  unfold match_string. destruct (remaining c <? length s)%nat; [done|].
  destruct (bool_decide _); [|done]. intros; simplify_eq. rewrite sbump_remaining. lia.
Qed.

Ltac media_facts :=
  cursor_facts; repeat match goal with
  | H : match_first _ _ = _ |- _ => apply match_first_le in H
  end.

Ltac wp_step := wp_step_with ltac:(apply wp_raise).

(** Every iteration of the parameter loop consumes something. *)
Lemma parse_param_progress str s :
  eof (fst s) = false ->
  wp (parse_param str) (fun _ s' => remaining (fst s') < remaining (fst s))%nat
     (fun e _ => unsupported e) s.
Proof.
  destruct s as [c m]. cbn [fst]. intros He. unfold parse_param.
  do 3 wp_step.
  - wp_step; [wp_step|]. do 3 wp_step. by eapply advance_1_lt.
  - do 3 wp_step.
    + do 3 wp_step; [wp_step|]. do 3 wp_step; [|wp_step].
      do 2 wp_step. destruct (strToQvalue _) as [[v k]|] eqn:Eq; [|wp_step].
      do 3 wp_step. destruct (strToQvalue_Q _ _ _ Eq) as (q & Hq & _).
      apply (wp_lift _ _ q); [done|]. wp_step. media_facts. subst.
      match goal with H : advance _ _ = _ |- _ => apply advance_le in H end. lia.
    + do 6 wp_step. do 1 wp_step; [wp_step|]. bool_to_prop.
      do 9 wp_step. media_facts. subst.
      match goal with H : advance 1 _ = _ |- _ => apply advance_1_lt in H; [|done] end. lia.
Qed.

Lemma parse_params_returns fuel str s :
  (remaining (fst s) <= fuel)%nat ->
  wp (parse_params fuel str) (fun _ s' => eof (fst s') = true) (fun e _ => unsupported e) s.
Proof.
  revert s. induction fuel as [|fuel IH]; intros s Hs; cbn [parse_params]; do 3 wp_step; [wp_step; done| |wp_step; done|].
  - exfalso. unfold eof in *. bool_to_prop. lia.
  - wp_step. eapply wp_mono; [by apply parse_param_progress| |done].
    intros a s' Hlt. cbn beta in Hlt. apply IH. lia.
Qed.

Lemma parse_subtype_returns s :
  wp parse_subtype (fun _ s' => (remaining (fst s') <= remaining (fst s))%nat) (fun e _ => unsupported e) s.
Proof.
  destruct s as [c m]. unfold parse_subtype. do 6 wp_step;
  [wp_step | do 3 wp_step]; repeat wp_step; media_facts; lia.
Qed.

Lemma parse_suffix_returns s :
  wp parse_suffix (fun _ s' => (remaining (fst s') <= remaining (fst s))%nat) (fun e _ => unsupported e) s.
Proof.
  destruct s as [c m]. unfold parse_suffix. do 3 wp_step; [|wp_step; media_facts; by subst].
  do 3 wp_step; [wp_step|]. do 2 wp_step. case_match; repeat wp_step; media_facts; lia.
Qed.


Lemma parse_media_returns str len m :
  wp (parse_media str len) (fun _ _ => True) (fun e _ => unsupported e) (RawStreamBuf (take len str), m).
Proof.
  unfold parse_media. do 4 wp_step. destruct a as [t|]; [|wp_step].
  do 4 wp_step. wp_step; [wp_step|]. do 3 wp_step; [wp_step|]. media_facts.
  wp_step. eapply wp_mono; [apply parse_subtype_returns| |done]. intros b [c1 m1] Hc1. cbn [fst snd] in *.
  do 3 wp_step; [by wp_step|]. wp_step.
  eapply wp_mono; [apply parse_suffix_returns| |done]. intros b' [c2 m2] Hc2. cbn [fst snd] in *.
  eapply wp_mono; [apply parse_params_returns| |done]; [|done].
  destruct a; [|done]. cbn [fst]. assert (remaining (RawStreamBuf (take len str)) <= len)%nat.
  { unfold remaining, in_avail. simpl. rewrite length_take. lia. }
  lia.
Qed.

(** ** Every media type the library can name *)

Definition known_types : list Type_.t := map snd MIME_TYPES.
Definition known_subtypes : list Subtype.t := map snd MIME_SUBTYPES.
Definition known_suffixes : list Suffix.t := Suffix.None :: map snd MIME_SUFFIXES.

Definition reparsed (order : gmap bytes bytes -> list (bytes * bytes)) t s x : bool :=
  match MediaType_fromString (MediaType_toString order (MediaType_of t s x)) with
  | Ok m => MediaType_eqb m (MediaType_of t s x) && bool_decide (q_ m = None)
            && bool_decide (params m = ∅)
  | _ => false
  end.

Lemma reparsed_all :
  forallb (fun t => forallb (fun s => forallb (fun x =>
    reparsed (fun _ => []) t s x) known_suffixes) known_subtypes) known_types = true.
Proof. vm_compute. reflexivity. Qed.

Lemma in_known t s x :
  t <> Type_.None -> s <> Subtype.None -> s <> Subtype.Vendor -> s <> Subtype.Ext -> x <> Suffix.Ext ->
  In t known_types /\ In s known_subtypes /\ In x known_suffixes.
Proof. intros. split_and!; [destruct t|destruct s|destruct x]; simpl; tauto. Qed.

(** ** [fromFile] *)

Lemma last_extension_nodot p e : dot ∉ p -> last_extension p e = e.
Proof.
  revert e. induction p as [|a p IH]; intros e Hp; simpl; [done|].
  rewrite decide_False by set_solver. apply IH. set_solver.
Qed.

Lemma last_extension_app base ext e : dot ∉ ext -> last_extension (base ++ dot :: ext) e = Some ext.
Proof.
  intros Hext. revert e. induction base as [|a base IH]; intros e; simpl.
  - destruct (decide (dot = dot)); [by apply last_extension_nodot|done].
  - apply IH.
Qed.

(** ** Properties *)

(** [parseRaw] of any text into any object returns, and the only exception it
    throws is the 415 [HttpError]: the loop over the parameters terminates and
    the quality values it reads never upset [Q]. *)
Theorem parseRaw_total str len m :
  match snd (MediaType_parseRaw str len m) with
  | Ok _ => True
  | Throw e => exists w, e = HttpError 415 w
  | UB | OutOfFuel => False
  end.
Proof.
  pose proof (parse_media_returns str len m) as H. unfold wpg in H.
  unfold MediaType_parseRaw. destruct (parse_media str len _) as [[c m'] [a|e| |]]; done.
Qed.

(** A media type built from a type, subtype and suffix the library names prints
    to a text that parses back to an equal media type with no quality and no
    parameters. *)
Theorem media_type_roundtrip order t s x :
  (forall m : gmap bytes bytes, order m ≡ₚ map_to_list m) ->
  t <> Type_.None -> s <> Subtype.None -> s <> Subtype.Vendor -> s <> Subtype.Ext -> x <> Suffix.Ext ->
  exists m, MediaType_fromString (MediaType_toString order (MediaType_of t s x)) = Ok m
    /\ MediaType_eqb m (MediaType_of t s x) = true /\ q_ m = None /\ params m = ∅.
Proof.
  intros Ho Ht Hs1 Hs2 Hs3 Hx. destruct (in_known t s x Ht Hs1 Hs2 Hs3 Hx) as (It & Is & Ix).
  assert (MediaType_toString order (MediaType_of t s x)
          = MediaType_toString (fun _ => []) (MediaType_of t s x)) as ->.
  { unfold MediaType_toString. cbn [params MediaType_of].
    pose proof (Ho ∅) as E. rewrite map_to_list_empty in E. apply Permutation_nil_r in E. by rewrite E. }
  pose proof reparsed_all as H. rewrite forallb_forall in H. specialize (H t It).
  rewrite forallb_forall in H. specialize (H s Is). rewrite forallb_forall in H. specialize (H x Ix).
  unfold reparsed in H. destruct (MediaType_fromString _) as [m| | |]; [|done..].
  exists m. bool_to_prop. rewrite !bool_decide_eq_true in *. done.
Qed.

(** [fromFile] looks at what follows the last dot of the name, and only at it. *)
Theorem fromFile_spec base ext :
  dot ∉ ext ->
  MediaType_fromFile (base ++ dot :: ext)
  = match lookup_text ext KnownExtensions with
    | Some (t, s) => MediaType_of t s Suffix.None
    | None => MediaType_default
    end
  /\ MediaType_fromFile ext = MediaType_default.
Proof.
  intros Hext. unfold MediaType_fromFile.
  rewrite last_extension_app, last_extension_nodot by done. done.
Qed.

(** ** Witnesses *)

Lemma media_type_roundtrip_witness :
  exists m, MediaType_fromString (MediaType_toString map_to_list
      (MediaType_of Type_.Application Subtype.Json Suffix.Zip)) = Ok m
    /\ MediaType_eqb m (MediaType_of Type_.Application Subtype.Json Suffix.Zip) = true
    /\ q_ m = None /\ params m = ∅.
Proof. apply (media_type_roundtrip map_to_list); done. Defined.

Lemma fromFile_spec_witness :
  (dot ∉ B "png")
  /\ MediaType_fromFile (B "a.b.png") = MediaType_of Type_.Image Subtype.Png Suffix.None
  /\ MediaType_fromFile (B "png") = MediaType_default.
Proof.
  assert (dot ∉ B "png") as H by (rewrite <- find_char_None; reflexivity).
  split; [exact H|]. apply (fromFile_spec (B "a.b") (B "png")). exact H.
Defined.
