(* ===== verification/Cookie.v ===== *)
(** * Cookies: [include/pistache/cookie.h] and [src/common/cookie.cc]

    [Cookie] with its parser and printer, and [CookieJar].  The [std::map] of
    extension attributes is an association list sorted by key, as it is iterated;
    the two levels of [unordered_map] of the jar are finite maps, and what depends
    on their iteration order takes the order as an argument. *)

From S2P Require Import Prelude Cxx HttpDefs Stream.

Local Open Scope Z_scope.

(** ** [std::map<std::string, std::string>] *)

Fixpoint bytes_compare (s t : bytes) : comparison :=
  match s, t with
  | [], [] => Eq
  | [], _ => Lt
  | _, [] => Gt
  | a :: s', b :: t' =>
      match uchar a ?= uchar b with Eq => bytes_compare s' t' | c => c end
  end.

(** [insert]: an existing key keeps its value. *)
Fixpoint map_insert (k v : bytes) (m : list (bytes * bytes)) : list (bytes * bytes) :=
  match m with
  | [] => [(k, v)]
  | (k', v') :: m' =>
      match bytes_compare k k' with
      | Lt => (k, v) :: m
      | Eq => m
      | Gt => (k', v') :: map_insert k v m'
      end
  end.

(** ** [Cookie] *)

Record Cookie : Set := {
  name : bytes;
  value : bytes;
  path : option bytes;
  domain : option bytes;
  expires : option Z;
  maxAge : option Z;
  secure : bool;
  httpOnly : bool;
  ext : list (bytes * bytes) }.

Definition Cookie_new (name value : bytes) : Cookie :=
  {| name := name; value := value; path := None; domain := None; expires := None;
     maxAge := None; secure := false; httpOnly := false; ext := [] |}.

Definition set_path (v : bytes) (c : Cookie) : Cookie :=
  {| name := name c; value := value c; path := Some v; domain := domain c; expires := expires c;
     maxAge := maxAge c; secure := secure c; httpOnly := httpOnly c; ext := ext c |}.
Definition set_domain (v : bytes) (c : Cookie) : Cookie :=
  {| name := name c; value := value c; path := path c; domain := Some v; expires := expires c;
     maxAge := maxAge c; secure := secure c; httpOnly := httpOnly c; ext := ext c |}.
Definition set_expires (v : Z) (c : Cookie) : Cookie :=
  {| name := name c; value := value c; path := path c; domain := domain c; expires := Some v;
     maxAge := maxAge c; secure := secure c; httpOnly := httpOnly c; ext := ext c |}.
Definition set_maxAge (v : Z) (c : Cookie) : Cookie :=
  {| name := name c; value := value c; path := path c; domain := domain c; expires := expires c;
     maxAge := Some v; secure := secure c; httpOnly := httpOnly c; ext := ext c |}.
Definition set_secure (c : Cookie) : Cookie :=
  {| name := name c; value := value c; path := path c; domain := domain c; expires := expires c;
     maxAge := maxAge c; secure := true; httpOnly := httpOnly c; ext := ext c |}.
Definition set_httpOnly (c : Cookie) : Cookie :=
  {| name := name c; value := value c; path := path c; domain := domain c; expires := expires c;
     maxAge := maxAge c; secure := secure c; httpOnly := true; ext := ext c |}.
Definition set_ext (e : list (bytes * bytes)) (c : Cookie) : Cookie :=
  {| name := name c; value := value c; path := path c; domain := domain c; expires := expires c;
     maxAge := maxAge c; secure := secure c; httpOnly := httpOnly c; ext := e |}.

(** ** [Cookie::fromRaw] *)

Definition semicolon : Ascii.ascii := chr 59.
Definition equals : Ascii.ascii := chr 61.

(** [matchValue(cursor).text()]. *)
Definition matchValue : parser Cookie bytes :=
  c ← cursor_;
  if negb (current c =? Eof) && negb (current c =? 61) then throw (RuntimeError (B "Invalid cookie"))
  else
    ok ← on_cursor (advance 1);
    if negb ok then throw (RuntimeError (B "Invalid cookie, early eof"))
    else
      c ← cursor_;
      let token := position c in
      _ ← on_cursor (match_until [semicolon] Insensitive);
      c ← cursor_;
      mret (Token_text token c).

(** [strntol]: two [int] operations per digit. *)
Fixpoint strntol (ret : Z) (str : bytes) : result Z :=
  match str with
  | [] => Ok ret
  | a :: str' =>
      if negb (isdigit a) then Throw (InvalidArgument (B "Invalid conversion"))
      else
        let ret := ret * 10 in
        if 2 ^ 31 <=? ret then UB
        else let ret := ret + digit_val a in
             if 2 ^ 31 <=? ret then UB else strntol ret str'
  end.

Section Parse.
Context `{DateLib}.

(** The known attributes in the order they are tried, each with its
    [AttributeMatcher]. *)
Definition match_string_attr (set : bytes -> Cookie -> Cookie) : parser Cookie unit :=
  v ← matchValue; on_object (set v).
Definition match_int_attr (set : Z -> Cookie -> Cookie) : parser Cookie unit :=
  v ← matchValue; n ← lift (strntol 0 v); on_object (set n).
Definition match_bool_attr (set : Cookie -> Cookie) : parser Cookie unit := on_object set.
Definition match_date_attr (set : Z -> Cookie -> Cookie) : parser Cookie unit :=
  v ← matchValue; d ← lift (FullDate_fromString v); on_object (set d).

Definition attributes : list (bytes * parser Cookie unit) :=
  [(B "Path", match_string_attr set_path); (B "Domain", match_string_attr set_domain);
   (B "Secure", match_bool_attr set_secure); (B "HttpOnly", match_bool_attr set_httpOnly);
   (B "Max-Age", match_int_attr set_maxAge); (B "Expires", match_date_attr set_expires)].

(** The [if]/[else if] chain of [match_attribute] calls with its final [else]. *)
Fixpoint match_attribute (attrs : list (bytes * parser Cookie unit)) (otherwise : parser Cookie unit)
  : parser Cookie unit :=
  match attrs with
  | [] => otherwise
  | (name, m) :: attrs' =>
      ok ← on_cursor (match_string name Insensitive);
      if ok : bool then _ ← m; _ ← on_cursor (advance 1); mret tt
      else match_attribute attrs' otherwise
  end.

(** The extension attribute: the [;] after its value is left in place. *)
Definition match_extension : parser Cookie unit :=
  c ← cursor_;
  let nameToken := position c in
  _ ← on_cursor (match_until [equals] Insensitive);
  c ← cursor_;
  let name := Token_text nameToken c in
  value ← (if negb (eof c) then matchValue else mret []);
  on_object (fun k => set_ext (map_insert name value (ext k)) k).

Definition skip_ws : parser Cookie unit := on_cursor (fun c => (tt, skip_whitespaces c)).

Definition parse_attribute : parser Cookie unit :=
  _ ← skip_ws; match_attribute attributes match_extension.

(** [do { ... } while (!cursor.eof())], one unit of fuel per iteration after the
    first. *)
Fixpoint parse_attributes (fuel : nat) : parser Cookie unit :=
  _ ← parse_attribute;
  c ← cursor_;
  if eof c then mret tt
  else match fuel with O => lift OutOfFuel | S fuel' => parse_attributes fuel' end.

Definition Cookie_fromRaw (raw : bytes) : result Cookie :=
  let cursor := RawStreamBuf raw in
  let '(ok, cursor) := match_until [equals] Insensitive cursor in
  if negb ok then Throw (RuntimeError (B "Invalid cookie, missing value"))
  else
    let name_ := Token_text 0 cursor in
    let '(ok, cursor) := advance 1 cursor in
    if negb ok then Throw (RuntimeError (B "Invalid cookie, missing value"))
    else
      let valueToken := position cursor in
      let '(_, cursor) := match_until [semicolon] Insensitive cursor in
      let value_ := Token_text valueToken cursor in
      let cookie := Cookie_new name_ value_ in
      if eof cursor then Ok cookie
      else
        let '(_, cursor) := advance 1 cursor in
        let '((_, cookie), r) := parse_attributes (remaining cursor) (cursor, cookie) in
        _ ← r; Ok cookie.

Definition Cookie_fromString (str : bytes) : result Cookie := Cookie_fromRaw str.

(** ** [Cookie::write] *)

Fixpoint write_ext (e : list (bytes * bytes)) : bytes :=
  match e with
  | [] => []
  | [(k, v)] => k ++ B "=" ++ v
  | (k, v) :: e' => k ++ B "=" ++ v ++ B "; " ++ write_ext e'
  end.

Definition Cookie_write (c : Cookie) : bytes :=
  name c ++ B "=" ++ value c
  ++ match path c with Some v => B "; " ++ B "Path=" ++ v | None => [] end
  ++ match domain c with Some v => B "; " ++ B "Domain=" ++ v | None => [] end
  ++ match maxAge c with Some v => B "; " ++ B "Max-Age=" ++ to_string v | None => [] end
  ++ match expires c with Some v => B "; " ++ B "Expires=" ++ FullDate_write RFC1123 v | None => [] end
  ++ (if secure c then B "; Secure" else [])
  ++ (if httpOnly c then B "; HttpOnly" else [])
  ++ match ext c with [] => [] | e => B "; " ++ write_ext e end.
End Parse.

(** ** [CookieJar] *)

Abbreviation CookieJar := (gmap bytes (gmap bytes Cookie)).
Definition CookieJar_empty : CookieJar := ∅.

(** [insert] on an [unordered_map]. *)
Definition insert_new {A : Type} (k : bytes) (a : A) (m : gmap bytes A) : gmap bytes A :=
  match m !! k with Some _ => m | None => <[k := a]> m end.

Definition CookieJar_add (cookie : Cookie) (jar : CookieJar) : CookieJar :=
  match jar !! name cookie with
  | None => insert_new (name cookie) (insert_new (value cookie) cookie ∅) jar
  | Some inner => <[name cookie := insert_new (value cookie) cookie inner]> jar
  end.

Definition CookieJar_removeAllCookies (_ : CookieJar) : CookieJar := ∅.

Definition jar_skip_ws : parser CookieJar unit := on_cursor (fun c => (tt, skip_whitespaces c)).

(** One iteration of [addFromRaw]'s loop, and the loop. *)
Definition add_one : parser CookieJar unit :=
  c ← cursor_;
  let nameToken := position c in
  ok ← on_cursor (match_until [equals] Insensitive);
  if negb ok then throw (RuntimeError (B "Invalid cookie, missing value"))
  else
    c ← cursor_;
    let name := Token_text nameToken c in
    ok ← on_cursor (advance 1);
    if negb ok then throw (RuntimeError (B "Invalid cookie, missing value"))
    else
      c ← cursor_;
      let valueToken := position c in
      _ ← on_cursor (match_until [semicolon] Insensitive);
      c ← cursor_;
      let value := Token_text valueToken c in
      _ ← on_object (CookieJar_add (Cookie_new name value));
      _ ← on_cursor (advance 1);
      jar_skip_ws.

Fixpoint add_all (fuel : nat) : parser CookieJar unit :=
  c ← cursor_;
  if eof c then mret tt
  else match fuel with O => lift OutOfFuel | S fuel' => _ ← add_one; add_all fuel' end.

(** The cookies added before a throw stay in the jar. *)
Definition CookieJar_addFromRaw (raw : bytes) : M CookieJar unit := fun jar =>
  let '((_, jar'), r) := add_all (length raw) (RawStreamBuf raw, jar) in (jar', r).

(** [get]: [begin_] is the element the inner map is iterated from. *)
Definition CookieJar_get (begin_ : gmap bytes Cookie -> option Cookie) (name : bytes) (jar : CookieJar)
  : result Cookie :=
  match jar !! name with
  | Some inner => match begin_ inner with Some c => Ok c | None => UB end
  | None => Throw (RuntimeError (B "Could not find requested cookie"))
  end.

Definition CookieJar_has (name : bytes) (jar : CookieJar) : bool := bool_decide (is_Some (jar !! name)).

(** *** [CookieJar::iterator]

    [jar_order] and [values_order] are the sequences the outer and the inner
    [unordered_map]s are iterated in; an iterator is what is left of both. *)

Section Iterator.
Context (jar_order : CookieJar -> list (bytes * gmap bytes Cookie)).
Context (values_order : gmap bytes Cookie -> list (bytes * Cookie)).

Record iterator : Type := Iterator {
  iter_storage : list (bytes * gmap bytes Cookie);
  iter_cookie_values : list (bytes * Cookie) }.

Definition begin_values (storage : list (bytes * gmap bytes Cookie)) : list (bytes * Cookie) :=
  match storage with [] => [] | (_, inner) :: _ => values_order inner end.

Definition jar_begin (jar : CookieJar) : iterator := Iterator (jar_order jar) (begin_values (jar_order jar)).

(** [operator*]; an inner map without an element is dereferenced at its end. *)
Definition iterator_deref (it : iterator) : result Cookie :=
  match iter_cookie_values it with (_, c) :: _ => Ok c | [] => UB end.

(** [operator++] *)
Definition iterator_next (it : iterator) : iterator :=
  match tail (iter_cookie_values it) with
  | [] => Iterator (tail (iter_storage it)) (begin_values (tail (iter_storage it)))
  | values => Iterator (iter_storage it) values
  end.

(** [for (const auto& cookie : jar)]: [operator!=] compares the outer iterators. *)
Fixpoint iterate (fuel : nat) (it : iterator) : result (list Cookie) :=
  match iter_storage it with
  | [] => Ok []
  | _ => match fuel with
         | O => OutOfFuel
         | S fuel' => c ← iterator_deref it; cs ← iterate fuel' (iterator_next it); Ok (c :: cs)
         end
  end.

(** How many cookies the maps hold. *)
Definition storage_size (storage : list (bytes * gmap bytes Cookie)) : nat :=
  sum_list (map (fun e => length (values_order e.2)) storage).

Definition CookieJar_list (jar : CookieJar) : result (list Cookie) :=
  iterate (storage_size (jar_order jar)) (jar_begin jar).

End Iterator.

(** ** The loops end *)

Ltac wp_cookie := wp_step_with fail.

Lemma skip_blanks_le p l : (length (after (skip_blanks p l)) <= length l)%nat.
Proof. revert p. induction l as [|a l IH]; intros p; simpl; [lia|]. destruct (_ || _); simpl; [|lia]. specialize (IH (p ++ [a])). lia. Qed.

Lemma skip_whitespaces_le c : (remaining (skip_whitespaces c) <= remaining c)%nat.
Proof. apply skip_blanks_le. Qed.

Lemma match_string_lt s c ok c' :
  match_string s Insensitive c = (ok, c') -> s <> [] ->
  if ok then (remaining c' < remaining c)%nat else c' = c.
Proof.
  unfold match_string. intros H Hs. destruct (remaining c <? length s)%nat eqn:E; [by simplify_eq|].
  bool_to_prop. case_bool_decide; simplify_eq; [|done].
  rewrite sbump_remaining. destruct s; [done|]. simpl in *. lia.
Qed.

Section Termination.
Context `{DateLib}.

Lemma strntol_fuel r s : strntol r s <> OutOfFuel.
Proof. revert r. induction s as [|a s IH]; intros r; simpl; [done|]. by repeat case_match. Qed.

Lemma fromString_fuel s : FullDate_fromString s <> OutOfFuel.
Proof.
  unfold FullDate_fromString, parse_epoch, stoull, time_point_of_seconds.
  repeat case_match; cbn; repeat case_match; congruence.
Qed.

Lemma matchValue_lt s :
  wpg True matchValue (fun _ s' => (remaining (fst s') < remaining (fst s))%nat \/ eof (fst s') = true)
    (fun _ _ => True) s.
Proof.
  destruct s as [c k]. unfold matchValue. do 2 wp_cookie. wp_cookie; [done|].
  do 2 wp_cookie. wp_cookie; [done|]. do 6 wp_cookie. cursor_facts.
  destruct (eof c) eqn:E.
  - right. match goal with Ha : advance 1 c = _ |- _ => rewrite advance_1 in Ha end.
    unfold eof, remaining, in_avail in *. destruct (after c); [|done]. by simplify_eq.
  - left. match goal with Ha : advance 1 c = _ |- _ => apply advance_1_lt in Ha; [|done] end. simpl. lia.
Qed.

Lemma attribute_returns n m s :
  In (n, m) attributes -> wpg True m (fun _ s' => (remaining (fst s') <= remaining (fst s))%nat) (fun _ _ => True) s.
Proof.
  assert (forall s, wpg True matchValue (fun _ s' => (remaining (fst s') <= remaining (fst s))%nat) (fun _ _ => True) s) as HV.
  { intros s0. eapply wp_mono; [apply matchValue_lt| |done]. intros v [c k] [Hlt|He]; simpl in *; [lia|].
    unfold eof in He. bool_to_prop. lia. }
  assert (forall s0 (P : bytes -> cursor * Cookie -> Prop) (E : exn -> cursor * Cookie -> Prop),
    (forall v s', (remaining (fst s') <= remaining (fst s0))%nat -> P v s') -> (forall e s', E e s') ->
    wpg True matchValue P E s0) as HM.
  { intros. eapply wp_mono; [apply HV|intros; cbn beta in *; eauto|eauto]. }
  intros Hin. unfold attributes in Hin. cbn [In] in Hin.
  repeat destruct Hin as [E|Hin]; [..|done]; injection E as <- <-.
  - apply wp_bind, HM; [|done]. intros v s' Hle. by apply wp_on_object.
  - apply wp_bind, HM; [|done]. intros v s' Hle. by apply wp_on_object.
  - by apply wp_on_object.
  - by apply wp_on_object.
  - apply wp_bind, HM; [|done]. intros v s' Hle. apply wp_bind, wp_lift_any; [done|apply strntol_fuel| |done].
    intros n0 _. by apply wp_on_object.
  - apply wp_bind, HM; [|done]. intros v s' Hle. apply wp_bind, wp_lift_any; [done|apply fromString_fuel| |done].
    intros n0 _. by apply wp_on_object.
Qed.

(** One round of the attribute loop moves on, or is at the end. *)
Definition moves_on (s s' : cursor * Cookie) : Prop :=
  (remaining (fst s') < remaining (fst s))%nat \/ eof (fst s') = true.

Lemma match_extension_moves s :
  wpg True match_extension (fun _ s' => moves_on s s') (fun _ _ => True) s.
Proof.
  destruct s as [c k]. unfold match_extension, moves_on. do 7 wp_cookie.
  wp_cookie; [|wp_cookie; wp_cookie; right; simpl; by apply negb_false_iff].
  eapply wp_mono; [apply matchValue_lt| |done]. intros v [c2 k2] [Hlt|He]; cbn [fst snd] in *.
  - wp_cookie. left. cursor_facts. simpl. lia.
  - wp_cookie. by right.
Qed.

Lemma match_attribute_moves attrs s :
  (forall n m, In (n, m) attrs -> n <> [] /\ forall s0, wpg True m
     (fun _ s' => (remaining (fst s') <= remaining (fst s0))%nat) (fun _ _ => True) s0) ->
  wpg True (match_attribute attrs match_extension) (fun _ s' => moves_on s s') (fun _ _ => True) s.
Proof.
  revert s. induction attrs as [|[n m] attrs IH]; intros s Hattrs; cbn [match_attribute].
  { apply match_extension_moves. }
  destruct (Hattrs n m (or_introl eq_refl)) as [Hn Hm].
  wp_cookie. wp_cookie. match goal with Ha : match_string _ _ _ = _ |- _ => apply match_string_lt in Ha; [|done] end.
  destruct a.
  - wp_cookie. eapply wp_mono; [apply Hm| |done]. intros u [c2 k2] Hle. cbn [fst snd] in *.
    do 3 wp_cookie. left. simpl.
    match goal with Ha : advance _ _ = _ |- _ => apply advance_le in Ha end. lia.
  - subst c'. destruct s as [c k]. apply IH. intros n' m' Hin. apply Hattrs. by right.
Qed.

Lemma parse_attribute_moves s :
  wpg True parse_attribute (fun _ s' => moves_on s s') (fun _ _ => True) s.
Proof.
  unfold parse_attribute, skip_ws. wp_cookie. wp_cookie.
  match goal with Ha : (_, _) = _ |- _ => injection Ha as <- <- end.
  eapply wp_mono; [apply match_attribute_moves| |done].
  - intros n m Hin. split; [|intros; by eapply attribute_returns].
    unfold attributes in Hin. cbn [In] in Hin. repeat destruct Hin as [E|Hin]; [..|done]; by injection E as <- <-.
  - intros u s' [Hlt|He]; [left|by right]. cbn [fst] in Hlt.
    pose proof (skip_whitespaces_le (fst s)). lia.
Qed.

Lemma parse_attributes_returns fuel s :
  (remaining (fst s) <= fuel)%nat ->
  wpg True (parse_attributes fuel) (fun _ s' => eof (fst s') = true) (fun _ _ => True) s.
Proof.
  revert s. induction fuel as [|fuel IH]; intros s Hs; cbn [parse_attributes]; apply wp_bind;
    (eapply wp_mono; [apply parse_attribute_moves| |done]); intros u s' Hm; wp_cookie; wp_cookie; wp_cookie;
    try by wp_cookie.
  - destruct Hm as [Hm|Hm]; [lia|congruence].
  - destruct Hm as [Hm|Hm]; [|congruence]. apply IH. lia.
Qed.
End Termination.

Lemma add_one_lt s :
  wp add_one (fun _ s' => remaining (fst s') < remaining (fst s))%nat
     (fun e _ => e = RuntimeError (B "Invalid cookie, missing value")) s.
Proof.
  destruct s as [c k]. unfold add_one. do 4 wp_cookie. wp_cookie; [wp_cookie; done|].
  do 4 wp_cookie. wp_cookie; [wp_cookie; done|]. do 10 wp_cookie.
  apply wp_on_cursor. intros u c3 Hc3. cbn [fst snd] in *. injection Hc3 as <- <-.
  match goal with Ha : match_until [equals] _ _ = _ |- _ => apply match_until_moves in Ha as (pre & Hm & _ & Hs) end.
  destruct a; [|done]. destruct Hs as (a & l & Ea & _). apply moves_remaining in Hm.
  match goal with Ha : advance 1 c' = _ |- _ => apply advance_1_lt in Ha;
    [|unfold eof, remaining, in_avail; by rewrite Ea] end.
  repeat match goal with Ha : advance _ _ = _ |- _ => apply advance_le in Ha end. cursor_facts.
  match goal with |- (remaining (skip_whitespaces ?x) < _)%nat => pose proof (skip_whitespaces_le x) end. lia.
Qed.

Lemma add_all_returns fuel s :
  (remaining (fst s) <= fuel)%nat ->
  wp (add_all fuel) (fun _ s' => eof (fst s') = true)
     (fun e _ => e = RuntimeError (B "Invalid cookie, missing value")) s.
Proof.
  revert s. induction fuel as [|fuel IH]; intros s Hs; cbn [add_all]; do 3 wp_cookie; try by wp_cookie.
  - exfalso. unfold eof in *. bool_to_prop. lia.
  - wp_cookie. eapply wp_mono; [apply add_one_lt| |done]. intros u s' Hlt. apply IH. cbn beta in Hlt. lia.
Qed.

(** ** Reading the text of a cookie *)

Lemma match_string_hit s p rest :
  match_string s Insensitive (Cursor p (s ++ rest)) = (true, Cursor (p ++ s) rest).
Proof.
  unfold match_string, remaining, in_avail, sbump. cbn [after before]. rewrite length_app.
  rewrite (proj2 (Nat.ltb_ge _ _)) by lia. rewrite take_app_length, drop_app_length.
  by rewrite bool_decide_eq_true_2.
Qed.

Lemma match_until_hit (ch : Ascii.ascii) p l rest :
  tolower ch = ch -> ch ∉ l ->
  match_until [ch] Insensitive (Cursor p (l ++ ch :: rest)) = (true, Cursor (p ++ l) (ch :: rest)).
Proof.
  intros Hc Hl. unfold match_until, eof, remaining, in_avail. cbn [after]. rewrite length_app. simpl length.
  rewrite (proj2 (Nat.eqb_neq _ 0)) by lia.
  apply (scan_stop _ (Cursor p (l ++ ch :: rest))); [done| |]; cbn [after].
  - intros k Hk. unfold until_stop. cbn [after]. rewrite drop_app_le by lia.
    destruct (lookup_lt_is_Some_2 l k Hk) as [a Ha]. rewrite (drop_S _ _ _ Ha). cbn.
    rewrite Hc, orb_false_r. apply bool_decide_eq_false_2. intros <-.
    apply Hl. by eapply list_elem_of_lookup_2.
  - cbn. rewrite Hc. by rewrite bool_decide_eq_true_2.
Qed.

Lemma match_until_end (ch : Ascii.ascii) p l :
  tolower ch = ch -> ch ∉ l ->
  match_until [ch] Insensitive (Cursor p l) = (false, Cursor (p ++ l) []).
Proof.
  intros Hc Hl. destruct (match_until [ch] Insensitive (Cursor p l)) as [ok c'] eqn:E.
  apply match_until_moves in E as (pre & [Ha Hb] & _ & Hs). cbn [after before] in *. destruct ok.
  - destruct Hs as (a & l' & E & Hf). exfalso. apply Hl. rewrite Ha, E.
    cbn in Hf. rewrite Hc, orb_false_r in Hf. apply bool_decide_eq_true in Hf. subst. set_solver.
  - unfold eof, remaining, in_avail in Hs. bool_to_prop. apply nil_length_inv in Hs.
    rewrite Hs, app_nil_r in Ha. destruct c' as [b a]. simpl in *. by subst.
Qed.

(** The rest of a cookie: nothing, or a [;] and more. *)
Definition rest_ok (rest : bytes) : Prop := match rest with [] => True | a :: _ => a = semicolon end.

Lemma match_until_rest p l rest :
  semicolon ∉ l -> rest_ok rest ->
  exists b, match_until [semicolon] Insensitive (Cursor p (l ++ rest)) = (b, Cursor (p ++ l) rest).
Proof.
  intros Hl Hr. destruct rest as [|a rest]; simpl in Hr; subst.
  - rewrite app_nil_r. exists false. by apply match_until_end.
  - exists true. by apply match_until_hit.
Qed.

Lemma matchValue_eval p v rest k :
  semicolon ∉ v -> rest_ok rest ->
  matchValue (Cursor p (equals :: v ++ rest), k) = ((Cursor (p ++ equals :: v) rest, k), Ok v).
Proof.
  intros Hv Hr. unfold matchValue.
  erewrite bind_Ok by reflexivity. cbv beta.
  replace (negb _ && negb _) with false by reflexivity.
  rewrite (bind_Ok _ _ _ _ _ (on_cursor_eq _ _ _ _ _ (advance_1_cons _ _ _))). cbn [negb].
  erewrite bind_Ok by reflexivity. cbv beta zeta.
  destruct (match_until_rest (p ++ [equals]) v rest Hv Hr) as [b E]. cbn [fst].
  rewrite (bind_Ok _ _ _ _ _ (on_cursor_eq _ _ _ _ _ E)). erewrite bind_Ok by reflexivity. cbv beta.
  rewrite <- app_assoc. unfold mret, M_ret. do 2 f_equal. unfold Token_text, position. cbn [before fst].
  rewrite app_assoc. apply drop_app_exact. by rewrite length_app.
Qed.

Lemma strntol_digits r ds :
  Forall (fun a => isdigit a = true) ds -> 0 <= r ->
  fold_left (fun acc a => acc * 10 + digit_val a) ds r < 2 ^ 31 ->
  strntol r ds = Ok (fold_left (fun acc a => acc * 10 + digit_val a) ds r).
Proof.
  assert (forall ds r, Forall (fun a => isdigit a = true) ds -> 0 <= r ->
    r <= fold_left (fun acc a => acc * 10 + digit_val a) ds r) as Hmono.
  { intros l. induction l as [|a l IH]; intros x Hl Hx; simpl; [lia|].
    inversion Hl as [|? ? Ha Hl']; subst. apply digit_val_range in Ha.
    specialize (IH (x * 10 + digit_val a) Hl' ltac:(lia)). lia. }
  revert r. induction ds as [|a ds IH]; intros r Hds Hr Hlt; simpl in *; [done|].
  inversion Hds as [|? ? Ha Hds']; subst. rewrite Ha. apply digit_val_range in Ha.
  pose proof (Hmono ds (r * 10 + digit_val a) Hds' ltac:(lia)) as Hm. cbn [negb].
  rewrite !(proj2 (Z.leb_gt _ _)) by lia. apply IH; [done|lia|done].
Qed.

Lemma strntol_to_string n : 0 <= n < 2 ^ 31 -> strntol 0 (to_string n) = Ok n.
Proof.
  intros Hn. unfold to_string. rewrite (proj2 (Z.ltb_ge _ _)) by lia.
  destruct (to_string_u_spec n ltac:(lia)) as (E & F & _).
  assert (Forall (fun a => isdigit a = true) (to_string_u n)) as F'.
  { eapply Forall_impl; [|exact F]. intros a Ha. by rewrite <- is_base_digit_10. }
  assert (forall l r, Forall (fun a => isdigit a = true) l ->
    fold_left (fun acc a => acc * 10 + digit_val a) l r
    = fold_left (fun acc a => acc * 10 + default 0 (xdigit_val a)) l r) as Hf.
  { intros l. induction l as [|a l IH]; intros r Hl; [done|]. inversion Hl as [|? ? Ha Hl']; subst. simpl.
    unfold xdigit_val. rewrite Ha. by apply IH. }
  unfold base_value in E. rewrite <- Hf in E by done.
  rewrite strntol_digits by (done || lia). by rewrite E.
Qed.

Section Attributes.
Context `{DateLib}.

Inductive attr : Set :=
  | APath (v : bytes) | ADomain (v : bytes) | AMaxAge (n : Z) | AExpires (d : Z) | ASecure | AHttpOnly.

Definition attr_text (a : attr) : bytes :=
  match a with
  | APath v => B "Path=" ++ v
  | ADomain v => B "Domain=" ++ v
  | AMaxAge n => B "Max-Age=" ++ to_string n
  | AExpires d => B "Expires=" ++ FullDate_write RFC1123 d
  | ASecure => B "Secure"
  | AHttpOnly => B "HttpOnly"
  end.

Definition attr_set (a : attr) : Cookie -> Cookie :=
  match a with
  | APath v => set_path v | ADomain v => set_domain v | AMaxAge n => set_maxAge n
  | AExpires d => set_expires d | ASecure => set_secure | AHttpOnly => set_httpOnly
  end.

(** A date the library prints without a [;] and reads back. *)
Definition date_ok (d : Z) : Prop :=
  (semicolon ∉ FullDate_write RFC1123 d) /\ FullDate_fromString (FullDate_write RFC1123 d) = Ok d.

Definition attr_ok (a : attr) : Prop :=
  match a with
  | APath v | ADomain v => semicolon ∉ v
  | AMaxAge n => 0 <= n < 2 ^ 31
  | AExpires d => date_ok d
  | ASecure | AHttpOnly => True
  end.

Lemma match_attribute_miss n m attrs o c k :
  match_string n Insensitive c = (false, c) ->
  match_attribute ((n, m) :: attrs) o (c, k) = match_attribute attrs o (c, k).
Proof. intros E. cbn [match_attribute]. by rewrite (bind_Ok _ _ _ _ _ (on_cursor_eq _ _ _ _ _ E)). Qed.

Lemma match_attribute_hit n m attrs o p rest c2 k k' :
  m (Cursor (p ++ n) rest, k) = ((c2, k'), Ok tt) ->
  match_attribute ((n, m) :: attrs) o (Cursor p (n ++ rest), k) = ((snd (advance 1 c2), k'), Ok tt).
Proof.
  intros E. cbn [match_attribute].
  rewrite (bind_Ok _ _ _ _ _ (on_cursor_eq _ _ _ _ _ (match_string_hit n p rest))). cbv beta iota.
  rewrite (bind_Ok _ _ _ _ _ E). cbv beta. unfold mbind, M_bind, on_cursor. cbn [fst snd].
  by destruct (advance 1 c2).
Qed.

Lemma string_attr_eval set p v rest k :
  semicolon ∉ v -> rest_ok rest ->
  match_string_attr set (Cursor p (equals :: v ++ rest), k) = ((Cursor (p ++ equals :: v) rest, set v k), Ok tt).
Proof.
  intros Hv Hr. unfold match_string_attr. by rewrite (bind_Ok _ _ _ _ _ (matchValue_eval p v rest k Hv Hr)).
Qed.

Lemma to_string_nosemi n : 0 <= n -> semicolon ∉ to_string n.
Proof.
  intros Hn Hin. unfold to_string in Hin. rewrite (proj2 (Z.ltb_ge _ _)) in Hin by lia.
  destruct (to_string_u_spec n Hn) as (_ & F & _).
  rewrite list.Forall_forall in F. by apply F in Hin.
Qed.

Lemma int_attr_eval set p n rest k :
  0 <= n < 2 ^ 31 -> rest_ok rest ->
  match_int_attr set (Cursor p (equals :: to_string n ++ rest), k)
  = ((Cursor (p ++ equals :: to_string n) rest, set n k), Ok tt).
Proof.
  intros Hn Hr. unfold match_int_attr.
  rewrite (bind_Ok _ _ _ _ _ (matchValue_eval _ _ rest k (to_string_nosemi n (proj1 Hn)) Hr)).
  cbv beta. rewrite strntol_to_string by done. done.
Qed.

Lemma date_attr_eval set p d rest k :
  date_ok d -> rest_ok rest ->
  match_date_attr set (Cursor p (equals :: FullDate_write RFC1123 d ++ rest), k)
  = ((Cursor (p ++ equals :: FullDate_write RFC1123 d) rest, set d k), Ok tt).
Proof.
  intros [Hs Hd] Hr. unfold match_date_attr.
  rewrite (bind_Ok _ _ _ _ _ (matchValue_eval _ _ rest k Hs Hr)). cbv beta. by rewrite Hd.
Qed.

Lemma advance_rest p rest :
  rest_ok rest -> exists p', snd (advance 1 (Cursor p rest)) = Cursor p' (tail rest).
Proof. destruct rest as [|a rest]; intros _; rewrite advance_1; cbn; eauto. Qed.

(** One known attribute is recognised, whatever follows it. *)
Lemma match_attribute_eval a p rest k :
  attr_ok a -> rest_ok rest ->
  exists p', match_attribute attributes match_extension (Cursor p (attr_text a ++ rest), k)
             = ((Cursor p' (tail rest), attr_set a k), Ok tt).
Proof.
  intros Ha Hr. unfold attributes. destruct a as [v|v|n|d| |]; cbn [attr_text attr_ok attr_set] in *.
  - change (B "Path=" ++ v) with (B "Path" ++ equals :: v). rewrite <- app_assoc. cbn [app].
    erewrite match_attribute_hit by (by apply string_attr_eval).
    destruct (advance_rest ((p ++ B "Path") ++ equals :: v) rest Hr) as [p' ->]. eauto.
  - change (B "Domain=" ++ v) with (B "Domain" ++ equals :: v). rewrite <- app_assoc. cbn [app].
    rewrite match_attribute_miss by reflexivity.
    erewrite match_attribute_hit by (by apply string_attr_eval).
    destruct (advance_rest ((p ++ B "Domain") ++ equals :: v) rest Hr) as [p' ->]. eauto.
  - change (B "Max-Age=" ++ to_string n) with (B "Max-Age" ++ equals :: to_string n).
    rewrite <- app_assoc. cbn [app]. do 4 rewrite match_attribute_miss by reflexivity.
    erewrite match_attribute_hit by (by apply int_attr_eval).
    destruct (advance_rest ((p ++ B "Max-Age") ++ equals :: to_string n) rest Hr) as [p' ->]. eauto.
  - change (B "Expires=" ++ FullDate_write RFC1123 d) with (B "Expires" ++ equals :: FullDate_write RFC1123 d).
    rewrite <- app_assoc. cbn [app]. do 5 rewrite match_attribute_miss by reflexivity.
    erewrite match_attribute_hit by (by apply date_attr_eval).
    destruct (advance_rest ((p ++ B "Expires") ++ equals :: FullDate_write RFC1123 d) rest Hr) as [p' ->]. eauto.
  - do 2 rewrite match_attribute_miss by reflexivity.
    erewrite match_attribute_hit by reflexivity.
    destruct (advance_rest (p ++ B "Secure") rest Hr) as [p' E]. exists p'. by rewrite <- E.
  - do 3 rewrite match_attribute_miss by reflexivity.
    erewrite match_attribute_hit by reflexivity.
    destruct (advance_rest (p ++ B "HttpOnly") rest Hr) as [p' E]. exists p'. by rewrite <- E.
Qed.
End Attributes.

(** ** Whole cookies *)

Section Cookies.
Context `{DateLib}.

Definition join_attrs (l : list attr) : bytes := concat (map (fun a => B "; " ++ attr_text a) l).

Lemma join_attrs_ok l : rest_ok (join_attrs l).
Proof. by destruct l. Qed.

Lemma parse_attribute_eval a p rest k :
  attr_ok a -> rest_ok rest ->
  exists p', parse_attribute (Cursor p (B " " ++ attr_text a ++ rest), k)
             = ((Cursor p' (tail rest), attr_set a k), Ok tt).
Proof.
  intros Ha Hr. unfold parse_attribute, skip_ws.
  assert (skip_whitespaces (Cursor p (B " " ++ attr_text a ++ rest))
          = Cursor (p ++ B " ") (attr_text a ++ rest)) as E by (by destruct a).
  rewrite (bind_Ok _ _ _ _ _ (on_cursor_eq (fun c => (tt, skip_whitespaces c)) _ _ _ _ (f_equal (pair tt) E))).
  by apply match_attribute_eval.
Qed.

Lemma parse_attributes_eval l a fuel p k :
  attr_ok a -> Forall attr_ok l -> (length l <= fuel)%nat ->
  exists p', parse_attributes fuel (Cursor p (B " " ++ attr_text a ++ join_attrs l), k)
             = ((Cursor p' [], fold_left (fun k a => attr_set a k) (a :: l) k), Ok tt).
Proof.
  intros Ha Hl. revert a fuel p k Ha. induction Hl as [|b l Hb Hl IH]; intros a fuel p k Ha Hf.
  - destruct (parse_attribute_eval a p (join_attrs []) k Ha I) as [p' E]. exists p'.
    destruct fuel; cbn [parse_attributes]; by rewrite (bind_Ok _ _ _ _ _ E).
  - destruct fuel as [|fuel]; [simpl in Hf; lia|]. simpl in Hf.
    destruct (parse_attribute_eval a p (join_attrs (b :: l)) k Ha (join_attrs_ok (b :: l))) as [p' E].
    destruct (IH b fuel p' (attr_set a k) Hb ltac:(lia)) as [p'' E'].
    exists p''. cbn [parse_attributes]. rewrite (bind_Ok _ _ _ _ _ E). cbv beta.
    erewrite bind_Ok by reflexivity. cbv beta. cbn [fst]. exact E'.
Qed.

(** The attributes [Cookie::write] prints, in its order. *)
Definition opt_list {A : Type} (f : A -> attr) (o : option A) : list attr :=
  match o with Some a => [f a] | None => [] end.
Definition attrs_of (c : Cookie) : list attr :=
  opt_list APath (path c) ++ opt_list ADomain (domain c) ++ opt_list AMaxAge (maxAge c)
  ++ opt_list AExpires (expires c) ++ (if secure c then [ASecure] else [])
  ++ (if httpOnly c then [AHttpOnly] else []).

Record cookie_ok (c : Cookie) : Prop := {
  ok_name : equals ∉ name c;
  ok_value : semicolon ∉ value c;
  ok_attrs : Forall attr_ok (attrs_of c);
  ok_ext : ext c = [] }.

Lemma write_attrs c : ext c = [] -> Cookie_write c = name c ++ B "=" ++ value c ++ join_attrs (attrs_of c).
Proof.
  intros He. unfold Cookie_write, attrs_of, join_attrs. rewrite He, app_nil_r.
  do 3 f_equal. destruct (path c), (domain c), (maxAge c), (expires c), (secure c), (httpOnly c);
    cbn -[B]; rewrite ?app_nil_r, <- ?app_assoc; reflexivity.
Qed.

Lemma attrs_of_set c : ext c = [] ->
  fold_left (fun k a => attr_set a k) (attrs_of c) (Cookie_new (name c) (value c)) = c.
Proof.
  destruct c as [n v p d e m s h x]. simpl. intros ->.
  destruct p, d, m, e, s, h; reflexivity.
Qed.

Lemma Cookie_fromRaw_head n v rest :
  equals ∉ n -> semicolon ∉ v -> rest_ok rest ->
  exists p, Cookie_fromRaw (n ++ B "=" ++ v ++ rest)
  = match rest with
    | [] => Ok (Cookie_new n v)
    | _ :: rest' =>
        let '((_, cookie), r) := parse_attributes (length rest') (Cursor p rest', Cookie_new n v) in
        _ ← r; Ok cookie
    end.
Proof.
  intros Hn Hv Hr. unfold Cookie_fromRaw, RawStreamBuf. change (B "=" ++ v ++ rest) with (equals :: v ++ rest).
  rewrite match_until_hit by done. cbn [negb]. rewrite advance_1_cons. cbn [negb].
  destruct (match_until_rest (([] ++ n) ++ [equals]) v rest Hv Hr) as [b ->].
  cbv beta zeta. unfold Token_text, position. cbn [before app]. rewrite drop_0.
  rewrite drop_app_length. destruct rest as [|a rest']; [by exists []|].
  rewrite advance_1_cons. eexists. reflexivity.
Qed.

(** A cookie without extension attributes prints to a text that parses back to
    the same cookie. *)
Lemma cookie_reparse c : cookie_ok c -> Cookie_fromString (Cookie_write c) = Ok c.
Proof.
  intros [Hn Hv Ha He]. rewrite write_attrs by done. unfold Cookie_fromString.
  pose proof (attrs_of_set c He) as Hset.
  destruct (Cookie_fromRaw_head (name c) (value c) (join_attrs (attrs_of c)) Hn Hv (join_attrs_ok _)) as [p ->].
  destruct (attrs_of c) as [|a l] eqn:El; cbn in Hset; [by rewrite Hset|].
  inversion Ha as [|? ? Ha1 Hl]; subst.
  destruct (parse_attributes_eval l a (length (B " " ++ attr_text a ++ join_attrs l)) p
              (Cookie_new (name c) (value c)) Ha1 Hl) as [p' E].
  { rewrite !length_app. assert (length l <= length (join_attrs l))%nat; [|lia].
    clear. unfold join_attrs. induction l as [|a l IH]; [done|]. cbn [map concat length]. rewrite !length_app. simpl length at 2. lia. }
  change (join_attrs (a :: l)) with (semicolon :: B " " ++ attr_text a ++ join_attrs l).
  cbv iota. rewrite E. cbn. by rewrite Hset.
Qed.
End Cookies.

(** ** The jar *)

Definition jar_text (l : list (bytes * bytes)) : bytes :=
  concat (map (fun '(n, v) => B "; " ++ n ++ B "=" ++ v) l).

Definition starts_blank (l : bytes) : bool :=
  match l with a :: _ => (schar a =? 32) || (schar a =? 9) | [] => false end.

Definition pair_ok (p : bytes * bytes) : Prop :=
  (equals ∉ fst p) /\ (semicolon ∉ snd p) /\ starts_blank (fst p) = false.

Definition jar_add_pair (jar : CookieJar) (p : bytes * bytes) : CookieJar :=
  CookieJar_add (Cookie_new (fst p) (snd p)) jar.

Lemma skip_whitespaces_stop p l : starts_blank l = false -> skip_whitespaces (Cursor p l) = Cursor p l.
Proof. unfold skip_whitespaces. cbn [before after]. destruct l as [|a l]; simpl; [done|]. by intros ->. Qed.

(** One cookie of a [Cookie] header, with the separator after it. *)
Lemma add_one_eval n v l p jar :
  pair_ok (n, v) -> Forall pair_ok l ->
  exists p', add_one (Cursor p (n ++ B "=" ++ v ++ jar_text l), jar)
  = ((Cursor p' (drop 2 (jar_text l)), jar_add_pair jar (n, v)), Ok tt).
Proof.
  intros (Hn & Hv & _) Hl. cbn [fst snd] in *. unfold add_one.
  change (B "=" ++ v ++ jar_text l) with (equals :: v ++ jar_text l).
  erewrite bind_Ok by reflexivity. cbv beta zeta. cbn [fst].
  rewrite (bind_Ok _ _ _ _ _ (on_cursor_eq _ _ _ _ _
             (match_until_hit equals p n (v ++ jar_text l) eq_refl Hn))). cbn [negb].
  erewrite bind_Ok by reflexivity. cbv beta zeta.
  rewrite (bind_Ok _ _ _ _ _ (on_cursor_eq _ _ _ _ _ (advance_1_cons _ _ _))). cbn [negb].
  erewrite bind_Ok by reflexivity. cbv beta zeta. cbn [fst].
  assert (rest_ok (jar_text l)) as Hr by (destruct l as [|[]]; done).
  destruct (match_until_rest ((p ++ n) ++ [equals]) v (jar_text l) Hv Hr) as [b E].
  rewrite (bind_Ok _ _ _ _ _ (on_cursor_eq _ _ _ _ _ E)).
  erewrite bind_Ok by reflexivity. cbv beta zeta.
  unfold Token_text, position. cbn [before fst]. rewrite !drop_app_length.
  erewrite bind_Ok by reflexivity. cbv beta. cbn [fst snd].
  destruct l as [|[n' v'] l].
  - erewrite bind_Ok by reflexivity. eexists. reflexivity.
  - inversion Hl as [|? ? (_ & _ & Hb) _]; subst. cbn [fst] in Hb.
    change (jar_text ((n', v') :: l)) with (semicolon :: chr 32 :: (n' ++ B "=" ++ v') ++ jar_text l).
    rewrite (bind_Ok _ _ _ _ _ (on_cursor_eq _ _ _ _ _ (advance_1_cons _ _ _))).
    unfold jar_skip_ws, on_cursor. cbn [fst snd]. cbn [drop].
    change (skip_whitespaces (Cursor ?q (chr 32 :: ?k))) with (skip_whitespaces (Cursor (q ++ [chr 32]) k)).
    rewrite skip_whitespaces_stop; [eauto|]. rewrite <- !app_assoc. by destruct n'.
Qed.

Lemma add_all_eval l n v p jar fuel :
  pair_ok (n, v) -> Forall pair_ok l -> (length l < fuel)%nat ->
  exists p', add_all fuel (Cursor p (n ++ B "=" ++ v ++ jar_text l), jar)
  = ((Cursor p' [], fold_left jar_add_pair ((n, v) :: l) jar), Ok tt).
Proof.
  revert n v p jar fuel. induction l as [|[n' v'] l IH]; intros n v p jar fuel Hp Hl Hf;
    (destruct fuel as [|fuel]; [simpl in Hf; lia|]); cbn [add_all]; erewrite bind_Ok by reflexivity;
    cbv beta; cbn [fst].
  all: replace (eof _) with false by (destruct n; reflexivity).
  - destruct (add_one_eval n v [] p jar Hp Hl) as [p' E]. exists p'.
    rewrite (bind_Ok _ _ _ _ _ E). by destruct fuel.
  - destruct (add_one_eval n v ((n', v') :: l) p jar Hp Hl) as [p' E]. rewrite (bind_Ok _ _ _ _ _ E).
    inversion Hl as [|? ? Hp' Hl']; subst. simpl in Hf.
    destruct (IH n' v' p' (jar_add_pair jar (n, v)) fuel Hp' Hl' ltac:(lia)) as [p'' E'].
    exists p''. cbv beta. change (drop 2 (jar_text ((n', v') :: l))) with ((n' ++ B "=" ++ v') ++ jar_text l).
    rewrite <- !app_assoc. exact E'.
Qed.

(** ** Extension attributes *)

Lemma match_extension_eval p e w rest k :
  equals ∉ e -> semicolon ∉ w -> rest_ok rest ->
  exists p', match_extension (Cursor p (e ++ equals :: w ++ rest), k)
  = ((Cursor p' rest, set_ext (map_insert e w (ext k)) k), Ok tt).
Proof.
  intros He Hw Hr. unfold match_extension. erewrite bind_Ok by reflexivity. cbv beta zeta. cbn [fst].
  rewrite (bind_Ok _ _ _ _ _ (on_cursor_eq _ _ _ _ _
             (match_until_hit equals p e (w ++ rest) eq_refl He))).
  erewrite bind_Ok by reflexivity. cbv beta zeta. cbn [fst].
  replace (negb (eof _)) with true by reflexivity.
  rewrite (bind_Ok _ _ _ _ _ (matchValue_eval _ w rest k Hw Hr)).
  unfold Token_text, position. cbn [before]. rewrite drop_app_length. eexists. reflexivity.
Qed.

(** Without a ['='] the whole rest is the name. *)
Lemma match_extension_end p e k :
  equals ∉ e ->
  match_extension (Cursor p e, k) = ((Cursor (p ++ e) [], set_ext (map_insert e [] (ext k)) k), Ok tt).
Proof.
  intros He. unfold match_extension. erewrite bind_Ok by reflexivity. cbv beta zeta. cbn [fst].
  rewrite (bind_Ok _ _ _ _ _ (on_cursor_eq _ _ _ _ _ (match_until_end equals p e eq_refl He))).
  erewrite bind_Ok by reflexivity. cbv beta zeta. cbn [fst].
  replace (negb (eof _)) with false by reflexivity.
  unfold Token_text, position. cbn [before]. by rewrite drop_app_length.
Qed.

Lemma match_attribute_miss_all attrs o c k :
  (forall n, In n (map fst attrs) -> match_string n Insensitive c = (false, c)) ->
  match_attribute attrs o (c, k) = o (c, k).
Proof.
  induction attrs as [|[n m] attrs IH]; intros H; [done|].
  rewrite match_attribute_miss by (apply H; by left). apply IH. intros n' Hn. apply H. by right.
Qed.

(** An attribute none of the known names is a prefix of. *)
Lemma parse_attribute_extension `{DateLib} c c' k :
  skip_whitespaces c = c' ->
  (forall n, In n (map fst attributes) -> match_string n Insensitive c' = (false, c')) ->
  parse_attribute (c, k) = match_extension (c', k).
Proof.
  intros E Hm. unfold parse_attribute, skip_ws.
  rewrite (bind_Ok _ _ _ _ _ (on_cursor_eq (fun c => (tt, skip_whitespaces c)) _ _ _ _ (f_equal (pair tt) E))).
  by apply match_attribute_miss_all.
Qed.

(** ** Properties *)

(** [Cookie::fromRaw] ends on every input: each round of its [do]/[while] loop
    consumes a byte or is the last. *)
Lemma Cookie_fromRaw_fuel `{DateLib} raw : Cookie_fromRaw raw <> OutOfFuel.
Proof.
  unfold Cookie_fromRaw. destruct (match_until _ _ _) as [[] c1]; cbn [negb]; [|done].
  destruct (advance 1 c1) as [[] c2]; cbn [negb]; [|done].
  destruct (match_until _ _ _) as [b c3]. destruct (eof c3); [done|].
  destruct (advance 1 c3) as [b' c4].
  pose proof (parse_attributes_returns (remaining c4)
    (c4, Cookie_new (Token_text 0 c1) (Token_text (position c2) c3)) (le_n _)) as H0.
  unfold wpg in H0. destruct (parse_attributes _ _) as [[c5 k] [u|e| |]]; done.
Qed.

(** A cookie with any combination of the known attributes, printed by
    [Cookie::write], is parsed back to the same cookie. *)
Theorem cookie_roundtrip `{DateLib} c : cookie_ok c -> Cookie_fromString (Cookie_write c) = Ok c.
Proof. apply cookie_reparse. Qed.

(** After an extension attribute the parser stays in front of the [;], so the
    next attribute is taken into an extension name: a [Secure] that follows
    [SameSite=Lax] is lost. *)
Theorem extension_swallows_next `{DateLib} n v :
  equals ∉ n -> semicolon ∉ v ->
  exists c, Cookie_fromString (n ++ B "=" ++ v ++ B "; SameSite=Lax; Secure") = Ok c
    /\ secure c = false /\ ext c = [(B "; Secure", []); (B "SameSite", B "Lax")].
Proof.
  intros Hn Hv. unfold Cookie_fromString.
  destruct (Cookie_fromRaw_head n v (B "; SameSite=Lax; Secure") Hn Hv eq_refl) as [p ->].
  destruct (match_extension_eval (p ++ B " ") (B "SameSite") (B "Lax") (B "; Secure") (Cookie_new n v))
    as [p' E1]; [by apply find_char_None|by apply find_char_None|done|].
  pose proof (match_extension_end p' (B "; Secure") (set_ext [(B "SameSite", B "Lax")] (Cookie_new n v))
                ltac:(by apply find_char_None)) as E2.
  assert (forall q x, In x (map fst attributes) ->
    match_string x Insensitive (Cursor q (B "SameSite=Lax; Secure")) = (false, Cursor q (B "SameSite=Lax; Secure"))) as M1.
  { intros q x Hx. cbn [In map fst attributes] in Hx. by repeat destruct Hx as [<-|Hx]. }
  assert (forall q x, In x (map fst attributes) ->
    match_string x Insensitive (Cursor q (B "; Secure")) = (false, Cursor q (B "; Secure"))) as M2.
  { intros q x Hx. cbn [In map fst attributes] in Hx. by repeat destruct Hx as [<-|Hx]. }
  pose proof (parse_attribute_extension (Cursor p (B " SameSite=Lax; Secure")) (Cursor (p ++ B " ") (B "SameSite=Lax; Secure"))
    (Cookie_new n v) eq_refl (M1 _)) as A1.
  pose proof (parse_attribute_extension (Cursor p' (B "; Secure")) (Cursor p' (B "; Secure"))
    (set_ext [(B "SameSite", B "Lax")] (Cookie_new n v)) eq_refl (M2 _)) as A2.
  assert (parse_attributes 21 (Cursor p (B " SameSite=Lax; Secure"), Cookie_new n v)
    = ((Cursor (p' ++ B "; Secure") [], set_ext [(B "; Secure", []); (B "SameSite", B "Lax")] (Cookie_new n v)), Ok tt))
    as E.
  { pose proof (eq_trans A1 E1) as B1. pose proof (eq_trans A2 E2) as B2. cbn [parse_attributes].
    rewrite (bind_Ok _ _ _ _ _ B1). cbv beta. erewrite bind_Ok by reflexivity. cbv beta.
    replace (eof _) with false by reflexivity.
    cbn [parse_attributes]. rewrite (bind_Ok _ _ _ _ _ B2). reflexivity. }
  exists (set_ext [(B "; Secure", []); (B "SameSite", B "Lax")] (Cookie_new n v)).
  split; [|split; reflexivity].
  change (B "; SameSite=Lax; Secure") with (semicolon :: B " SameSite=Lax; Secure"). cbv iota.
  change (length (B " SameSite=Lax; Secure")) with 21%nat. rewrite E. reflexivity.
Qed.

Lemma addFromRaw_pairs n v l jar :
  pair_ok (n, v) -> Forall pair_ok l ->
  CookieJar_addFromRaw (n ++ B "=" ++ v ++ jar_text l) jar = (fold_left jar_add_pair ((n, v) :: l) jar, Ok tt).
Proof.
  intros Hp Hl. unfold CookieJar_addFromRaw, RawStreamBuf.
  destruct (add_all_eval l n v [] jar (length (n ++ B "=" ++ v ++ jar_text l)) Hp Hl) as [p' ->]; [|done].
  rewrite !length_app. change (length (B "=")) with 1%nat.
  assert (length l <= length (jar_text l))%nat; [|lia]. clear. unfold jar_text.
  induction l as [|[n v] l IH]; [done|]. cbn [map concat length]. rewrite length_app.
  change (length (B "; " ++ n ++ B "=" ++ v)) with (S (S (length (n ++ B "=" ++ v)))). lia.
Qed.

(** [CookieJar::addFromRaw] of a well-formed [Cookie] header adds each of its
    cookies in order, and nothing else. *)
Theorem addFromRaw_adds_each n v l jar :
  pair_ok (n, v) -> Forall pair_ok l ->
  CookieJar_addFromRaw (n ++ B "=" ++ v ++ jar_text l) jar = (fold_left jar_add_pair ((n, v) :: l) jar, Ok tt).
Proof. apply addFromRaw_pairs. Qed.

(** On any header [addFromRaw] ends, and the only exception is the one for a
    cookie without a value; the cookies before it stay in the jar. *)
Theorem addFromRaw_total raw jar :
  match snd (CookieJar_addFromRaw raw jar) with
  | Ok _ => True
  | Throw e => e = RuntimeError (B "Invalid cookie, missing value")
  | UB | OutOfFuel => False
  end.
Proof.
  unfold CookieJar_addFromRaw.
  pose proof (add_all_returns (length raw) (RawStreamBuf raw, jar) (le_n _)) as H. unfold wpg in H.
  destruct (add_all _ _) as [[c j] [u|e| |]]; done.
Qed.

(** A cookie is found under its name and value once added, the first of two
    with the same name and value stays, and no other entry changes. *)
Theorem jar_add_spec c jar n v :
  (CookieJar_add c jar !! n ≫= (.!! v))
  = (if decide (n = name c /\ v = value c)
     then Some (default c (jar !! n ≫= (.!! v))) else jar !! n ≫= (.!! v)).
Proof.
  unfold CookieJar_add, insert_new. destruct (jar !! name c) as [inner|] eqn:Ej.
  - destruct (decide (n = name c)) as [->|Hn].
    + rewrite lookup_insert_eq. simpl. rewrite Ej. simpl. destruct (inner !! value c) eqn:Ev.
      * case_decide as D; [destruct D as [_ ->]; by rewrite Ev|done].
      * case_decide as D; [destruct D as [_ ->]; by rewrite lookup_insert_eq, Ev|].
        rewrite lookup_insert_ne by (intros <-; by apply D). done.
    + rewrite lookup_insert_ne by done. by rewrite decide_False by tauto.
  - rewrite lookup_empty. destruct (decide (n = name c)) as [->|Hn].
    + rewrite lookup_insert_eq. simpl. rewrite Ej. simpl. case_decide as D.
      * destruct D as [_ ->]. by rewrite lookup_insert_eq.
      * rewrite lookup_insert_ne by (intros <-; by apply D). done.
    + rewrite lookup_insert_ne by done. by rewrite decide_False by tauto.
Qed.

(** *** The iteration *)

Section IteratorLemmas.
Context (jar_order : CookieJar -> list (bytes * gmap bytes Cookie)).
Context (values_order : gmap bytes Cookie -> list (bytes * Cookie)).

(** The cookies of a sequence of inner maps. *)
Definition storage_cookies (storage : list (bytes * gmap bytes Cookie)) : list Cookie :=
  mjoin (map (fun e => map snd (values_order e.2)) storage).

Lemma storage_size_cons n inner storage :
  storage_size values_order ((n, inner) :: storage)
  = (length (values_order inner) + storage_size values_order storage)%nat.
Proof. done. Qed.

Lemma iterate_values values n inner storage fuel :
  values <> [] -> Forall (fun e => values_order e.2 <> []) storage ->
  (length values + storage_size values_order storage <= fuel)%nat ->
  iterate values_order fuel (Iterator ((n, inner) :: storage) values) = Ok (map snd values ++ storage_cookies storage).
Proof.
  revert values n inner fuel. induction storage as [|[n' inner'] storage IHs]; intros values n inner fuel.
  - revert fuel. induction values as [|[v c] values IH]; [done|]. intros fuel _ _ Hf.
    destruct fuel as [|fuel]; [cbn in Hf; lia|]. destruct values as [|w values]; [by destruct fuel|].
    cbn [iterate iter_storage]. change (iterator_deref _) with (Ok c). cbn [mbind result_bind].
    change (iterator_next _ _) with (Iterator [(n, inner)] (w :: values)).
    rewrite IH; [done..|]. cbn in Hf |- *. lia.
  - intros Hne Hs Hf. inversion Hs as [|? ? Hv Hs']; subst. cbn [snd] in Hv.
    revert fuel Hne Hf. induction values as [|[v c] values IH]; [done|]. intros fuel _ Hf.
    destruct fuel as [|fuel]; [cbn in Hf; lia|]. cbn [iterate iter_storage].
    change (iterator_deref _) with (Ok c). cbn [mbind result_bind]. destruct values as [|w values].
    + change (iterator_next _ _) with (Iterator ((n', inner') :: storage) (values_order inner')).
      rewrite IHs; [|done|done|].
      * done.
      * rewrite storage_size_cons in Hf. cbn [length] in Hf. lia.
    + change (iterator_next _ _) with (Iterator ((n, inner) :: (n', inner') :: storage) (w :: values)).
      rewrite IH; [done..|]. cbn in Hf |- *. lia.
Qed.

Lemma CookieJar_list_eval jar :
  Forall (fun e => values_order e.2 <> []) (jar_order jar) ->
  CookieJar_list jar_order values_order jar = Ok (storage_cookies (jar_order jar)).
Proof.
  unfold CookieJar_list, jar_begin. destruct (jar_order jar) as [|[n inner] storage]; [done|]. intros Hs.
  inversion Hs; subst. cbn [begin_values]. by apply iterate_values.
Qed.

End IteratorLemmas.

(** Every name of a jar has a value. *)
Definition jar_wf (jar : CookieJar) : Prop := map_Forall (fun _ inner => inner <> ∅) jar.

Lemma jar_add_wf c jar : jar_wf jar -> jar_wf (CookieJar_add c jar).
Proof.
  intros Hj n inner. unfold CookieJar_add.
  assert (forall m, insert_new (value c) c m <> ∅) as Hne.
  { intros m E. apply (f_equal (fun m => m !! value c)) in E. unfold insert_new in E.
    destruct (m !! value c) eqn:Em; rewrite lookup_empty in E; [congruence|by rewrite lookup_insert_eq in E]. }
  destruct (jar !! name c) as [i|] eqn:E.
  - intros [[<- <-]|[_ ?]]%lookup_insert_Some; [apply Hne|by eapply Hj].
  - unfold insert_new at 1. rewrite E. intros [[<- <-]|[_ ?]]%lookup_insert_Some; [apply Hne|by eapply Hj].
Qed.

(** Iterating over a jar visits every cookie stored in it, and nothing else,
    whatever sequences the hash maps present their elements in; the jar must be
    one that [add] built: a name without a value would be dereferenced. *)
Theorem jar_iteration (jar_order : CookieJar -> list (bytes * gmap bytes Cookie))
    (values_order : gmap bytes Cookie -> list (bytes * Cookie)) jar :
  (forall j, jar_order j ≡ₚ map_to_list j) -> (forall m, values_order m ≡ₚ map_to_list m) -> jar_wf jar ->
  exists cs, CookieJar_list jar_order values_order jar = Ok cs
  /\ (forall c, c ∈ cs <-> exists n v inner, jar !! n = Some inner /\ inner !! v = Some c)
  /\ (forall c, jar_wf (CookieJar_add c jar)).
Proof.
  intros Hj Hv Hw. exists (storage_cookies values_order (jar_order jar)). split; [|split].
  - apply CookieJar_list_eval. apply list.Forall_forall. intros [n inner] Hin.
    rewrite Hj in Hin. apply elem_of_map_to_list in Hin. cbn. intros E. apply (Hw n inner Hin).
    apply map_to_list_empty_iff, Permutation_nil. by rewrite <- Hv, E.
  - intros c. unfold storage_cookies. rewrite list_elem_of_join. split.
    + intros (l & Hc & Hl). apply list_elem_of_fmap in Hl as ([n inner] & -> & Hin).
      apply list_elem_of_fmap in Hc as ([v c'] & -> & Hc). rewrite Hj in Hin. cbn in Hc. rewrite Hv in Hc.
      exists n, v, inner. by rewrite <- !elem_of_map_to_list.
    + intros (n & v & inner & En & Ev). exists (map snd (values_order inner)). split.
      * apply list_elem_of_fmap. exists (v, c). split; [done|]. by rewrite Hv, elem_of_map_to_list.
      * apply list_elem_of_fmap. exists (n, inner). split; [done|]. by rewrite Hj, elem_of_map_to_list.
  - intros c. by apply jar_add_wf.
Qed.

(** ** Witnesses *)

(** A date library that knows one date. *)
Definition one_date : DateLib :=
  {| date_parse := fun _ s => if decide (s = B "Thu, 01 Jan 1970 00:00:00 GMT") then Some 0 else None;
     date_to_stream := fun _ _ => B "Thu, 01 Jan 1970 00:00:00 GMT";
     put_gmtime := fun _ _ => [] |}.

Definition full_cookie : Cookie :=
  {| name := B "lang"; value := B "en-US"; path := Some (B "/"); domain := Some (B "a.org");
     expires := Some 0; maxAge := Some 600; secure := true; httpOnly := true; ext := [] |}.

Lemma not_in_text (ch : Ascii.ascii) (l : bytes) : find_char ch l = None -> ch ∉ l.
Proof. apply find_char_None. Qed.

Lemma cookie_roundtrip_witness :
  @Cookie_fromString one_date (@Cookie_write one_date full_cookie) = Ok full_cookie
  /\ @Cookie_write one_date full_cookie
     = B "lang=en-US; Path=/; Domain=a.org; Max-Age=600; Expires=Thu, 01 Jan 1970 00:00:00 GMT; Secure; HttpOnly".
Proof.
  split; [|vm_compute; reflexivity]. apply (@cookie_roundtrip one_date full_cookie). constructor.
  - by apply not_in_text.
  - by apply not_in_text.
  - repeat constructor; try (by apply not_in_text); vm_compute; congruence.
  - reflexivity.
Defined.

Lemma extension_swallows_next_witness :
  exists c, @Cookie_fromString one_date (B "id=a3fWa; SameSite=Lax; Secure") = Ok c
    /\ secure c = false /\ ext c = [(B "; Secure", []); (B "SameSite", B "Lax")].
Proof. apply (@extension_swallows_next one_date (B "id") (B "a3fWa")); by apply not_in_text. Defined.

Lemma addFromRaw_adds_each_witness :
  CookieJar_addFromRaw (B "a=1; b=2") ∅
  = (fold_left jar_add_pair [(B "a", B "1"); (B "b", B "2")] ∅, Ok tt).
Proof.
  apply (addFromRaw_adds_each (B "a") (B "1") [(B "b", B "2")] ∅).
  - repeat split; by apply not_in_text.
  - repeat constructor; by apply not_in_text.
Defined.

Definition two_cookies : CookieJar :=
  CookieJar_add (Cookie_new (B "a") (B "1")) (CookieJar_add (Cookie_new (B "b") (B "2")) ∅).

Lemma jar_iteration_witness :
  exists cs, CookieJar_list map_to_list map_to_list two_cookies = Ok cs
  /\ (forall c, c ∈ cs <-> exists n v inner, two_cookies !! n = Some inner /\ inner !! v = Some c)
  /\ (forall c, jar_wf (CookieJar_add c two_cookies)).
Proof.
  apply (jar_iteration map_to_list map_to_list two_cookies); [done..|].
  apply jar_add_wf, jar_add_wf. intros n inner E. by rewrite lookup_empty in E.
Defined.
