(* ===== verification/Net.v ===== *)
(** * Addresses: [include/pistache/net.h] and [src/common/net.cc]

    [Port], [IP] as the tagged storage it is, [AddressParser] and [Address].  The
    resolver and the conversions between addresses and text are the C library's
    and the system's: the class [Resolver]. *)

From S2P Require Import Prelude Cxx.

Local Open Scope Z_scope.

(** ** [Port] *)

Definition Port_max : Z := 65535.

(** [Port(const std::string&)]. *)
Definition Port_of_string (data : bytes) : result Z :=
  if bool_decide (data = []) then Throw (InvalidArgument (B "Invalid port: empty port"))
  else
    let '(port_num, end_) := strtol data in
    if bool_decide (default NUL (head end_) <> NUL) || (port_num <? 0) || (Port_max <? port_num)
    then Throw (InvalidArgument (B "Invalid port: " ++ data))
    else Ok (wrapu 16 port_num).

Definition Port_isReserved (port : Z) : bool := port <? 1024.
Definition Port_toString (port : Z) : bytes := to_string port.

(** ** [IP]: [sockaddr_storage], by family *)

Inductive IP : Set :=
  | IP_unspec
  | IP_inet (addr : list Z) (port : Z)         (* four octets, network order *)
  | IP_inet6 (addr : list Z) (port : Z)        (* sixteen octets, network order *)
  | IP_unix (sun_path : bytes).

Inductive Family : Set := AF_UNSPEC | AF_INET | AF_INET6 | AF_UNIX.

#[export] Instance Family_eq_dec : EqDecision Family.
Proof. solve_decision. Defined.

Definition IP_v4 (a b c d : Z) : IP := IP_inet [a; b; c; d] 0.

(** [htons] of each group; the machine is little endian. *)
Definition net16 (x : Z) : list Z := [x / 256; x mod 256].
Definition IP_v6 (a b c d e f g h : Z) : IP :=
  IP_inet6 (net16 a ++ net16 b ++ net16 c ++ net16 d ++ net16 e ++ net16 f ++ net16 g ++ net16 h) 0.

Definition IP_any (is_ipv6 : bool) : IP := if is_ipv6 then IP_v6 0 0 0 0 0 0 0 0 else IP_v4 0 0 0 0.
Definition IP_loopback (is_ipv6 : bool) : IP := if is_ipv6 then IP_v6 0 0 0 0 0 0 0 1 else IP_v4 127 0 0 1.

(** The constructor from a [sockaddr]. *)
Definition IP_of_sockaddr (addr : IP) : result IP :=
  match addr with
  | IP_unspec => Throw (InvalidArgument (B "Invalid socket family"))
  | _ => Ok addr
  end.

Definition getFamily (ip : IP) : Family :=
  match ip with
  | IP_unspec => AF_UNSPEC | IP_inet _ _ => AF_INET | IP_inet6 _ _ => AF_INET6 | IP_unix _ => AF_UNIX
  end.

(** [unreachable()] for the last case. *)
Definition getPort (ip : IP) : result Z :=
  match ip with
  | IP_inet _ port | IP_inet6 _ port => Ok port
  | IP_unix _ => Ok 0
  | IP_unspec => UB
  end.

(** The two overloads of [toNetwork], for an [in_addr] and for an [in6_addr]:
    both test for [AF_INET].  The second then reads the storage where an IPv6
    address would be, past the four octets: bytes that are all zero. *)
Definition toNetwork4 (ip : IP) : result (list Z) :=
  match ip with
  | IP_inet addr _ => Ok addr
  | _ => Throw (InvalidArgument (B "Inapplicable or invalid address family"))
  end.
Definition toNetwork6 (ip : IP) : result (list Z) :=
  match ip with
  | IP_inet _ _ => Ok (replicate 16 0)
  | _ => Throw (InvalidArgument (B "Inapplicable or invalid address family"))
  end.

(** ** What the system provides *)

Class Resolver := {
  (* [inet_pton(AF_INET6)], then [inet_ntop] of the result *)
  inet6_normalize : bytes -> option bytes;
  (* [getaddrinfo] with [SOCK_STREAM], [IPPROTO_TCP]: node, service, AI_PASSIVE;
     the first address, or the text of the error *)
  getaddrinfo : option bytes -> bytes -> bool -> IP + bytes;
  (* [getnameinfo] with [NI_NUMERICHOST] *)
  getnameinfo : IP -> bytes + bytes }.

Section Addresses.
Context `{Resolver}.

Definition IP_toString (ip : IP) : result bytes :=
  match ip with
  | IP_unix sun_path =>
      if bool_decide (default NUL (head sun_path) = NUL) then Ok (B "[Abstract]")
      else Ok (span (fun a => negb (bool_decide (a = NUL))) sun_path)
  | _ => match getnameinfo ip with inl s => Ok s | inr err => Throw (RuntimeError err) end
  end.

(** ** [AddressParser] *)

Record AddressParser : Set := {
  host_ : bytes; port_ : bytes; hasColon_ : bool; hasNumericPort_ : bool; family_ : Family }.

Definition colon : Ascii.ascii := chr 58.
Definition lbracket : Ascii.ascii := chr 91.
Definition rbracket : Ascii.ascii := chr 93.

(** [data.substr(pos, n)] for a [pos] that is in range. *)
Definition substr (pos n : nat) (data : bytes) : bytes := take n (drop pos data).

(** The last part, which reads the port from [end_pos + 1]. *)
Definition parse_port (data host : bytes) (family : Family) (hasColon : bool) (end_pos : option nat)
  : result AddressParser :=
  match end_pos with
  | Some end_pos =>
      if hasColon then
        let port := drop (end_pos + 1) data in
        if (length data <? end_pos + 1)%nat then Throw (OutOfRange (B "basic_string::substr"))
        else if bool_decide (port = []) then Throw (InvalidArgument (B "Invalid port"))
        else
          let '(strtol_res, tmp2) := strtol port in
          if strtol_res <? 0 then Throw (InvalidArgument (B "Invalid port"))
          else Ok {| host_ := host; port_ := port; hasColon_ := true;
                     hasNumericPort_ := bool_decide (default NUL (head tmp2) = NUL); family_ := family |}
      else Ok {| host_ := host; port_ := []; hasColon_ := hasColon; hasNumericPort_ := false; family_ := family |}
  | None => Ok {| host_ := host; port_ := []; hasColon_ := hasColon; hasNumericPort_ := false; family_ := family |}
  end.

Definition AddressParser_new (data : bytes) : result AddressParser :=
  match inet6_normalize data with
  | Some normalized =>
      Ok {| host_ := normalized; port_ := []; hasColon_ := false; hasNumericPort_ := false; family_ := AF_INET6 |}
  | None =>
      match find_char lbracket data, find_char rbracket data with
      | Some start_pos, Some end_pos =>
          if (start_pos <? end_pos)%nat then
            let hasColon := bool_decide (is_Some (find_char colon (drop end_pos data))) in
            parse_port data (substr (start_pos + 1) (end_pos - 1) data) AF_INET6 hasColon (Some (end_pos + 1)%nat)
          else
            let colon_pos := find_char colon data in
            parse_port data (match colon_pos with Some n => take n data | None => data end) AF_INET
              (bool_decide (is_Some colon_pos)) colon_pos
      | _, _ =>
          let colon_pos := find_char colon data in
          parse_port data (match colon_pos with Some n => take n data | None => data end) AF_INET
            (bool_decide (is_Some colon_pos)) colon_pos
      end
  end.

(** ** [Address] *)

Inductive Scheme : Set := Unspecified | Http | Https.

Record Address : Set := {
  ip_ : IP; addr_port : Z; addrLen_ : Z; scheme_ : Scheme; page_ : bytes }.

Definition sizeof_sockaddr_in : Z := 16.
Definition sizeof_sockaddr_in6 : Z := 28.
Definition sizeof_sun_path : nat := 108.
Definition sizeof_sun_family : Z := 2.

Definition Address_default : Address :=
  {| ip_ := IP_unspec; addr_port := 0; addrLen_ := sizeof_sockaddr_in6; scheme_ := Unspecified; page_ := [] |}.

(** [Address(IP, Port)]: [scheme_] and [page_] are left as default-initialised. *)
Definition Address_of_ip (ip : IP) (port : Z) : Address :=
  {| ip_ := ip; addr_port := port;
     addrLen_ := if decide (getFamily ip = AF_INET) then sizeof_sockaddr_in else sizeof_sockaddr_in6;
     scheme_ := Unspecified; page_ := [] |}.

Definition Address_fromUnix (addr : IP) : result Address :=
  match addr with
  | IP_unspec => Throw (RuntimeError (B "Not an IP or unix domain socket"))
  | _ => ip ← IP_of_sockaddr addr; port ← getPort ip; Ok (Address_of_ip ip port)
  end.

Definition isUnixDomain (addr : bytes) : bool :=
  bool_decide (addr = []) || bool_decide (head addr = Some NUL) || bool_decide (is_Some (find_char (chr 47) addr)).

(** [PS_STRLCPY(dst, src, size)]: at most [size - 1] bytes and a NUL. *)
Definition strlcpy (src : bytes) (size : nat) : bytes :=
  take (size - 1) (span (fun a => negb (bool_decide (a = NUL))) src).

(** [init(addr, default_port)] on the object [a]. *)
Definition Address_init (addr : bytes) (default_port : Z) (a : Address) : result Address :=
  if isUnixDomain addr then
    let size := Nat.min (length addr) sizeof_sun_path in
    let '(len, sun_path) :=
      if (size =? 0)%nat then (sizeof_sun_family, [])
      else if bool_decide (head addr = Some NUL)
      then (sizeof_sun_family + Z.of_nat size, take size addr)
      else (sizeof_sun_family + Z.of_nat size, strlcpy addr size) in
    ip ← IP_of_sockaddr (IP_unix sun_path);
    port ← getPort ip;
    Ok {| ip_ := ip; addr_port := port; addrLen_ := len; scheme_ := Unspecified; page_ := page_ a |}
  else
    let default_port := if default_port =? 0 then 80 else default_port in
    let len := if decide (getFamily (ip_ a) = AF_INET) then sizeof_sockaddr_in else sizeof_sockaddr_in6 in
    parser ← AddressParser_new addr;
    let wildcard := bool_decide (host_ parser = B "*") in
    let addrinfo_host :=
      if bool_decide (host_ parser = []) || wildcard then None else Some (host_ parser) in
    let addrinfo_port := if bool_decide (port_ parser = []) then to_string default_port else port_ parser in
    match getaddrinfo addrinfo_host addrinfo_port wildcard with
    | inr err => Throw (InvalidArgument err)
    | inl res =>
        ip ← IP_of_sockaddr res;
        port ← getPort ip;
        if hasNumericPort_ parser && negb (port =? fst (strtol addrinfo_port))
        then Throw (InvalidArgument (B "Invalid numeric port"))
        else Ok {| ip_ := ip; addr_port := port; addrLen_ := len; scheme_ := Unspecified; page_ := page_ a |}
    end.

(** The constructors from text, from a host and a port, and with a default. *)
Definition Address_of_string (addr : bytes) : result Address := Address_init addr 0 Address_default.
Definition Address_of_host (host : bytes) (port : Z) : result Address :=
  Address_init (host ++ B ":" ++ Port_toString port) 0 Address_default.
Definition makeWithDefaultPort (addr : bytes) (default_port : Z) (scheme : Scheme) (page : option bytes)
  : result Address :=
  a ← Address_init addr default_port Address_default;
  Ok {| ip_ := ip_ a; addr_port := addr_port a; addrLen_ := addrLen_ a; scheme_ := scheme;
        page_ := default (page_ a) page |}.

(** [operator<<]. *)
Definition Address_write (a : Address) : result bytes :=
  host ← IP_toString (ip_ a);
  let v6 := bool_decide (getFamily (ip_ a) = AF_INET6) in
  Ok ((if v6 then B "[" else []) ++ host ++ (if v6 then B "]" else []) ++ B ":" ++ to_string (addr_port a)).
End Addresses.

(** ** Properties *)

(** A port is accepted from text exactly up to 65535, and reads back what
    [Port::toString] printed. *)
Theorem port_text n :
  0 <= n < 2 ^ 63 ->
  Port_of_string (Port_toString n)
  = if n <=? Port_max then Ok n else Throw (InvalidArgument (B "Invalid port: " ++ to_string n)).
Proof.
  intros Hn. unfold Port_of_string, Port_toString. rewrite to_string_pos by lia.
  pose proof (strtol_to_string_u n [] Hn I) as E. rewrite app_nil_r in E. rewrite E.
  destruct (to_string_u_spec n ltac:(lia)) as (_ & _ & Hne).
  rewrite bool_decide_eq_false_2 by done. rewrite bool_decide_eq_false_2 by (cbn; tauto).
  rewrite (proj2 (Z.ltb_ge n 0)) by lia. cbn [orb]. unfold Port_max.
  rewrite Z.ltb_antisym. destruct (n <=? 65535) eqn:En; cbn [negb]; [|done].
  bool_to_prop. by rewrite wrapu_small by lia.
Qed.

(** [host:port] and [[host]:port], when no IPv6 literal is recognised first:
    the parser finds the two parts and that the port is numeric. *)
Theorem AddressParser_host_port `{Resolver} host n :
  0 <= n <= Port_max -> colon ∉ host -> lbracket ∉ host -> rbracket ∉ host ->
  (forall d, colon ∈ d -> inet6_normalize (host ++ d) = None) ->
  AddressParser_new (host ++ colon :: to_string n)
  = Ok {| host_ := host; port_ := to_string n; hasColon_ := true; hasNumericPort_ := true; family_ := AF_INET |}.
Proof.
  intros Hn Hc Hl Hr Hi. unfold AddressParser_new. rewrite Hi by set_solver.
  assert (lbracket ∉ host ++ colon :: to_string n) as Hl'.
  { intros [?|[E|Hin]%elem_of_cons]%elem_of_app; [done|discriminate E|].
    rewrite to_string_pos in Hin by lia. pose proof (to_string_u_digits n ltac:(lia)) as F.
    rewrite list.Forall_forall in F. by apply F in Hin. }
  apply find_char_None in Hl'. rewrite Hl', find_char_app by done.
  rewrite take_app_length, bool_decide_eq_true_2 by eauto. unfold parse_port.
  rewrite length_app. simpl length. rewrite (proj2 (Nat.ltb_ge _ _)) by lia.
  replace (host ++ colon :: to_string n) with ((host ++ [colon]) ++ to_string n) by (by rewrite <- app_assoc).
  rewrite drop_app_exact by (rewrite length_app; simpl; lia). unfold Port_max in Hn.
  destruct (to_string_u_spec n ltac:(lia)) as (_ & _ & Hne). rewrite to_string_pos by lia.
  rewrite bool_decide_eq_false_2 by done.
  pose proof (strtol_to_string_u n [] ltac:(lia) I) as E. rewrite app_nil_r in E. rewrite E.
  rewrite (proj2 (Z.ltb_ge n 0)) by lia. done.
Qed.

Lemma span_no_NUL (l : bytes) :
  NUL ∉ l -> span (fun a => negb (bool_decide (a = NUL))) l = l.
Proof.
  induction l as [|a l IH]; simpl; intros Hl; [done|].
  rewrite bool_decide_eq_false_2 by set_solver. simpl. rewrite IH by set_solver. done.
Qed.

(** [init] copies a pathname with [strlcpy] and the length of the path as the
    size of the destination, which leaves room for all but its last character:
    the socket is bound to, or looked for at, the truncated path. *)
Theorem unix_path_truncated `{Resolver} path c :
  chr 47 ∈ path ++ [c] -> NUL ∉ path ++ [c] -> path <> [] -> (length path < sizeof_sun_path)%nat ->
  exists a, Address_of_string (path ++ [c]) = Ok a /\ ip_ a = IP_unix path
    /\ addrLen_ a = 2 + Z.of_nat (length path) + 1.
Proof.
  intros Hs Hn Hp Hlen. unfold Address_of_string, Address_init.
  assert (isUnixDomain (path ++ [c]) = true) as ->.
  { unfold isUnixDomain. apply orb_true_iff. right. apply bool_decide_eq_true.
    destruct (find_char (chr 47) (path ++ [c])) eqn:E; [eauto|]. by apply find_char_None in E. }
  rewrite length_app. cbn [length]. rewrite Nat.min_l by (unfold sizeof_sun_path in *; lia).
  rewrite (proj2 (Nat.eqb_neq _ 0)) by lia.
  rewrite bool_decide_eq_false_2.
  2:{ destruct path as [|a path]; [done|]. cbn. intros [= ->]. set_solver. }
  unfold strlcpy. rewrite span_no_NUL by done.
  replace (length path + 1 - 1)%nat with (length path) by lia. rewrite take_app_length.
  cbn. eexists. split; [reflexivity|]. split; [done|]. cbn. unfold sizeof_sun_family. lia.
Qed.

(** ** Witnesses *)

(** A system without IPv6 literals and without names. *)
Definition no_resolver : Resolver :=
  {| inet6_normalize := fun _ => None; getaddrinfo := fun _ _ _ => inr (B "unknown"); getnameinfo := fun _ => inr [] |}.

Lemma port_text_witness : Port_of_string (B "8080") = Ok 8080 /\ Port_toString 8080 = B "8080".
Proof. split; [|reflexivity]. apply (port_text 8080). lia. Defined.

Lemma AddressParser_host_port_witness :
  @AddressParser_new no_resolver (B "localhost:9080")
  = Ok {| host_ := B "localhost"; port_ := B "9080"; hasColon_ := true; hasNumericPort_ := true; family_ := AF_INET |}.
Proof.
  apply (@AddressParser_host_port no_resolver (B "localhost") 9080); [unfold Port_max; lia|..];
    [by apply find_char_None..|done].
Defined.

Lemma unix_path_truncated_witness :
  exists a, @Address_of_string no_resolver (B "/tmp/pistache.sock") = Ok a
    /\ ip_ a = IP_unix (B "/tmp/pistache.soc") /\ addrLen_ a = 20.
Proof.
  apply (@unix_path_truncated no_resolver (B "/tmp/pistache.soc") (chr 107)).
  - set_solver.
  - by apply find_char_None.
  - discriminate.
  - unfold sizeof_sun_path. simpl. lia.
Defined.
