(* ===== verification/HttpHeader.v ===== *)
(** * The typed headers: [include/pistache/http_header.h], [src/common/http_header.cc]

    Each header class is a constructor of [Header] with its data; its [parse],
    [write] and operations are definitions named after the class.  A parser that
    may stop halfway works on the object it fills, which keeps what was stored. *)

From S2P Require Import Prelude Cxx Stream Base64 HttpDefs QValue Mime Net.
From Stdlib Require Import SpecFloat.

Local Open Scope Z_scope.

(** ** Content codings *)

Inductive Encoding : Set :=
  | Gzip | Br | Compress | Deflate | Zstd | Identity | Chunked | Unknown.

#[export] Instance Encoding_eq_dec : EqDecision Encoding.
Proof. solve_decision. Defined.

Definition encodingString (e : Encoding) : bytes :=
  match e with
  | Gzip => B "gzip" | Br => B "br" | Zstd => B "zstd" | Compress => B "compress"
  | Deflate => B "deflate" | Identity => B "identity" | Chunked => B "chunked" | Unknown => B "unknown"
  end.

(** The chain of [strncasecmp(str, literal, str.length())] tests. *)
Definition encoding_literals : list (bytes * Encoding) :=
  [(B "zstd", Zstd); (B "gzip", Gzip); (B "br", Br); (B "deflate", Deflate);
   (B "compress", Compress); (B "identity", Identity); (B "chunked", Chunked)].

Fixpoint encoding_chain (str : bytes) (l : list (bytes * Encoding)) : Encoding :=
  match l with
  | [] => Unknown
  | (s, e) :: l' => if strncasecmp_eq (length str) str s then e else encoding_chain str l'
  end.

Definition encodingFromString (str : bytes) : Encoding :=
  if bool_decide (str = []) then Unknown else encoding_chain str encoding_literals.

(** The encodings the build was configured with. *)
Record Build : Set := { USE_ZSTD : bool; USE_BROTLI : bool; USE_DEFLATE : bool }.

Definition encodingSupported (b : Build) (e : Encoding) : bool :=
  match e with
  | Zstd => USE_ZSTD b
  | Br => USE_BROTLI b
  | Deflate => USE_DEFLATE b
  | Identity => true
  | _ => false
  end.

(** [a, b, c] *)
Fixpoint join (sep : bytes) (l : list bytes) : bytes :=
  match l with
  | [] => []
  | [s] => s
  | s :: l' => s ++ sep ++ join sep l'
  end.

(** ** [Allow] *)

Definition Allow_addMethod (m : Method.t) (methods : list Method.t) : list Method.t := methods ++ [m].
Definition Allow_addMethods (ms methods : list Method.t) : list Method.t := methods ++ ms.
Definition Allow_write (methods : list Method.t) : bytes := join (B ", ") (map methodString methods).

(** ** [CacheControl] *)

Definition TrivialDirectives : list (bytes * Directive) :=
  [(B "no-cache", NoCache); (B "no-store", NoStore); (B "no-transform", NoTransform);
   (B "only-if-cached", OnlyIfCached); (B "public", Public); (B "private", Private);
   (B "must-revalidate", MustRevalidate); (B "proxy-revalidate", ProxyRevalidate)].

Definition TimedDirectives : list (bytes * Directive) :=
  [(B "max-age", MaxAge); (B "max-stale", MaxStale); (B "min-fresh", MinFresh); (B "s-maxage", SMaxAge)].

(** [for (const auto& d : ...) if (match_raw(d.str, d.size, cursor)) ... break;] *)
Fixpoint match_raw_first {A : Type} (l : list (bytes * A)) (c : cursor) : option A * cursor :=
  match l with
  | [] => (None, c)
  | (s, a) :: l' =>
      let '(ok, c') := match_raw s c in
      if ok : bool then (Some a, c') else match_raw_first l' c'
  end.

(** [while (c = current(), c != Eof && (c == ',' || c == ' ')) advance(1);] *)
Fixpoint skip_separators (pre l : bytes) : cursor :=
  match l with
  | a :: l' => if (uchar a =? 44) || (uchar a =? 32) then skip_separators (pre ++ [a]) l' else Cursor pre l
  | [] => Cursor pre []
  end.

Definition push_directive (d : CacheDirective) : parser (list CacheDirective) unit :=
  on_object (fun ds => ds ++ [d]).

Definition malformed_delta : exn := RuntimeError (B "Invalid caching directive, malformated delta-seconds").

(** The loop over the timed directives, once no trivial one was found. *)
Definition parse_timed : parser (list CacheDirective) unit :=
  d ← on_cursor (match_raw_first TimedDirectives);
  match d with
  | None => mret tt
  | Some d =>
      ok ← on_cursor (advance 1);
      if negb ok then throw (RuntimeError (B "Invalid caching directive, missing delta-seconds"))
      else
        c ← cursor_;
        let parseResult := from_chars_u 10 size_max (after c) 0 in
        match ec parseResult with
        | errc_ok =>
            _ ← on_cursor (advance (Z.of_nat (ptr parseResult)));
            c ← cursor_;
            if negb (eof c) && negb (current c =? 44) then throw malformed_delta
            else push_directive (CacheDirective_of d (wraps 64 (Cxx.value parseResult)))
        | _ => throw malformed_delta
        end
  end.

(** One iteration of [do { ... } while (!cursor.eof())]. *)
Definition parse_directive : parser (list CacheDirective) unit :=
  found ← on_cursor (match_raw_first TrivialDirectives);
  _ ← match found with
      | Some d => push_directive (CacheDirective_plain d)
      | None => parse_timed
      end;
  c ← cursor_;
  if negb (eof c) then
    if negb (current c =? 44) then throw (RuntimeError (B "Invalid caching directive, expected a comma"))
    else on_cursor (fun c => (tt, skip_separators (before c) (after c)))
  else mret tt.

Fixpoint parse_directives (fuel : nat) : parser (list CacheDirective) unit :=
  _ ← parse_directive;
  c ← cursor_;
  if eof c then mret tt
  else match fuel with O => lift OutOfFuel | S fuel' => parse_directives fuel' end.

Definition CacheControl_parseRaw (str : bytes) : M (list CacheDirective) unit := fun ds =>
  let '((_, ds'), r) := parse_directives (length str) (RawStreamBuf str, ds) in (ds', r).

Definition directiveString (d : CacheDirective) : bytes :=
  match directive d with
  | NoCache => B "no-cache" | NoStore => B "no-store" | NoTransform => B "no-transform"
  | OnlyIfCached => B "only-if-cached" | Public => B "public" | Private => B "private"
  | MustRevalidate => B "must-revalidate" | ProxyRevalidate => B "proxy-revalidate"
  | MaxAge => B "max-age" | MaxStale => B "max-stale" | MinFresh => B "min-fresh"
  | SMaxAge => B "s-maxage" | Ext => []
  end.

Definition hasDelta (d : CacheDirective) : bool :=
  match directive d with MaxAge | MaxStale | MinFresh | SMaxAge => true | _ => false end.

Definition directive_write (d : CacheDirective) : result bytes :=
  if hasDelta d then
    delta ← CacheDirective_delta d;
    Ok (directiveString d ++ if 0 <? delta then B "=" ++ to_string delta else [])
  else Ok (directiveString d).

Fixpoint CacheControl_write (ds : list CacheDirective) : result bytes :=
  match ds with
  | [] => Ok []
  | [d] => directive_write d
  | d :: ds' => s ← directive_write d; rest ← CacheControl_write ds'; Ok (s ++ B ", " ++ rest)
  end.

(** ** [Connection] *)

Definition Connection_parseRaw (str : bytes) : ConnectionControl :=
  let c := RawStreamBuf str in
  if fst (match_string (B "close") Insensitive c) then Close
  else if fst (match_string (B "keep-alive") Insensitive c) then KeepAlive
  else ConnectionExt.

Definition Connection_write (c : ConnectionControl) : bytes :=
  match c with Close => B "Close" | KeepAlive => B "Keep-Alive" | ConnectionExt => B "Ext" end.

(** ** [ContentLength]: [value_] is kept when there is no number *)

Definition ContentLength_parse (data : bytes) : M Z unit := fun value_ =>
  match stoull data with
  | Ok val => (val, Ok tt)
  | Throw (InvalidArgument _) => (value_, Ok tt)
  | Throw e => (value_, Throw e)
  | UB => (value_, UB)
  | OutOfFuel => (value_, OutOfFuel)
  end.

(** ** [Authorization] *)

Inductive AuthMethod : Set := Basic | Bearer | UnknownMethod.

(** [value().rfind(scheme, 0) != npos] and a longer value. *)
Definition has_scheme (scheme value_ : bytes) : bool :=
  bool_decide (take (length scheme) value_ = scheme) && negb (length value_ <=? length scheme)%nat.
Definition hasMethod_Basic (value_ : bytes) : bool := has_scheme (B "Basic ") value_.
Definition hasMethod_Bearer (value_ : bytes) : bool := has_scheme (B "Bearer ") value_.

Definition getMethod (value_ : bytes) : AuthMethod :=
  if hasMethod_Basic value_ then Basic else if hasMethod_Bearer value_ then Bearer else UnknownMethod.

Definition decoded_credentials (value_ : bytes) : result bytes :=
  if negb (hasMethod_Basic value_)
  then Throw (RuntimeError (B "Authorization header does not use Basic method."))
  else Decode (drop (length (B "Basic ")) value_).

Definition getBasicUser (value_ : bytes) : result bytes :=
  credentials ← decoded_credentials value_;
  match find_char colon credentials with
  | None => Ok []
  | Some delimiter => Ok (take delimiter credentials)
  end.

Definition getBasicPassword (value_ : bytes) : result bytes :=
  credentials ← decoded_credentials value_;
  match find_char colon credentials with
  | None => Ok []
  | Some delimiter => Ok (drop (delimiter + 1) credentials)
  end.

Definition setBasicUserPassword (User Password : bytes) : result bytes :=
  if bool_decide (is_Some (find_char colon User))
  then Throw (RuntimeError (B "User ID cannot contain a colon."))
  else encoded ← Encode (User ++ B ":" ++ Password); Ok (B "Basic " ++ encoded).

(** ** [ETag] *)

Definition quote : Ascii.ascii := chr 34.

Definition isValidEtagc (etagc : bytes) : bool :=
  forallb (fun a => (uchar a =? 33) || between 35 a 126 || (128 <=? uchar a)) etagc.

Definition validateEtagc (etagc : bytes) : result unit :=
  if isValidEtagc etagc then Ok tt
  else Throw (RuntimeError (B "Invalid ETag format: etagc must contain chars in a range of 0x21 / 0x23-0x7E / 0x80-0xFF")).

Definition parseOpaqueTag (opaqueTag : bytes) : result bytes :=
  if (length opaqueTag <? 2)%nat || negb (bool_decide (head opaqueTag = Some quote))
     || negb (bool_decide (list.last opaqueTag = Some quote))
  then Throw (RuntimeError (B "Invalid ETag format"))
  else Ok (take (length opaqueTag - 2) (drop 1 opaqueTag)).

Definition weakValidatorMark : bytes := B "W/".

(** The value and the weakness flag [parse] stores. *)
Definition ETag_parse (str : bytes) : result (bytes * bool) :=
  let weak := (length weakValidatorMark <=? length str)%nat
              && bool_decide (take (length weakValidatorMark) str = weakValidatorMark) in
  etagc ← parseOpaqueTag (if weak then drop (length weakValidatorMark) str else str);
  _ ← validateEtagc etagc;
  Ok (etagc, weak).

Definition ETag_write (etagc : bytes) (isWeak : bool) : bytes :=
  (if isWeak then weakValidatorMark else []) ++ [quote] ++ etagc ++ [quote].

(** ** [Expect]: [strcmp] on the memory up to the NUL *)

Definition Expect_parseRaw (str : bytes) : Expectation :=
  if bool_decide (span (fun a => negb (bool_decide (a = NUL))) str = B "100-continue")
  then ExpectContinue else ExpectationExt.

Definition Expect_write (e : Expectation) : bytes :=
  match e with ExpectContinue => B "100-continue" | ExpectationExt => [] end.

(** ** [Host] *)

Definition HTTP_STANDARD_PORT : Z := 80.

Definition Host_parse `{Resolver} (data : bytes) : M (bytes * Z) unit := fun '(uriHost, port) =>
  match AddressParser_new data with
  | Ok p =>
      let uriHost := if decide (family_ p = AF_INET6) then B "[" ++ host_ p ++ B "]" else host_ p in
      if bool_decide (port_ p = []) then ((uriHost, HTTP_STANDARD_PORT), Ok tt)
      else match Port_of_string (port_ p) with
           | Ok n => ((uriHost, n), Ok tt)
           | Throw e => ((uriHost, port), Throw e)
           | UB => ((uriHost, port), UB)
           | OutOfFuel => ((uriHost, port), OutOfFuel)
           end
  | Throw e => ((uriHost, port), Throw e)
  | UB => ((uriHost, port), UB)
  | OutOfFuel => ((uriHost, port), OutOfFuel)
  end.

Definition Host_write (uriHost : bytes) (port : Z) : bytes :=
  uriHost ++ if port =? 0 then [] else B ":" ++ to_string port.

(** ** [Accept] *)

(** [while ((c = cursor.next()) != Eof && c != ',') advance(1);] *)
Fixpoint accept_scan (fuel : nat) (c : cursor) : cursor :=
  match fuel with
  | O => c
  | S fuel' =>
      if negb (next c =? Eof) && negb (next c =? 44) then accept_scan fuel' (snd (advance 1 c)) else c
  end.

(** [while (!cursor.eof() && cursor.current() == ' ') cursor.advance(1);] *)
Fixpoint skip_spaces (pre l : bytes) : cursor :=
  match l with
  | a :: l' => if uchar a =? 32 then skip_spaces (pre ++ [a]) l' else Cursor pre l
  | [] => Cursor pre []
  end.

(** One iteration; [str] is the memory the header lies in. *)
Definition parse_media_range (str : bytes) : parser (list MediaType) unit :=
  c ← cursor_;
  let beg := position c in
  _ ← on_cursor (fun c => (tt, accept_scan (in_avail c) c));
  _ ← on_cursor (advance 1);
  c ← cursor_;
  let mimeLen := diff beg c in
  m ← lift (MediaType_fromRaw (drop beg str) mimeLen);
  _ ← on_object (fun ms => ms ++ [m]);
  if negb (eof c) then
    ok ← on_cursor (advance 1);
    if negb ok then throw (RuntimeError (B "Ill-formed Accept header"))
    else
      c ← cursor_;
      if (next c =? Eof) || (next c =? 44) || (next c =? 0)
      then throw (RuntimeError (B "Ill-formed Accept header"))
      else on_cursor (fun c => (tt, skip_spaces (before c) (after c)))
  else mret tt.

Fixpoint parse_media_ranges (fuel : nat) (str : bytes) : parser (list MediaType) unit :=
  _ ← parse_media_range str;
  c ← cursor_;
  if eof c then mret tt
  else match fuel with O => lift OutOfFuel | S fuel' => parse_media_ranges fuel' str end.

Definition Accept_parseRaw (str : bytes) (len : nat) : M (list MediaType) unit := fun ms =>
  let '((_, ms'), r) := parse_media_ranges len str (RawStreamBuf (take len str), ms) in (ms', r).

Definition Accept_write (order : gmap bytes bytes -> list (bytes * bytes)) (ms : list MediaType) : bytes :=
  join (B ", ") (map (MediaType_toString order) ms).

(** ** [AcceptEncoding] *)

Definition is_http_token (a : Ascii.ascii) : bool :=
  isalnum a || bool_decide (In a (B "!#$%&'*+-.^_`|~")).

Definition is_http_space (a : Ascii.ascii) : bool := isblank a.

(** [std::find_if(first, last, p)] between two offsets into [str]. *)
Definition find_if (p : Ascii.ascii -> bool) (first last : nat) (str : bytes) : nat :=
  (first + length (span (fun a => negb (p a)) (take (last - first) (drop first str))))%nat.
Definition find_if_not (p : Ascii.ascii -> bool) : nat -> nat -> bytes -> nat := find_if (fun a => negb (p a)).
Definition find_ (c : Ascii.ascii) : nat -> nat -> bytes -> nat := find_if (fun a => bool_decide (a = c)).

(** [std::upper_bound] as a binary search: [len] elements from [first] on are
    left, [greater] is the comparison of the new element with the middle one. *)
Fixpoint upper_bound {A : Type} (greater : A -> bool) (fuel first len : nat) (l : list A) : nat :=
  match fuel with
  | O => first
  | S fuel' =>
      if (len =? 0)%nat then first
      else
        let half := (len / 2)%nat in
        let mid := (first + half)%nat in
        match l !! mid with
        | Some x =>
            if greater x then upper_bound greater fuel' first half l
            else upper_bound greater fuel' (mid + 1) (len - half - 1) l
        | None => first
        end
  end.

(** [insertEncoding]: [a.second > b.second] is the order. *)
Definition insertEncoding (elem : Encoding * spec_float) (encodings : list (Encoding * spec_float))
  : list (Encoding * spec_float) :=
  let n := upper_bound (fun b => SFltb (snd b) (snd elem)) (S (length encodings)) 0 (length encodings) encodings in
  take n encodings ++ elem :: drop n encodings.

Definition AcceptEncoding_of (e : Encoding) : list (Encoding * spec_float) :=
  insertEncoding (e, float32_of_Z 1) [].

(** [while (start != str_end)]; [str] is the memory, NUL terminated, and [len]
    the offset of [str_end]. *)
Fixpoint parse_encodings (fuel start len : nat) (str : bytes) (encodings : list (Encoding * spec_float))
  : result (list (Encoding * spec_float)) :=
  if (start =? len)%nat then Ok encodings
  else match fuel with
  | O => OutOfFuel
  | S fuel' =>
      let end_ := find_ (chr 44) start len str in
      let token_end := find_if_not is_http_token start end_ str in
      let semicolon := find_ (chr 59) token_end end_ str in
      let qvalue :=
        if (semicolon =? end_)%nat then Some (float32_of_Z 1)
        else
          let ows_end := find_if_not is_http_space (semicolon + 1) end_ str in
          if bool_decide (char_at str ows_end <> chr 113) || bool_decide (char_at str (ows_end + 1) <> chr 61)
          then None
          else fst <$> strToQvalue (drop (ows_end + 2) str) in
      match qvalue with
      | None => Ok []
      | Some qvalue =>
          let encodingStr := substr start (token_end - start) str in
          let encodings :=
            if bool_decide (encodingStr <> [])
            then insertEncoding (encodingFromString encodingStr, qvalue) encodings else encodings in
          parse_encodings fuel' (find_if is_http_token end_ len str) len str encodings
      end
  end.

Definition AcceptEncoding_parseRaw (str : bytes) (len : nat) (encodings : list (Encoding * spec_float))
  : result (list (Encoding * spec_float)) :=
  parse_encodings (S len) 0 len str encodings.

Definition AcceptEncoding_write (encodings : list (Encoding * spec_float)) : bytes :=
  join (B ", ") (map (fun '(e, q) => encodingString e ++ B ";q=" ++ float_text q) encodings).

(** ** The class hierarchy *)

Inductive Header : Type :=
  | HAccept (mediaRange_ : list MediaType)
  | HAccessControlAllowOrigin (uri_ : bytes)
  | HAccessControlAllowHeaders (val_ : bytes)
  | HAccessControlExposeHeaders (val_ : bytes)
  | HAccessControlAllowMethods (val_ : bytes)
  | HAllow (methods_ : list Method.t)
  | HCacheControl (directives_ : list CacheDirective)
  | HConnection (control_ : ConnectionControl)
  | HAcceptEncoding (encodings_ : list (Encoding * spec_float))
  | HContentEncoding (encoding_ : Encoding)
  | HTransferEncoding (encoding_ : Encoding)
  | HContentLength (value_ : Z)
  | HContentType (mime_ : MediaType)
  | HAuthorization (value_ : bytes)
  | HDate (fullDate_ : Z)
  | HETag (etagc_ : bytes) (isWeak_ : bool)
  | HExpect (expectation_ : Expectation)
  | HHost (uriHost_ : bytes) (port_ : Z)
  | HLastModified (fullDate_ : Z)
  | HLocation (location_ : bytes)
  | HServer (tokens_ : list bytes)
  | HUserAgent (ua_ : bytes).

(** [Name] *)
Definition Header_name (h : Header) : bytes :=
  match h with
  | HAccept _ => B "Accept"
  | HAccessControlAllowOrigin _ => B "Access-Control-Allow-Origin"
  | HAccessControlAllowHeaders _ => B "Access-Control-Allow-Headers"
  | HAccessControlExposeHeaders _ => B "Access-Control-Expose-Headers"
  | HAccessControlAllowMethods _ => B "Access-Control-Allow-Methods"
  | HAllow _ => B "Allow"
  | HCacheControl _ => B "Cache-Control"
  | HConnection _ => B "Connection"
  | HAcceptEncoding _ => B "Accept-Encoding"
  | HContentEncoding _ => B "Content-Encoding"
  | HTransferEncoding _ => B "Transfer-Encoding"
  | HContentLength _ => B "Content-Length"
  | HContentType _ => B "Content-Type"
  | HAuthorization _ => B "Authorization"
  | HDate _ => B "Date"
  | HETag _ _ => B "ETag"
  | HExpect _ => B "Expect"
  | HHost _ _ => B "Host"
  | HLastModified _ => B "Last-Modified"
  | HLocation _ => B "Location"
  | HServer _ => B "Server"
  | HUserAgent _ => B "User-Agent"
  end.

(** Run a parser on the data of a header; what it stored stays. *)
Definition on_data {A : Type} (mk : A -> Header) (m : M A unit) (a : A) : Header * result unit :=
  let '(a', r) := m a in (mk a', r).
Definition stores {A : Type} (mk : A -> Header) (r : result A) (h : Header) : Header * result unit :=
  match r with
  | Ok a => (mk a, Ok tt)
  | Throw e => (h, Throw e)
  | UB => (h, UB)
  | OutOfFuel => (h, OutOfFuel)
  end.

Section Virtual.
Context `{DateLib, Resolver}.

(** [parseRaw(str, len)]: the class's own, or its [parse] on the string of the
    first [len] bytes.  [str] is all the memory from the pointer on, up to a NUL:
    [Expect] and the quality values read it past [len]. *)
Definition Header_parseRaw (str : bytes) (len : nat) : M Header unit := fun h =>
  let data := take len str in
  match h with
  | HAccept ms => on_data HAccept (Accept_parseRaw str len) ms
  | HAccessControlAllowOrigin _ => (HAccessControlAllowOrigin data, Ok tt)
  | HAccessControlAllowHeaders _ => (HAccessControlAllowHeaders data, Ok tt)
  | HAccessControlExposeHeaders _ => (HAccessControlExposeHeaders data, Ok tt)
  | HAccessControlAllowMethods _ => (HAccessControlAllowMethods data, Ok tt)
  | HAllow _ => (h, Ok tt)
  | HCacheControl ds => on_data HCacheControl (CacheControl_parseRaw data) ds
  | HConnection _ => (HConnection (Connection_parseRaw data), Ok tt)
  | HAcceptEncoding es => stores HAcceptEncoding (AcceptEncoding_parseRaw str len es) h
  | HContentEncoding _ => (HContentEncoding (encodingFromString data), Ok tt)
  | HTransferEncoding _ => (HTransferEncoding (encodingFromString data), Ok tt)
  | HContentLength v => on_data HContentLength (ContentLength_parse data) v
  | HContentType m => on_data HContentType (MediaType_parseRaw str len) m
  | HAuthorization _ => (HAuthorization data, Ok tt)
  | HDate _ => stores HDate (FullDate_fromString data) h
  | HETag _ _ => stores (fun '(v, w) => HETag v w) (ETag_parse data) h
  | HExpect _ => (HExpect (Expect_parseRaw str), Ok tt)
  | HHost u p => on_data (fun '(u, p) => HHost u p) (Host_parse data) (u, p)
  | HLastModified _ => stores HLastModified (FullDate_fromString data) h
  | HLocation _ => (HLocation data, Ok tt)
  | HServer tokens => (HServer (tokens ++ [data]), Ok tt)
  | HUserAgent _ => (HUserAgent data, Ok tt)
  end.

(** [parse(const std::string&)]: the class's own, or its [parseRaw] on the
    string's memory. *)
Definition Header_parse (data : bytes) : M Header unit := Header_parseRaw data (length data).

Definition Header_write (order : gmap bytes bytes -> list (bytes * bytes)) (h : Header) : result bytes :=
  match h with
  | HAccept ms => Ok (Accept_write order ms)
  | HAccessControlAllowOrigin v | HAccessControlAllowHeaders v | HAccessControlExposeHeaders v
  | HAccessControlAllowMethods v | HAuthorization v | HLocation v | HUserAgent v => Ok v
  | HAllow ms => Ok (Allow_write ms)
  | HCacheControl ds => CacheControl_write ds
  | HConnection c => Ok (Connection_write c)
  | HAcceptEncoding es => Ok (AcceptEncoding_write es)
  | HContentEncoding e | HTransferEncoding e => Ok (encodingString e)
  | HContentLength v => Ok (to_string v)
  | HContentType m => Ok (MediaType_toString order m)
  | HDate d => Ok (FullDate_write RFC1123 d)
  | HETag v w => Ok (ETag_write v w)
  | HExpect e => Ok (Expect_write e)
  | HHost u p => Ok (Host_write u p)
  | HLastModified d => Ok (FullDate_write RFC1123GMT d)
  | HServer tokens => Ok (join (B " ") tokens)
  end.
End Virtual.

(** ** Lemmas on the authorization credentials *)

Lemma encode_ref_nonempty l : l <> [] -> encode_ref l <> [].
Proof. by destruct l as [|a [|b [|c l]]]. Qed.

Lemma has_scheme_app scheme v : v <> [] -> has_scheme scheme (scheme ++ v) = true.
Proof.
  intros Hv. unfold has_scheme. rewrite take_app_length, bool_decide_eq_true_2 by done.
  rewrite length_app. destruct v as [|a v]; [done|]. simpl length.
  rewrite (proj2 (Nat.leb_gt _ _)) by lia. done.
Qed.

(** ** Lemmas on the directives *)

Lemma match_raw_hit s p rest : match_raw s (Cursor p (s ++ rest)) = (true, Cursor (p ++ s) rest).
Proof.
  unfold match_raw, remaining, in_avail, sbump. cbn [after before]. rewrite length_app.
  rewrite (proj2 (Nat.ltb_ge _ _)) by lia. rewrite take_app_length, drop_app_length.
  by rewrite bool_decide_eq_true_2.
Qed.

Lemma match_raw_miss n s p l : (n <= length s)%nat -> take n s <> take n l -> match_raw s (Cursor p l) = (false, Cursor p l).
Proof.
  intros Hn Hne. unfold match_raw. destruct (_ <? _)%nat; [done|]. cbn [after].
  rewrite bool_decide_eq_false_2; [done|]. intros E. apply Hne.
  rewrite <- E at 1. rewrite take_take. by rewrite Nat.min_l by lia.
Qed.

(** The directive names differ within their first five characters. *)
Definition stem (s : bytes) : bytes := take 5 s.

Lemma match_raw_first_hit {A} (l : list (bytes * A)) s a p rest :
  In (s, a) l -> Forall (fun q => (5 <= length (fst q))%nat) l ->
  NoDup (map (fun q => stem (fst q)) l) ->
  match_raw_first l (Cursor p (s ++ rest)) = (Some a, Cursor (p ++ s) rest).
Proof.
  intros Hin Hl Hnd. induction l as [|[s' a'] l IH]; [done|]. cbn [match_raw_first].
  inversion Hl as [|? ? Hs' Hl']; subst. inversion Hnd as [|? ? Hx Hnd']; subst. cbn [fst] in *.
  destruct Hin as [E|Hin]; [injection E as -> ->; by rewrite match_raw_hit|].
  assert (5 <= length s)%nat as Hs.
  { rewrite list.Forall_forall in Hl'. apply (Hl' (s, a)). by apply list_elem_of_In. }
  rewrite (match_raw_miss 5); [by apply IH|done|]. rewrite take_app_le by done. intros E. apply Hx.
  change (take 5 s') with (stem s') in E. rewrite E. apply (list_elem_of_fmap_2 (fun q => stem (fst q)) l (s, a)).
  by apply list_elem_of_In.
Qed.

Lemma match_raw_first_miss {A} (l : list (bytes * A)) s p rest :
  (5 <= length s)%nat -> Forall (fun q => (5 <= length (fst q))%nat) l ->
  stem s ∉ map (fun q => stem (fst q)) l ->
  match_raw_first l (Cursor p (s ++ rest)) = (None, Cursor p (s ++ rest)).
Proof.
  intros Hs Hl Hn. induction l as [|[s' a'] l IH]; [done|]. cbn [match_raw_first].
  inversion Hl as [|? ? Hs' Hl']; subst. cbn [fst map] in *.
  rewrite (match_raw_miss 5); [apply IH; [done|set_solver]|done|].
  rewrite take_app_le by done. unfold stem in *. set_solver.
Qed.

Lemma match_raw_first_empty {A} (l : list (bytes * A)) p :
  Forall (fun q => (5 <= length (fst q))%nat) l -> match_raw_first l (Cursor p []) = (None, Cursor p []).
Proof.
  induction 1 as [|[s a] l Hs Hl IH]; [done|]. cbn [match_raw_first fst] in *.
  unfold match_raw. rewrite (proj2 (Nat.ltb_lt _ _)); [apply IH|]. cbn. lia.
Qed.

(** The directives [CacheControl::write] prints so that they can be read. *)
Inductive directive_ok : CacheDirective -> bytes -> Prop :=
  | ok_trivial s d : In (s, d) TrivialDirectives -> directive_ok (CacheDirective_plain d) s
  | ok_timed s d delta : In (s, d) TimedDirectives -> 0 < delta < 2 ^ 63 ->
      directive_ok (CacheDirective_of d delta) (s ++ B "=" ++ to_string delta).

Lemma directive_write_ok d text : directive_ok d text -> directive_write d = Ok text.
Proof.
  intros [s k Hk|s k delta Hk Hd]; cbn [In TrivialDirectives TimedDirectives] in Hk.
  - repeat destruct Hk as [E|Hk]; [..|done]; injection E as <- <-; reflexivity.
  - unfold directive_write.
    assert (hasDelta (CacheDirective_of k delta) = true) as ->.
    { repeat destruct Hk as [E|Hk]; [..|done]; by injection E as <- <-. }
    rewrite delta_of by lia.
    repeat destruct Hk as [E|Hk]; [..|done]; injection E as <- <-; cbn -[to_string Z.ltb];
      rewrite (proj2 (Z.ltb_lt 0 delta)) by lia; reflexivity.
Qed.

Lemma trivial_names :
  Forall (fun q => (5 <= length (fst q))%nat) TrivialDirectives
  /\ Forall (fun q => (5 <= length (fst q))%nat) TimedDirectives.
Proof. split; repeat constructor; cbn; lia. Qed.

Lemma stems_nodup :
  NoDup (map (fun q => stem (fst q)) TrivialDirectives)
  /\ NoDup (map (fun q => stem (fst q)) TimedDirectives)
  /\ forall s d, In (s, d) TimedDirectives -> stem s ∉ map (fun q => stem (fst q)) TrivialDirectives.
Proof.
  split_and!; [by apply (bool_decide_eq_true_1 _); vm_compute|by apply (bool_decide_eq_true_1 _); vm_compute|].
  intros s d Hk. cbn [In TimedDirectives] in Hk.
  repeat destruct Hk as [E|Hk]; [..|done]; injection E as <- <-; apply (bool_decide_eq_true_1 _); by vm_compute.
Qed.

(** What follows a directive: nothing, or a comma, a space and a directive. *)
Definition not_separator (l : bytes) : Prop :=
  match l with [] => True | a :: _ => (uchar a =? 44) || (uchar a =? 32) = false end.
Definition more (tail : bytes) : bytes := match tail with [] => [] | _ => B ", " ++ tail end.

Lemma more_not_digit tail : match more tail with [] => True | a :: _ => is_base_digit 10 a = false end.
Proof. by destruct tail. Qed.

Lemma parse_timed_eval s d delta p tail ds :
  In (s, d) TimedDirectives -> 0 < delta < 2 ^ 63 ->
  parse_timed (Cursor p (s ++ B "=" ++ to_string delta ++ more tail), ds)
  = ((Cursor (p ++ s ++ B "=" ++ to_string delta) (more tail), ds ++ [CacheDirective_of d delta]), Ok tt).
Proof.
  intros Hin Hd. unfold parse_timed. destruct trivial_names as [_ Hn], stems_nodup as (_ & Hnd & _).
  rewrite (bind_Ok _ _ _ _ _ (on_cursor_eq _ _ _ _ _ (match_raw_first_hit _ _ _ _ _ Hin Hn Hnd))).
  change (B "=" ++ to_string delta ++ more tail) with (chr 61 :: to_string delta ++ more tail).
  rewrite (bind_Ok _ _ _ _ _ (on_cursor_eq _ _ _ _ _ (advance_1_cons _ _ _))). cbn [negb].
  erewrite bind_Ok by reflexivity. cbv beta zeta. cbn [fst after].
  rewrite to_string_pos by lia. destruct (to_string_u_spec delta ltac:(lia)) as (Ev & Fd & Hne).
  rewrite (from_chars_u_app 10 size_max _ (more tail) 0 Hne Fd (more_not_digit tail)) by (rewrite Ev; unfold size_max; lia).
  cbn [ec ptr Cxx.value]. rewrite Ev.
  set (c := Cursor ((p ++ s) ++ [chr 61]) (to_string_u delta ++ more tail)).
  assert (advance (Z.of_nat (length (to_string_u delta))) c
          = (true, Cursor (((p ++ s) ++ [chr 61]) ++ to_string_u delta) (more tail))) as E.
  { assert (Z.of_nat (length (to_string_u delta)) < 2 ^ 63) as Hl.
    { unfold to_string_u. rewrite length_reverse. pose proof (digits_rev_length (S (Z.to_nat (Z.log2 delta))) delta).
      pose proof (Z.log2_lt_pow2 delta 63 ltac:(lia)). lia. }
    rewrite advance_spec by lia. unfold remaining, in_avail, c. cbn [after]. rewrite length_app.
    rewrite (proj2 (Z.ltb_ge _ _)) by lia. unfold sbump. cbn [before after].
    rewrite Nat2Z.id, take_app_length, drop_app_length. done. }
  rewrite (bind_Ok _ _ _ _ _ (on_cursor_eq _ _ _ _ _ E)). erewrite bind_Ok by reflexivity. cbv beta. cbn [fst].
  replace (negb (eof _) && negb (current _ =? 44)) with false by (by destruct tail).
  rewrite wraps_small by lia. unfold push_directive, on_object. cbn [fst snd].
  rewrite <- !app_assoc. reflexivity.
Qed.

Lemma skip_separators_more p tail :
  not_separator tail -> tail <> [] -> skip_separators p (more tail) = Cursor (p ++ B ", ") tail.
Proof.
  intros Hs Hne. unfold more. destruct tail as [|a tail]; [done|]. cbn [app skip_separators].
  change (skip_separators p (B ", " ++ a :: tail)) with (skip_separators ((p ++ [chr 44]) ++ [chr 32]) (a :: tail)).
  cbn [skip_separators]. cbn in Hs. rewrite Hs. by rewrite <- app_assoc.
Qed.

Lemma parse_directive_eval d text p tail ds :
  directive_ok d text -> not_separator tail ->
  exists p', parse_directive (Cursor p (text ++ more tail), ds) = ((Cursor p' tail, ds ++ [d]), Ok tt).
Proof.
  intros Hok Ht. unfold parse_directive. destruct trivial_names as [Hn1 Hn2], stems_nodup as (Hs1 & Hs2 & Hs3).
  assert (exists p1, (found ← on_cursor (match_raw_first TrivialDirectives);
      match found with Some d0 => push_directive (CacheDirective_plain d0) | None => parse_timed end)
      (Cursor p (text ++ more tail), ds) = ((Cursor p1 (more tail), ds ++ [d]), Ok tt)) as [p1 E1].
  { destruct Hok as [s k Hk|s k delta Hk Hd].
    - rewrite (bind_Ok _ _ _ _ _ (on_cursor_eq _ _ _ _ _ (match_raw_first_hit _ _ _ _ _ Hk Hn1 Hs1))).
      eexists. reflexivity.
    - rewrite <- !app_assoc.
      assert (5 <= length s)%nat as Hs.
      { rewrite list.Forall_forall in Hn2. apply (Hn2 (s, k)). by apply list_elem_of_In. }
      rewrite (bind_Ok _ _ _ _ _ (on_cursor_eq _ _ _ _ _ (match_raw_first_miss _ _ _ _ Hs Hn1 (Hs3 s k Hk)))).
      eexists. by apply parse_timed_eval. }
  unfold mbind, M_bind in E1 |- *. destruct (on_cursor _ _) as [s0 [f|e| |]]; try done.
  rewrite E1. unfold cursor_. cbn [fst]. destruct tail as [|a tail].
  - eexists. reflexivity.
  - replace (eof _) with false by reflexivity. replace (current _ =? 44) with true by reflexivity. cbn [negb].
    unfold on_cursor. cbn [fst snd before after].
    rewrite skip_separators_more by done. eauto.
Qed.

Fixpoint directives_text (texts : list bytes) : bytes :=
  match texts with [] => [] | [t] => t | t :: ts => t ++ more (directives_text ts) end.

Lemma directive_text_start d text rest : directive_ok d text -> not_separator (text ++ rest) /\ text ++ rest <> [].
Proof.
  intros [s k Hk|s k delta Hk _]; cbn [In TrivialDirectives TimedDirectives] in Hk;
    repeat destruct Hk as [E|Hk]; try done; injection E as <- <-; by split.
Qed.

Lemma directives_text_cons t ts : directives_text (t :: ts) = t ++ more (directives_text ts).
Proof. destruct ts; simpl; [by rewrite app_nil_r|done]. Qed.

Lemma parse_directives_eval ds texts acc p fuel :
  Forall2 directive_ok ds texts -> ds <> [] -> (length ds <= S fuel)%nat ->
  exists p', parse_directives fuel (Cursor p (directives_text texts), acc) = ((Cursor p' [], acc ++ ds), Ok tt).
Proof.
  intros H. revert acc p fuel. induction H as [|d t ds ts Hd H IH]; intros acc p fuel Hne Hf; [done|].
  rewrite directives_text_cons.
  assert (not_separator (directives_text ts)) as Hs.
  { destruct H as [|d' t' ds' ts' Hd' H']; [done|]. rewrite directives_text_cons.
    by apply (directive_text_start d' t'). }
  destruct (parse_directive_eval d t p (directives_text ts) acc Hd Hs) as [p1 E1].
  destruct H as [|d' t' ds' ts' Hd' H'].
  - exists p1. destruct fuel; cbn [parse_directives]; rewrite (bind_Ok _ _ _ _ _ E1); reflexivity.
  - destruct fuel as [|fuel]; [simpl in Hf; lia|].
    destruct (IH (acc ++ [d]) p1 fuel ltac:(done) ltac:(simpl in *; lia)) as [p2 E2].
    exists p2. cbn [parse_directives]. rewrite (bind_Ok _ _ _ _ _ E1). cbv beta.
    erewrite bind_Ok by reflexivity. cbv beta. cbn [fst].
    replace (eof _) with false.
    + rewrite E2. by rewrite <- app_assoc.
    + rewrite directives_text_cons. destruct (directive_text_start d' t' (more (directives_text ts')) Hd') as [_ Hnn].
      unfold eof, remaining, in_avail. cbn [after]. by destruct (t' ++ more _).
Qed.

Lemma CacheControl_write_text ds texts : Forall2 directive_ok ds texts -> CacheControl_write ds = Ok (directives_text texts).
Proof.
  induction 1 as [|d t ds ts Hd H IH]; [done|]. cbn [CacheControl_write].
  destruct H as [|d' t' ds' ts' Hd' H']; [by rewrite (directive_write_ok d t Hd)|].
  rewrite (directive_write_ok d t Hd). cbn [mbind result_bind]. rewrite IH. cbn [mbind result_bind].
  rewrite !directives_text_cons.
  destruct (directive_text_start d' t' (more (directives_text ts')) Hd') as [_ Hnn].
  unfold more at 2. by destruct (t' ++ more _).
Qed.

Lemma directives_text_length ds texts : Forall2 directive_ok ds texts -> (length ds <= length (directives_text texts))%nat.
Proof.
  induction 1 as [|d t ds ts Hd H IH]; [done|]. rewrite directives_text_cons, length_app.
  destruct (directive_text_start d t [] Hd) as [_ Hnn]. rewrite app_nil_r in Hnn.
  assert (1 <= length t)%nat by (destruct t; [done|simpl; lia]).
  cbn [length]. unfold more. destruct (directives_text ts); [simpl in *; lia|]. rewrite length_app. lia.
Qed.

(** ** Lemmas on the sorted encodings *)

(** Binary search, with the two elements it stops between tested. *)
Lemma upper_bound_spec {A} (greater : A -> bool) fuel first len (l : list A) :
  (len < fuel)%nat -> (first + len <= length l)%nat ->
  (forall x, (0 < first)%nat -> l !! (first - 1)%nat = Some x -> greater x = false) ->
  (forall x, l !! (first + len)%nat = Some x -> greater x = true) ->
  let n := upper_bound greater fuel first len l in
  (n <= length l)%nat
  /\ (forall x, (0 < n)%nat -> l !! (n - 1)%nat = Some x -> greater x = false)
  /\ (forall x, l !! n = Some x -> greater x = true).
Proof.
  revert first len. induction fuel as [|fuel IH]; intros first len Hf Hl Hlo Hhi; [lia|].
  cbn [upper_bound]. destruct (len =? 0)%nat eqn:E; bool_to_prop.
  { subst. rewrite Nat.add_0_r in *. done. }
  assert (len / 2 < len)%nat as Hh by (apply Nat.div_lt; lia).
  destruct (lookup_lt_is_Some_2 l (first + len / 2)) as [x Hx]; [lia|]. rewrite Hx.
  destruct (greater x) eqn:Eg.
  - apply IH; [lia|lia|done|]. intros y Hy. congruence.
  - apply IH; [lia|lia| |].
    + intros y _ Hy. replace (first + len / 2 + 1 - 1)%nat with (first + len / 2)%nat in Hy by lia. congruence.
    + intros y Hy. apply Hhi. rewrite <- Hy. f_equal. lia.
Qed.

(** Sorted by preference: no encoding is followed by a preferred one. *)
Definition by_preference (l : list (Encoding * spec_float)) : Prop :=
  forall i a b, l !! i = Some a -> l !! S i = Some b -> SFltb (snd a) (snd b) = false.

Lemma SFcompare_swap x y : SFcompare x y = Some Lt -> SFcompare y x = Some Gt.
Proof.
  unfold SFcompare. destruct x as [[]|[]| |[] mx ex], y as [[]|[]| |[] my ey]; try done.
  all: change (Pos.compare_cont Eq mx my) with (mx ?= my)%positive;
    change (Pos.compare_cont Eq my mx) with (my ?= mx)%positive;
    rewrite (Z.compare_antisym ex ey), (Pos.compare_antisym mx my);
    destruct (ex ?= ey), (mx ?= my)%positive; cbn; congruence.
Qed.

Lemma SFltb_asym x y : SFltb x y = true -> SFltb y x = false.
Proof.
  unfold SFltb. intros H. destruct (SFcompare x y) as [[]|] eqn:E; try done.
  by rewrite (SFcompare_swap _ _ E).
Qed.

Lemma insertEncoding_sorted e l : by_preference l -> by_preference (insertEncoding e l).
Proof.
  intros Hl. unfold insertEncoding.
  destruct (upper_bound_spec (fun b => SFltb (snd b) (snd e)) (S (length l)) 0 (length l) l
    ltac:(lia) ltac:(lia)) as (Hn & Hlo & Hhi); [intros; lia|intros x Hx%lookup_lt_Some; lia|].
  set (n := upper_bound _ _ _ _ _) in *. clearbody n. intros i a b Ha Hb.
  assert (length (take n l) = n) as Hlen by (rewrite length_take; lia).
  destruct (decide (S i < n)%nat).
  { rewrite lookup_app_l in Ha, Hb by lia. rewrite lookup_take_lt in Ha, Hb by lia. by eapply Hl. }
  destruct (decide (S i = n)).
  { subst n. rewrite lookup_app_l in Ha by lia. rewrite lookup_take_lt in Ha by lia.
    rewrite lookup_app_r in Hb by lia. rewrite Hlen, Nat.sub_diag in Hb. injection Hb as <-.
    apply (Hlo a); [lia|]. by replace (S i - 1)%nat with i by lia. }
  rewrite lookup_app_r in Ha, Hb by lia. rewrite Hlen in *.
  destruct (decide (i = n)) as [->|].
  { rewrite Nat.sub_diag in Ha. injection Ha as <-.
    replace (S n - n)%nat with 1%nat in Hb by lia.
    change (drop n l !! 0%nat = Some b) in Hb. rewrite lookup_drop, Nat.add_0_r in Hb.
    apply SFltb_asym, Hhi. exact Hb. }
  replace (S i - n)%nat with (S (S (i - n - 1))) in Hb by lia.
  replace (i - n)%nat with (S (i - n - 1)) in Ha by lia.
  change (drop n l !! (i - n - 1)%nat = Some a) in Ha. change (drop n l !! S (i - n - 1) = Some b) in Hb.
  rewrite !lookup_drop in *.
  eapply (Hl (n + (i - n - 1))%nat); [done|]. rewrite <- Hb. f_equal. lia.
Qed.

Lemma insertEncoding_perm e l : insertEncoding e l ≡ₚ e :: l.
Proof.
  unfold insertEncoding. set (n := upper_bound _ _ _ _ _). rewrite <- Permutation_middle. by rewrite take_drop.
Qed.

Lemma find_if_bounds p first last str : (first <= last)%nat -> (first <= find_if p first last str <= last)%nat.
Proof.
  intros. unfold find_if. pose proof (span_length_le (fun a => negb (p a)) (take (last - first) (drop first str))) as Hs.
  rewrite length_take in Hs. lia.
Qed.

(** The next token starts after where this one did. *)
Lemma find_if_progress start len str :
  (start < len)%nat -> (len <= length str)%nat ->
  (start < find_if is_http_token (find_ (chr 44) start len str) len str)%nat.
Proof.
  intros Hs Hl. pose proof (find_if_bounds (fun a => bool_decide (a = chr 44)) start len str ltac:(lia)) as Hb.
  fold (find_ (chr 44) start len str) in Hb.
  pose proof (find_if_bounds is_http_token (find_ (chr 44) start len str) len str ltac:(lia)) as Hb2.
  destruct (decide (find_ (chr 44) start len str = start)) as [E|]; [|lia]. rewrite E in *.
  destruct (lookup_lt_is_Some_2 str start ltac:(lia)) as [a Ha].
  assert (take (len - start) (drop start str) = a :: take (len - start - 1) (drop (S start) str)) as Et.
  { rewrite (drop_S _ _ _ Ha). by replace (len - start)%nat with (S (len - start - 1)) by lia; cbn; rewrite Nat.sub_0_r. }
  unfold find_, find_if in E. rewrite Et in E. cbn [span] in E.
  case_bool_decide as Ea; [|cbn in E; lia]. subst a. unfold find_if. rewrite Et. cbn [span].
  replace (negb (is_http_token (chr 44))) with true by reflexivity. cbn [length]. lia.
Qed.

Lemma parse_encodings_sorted fuel start len str es :
  (start <= len)%nat -> (len - start < fuel)%nat -> (len <= length str)%nat -> by_preference es ->
  exists es', parse_encodings fuel start len str es = Ok es' /\ by_preference es'.
Proof.
  revert start es. induction fuel as [|fuel IH]; intros start es Hs Hf Hl Hes; [lia|].
  cbn [parse_encodings]. destruct (start =? len)%nat eqn:E; bool_to_prop; [eauto|]. cbv zeta.
  pose proof (find_if_progress start len str ltac:(lia) Hl) as Hp.
  pose proof (find_if_bounds (fun a => bool_decide (a = chr 44)) start len str Hs) as Hb.
  fold (find_ (chr 44) start len str) in Hb.
  pose proof (find_if_bounds is_http_token (find_ (chr 44) start len str) len str ltac:(lia)) as Hb2.
  match goal with |- exists _, match ?q with _ => _ end = _ /\ _ => destruct q as [v|] end.
  2:{ exists []. split; [done|]. by intros i a b. }
  apply IH; [lia|lia|done|]. case_bool_decide; [by apply insertEncoding_sorted|done].
Qed.

(** ** The table of encodings, checked entry by entry *)

Definition encoding_entry_ok (q : bytes * Encoding) : bool :=
  bool_decide (encodingFromString (fst q) = snd q) && bool_decide (encodingString (snd q) = fst q)
  && (length (fst q) <=? 9)%nat
  && forallb (fun n => negb (bool_decide (encodingFromString (take n (fst q)) = Unknown))) (seq 1 9).

Lemma encoding_literals_checked s e :
  In (s, e) encoding_literals ->
  encodingFromString s = e /\ encodingString e = s /\ (length s <= 9)%nat
  /\ forall n, (0 < n <= 9)%nat -> encodingFromString (take n s) <> Unknown.
Proof.
  intros Hin. assert (forallb encoding_entry_ok encoding_literals = true) as H by (vm_compute; reflexivity).
  rewrite forallb_forall in H. specialize (H _ Hin). unfold encoding_entry_ok in H. cbn [fst snd] in H.
  apply andb_true_iff in H as [H H4]. apply andb_true_iff in H as [H H3]. apply andb_true_iff in H as [H1 H2].
  apply bool_decide_eq_true in H1, H2. apply Nat.leb_le in H3. split_and!; [done|done|done|].
  intros n Hn. rewrite forallb_forall in H4. specialize (H4 n ltac:(apply in_seq; lia)).
  by apply negb_true_iff, bool_decide_eq_false in H4.
Qed.

(** ** Properties *)

(** The credentials set on an [Authorization] header are the ones its getters
    decode, whatever bytes the password holds. *)
Theorem authorization_roundtrip user password :
  colon ∉ user -> Z.of_nat (length user + length password) < 2 ^ 61 ->
  exists v, setBasicUserPassword user password = Ok v
    /\ getMethod v = Basic /\ getBasicUser v = Ok user /\ getBasicPassword v = Ok password.
Proof.
  intros Hu Hl. unfold setBasicUserPassword. pose proof (proj2 (find_char_None colon user) Hu) as E.
  rewrite E. rewrite bool_decide_eq_false_2 by (by intros [? ?]).
  assert (Z.of_nat (length (user ++ B ":" ++ password)) < 2 ^ 62) as Hl'.
  { rewrite !length_app. change (length (B ":")) with 1%nat. lia. }
  rewrite Encode_is_ref by done. cbn [mbind result_bind]. eexists. split; [done|].
  assert (encode_ref (user ++ B ":" ++ password) <> []) as Hne by (apply encode_ref_nonempty; by destruct user).
  assert (hasMethod_Basic (B "Basic " ++ encode_ref (user ++ B ":" ++ password)) = true) as Hb
    by (by apply has_scheme_app).
  unfold getMethod, getBasicUser, getBasicPassword, decoded_credentials. rewrite Hb. cbn [negb].
  rewrite drop_app_length, Decode_encode_ref. cbn [mbind result_bind].
  change (user ++ B ":" ++ password) with (user ++ colon :: password).
  rewrite find_char_app by done. split; [done|]. split.
  - by rewrite take_app_length.
  - replace (user ++ colon :: password) with ((user ++ [colon]) ++ password) by (by rewrite <- app_assoc).
    rewrite drop_app_exact; [done|]. rewrite length_app. simpl. lia.
Qed.

(** Every list of directives [CacheControl::write] prints in full is parsed back
    to the same list. *)
Theorem cache_control_roundtrip ds texts :
  Forall2 directive_ok ds texts -> ds <> [] ->
  exists text, CacheControl_write ds = Ok text /\ CacheControl_parseRaw text [] = (ds, Ok tt).
Proof.
  intros H Hne. exists (directives_text texts). split; [by apply CacheControl_write_text|].
  unfold CacheControl_parseRaw, RawStreamBuf. pose proof (directives_text_length _ _ H).
  destruct (parse_directives_eval ds texts [] [] (length (directives_text texts)) H Hne ltac:(lia)) as [p ->].
  done.
Qed.

(** [ETag::parse] undoes [ETag::write] for every valid entity tag, weak or
    strong, and an invalid one is refused. *)
Theorem etag_roundtrip etagc isWeak :
  ETag_parse (ETag_write etagc isWeak)
  = if isValidEtagc etagc then Ok (etagc, isWeak)
    else Throw (RuntimeError (B "Invalid ETag format: etagc must contain chars in a range of 0x21 / 0x23-0x7E / 0x80-0xFF")).
Proof.
  assert (parseOpaqueTag ([quote] ++ etagc ++ [quote]) = Ok etagc) as E.
  { unfold parseOpaqueTag. rewrite !length_app. simpl length. rewrite (proj2 (Nat.ltb_ge _ _)) by lia.
    rewrite bool_decide_eq_true_2 by done. rewrite app_assoc, last_snoc, bool_decide_eq_true_2 by done.
    cbn [negb orb]. rewrite <- app_assoc. cbn [app drop].
    replace (1 + (length etagc + 1) - 2)%nat with (length etagc) by lia. by rewrite drop_0, take_app_length. }
  unfold ETag_parse, ETag_write. destruct isWeak; cbn [app].
  - change (weakValidatorMark ++ quote :: etagc ++ [quote]) with (weakValidatorMark ++ ([quote] ++ etagc ++ [quote])).
    rewrite length_app, (proj2 (Nat.leb_le _ _)), take_app_length, bool_decide_eq_true_2 by (done || lia).
    cbn [andb]. rewrite drop_app_length, E. cbn [mbind result_bind]. unfold validateEtagc.
    by destruct (isValidEtagc etagc).
  - change (quote :: etagc ++ [quote]) with ([quote] ++ etagc ++ [quote]).
    rewrite (bool_decide_eq_false_2 (take _ _ = _)) by (by destruct etagc). rewrite andb_false_r, E.
    cbn [mbind result_bind]. unfold validateEtagc. by destruct (isValidEtagc etagc).
Qed.

(** Parsing an [Accept-Encoding] header ends, without reading outside the text,
    and the encodings it lists are sorted by preference, whatever the text and
    whatever sorted list it is added to. *)
Theorem accept_encoding_sorted str es :
  by_preference es ->
  exists es', AcceptEncoding_parseRaw str (length str) es = Ok es' /\ by_preference es'.
Proof. intros. unfold AcceptEncoding_parseRaw. apply parse_encodings_sorted; [lia..|done]. Qed.

(** [encodingFromString] compares only as many characters as the text has: each
    encoding's name is recognised, and so is every non-empty prefix of one. *)
Theorem encodingFromString_prefixes s e n :
  In (s, e) encoding_literals -> (0 < n)%nat ->
  encodingFromString s = e /\ encodingString e = s /\ encodingFromString (take n s) <> Unknown.
Proof.
  intros Hin Hn. destruct (encoding_literals_checked s e Hin) as (H1 & H2 & H3 & H4).
  split_and!; [done|done|]. destruct (decide (n <= 9)%nat); [by apply H4|].
  rewrite take_ge by lia. rewrite <- (take_ge s 9) by lia. apply H4. lia.
Qed.

(** ** Witnesses *)

Lemma authorization_roundtrip_witness :
  exists v, setBasicUserPassword (B "Aladdin") (B "open:sesame") = Ok v
    /\ getMethod v = Basic /\ getBasicUser v = Ok (B "Aladdin") /\ getBasicPassword v = Ok (B "open:sesame").
Proof. apply authorization_roundtrip; [by apply find_char_None|by vm_compute]. Defined.

Lemma cache_control_roundtrip_witness :
  exists text, CacheControl_write [CacheDirective_plain Public; CacheDirective_of MaxAge 3600] = Ok text
    /\ CacheControl_parseRaw text [] = ([CacheDirective_plain Public; CacheDirective_of MaxAge 3600], Ok tt).
Proof.
  apply (cache_control_roundtrip _ [B "public"; B "max-age=3600"]); [|discriminate].
  constructor; [apply ok_trivial; cbn; tauto|]. constructor; [|constructor].
  apply (ok_timed (B "max-age") MaxAge 3600); [cbn; tauto|lia].
Defined.

Lemma accept_encoding_sorted_witness :
  (exists es', AcceptEncoding_parseRaw (B "gzip;q=0.5, br, deflate;q=0.8") 29 [] = Ok es' /\ by_preference es')
  /\ fmap (map fst) (match AcceptEncoding_parseRaw (B "gzip;q=0.5, br, deflate;q=0.8") 29 [] with
       Ok es => Some es | _ => None end) = Some [Br; Deflate; Gzip].
Proof.
  split; [|vm_compute; reflexivity].
  apply (accept_encoding_sorted (B "gzip;q=0.5, br, deflate;q=0.8") []). by intros i a b.
Defined.

Lemma encodingFromString_prefixes_witness :
  encodingFromString (B "chunked") = Chunked /\ encodingString Chunked = B "chunked"
  /\ encodingFromString (B "c") <> Unknown.
Proof. apply (encodingFromString_prefixes (B "chunked") Chunked 1); [cbn; tauto|lia]. Defined.
