(* ===== verification/HttpHeaders.v ===== *)
(** * Header collections: [include/pistache/http_headers.h], [src/common/http_headers.cc]

    The case-insensitive [unordered_map]s are finite maps keyed by the lower-case
    name, each entry with the key it was inserted under.  A header is held by
    value: the [shared_ptr]s the accessors hand out are not followed. *)

From S2P Require Import Prelude Cxx HttpDefs QValue Mime Net HttpHeader.

Local Open Scope Z_scope.

Definition toLowercase (str : bytes) : bytes := map tolower str.

(** [std::equal] over both ranges. *)
Definition LowercaseEqualStatic (dynamic statik : bytes) : bool :=
  bool_decide (map tolower dynamic = statik).
Definition LowercaseEqual (left right : bytes) : bool :=
  bool_decide (map tolower left = map tolower right).

(** [Raw] *)
Record Raw : Set := { raw_name : bytes; raw_value : bytes }.

(** ** The registry: the headers [RegisterHeader] registers, as constructed *)

Definition registry : list Header :=
  [HAccept []; HAccessControlAllowOrigin []; HAccessControlAllowHeaders [];
   HAccessControlExposeHeaders []; HAccessControlAllowMethods []; HAllow []; HCacheControl [];
   HConnection KeepAlive; HAcceptEncoding []; HContentEncoding Identity; HTransferEncoding Identity;
   HContentLength 0; HContentType MediaType_default; HAuthorization (B "NONE"); HDate 0;
   HExpect ExpectContinue; HHost [] 0; HLastModified 0; HLocation []; HServer []; HUserAgent []].

Definition find_registered (name : bytes) : option Header :=
  List.find (fun h => LowercaseEqual (Header_name h) name) registry.

Definition isRegistered (name : bytes) : bool := bool_decide (is_Some (find_registered name)).

Definition makeHeader (name : bytes) : result Header :=
  match find_registered name with
  | Some h => Ok h
  | None => Throw (RuntimeError (B "Unknown header"))
  end.

(** ** [Collection] *)

Record Collection : Type := {
  headers : gmap bytes (bytes * Header);
  rawHeaders : gmap bytes (bytes * Raw) }.

Definition Collection_empty : Collection := {| headers := ∅; rawHeaders := ∅ |}.

(** [insert] on the case-insensitive map: an entry that is there stays. *)
Definition insert_ci {A : Type} (name : bytes) (a : A) (m : gmap bytes (bytes * A)) : gmap bytes (bytes * A) :=
  match m !! toLowercase name with
  | Some _ => m
  | None => <[toLowercase name := (name, a)]> m
  end.

Definition Collection_add (h : Header) (c : Collection) : Collection :=
  {| headers := insert_ci (Header_name h) h (headers c); rawHeaders := rawHeaders c |}.

Definition Collection_addRaw (r : Raw) (c : Collection) : Collection :=
  {| headers := headers c; rawHeaders := insert_ci (raw_name r) r (rawHeaders c) |}.

Definition tryGet (name : bytes) (c : Collection) : option Header := snd <$> headers c !! toLowercase name.
Definition tryGetRaw (name : bytes) (c : Collection) : option Raw := snd <$> rawHeaders c !! toLowercase name.

Definition Collection_get (name : bytes) (c : Collection) : result Header :=
  match tryGet name c with Some h => Ok h | None => Throw (RuntimeError (B "Could not find header")) end.
Definition Collection_getRaw (name : bytes) (c : Collection) : result Raw :=
  match tryGetRaw name c with Some h => Ok h | None => Throw (RuntimeError (B "Could not find header")) end.
Definition Collection_has (name : bytes) (c : Collection) : bool := bool_decide (is_Some (tryGet name c)).

Definition Collection_remove (name : bytes) (c : Collection) : bool * Collection :=
  match headers c !! toLowercase name with
  | None =>
      match rawHeaders c !! toLowercase name with
      | None => (false, c)
      | Some _ => (true, {| headers := headers c; rawHeaders := delete (toLowercase name) (rawHeaders c) |})
      end
  | Some _ => (true, {| headers := delete (toLowercase name) (headers c); rawHeaders := rawHeaders c |})
  end.

(** [order] is the sequence the [unordered_map] is iterated in. *)
Definition Collection_list (order : gmap bytes (bytes * Header) -> list (bytes * (bytes * Header))) (c : Collection)
  : list Header := map (fun e => e.2.2) (order (headers c)).

Definition Collection_clear (_ : Collection) : Collection := Collection_empty.

(** [tryGet<H>()] for the classes the program asks for: the static cast of the
    entry under the class's name. *)
Definition tryGet_ContentLength (c : Collection) : option Z :=
  match tryGet (B "Content-Length") c with Some (HContentLength v) => Some v | _ => None end.
Definition tryGet_TransferEncoding (c : Collection) : option Encoding :=
  match tryGet (B "Transfer-Encoding") c with Some (HTransferEncoding e) => Some e | _ => None end.
Definition tryGet_Connection (c : Collection) : option ConnectionControl :=
  match tryGet (B "Connection") c with Some (HConnection e) => Some e | _ => None end.
Definition tryGet_AcceptEncoding (c : Collection) : option (list (Encoding * SpecFloat.spec_float)) :=
  match tryGet (B "Accept-Encoding") c with Some (HAcceptEncoding e) => Some e | _ => None end.

(** ** Lemmas *)

Lemma toLowercase_idemp s : toLowercase (toLowercase s) = toLowercase s.
Proof. unfold toLowercase. rewrite map_map. apply map_ext. apply tolower_idemp. Qed.

Lemma insert_ci_lookup {A} name (a : A) m k :
  insert_ci name a m !! k = if decide (k = toLowercase name) then Some (default (name, a) (m !! k)) else m !! k.
Proof.
  unfold insert_ci. destruct (m !! toLowercase name) eqn:E; case_decide; subst.
  - by rewrite E.
  - done.
  - by rewrite lookup_insert_eq, E.
  - by rewrite lookup_insert_ne.
Qed.

(** Adding what is there already changes nothing. *)
Lemma insert_ci_present {A} name (a : A) m : is_Some (m !! toLowercase name) -> insert_ci name a m = m.
Proof. unfold insert_ci. by intros [? ->]. Qed.

Lemma insert_ci_idemp {A} name (a b : A) m : insert_ci name b (insert_ci name a m) = insert_ci name a m.
Proof. apply insert_ci_present. rewrite insert_ci_lookup, decide_True by done. eauto. Qed.

Lemma find_registered_name name h :
  find_registered name = Some h -> toLowercase (Header_name h) = toLowercase name /\ In h registry.
Proof.
  intros [Hin E]%find_some. split; [|done]. unfold LowercaseEqual in E. by apply bool_decide_eq_true in E.
Qed.

(** ** The invariant behind the typed accessors *)

(** Every typed header is stored under the name of its class. *)
Definition Collection_wf (c : Collection) : Prop :=
  forall k n h, headers c !! k = Some (n, h) -> n = Header_name h /\ k = toLowercase (Header_name h).

Lemma Collection_empty_wf : Collection_wf Collection_empty.
Proof.
  intros k n h E. change ((∅ : gmap bytes (bytes * Header)) !! k = Some (n, h)) in E.
  by rewrite lookup_empty in E.
Qed.

Lemma add_wf h c : Collection_wf c -> Collection_wf (Collection_add h c).
Proof.
  intros Hc k n h'. cbn [headers Collection_add]. rewrite insert_ci_lookup. case_decide; [|apply Hc].
  subst k. destruct (headers c !! toLowercase (Header_name h)) as [[n0 h0]|] eqn:E; simpl; intros; simplify_eq.
  - by eapply Hc.
  - done.
Qed.

Lemma remove_wf name c : Collection_wf c -> Collection_wf (snd (Collection_remove name c)).
Proof.
  intros Hc. unfold Collection_remove. repeat case_match; simpl; try done.
  intros k n h Hl. cbn [headers] in Hl. apply lookup_delete_Some in Hl as [_ Hl]. by eapply Hc.
Qed.

(** In a well-formed collection the entry under a class's name is of that class. *)
Lemma tryGet_name c name h : Collection_wf c -> tryGet name c = Some h -> toLowercase (Header_name h) = toLowercase name.
Proof.
  intros Hc. unfold tryGet. rewrite fmap_Some. intros ([n h'] & Hl & ->). simpl.
  destruct (Hc _ _ _ Hl) as [_ E]. congruence.
Qed.

(** ** Properties *)

(** The collection is a map up to the case of names: an added header is found
    under every spelling of its name unless one was there before, which stays;
    other names are not affected. *)
Theorem add_tryGet h c name :
  tryGet name (Collection_add h c)
  = if LowercaseEqual name (Header_name h) then Some (default h (tryGet name c)) else tryGet name c.
Proof.
  unfold tryGet, LowercaseEqual. cbn [headers Collection_add]. rewrite insert_ci_lookup.
  fold (toLowercase name) (toLowercase (Header_name h)).
  destruct (decide (toLowercase name = toLowercase (Header_name h))) as [E|E].
  - rewrite bool_decide_eq_true_2 by done. by destruct (headers c !! toLowercase name) as [[]|].
  - by rewrite bool_decide_eq_false_2.
Qed.

(** [remove] deletes the typed header and leaves the raw copy the parser keeps
    beside it: a second call is needed to delete that one. *)
Theorem remove_leaves_raw name c h r :
  tryGet name c = Some h -> tryGetRaw name c = Some r ->
  let '(ok, c') := Collection_remove name c in
  let '(ok2, c'') := Collection_remove name c' in
  ok = true /\ tryGet name c' = None /\ tryGetRaw name c' = Some r
  /\ ok2 = true /\ tryGet name c'' = None /\ tryGetRaw name c'' = None.
Proof.
  unfold tryGet, tryGetRaw, Collection_remove. rewrite !fmap_Some.
  intros ([n h'] & E1 & ->) ([n' r'] & E2 & ->). rewrite E1. cbn [headers rawHeaders].
  rewrite lookup_delete_eq, E2. cbn [headers rawHeaders]. rewrite !lookup_delete_eq. done.
Qed.

(** ** Witnesses *)

Definition one_header : Collection :=
  Collection_addRaw {| raw_name := B "Server"; raw_value := B "x" |} (Collection_add (HServer [B "x"]) Collection_empty).

Lemma remove_leaves_raw_witness :
  let '(ok, c') := Collection_remove (B "server") one_header in
  let '(ok2, c'') := Collection_remove (B "server") c' in
  ok = true /\ tryGet (B "server") c' = None
  /\ tryGetRaw (B "server") c' = Some {| raw_name := B "Server"; raw_value := B "x" |}
  /\ ok2 = true /\ tryGet (B "server") c'' = None /\ tryGetRaw (B "server") c'' = None.
Proof. apply (remove_leaves_raw (B "server") one_header (HServer [B "x"])); reflexivity. Defined.
