(* ===== verification/HttpMessage.v ===== *)
(** * Messages: the data classes of [include/pistache/http.h], [src/common/http.cc]

    [Uri::Query], [Message], [Request] and [Response].  The members' accessors
    are the record projections. *)

From Stdlib Require Import SpecFloat.
From S2P Require Import Prelude Cxx HttpDefs Cookie Net HttpHeader HttpHeaders.

Local Open Scope Z_scope.

(** ** [Uri::Query] *)

Abbreviation Query := (gmap bytes bytes).

Definition Query_add (name value : bytes) (params : Query) : Query := insert_new name value params.
Definition Query_get (name : bytes) (params : Query) : option bytes := params !! name.
Definition Query_has (name : bytes) (params : Query) : bool := bool_decide (is_Some (params !! name)).
Definition Query_clear (_ : Query) : Query := ∅.

(** [order] is the sequence the [unordered_map] is iterated in. *)
Definition Query_parameters (order : Query -> list (bytes * bytes)) (params : Query) : list bytes :=
  map fst (order params).

Definition Query_as_str (order : Query -> list (bytes * bytes)) (params : Query) : bytes :=
  match concat (map (fun '(k, v) => B "&" ++ k ++ B "=" ++ v) (order params)) with
  | [] => []
  | _ :: query_url => B "?" ++ query_url
  end.

(** ** [Message], [Request] and [Response] *)

Record Message : Type := {
  version_ : Version;
  code_ : Z;
  body_ : bytes;
  cookies_ : CookieJar;
  headers_ : Collection }.

(** A value-initialised message. *)
Definition Message_default : Message :=
  {| version_ := Http11; code_ := 0; body_ := []; cookies_ := ∅; headers_ := Collection_empty |}.

Record Request : Type := {
  request_message : Message;
  method_ : Method.t;
  resource_ : bytes;
  query_ : Query;
  address_ : Address;
  timeout_ : Z }.

Definition Request_default : Request :=
  {| request_message := Message_default; method_ := Method.Options; resource_ := []; query_ := ∅;
     address_ := Address_default; timeout_ := 0 |}.

(** [Response] adds no member to [Message]. *)
Record Response : Type := { response_message : Message }.

Definition Response_default : Response := {| response_message := Message_default |}.

Definition set_version (v : Version) (m : Message) : Message :=
  {| version_ := v; code_ := code_ m; body_ := body_ m; cookies_ := cookies_ m; headers_ := headers_ m |}.
Definition set_code (c : Z) (m : Message) : Message :=
  {| version_ := version_ m; code_ := c; body_ := body_ m; cookies_ := cookies_ m; headers_ := headers_ m |}.
Definition set_body (b : bytes) (m : Message) : Message :=
  {| version_ := version_ m; code_ := code_ m; body_ := b; cookies_ := cookies_ m; headers_ := headers_ m |}.
Definition set_cookies (j : CookieJar) (m : Message) : Message :=
  {| version_ := version_ m; code_ := code_ m; body_ := body_ m; cookies_ := j; headers_ := headers_ m |}.
Definition set_headers (c : Collection) (m : Message) : Message :=
  {| version_ := version_ m; code_ := code_ m; body_ := body_ m; cookies_ := cookies_ m; headers_ := c |}.

Definition set_message (m : Message) (r : Request) : Request :=
  {| request_message := m; method_ := method_ r; resource_ := resource_ r; query_ := query_ r;
     address_ := address_ r; timeout_ := timeout_ r |}.
Definition set_method (m : Method.t) (r : Request) : Request :=
  {| request_message := request_message r; method_ := m; resource_ := resource_ r; query_ := query_ r;
     address_ := address_ r; timeout_ := timeout_ r |}.
Definition set_resource (p : bytes) (r : Request) : Request :=
  {| request_message := request_message r; method_ := method_ r; resource_ := p; query_ := query_ r;
     address_ := address_ r; timeout_ := timeout_ r |}.
Definition set_query (q : Query) (r : Request) : Request :=
  {| request_message := request_message r; method_ := method_ r; resource_ := resource_ r; query_ := q;
     address_ := address_ r; timeout_ := timeout_ r |}.
Definition copyAddress (a : Address) (r : Request) : Request :=
  {| request_message := request_message r; method_ := method_ r; resource_ := resource_ r; query_ := query_ r;
     address_ := a; timeout_ := timeout_ r |}.

(** ** [getBestAcceptEncoding] *)

(** The content encodings the library is built with. *)
Class ContentEncodings := { use_zstd : bool; use_brotli : bool; use_deflate : bool }.

Definition encodingSupported `{ContentEncodings} (encoding : Encoding) : bool :=
  match encoding with
  | Zstd => use_zstd | Br => use_brotli | Deflate => use_deflate
  | Identity => true
  | _ => false
  end.

Fixpoint best_encoding `{ContentEncodings} (encodings : list (Encoding * spec_float)) : Encoding :=
  match encodings with
  | [] => Identity
  | (e, q) :: encodings' =>
      if encodingSupported e && negb (SFeqb q (S754_zero false)) then e else best_encoding encodings'
  end.

Definition Request_getBestAcceptEncoding `{ContentEncodings} (r : Request) : Encoding :=
  match tryGet_AcceptEncoding (headers_ (request_message r)) with
  | None => Identity
  | Some encodings => best_encoding encodings
  end.

(** ** Lemmas *)

Lemma insert_new_lookup {A} k (a : A) m j :
  insert_new k a m !! j = if decide (j = k) then Some (default a (m !! k)) else m !! j.
Proof.
  unfold insert_new. destruct (m !! k) eqn:E; case_decide; subst; try done.
  - by rewrite lookup_insert_eq.
  - by rewrite lookup_insert_ne.
Qed.

Lemma insert_new_present {A} k (a : A) m : is_Some (m !! k) -> insert_new k a m = m.
Proof. unfold insert_new. by intros [? ->]. Qed.

Lemma insert_new_idemp {A} k (a : A) m : insert_new k a (insert_new k a m) = insert_new k a m.
Proof. apply insert_new_present. rewrite insert_new_lookup, decide_True by done. eauto. Qed.

Lemma best_encoding_in `{ContentEncodings} es :
  best_encoding es = Identity
  \/ exists q pre post, es = pre ++ (best_encoding es, q) :: post
     /\ encodingSupported (best_encoding es) = true /\ SFeqb q (S754_zero false) = false
     /\ Forall (fun '(e, p) => encodingSupported e = false \/ SFeqb p (S754_zero false) = true) pre.
Proof.
  induction es as [|[e q] es IH]; simpl; [by left|].
  destruct (encodingSupported e) eqn:Es; simpl.
  2: { destruct IH as [->|(p & pre & post & E & ? & ? & ?)]; [by left|]. right.
       exists p, ((e, q) :: pre), post. simpl. rewrite <- E. repeat split; try done. constructor; auto. }
  destruct (SFeqb q (S754_zero false)) eqn:Eq; simpl.
  - destruct IH as [->|(p & pre & post & E & ? & ? & ?)]; [by left|]. right.
    exists p, ((e, q) :: pre), post. simpl. rewrite <- E. repeat split; try done. constructor; auto.
  - right. exists q, [], es. done.
Qed.
