(* ===== verification/HeaderMemory.v ===== *)
(** * What a header reads past its end

    [parseRaw] is given a pointer into the request buffer, and some classes read
    the memory after the header's value.  In a message the value is followed by
    CR, and none of them looks any further: the result depends on the value
    only. *)

From S2P Require Import Prelude Cxx Stream HttpDefs QValue Mime Net HttpHeader.

Local Open Scope Z_scope.

(** ** Characters and quality values *)

Section Memory.
Context (v x y : bytes).

Lemma char_at_memory i : (i <= length v)%nat -> char_at (v ++ CR :: x) i = char_at (v ++ CR :: y) i.
Proof.
  intros Hi. unfold char_at. destruct (decide (i < length v)%nat).
  - by rewrite !lookup_app_l by lia.
  - rewrite !lookup_app_r by lia. by replace (i - length v)%nat with 0%nat by lia.
Qed.

Lemma char_at_CR : char_at (v ++ CR :: x) (length v) = CR.
Proof. unfold char_at. by rewrite lookup_app_r, Nat.sub_diag by lia. Qed.

Lemma drop_memory i : (i <= length v)%nat -> drop i (v ++ CR :: x) = drop i v ++ CR :: x.
Proof. intros. by rewrite drop_app_le. Qed.

Lemma take_memory n : (n <= length v)%nat -> take n (v ++ CR :: x) = take n v.
Proof. intros. by rewrite take_app_le. Qed.

Lemma range_memory i n : (i + n <= length v)%nat -> take n (drop i (v ++ CR :: x)) = take n (drop i v).
Proof. intros. rewrite drop_memory by lia. apply take_app_le. rewrite length_drop. lia. Qed.
End Memory.

Lemma qvalue_scan_memory v x y todo len :
  (len <= length v)%nat ->
  qvalue_scan todo len (v ++ CR :: x) = qvalue_scan todo len (v ++ CR :: y)
  /\ (forall n, qvalue_scan todo len (v ++ CR :: x) = Some n -> (n <= length v)%nat).
Proof.
  revert len. induction todo as [|todo IH]; intros len Hl; simpl.
  { split; [done|]. by intros n [= <-]. }
  rewrite (char_at_memory v x y) by done.
  destruct (decide (len = length v)) as [->|].
  { rewrite char_at_CR. simpl. split; [done|]. by intros n [= <-]. }
  destruct (_ && negb _); [done|]. destruct (_ && _); [split; [done|]; by intros ? [= <-]|].
  apply IH. lia.
Qed.

Lemma qvalue_int_memory v x y n :
  (n <= length v)%nat -> qvalue_int n (v ++ CR :: x) = qvalue_int n (v ++ CR :: y).
Proof.
  intros Hn. unfold qvalue_int. cbv zeta.
  destruct n as [|[|[|[|[|[|n]]]]]]; try done; by rewrite !(char_at_memory v x y) by lia.
Qed.

Lemma strToQvalue_memory v x y : strToQvalue (v ++ CR :: x) = strToQvalue (v ++ CR :: y).
Proof.
  unfold strToQvalue. destruct (qvalue_scan_memory v x y 6 0) as [-> Hn]; [lia|].
  rewrite (char_at_memory v x y) by lia.
  destruct (qvalue_scan 6 0 (v ++ CR :: y)) as [n|]; [|done].
  by rewrite (qvalue_int_memory v x y n) by (by apply Hn).
Qed.

(** ** [Accept-Encoding] *)

Lemma find_if_memory p first last v x y :
  (first <= last <= length v)%nat -> find_if p first last (v ++ CR :: x) = find_if p first last (v ++ CR :: y).
Proof. intros. unfold find_if. by rewrite !range_memory by lia. Qed.

Lemma parse_encodings_memory fuel start v x y es :
  (start <= length v)%nat ->
  parse_encodings fuel start (length v) (v ++ CR :: x) es = parse_encodings fuel start (length v) (v ++ CR :: y) es.
Proof.
  revert start es. induction fuel as [|fuel IH]; intros start es Hs; [done|]. cbn [parse_encodings].
  destruct (start =? length v)%nat; [done|]. unfold find_, find_if_not.
  rewrite (find_if_memory _ start (length v) v x y) by lia.
  set (e := find_if _ start (length v) _).
  assert (start <= e <= length v)%nat as He by (by apply find_if_bounds).
  rewrite (find_if_memory _ start e v x y) by lia. set (t := find_if _ start e _).
  assert (start <= t <= e)%nat as Ht by (apply find_if_bounds; lia).
  rewrite (find_if_memory _ t e v x y) by lia. set (s := find_if _ t e _).
  assert (t <= s <= e)%nat as Hsm by (apply find_if_bounds; lia).
  unfold substr. rewrite !range_memory by lia.
  rewrite (find_if_memory _ e (length v) v x y) by lia.
  assert (e <= find_if is_http_token e (length v) (v ++ CR :: y) <= length v)%nat by (apply find_if_bounds; lia).
  match goal with |- match ?q with _ => _ end = match ?q' with _ => _ end => assert (q = q') as -> end.
  { destruct (s =? e)%nat eqn:Ese; [done|]. bool_to_prop.
    rewrite (find_if_memory _ (s + 1) e v x y) by lia. set (o := find_if _ (s + 1) e _).
    assert (s + 1 <= o <= e)%nat by (apply find_if_bounds; lia).
    rewrite (char_at_memory v x y) by lia. destruct (decide (o = length v)) as [->|]; [by rewrite char_at_CR|].
    rewrite (char_at_memory v x y (o + 1)) by lia.
    destruct (decide (o + 1 = length v)%nat) as [->|]; [rewrite char_at_CR, orb_true_r; done|].
    rewrite !drop_memory by lia. by rewrite (strToQvalue_memory _ x y). }
  case_match; [|done]. apply IH. lia.
Qed.

(** ** Media types

    Two parsers that agree on the states whose area has [n] bytes, which the
    first one keeps. *)

Definition area_size (c : cursor) : nat := (length (before c) + length (after c))%nat.

Definition agree {X A} (n : nat) (m1 m2 : parser X A) : Prop :=
  forall c x, area_size c = n -> m1 (c, x) = m2 (c, x) /\ area_size (m1 (c, x)).1.1 = n.

Definition keeps {A} (f : cursor -> A * cursor) : Prop := forall c, area_size (f c).2 = area_size c.

Section Agree.
Context {X : Type} (n : nat).

Lemma agree_bind {A C} (m1 m2 : parser X A) (k1 k2 : A -> parser X C) :
  agree n m1 m2 -> (forall a, agree n (k1 a) (k2 a)) -> agree n (m1 ≫= k1) (m2 ≫= k2).
Proof.
  intros Hm Hk c x Hc. destruct (Hm c x Hc) as [E Hn]. unfold mbind, M_bind. rewrite <- E.
  destruct (m1 (c, x)) as [[c' x'] [a|e| |]]; try done. by apply Hk.
Qed.

Lemma agree_cursor {C} (k1 k2 : cursor -> parser X C) :
  (forall c, area_size c = n -> agree n (k1 c) (k2 c)) -> agree n (cursor_ ≫= k1) (cursor_ ≫= k2).
Proof. intros Hk c x Hc. by apply Hk. Qed.

Lemma agree_ret {A} (a : A) : agree n (mret (M := parser X) a) (mret a).
Proof. by intros c x Hc. Qed.
Lemma agree_throw {A} e : agree (A := A) (X := X) n (throw e) (throw e).
Proof. by intros c x Hc. Qed.
Lemma agree_lift {A} (r : result A) : agree (X := X) n (lift r) (lift r).
Proof. by intros c x Hc. Qed.
Lemma agree_on_object f : agree (X := X) n (on_object f) (on_object f).
Proof. by intros c x Hc. Qed.
Lemma agree_on_cursor {A} (f : cursor -> A * cursor) : keeps f -> agree (X := X) n (on_cursor f) (on_cursor f).
Proof.
  intros Hf c x Hc. split; [done|]. unfold on_cursor. specialize (Hf c). cbn [fst snd].
  destruct (f c). simpl in *. congruence.
Qed.
End Agree.

Lemma sbump_keeps k c : area_size (sbump k c) = area_size c.
Proof. unfold area_size, sbump. simpl. rewrite length_app, length_take, length_drop. lia. Qed.

Lemma moves_keeps c p c' : moves c p c' -> area_size c' = area_size c.
Proof. intros H%moves_bytes%(f_equal length). by rewrite !length_app in H. Qed.

Lemma advance_keeps k : keeps (advance k).
Proof. intros c. unfold advance. destruct (_ <? _); [done|apply sbump_keeps]. Qed.

Lemma match_literal_keeps ch cs : keeps (match_literal ch cs).
Proof. intros c. unfold match_literal. repeat case_match; try done; apply (sbump_keeps 1). Qed.

Lemma match_string_keeps s cs : keeps (match_string s cs).
Proof. intros c. unfold match_string. repeat case_match; try done; apply sbump_keeps. Qed.

Lemma match_raw_keeps s : keeps (match_raw s).
Proof. intros c. unfold match_raw. repeat case_match; try done; apply sbump_keeps. Qed.

Lemma match_until_keeps chars cs : keeps (match_until chars cs).
Proof.
  intros c. destruct (match_until chars cs c) as [ok c'] eqn:E.
  apply match_until_moves in E as (pre & Hm & _). by eapply moves_keeps.
Qed.

Lemma match_first_keeps {A} (l : list (bytes * A)) : keeps (match_first l).
Proof.
  intros c. induction l as [|[s a] l IH]; [done|]. simpl. pose proof (match_string_keeps s Insensitive c) as H.
  unfold match_string in *. repeat case_match; simplify_eq/=; try done; apply sbump_keeps.
Qed.

#[export] Hint Resolve advance_keeps match_literal_keeps match_string_keeps match_raw_keeps match_until_keeps
  match_first_keeps : pistache.

Ltac agree_step tac :=
  repeat (idtac; lazymatch goal with
  | |- agree _ (cursor_ ≫= _) _ => apply agree_cursor; intros ? ?
  | |- agree _ (mbind _ _) _ => apply agree_bind; [|intros ?]
  | |- agree _ (mret _) _ => apply agree_ret
  | |- agree _ (throw _) _ => apply agree_throw
  | |- agree _ (raise _) _ => apply agree_throw
  | |- agree _ (lift _) _ => tac || apply agree_lift
  | |- agree _ (on_object _) _ => apply agree_on_object
  | |- agree _ (on_cursor _) _ => apply agree_on_cursor; auto with pistache
  | |- agree _ (if ?b then _ else _) (if ?b then _ else _) => destruct b
  | |- agree _ (match ?b with _ => _ end) (match ?b with _ => _ end) => destruct b
  | |- agree _ (let x := _ in _) _ => cbv zeta
  | |- _ => tac
  end).

Section MediaMemory.
Context (v x y : bytes).

Lemma strToQvalue_drop_memory i :
  (i <= length v)%nat -> strToQvalue (drop i (v ++ CR :: x)) = strToQvalue (drop i (v ++ CR :: y)).
Proof. intros. rewrite !drop_memory by done. apply strToQvalue_memory. Qed.

Lemma position_le c n : area_size c = n -> (position c <= n)%nat.
Proof. unfold area_size, position. lia. Qed.

Lemma parse_param_memory n :
  (n <= length v)%nat -> agree n (parse_param (v ++ CR :: x)) (parse_param (v ++ CR :: y)).
Proof.
  intros Hn. unfold parse_param.
  agree_step ltac:(idtac; match goal with H : area_size ?c = n |- agree _ (match strToQvalue (drop (position ?c) _) with _ => _ end) _ =>
    apply position_le in H; rewrite (strToQvalue_drop_memory (position c)) by lia end).
Qed.

Lemma parse_params_memory fuel n :
  (n <= length v)%nat -> agree n (parse_params fuel (v ++ CR :: x)) (parse_params fuel (v ++ CR :: y)).
Proof.
  intros Hn. induction fuel as [|fuel IH]; simpl; agree_step fail; [by apply parse_param_memory|done].
Qed.

Lemma parse_media_memory len :
  (len <= length v)%nat -> agree len (parse_media (v ++ CR :: x) len) (parse_media (v ++ CR :: y) len).
Proof.
  intros Hn. unfold parse_media. rewrite !take_memory by done.
  agree_step ltac:(progress unfold parse_subtype, parse_suffix). by apply parse_params_memory.
Qed.

Lemma MediaType_parseRaw_memory len m :
  (len <= length v)%nat -> MediaType_parseRaw (v ++ CR :: x) len m = MediaType_parseRaw (v ++ CR :: y) len m.
Proof.
  intros Hn. unfold MediaType_parseRaw. rewrite !take_memory by done.
  destruct (parse_media_memory len Hn (RawStreamBuf (take len v)) m) as [-> _]; [|done].
  unfold area_size. simpl. rewrite length_take. lia.
Qed.
End MediaMemory.

Lemma MediaType_fromRaw_memory v x y len :
  (len <= length v)%nat -> MediaType_fromRaw (v ++ CR :: x) len = MediaType_fromRaw (v ++ CR :: y) len.
Proof. intros. unfold MediaType_fromRaw. by rewrite (MediaType_parseRaw_memory v x y). Qed.

(** ** [Accept] *)

Lemma accept_scan_keeps fuel c : area_size (accept_scan fuel c) = area_size c.
Proof.
  revert c. induction fuel as [|fuel IH]; intros c; simpl; [done|].
  destruct (_ && _); [|done]. rewrite IH. apply advance_keeps.
Qed.

Lemma skip_spaces_keeps pre l : area_size (skip_spaces pre l) = (length pre + length l)%nat.
Proof.
  revert pre. induction l as [|a l IH]; intros pre; simpl; [done|].
  destruct (_ =? _); [|done]. rewrite IH, length_app. simpl. lia.
Qed.

Lemma parse_media_range_memory v x y :
  agree (length v) (parse_media_range (v ++ CR :: x)) (parse_media_range (v ++ CR :: y)).
Proof.
  unfold parse_media_range. apply agree_cursor. intros c0 H0. apply position_le in H0.
  agree_step ltac:(idtac; match goal with H : area_size ?c = _ |- agree _ (lift (MediaType_fromRaw _ _)) _ =>
    apply position_le in H; rewrite !drop_memory by lia;
    rewrite (MediaType_fromRaw_memory _ x y) by (unfold diff; rewrite length_drop; lia) end).
  - intros ?. apply accept_scan_keeps.
  - intros ?. apply skip_spaces_keeps.
Qed.

Lemma Accept_parseRaw_memory v x y ms :
  Accept_parseRaw (v ++ CR :: x) (length v) ms = Accept_parseRaw (v ++ CR :: y) (length v) ms.
Proof.
  unfold Accept_parseRaw. rewrite !take_memory by lia.
  assert (forall fuel, agree (length v) (parse_media_ranges fuel (v ++ CR :: x)) (parse_media_ranges fuel (v ++ CR :: y))) as H.
  { induction fuel as [|fuel IH]; simpl; agree_step fail; try apply parse_media_range_memory; done. }
  destruct (H (length v) (RawStreamBuf (take (length v) v)) ms) as [-> _]; [|done].
  unfold area_size. simpl. rewrite length_take. lia.
Qed.

(** ** [Expect] *)

Definition not_NUL (a : Ascii.ascii) : bool := negb (bool_decide (a = NUL)).

Lemma Expect_parseRaw_CR v x : Expect_parseRaw (v ++ CR :: x) = Expect_parseRaw (v ++ CR :: []).
Proof.
  unfold Expect_parseRaw. fold not_NUL.
  assert (forall s, CR ∈ s -> bool_decide (s = B "100-continue") = false) as Hcr.
  { intros s Hin. apply bool_decide_eq_false. intros ->. revert Hin. apply find_char_None. reflexivity. }
  destruct (decide (length (span not_NUL v) = length v)) as [E|E].
  - assert (span not_NUL v = v) as Ev.
    { pose proof (span_prefix not_NUL v) as Hp. rewrite E, drop_all, app_nil_r in Hp. done. }
    assert (forall z, span not_NUL (v ++ CR :: z) = v ++ CR :: span not_NUL z) as Es.
    { intros z. clear E. induction v as [|a v' IH]; [done|]. simpl in *.
      destruct (not_NUL a); [|done]. injection Ev as Ev. by rewrite IH. }
    rewrite !Es, !Hcr; [done|..]; set_solver.
  - assert (forall z, span not_NUL (v ++ CR :: z) = span not_NUL v) as Es; [|by rewrite !Es].
    intros z. clear Hcr. induction v as [|a v' IH]; [done|]. simpl in *. destruct (not_NUL a); [|done].
    rewrite IH; [done|]. simpl in E. lia.
Qed.

(** ** All the classes *)

(** A header's typed value depends on the text up to the end of its line only. *)
Lemma Header_parseRaw_memory `{DateLib, Resolver} v x y h :
  Header_parseRaw (v ++ CR :: x) (length v) h = Header_parseRaw (v ++ CR :: y) (length v) h.
Proof.
  unfold Header_parseRaw. rewrite !take_memory by lia. destruct h; try done.
  - unfold on_data. by rewrite (Accept_parseRaw_memory v x y).
  - unfold AcceptEncoding_parseRaw. by rewrite (parse_encodings_memory _ _ v x y) by lia.
  - unfold on_data. by rewrite (MediaType_parseRaw_memory v x y).
  - by rewrite (Expect_parseRaw_CR v x), (Expect_parseRaw_CR v y).
Qed.
