(* ===== verification/HttpParser.v ===== *)
(** * The incremental HTTP parser: [include/pistache/http.h], [src/common/http.cc]

    [Private::Step]s are parsers over the message they fill and the buffer's
    cursor.  A [Revert] is a combinator: the cursor goes back to where it was
    unless the guarded code ends by calling [ignore()]; what was stored in the
    message stays.  [ParserBase] runs the steps over the request buffer. *)

From S2P Require Import Prelude Cxx Stream HttpDefs QValue Mime Cookie Net HttpHeader HttpHeaders HttpMessage.

Local Open Scope Z_scope.

(** ** [std::string]'s allocations *)

(** [max_size()], and the longest string memory can be had for. *)
Class StringMemory := {
  max_size : Z;
  memory_limit : Z;
  memory_limit_ok : 0 <= memory_limit <= max_size;
  max_size_ok : max_size < 2 ^ 63 - 1 }.

(** [reserve]; the capacity is never above the limit. *)
Definition string_reserve `{StringMemory} (size : Z) : result unit :=
  if max_size <? size then Throw (LengthError (B "basic_string::_M_create"))
  else if memory_limit <? size then Throw BadAlloc
  else Ok tt.

(** [append(raw, n)]: [raw] is the memory from the pointer on. *)
Definition string_append `{StringMemory} (raw : bytes) (n : Z) (s : bytes) : result bytes :=
  if max_size - Z.of_nat (length s) <? n then Throw (LengthError (B "basic_string::append"))
  else if memory_limit <? Z.of_nat (length s) + n then Throw BadAlloc
  else if Z.of_nat (length raw) <? n then UB
  else Ok (s ++ take (Z.to_nat n) raw).

(** ** Steps *)

Inductive State : Set := Again | Next | Done.

#[export] Instance State_eq_dec : EqDecision State.
Proof. solve_decision. Defined.

(** [StreamCursor::Revert revert(cursor); ... revert.ignore(); return a]: [ignored]
    tells the values that are returned after [ignore()]. *)
Definition Revert {X A : Type} (ignored : A -> bool) (m : parser X A) : parser X A := fun s =>
  let '((c, x), r) := m s in
  match r with
  | Ok a => ((if ignored a then c else fst s, x), r)
  | _ => ((fst s, x), r)
  end.

(** [if (!m) return again;] *)
Definition unless {X A : Type} (m : parser X bool) (again : A) (k : parser X A) : parser X A :=
  ok ← m; if ok : bool then k else mret again.

Definition Step_raise {X A : Type} (msg : bytes) (code : Code.t) : parser X A :=
  throw (HttpError (Code.value code) msg).

Definition is_char (a : Z) (c : cursor) : bool := current c =? a.
Definition SP : Z := 32.

(** [while (!stop(cursor)) if (!cursor.advance(1)) return again;] *)
Definition scan_to {X A : Type} (stop : cursor -> bool) (again : A) (k : parser X A) : parser X A :=
  unless (on_cursor (scan stop)) again k.
Definition advancing {X A : Type} (n : Z) (again : A) (k : parser X A) : parser X A :=
  unless (on_cursor (advance n)) again k.
Definition reaching {X A : Type} (chars : list Ascii.ascii) (again : A) (k : parser X A) : parser X A :=
  unless (on_cursor (match_until chars Insensitive)) again k.

(** *** [RequestLineStep] *)

Definition add_query (key value : bytes) (r : Request) : Request := set_query (Query_add key value (query_ r)) r.

(** One parameter of the query; [false] is [return State::Again]. *)
Definition query_param : parser Request bool :=
  keyToken ← cursor_;
  reaching [equals; chr 32; chr 38] false (
  c ← cursor_;
  let key := Token_text (position keyToken) c in
  if is_char SP c then _ ← on_object (add_query key []); mret true
  else if is_char 38 c then _ ← on_object (add_query key []); advancing 1 false (mret true)
  else
    advancing 1 false (
    valueToken ← cursor_;
    reaching [chr 32; chr 38] false (
    c ← cursor_;
    _ ← on_object (add_query key (Token_text (position valueToken) c));
    if is_char 38 c then advancing 1 false (mret true) else mret true))).

(** [while ((n = cursor.current()) != ' ')], one unit of fuel per iteration. *)
Fixpoint query_params (fuel : nat) : parser Request bool :=
  c ← cursor_;
  if is_char SP c then mret true
  else match fuel with
       | O => lift OutOfFuel
       | S fuel' => unless query_param false (query_params fuel')
       end.

Definition parse_resource : parser Request bool :=
  resToken ← cursor_;
  scan_to (fun c => is_char 63 c || is_char SP c) false (
  c ← cursor_;
  _ ← on_object (set_resource (Token_text (position resToken) c));
  if is_char 63 c then
    advancing 1 false (c ← cursor_; query_params (S (remaining c)))
  else mret true).

(** The version: [strncmp] with the size of the token. *)
Definition version_of (versionToken : bytes) : option Version :=
  if strncmp_eq (length versionToken) versionToken (B "HTTP/1.0") then Some Http10
  else if strncmp_eq (length versionToken) versionToken (B "HTTP/1.1") then Some Http11
  else None.

Definition parse_version : parser Request State :=
  versionToken ← cursor_;
  scan_to eol Again (
  c ← cursor_;
  match version_of (Token_text (position versionToken) c) with
  | None => Step_raise (B "Encountered invalid HTTP version") Code.Bad_Request
  | Some v =>
      _ ← on_object (fun r => set_message (set_version v (request_message r)) r);
      advancing 2 Again (mret Next)
  end).

Definition is_Next (s : State) : bool := bool_decide (s = Next).

Definition RequestLineStep_apply : parser Request State :=
  Revert is_Next (
  methodToken ← cursor_;
  reaching [chr 32] Again (
  c ← cursor_;
  match find_method (Token_text (position methodToken) c) with
  | None => Step_raise (B "Unknown HTTP request method") Code.Bad_Request
  | Some m =>
      _ ← on_object (set_method m);
      if eof c then mret Again
      else if negb (is_char SP c)
      then Step_raise (B "Malformed HTTP request after Method, expected SP") Code.Bad_Request
      else
        advancing 1 Again (
        unless parse_resource Again (
        advancing 1 Again parse_version))
  end)).

(** [parseResult.ec == std::errc {} && *parseResult.ptr == ch]; [raw] is the
    memory from the start of the number on. *)
Definition number_before (ch : Ascii.ascii) (raw : bytes) (parseResult : from_chars_result) : bool :=
  match ec parseResult with errc_ok => bool_decide (raw !! ptr parseResult = Some ch) | _ => false end.

(** *** [ResponseLineStep] *)

Definition ResponseLineStep_apply : parser Response State :=
  Revert is_Next (
  is11 ← on_cursor (match_raw (B "HTTP/1.1"));
  is1x ← (if is11 : bool then mret true else on_cursor (match_raw (B "HTTP/1.0")));
  if negb is1x then Step_raise (B "Encountered invalid HTTP version") Code.Bad_Request
  else
    c ← cursor_;
    if negb (current c =? Eof) && negb (is_char SP c)
    then Step_raise (B "Expected SPACE after http version") Code.Bad_Request
    else
      advancing 1 Again (
      codeToken ← cursor_;
      reaching [chr 32] Again (
      c ← cursor_;
      let parseResult := from_chars_int (Token_text (position codeToken) c) 0 in
      if negb (number_before (chr 32) (Token_raw (position codeToken) c) parseResult)
      then Step_raise (B "Failed to parse return code") Code.Bad_Request
      else
        _ ← on_object (fun r =>
              {| response_message := set_code (Cxx.value parseResult) (response_message r) |});
        advancing 1 Again (
        _ ← on_cursor (scan (fun c => eol c || eof c));
        advancing 2 Again (mret Next))))).

(** *** [HeadersStep] *)

Definition on_cookies (f : CookieJar -> CookieJar) (m : Message) : Message := set_cookies (f (cookies_ m)) m.
Definition on_headers (f : Collection -> Collection) (m : Message) : Message := set_headers (f (headers_ m)) m.

(** What a member function with state [Y] does to the message that has it. *)
Definition on_member {X Y A : Type} (of_ : X -> Y) (set : Y -> X -> X) (f : M Y A) : parser X A := fun '(c, x) =>
  let '(y, r) := f (of_ x) in ((c, set y x), r).

Section Headers.
Context `{DateLib, Resolver}.

(** The typed form of a header: [raw] is the memory from the value on, [len] the
    value's length. *)
Definition store_header (name raw : bytes) (len : nat) : parser Message unit :=
  if LowercaseEqualStatic name (B "cookie") then
    _ ← on_object (on_cookies CookieJar_removeAllCookies);
    on_member cookies_ set_cookies (CookieJar_addFromRaw (take len raw))
  else if LowercaseEqualStatic name (B "set-cookie") then
    cookie ← lift (Cookie_fromRaw (take len raw));
    on_object (on_cookies (CookieJar_add cookie))
  else if isRegistered name then
    header ← lift (makeHeader name);
    header ← lift (let '(h, r) := Header_parseRaw raw len header in _ ← r; Ok h);
    on_object (on_headers (Collection_add header))
  else mret tt.

(** The body of the loop over the header lines; [false] is [return State::Again]. *)
Definition header_line : parser Message bool :=
  Revert id (
  start ← cursor_;
  scan_to (is_char 58) false (
  advancing 1 false (
  c ← cursor_;
  let name := take (diff (position start) c - 1) (Token_raw (position start) c) in
  scan_to (fun c => negb (is_char SP c)) false (
  start ← cursor_;
  scan_to eol false (
  c ← cursor_;
  let raw := Token_raw (position start) c in
  let len := diff (position start) c in
  _ ← store_header name raw len;
  _ ← on_object (on_headers (Collection_addRaw {| raw_name := name; raw_value := take len raw |}));
  advancing 2 false (mret true)))))).

(** [while (!cursor.eol())], one unit of fuel per iteration. *)
Fixpoint header_lines (fuel : nat) : parser Message bool :=
  c ← cursor_;
  if eol c then mret true
  else match fuel with
       | O => lift OutOfFuel
       | S fuel' => unless header_line false (header_lines fuel')
       end.

Definition HeadersStep_apply : parser Message State :=
  Revert is_Next (
  c ← cursor_;
  unless (header_lines (S (remaining c))) Again (
  advancing 2 Again (mret Next))).

End Headers.

(** *** [BodyStep] *)

Record Chunk : Set := { chunk_bytesRead : Z; size : Z; alreadyAppendedChunkBytes : Z }.

(** The constructor leaves [alreadyAppendedChunkBytes] unset; it is set before
    it is read. *)
Definition Chunk_new : Chunk := {| chunk_bytesRead := 0; size := -1; alreadyAppendedChunkBytes := 0 |}.
Definition Chunk_reset (k : Chunk) : Chunk :=
  {| chunk_bytesRead := 0; size := -1; alreadyAppendedChunkBytes := alreadyAppendedChunkBytes k |}.

Record BodyStep : Set := { chunk : Chunk; bytesRead : Z }.

Definition BodyStep_new : BodyStep := {| chunk := Chunk_new; bytesRead := 0 |}.

Definition on_chunk (f : Chunk -> Chunk) (b : Message * BodyStep) : Message * BodyStep :=
  (b.1, {| chunk := f (chunk b.2); bytesRead := bytesRead b.2 |}).
Definition set_bytesRead (n : Z) (b : Message * BodyStep) : Message * BodyStep :=
  (b.1, {| chunk := chunk b.2; bytesRead := n |}).

Section Body.
Context `{StringMemory}.

(** [message->body_.append(token.rawText(), n)] *)
Definition append_body (raw : bytes) (n : Z) : parser (Message * BodyStep) unit :=
  x ← object_;
  body ← lift (string_append raw n (body_ x.1));
  on_object (fun x => (set_body body x.1, x.2)).

Definition readBody (size : Z) : parser (Message * BodyStep) bool :=
  token ← cursor_;
  let available := Z.of_nat (remaining token) in
  let consume (n : Z) :=
    _ ← on_cursor (advance n);
    c ← cursor_;
    append_body (Token_raw (position token) c) (Z.of_nat (Token_size (position token) c)) in
  if available <? size then
    _ ← consume available;
    _ ← on_object (fun x => set_bytesRead (wrapu 64 (bytesRead x.2 + available)) x);
    mret false
  else _ ← consume size; mret true.

Definition parseContentLength (contentLength : Z) : parser (Message * BodyStep) State :=
  x ← object_;
  ok ← (if 0 <? bytesRead x.2 then readBody (wrapu 64 (contentLength - bytesRead x.2))
        else _ ← lift (string_reserve (wrapu 32 contentLength)); readBody (wrapu 64 contentLength));
  if negb ok then mret Again
  else _ ← on_object (set_bytesRead 0); mret Done.

Inductive ChunkResult : Set := Complete | Incomplete | Final.

(** The size line; [false] is [return Incomplete]. *)
Definition chunk_size_line : parser (Message * BodyStep) bool :=
  Revert id (
  chunkSize ← cursor_;
  scan_to eol false (
  c ← cursor_;
  let parseResult := from_chars_u 16 (2 ^ 64 - 1) (Token_text (position chunkSize) c) 0 in
  if negb (number_before CR (Token_raw (position chunkSize) c) parseResult)
  then throw (RuntimeError (B "Invalid chunk size"))
  else
    advancing 2 false (
    _ ← on_object (on_chunk (fun k =>
          {| chunk_bytesRead := chunk_bytesRead k; size := wraps 64 (Cxx.value parseResult);
             alreadyAppendedChunkBytes := 0 |}));
    mret true))).

(** [ssize_t] arithmetic. *)
Definition fits_ssize (z : Z) : bool := (- 2 ^ 63 <=? z) && (z <? 2 ^ 63).

(** What follows the size line. *)
Definition chunk_data : parser (Message * BodyStep) ChunkResult :=
  x ← object_;
  let size := size (chunk x.2) in
  let already := alreadyAppendedChunkBytes (chunk x.2) in
  if size =? 0 then mret Final
  else
    _ ← lift (string_reserve (wrapu 64 size));
    chunkData ← cursor_;
    let available := Z.of_nat (remaining chunkData) in
    if negb (fits_ssize (available + already) && fits_ssize (size + 2)) then lift UB
    else if available + already <? size + 2 then
      _ ← on_cursor (advance available);
      c ← cursor_;
      _ ← append_body (Token_raw (position chunkData) c) available;
      _ ← on_object (on_chunk (fun k =>
            {| chunk_bytesRead := chunk_bytesRead k; size := HttpParser.size k;
               alreadyAppendedChunkBytes := already + available |}));
      mret Incomplete
    else if negb (fits_ssize (size - already)) then lift UB
    else
      _ ← on_cursor (advance (wrapu 64 (size - already)));
      _ ← on_cursor (advance 2);
      c ← cursor_;
      _ ← append_body (Token_raw (position chunkData) c) (wrapu 64 (size - already));
      mret Complete.

Definition Chunk_parse : parser (Message * BodyStep) ChunkResult :=
  x ← object_;
  if size (chunk x.2) =? -1 then unless chunk_size_line Incomplete chunk_data
  else chunk_data.

(** [while ((result = chunk.parse(cursor)) != Chunk::Final)]; one unit of fuel
    per iteration. *)
Fixpoint chunk_loop (fuel : nat) : parser (Message * BodyStep) State :=
  match fuel with
  | O => lift OutOfFuel
  | S fuel' =>
      result ← Chunk_parse;
      match result with
      | Final => _ ← on_object (on_chunk Chunk_reset); mret Done
      | Incomplete => mret Again
      | Complete =>
          _ ← on_object (on_chunk Chunk_reset);
          c ← cursor_;
          if eof c then mret Again else chunk_loop fuel'
      end
  end.

(** [try { m } catch (const std::exception& e) { handler(e) }] *)
Definition catching {S A : Type} (m : M S A) (handler : exn -> M S A) : M S A := fun s =>
  match m s with
  | (s', Throw e) => handler e s'
  | r => r
  end.

Definition parseTransferEncoding (encoding : Encoding) : parser (Message * BodyStep) State :=
  if decide (encoding = Chunked) then
    c ← cursor_;
    catching (chunk_loop (S (S (remaining c))))
      (fun e => _ ← on_object (on_chunk Chunk_reset); Step_raise (what e) Code.Bad_Request)
  else Step_raise (B "Unsupported Transfer-Encoding") Code.Not_Implemented.

Definition BodyStep_apply : parser (Message * BodyStep) State :=
  x ← object_;
  match tryGet_ContentLength (headers_ x.1), tryGet_TransferEncoding (headers_ x.1) with
  | Some _, Some _ =>
      Step_raise (B "Got mutually exclusive ContentLength and TransferEncoding header") Code.Bad_Request
  | Some cl, None => parseContentLength cl
  | None, Some te => parseTransferEncoding te
  | None, None => mret Done
  end.

End Body.

(** ** [ParserBase] and [ParserImpl] *)

(** What a template argument of [ParserImpl] provides: its [Message] part, its
    initial value, the step for its start line and what [reset] makes of it. *)
Class ParsedMessage (T : Type) := {
  message_of : T -> Message;
  update_message : Message -> T -> T;
  initial : T;
  line_step : parser T State;
  reset_object : T -> T }.

#[export] Instance Request_parsed : ParsedMessage Request := {|
  message_of := request_message;
  update_message := set_message;
  initial := Request_default;
  line_step := RequestLineStep_apply;
  reset_object _ := Request_default |}.

#[export] Instance Response_parsed : ParsedMessage Response := {|
  message_of := response_message;
  update_message m _ := {| response_message := m |};
  initial := Response_default;
  line_step := ResponseLineStep_apply;
  reset_object r := r |}.

(** The cursor is the buffer's: it is the buffer's get area. *)
Record ParserImpl (T : Type) : Type := {
  buffer : ArrayStreamBuf;
  currentStep : nat;
  object : T;
  body_step : BodyStep }.
Arguments buffer {T} p : rename.
Arguments currentStep {T} p : rename.
Arguments object {T} p : rename.
Arguments body_step {T} p : rename.

Abbreviation RequestParser := (ParserImpl Request).
Abbreviation ResponseParser := (ParserImpl Response).

Definition StepsCount : nat := 3.

Section Parser.
Context `{DateLib, Resolver, StringMemory} {T : Type} `{ParsedMessage T}.

Definition ParserImpl_new (maxDataSize : nat) : ParserImpl T :=
  {| buffer := ArrayStreamBuf_new maxDataSize; currentStep := 0; object := initial; body_step := BodyStep_new |}.

Definition set_area (c : cursor) (p : ParserImpl T) : ParserImpl T :=
  {| buffer := Array c (array_maxSize (buffer p)); currentStep := currentStep p; object := object p;
     body_step := body_step p |}.
Definition set_object (t : T) (p : ParserImpl T) : ParserImpl T :=
  {| buffer := buffer p; currentStep := currentStep p; object := t; body_step := body_step p |}.
Definition set_currentStep (n : nat) (p : ParserImpl T) : ParserImpl T :=
  {| buffer := buffer p; currentStep := n; object := object p; body_step := body_step p |}.
Definition set_body_step (b : BodyStep) (p : ParserImpl T) : ParserImpl T :=
  {| buffer := buffer p; currentStep := currentStep p; object := object p; body_step := b |}.

(** [allSteps[currentStep]->apply(cursor)] *)
Definition apply_step : M (ParserImpl T) State := fun p =>
  let c := area (buffer p) in
  match currentStep p with
  | 0%nat => let '((c, t), r) := line_step (c, object p) in (set_area c (set_object t p), r)
  | 1%nat =>
      let '((c, m), r) := HeadersStep_apply (c, message_of (object p)) in
      (set_area c (set_object (update_message m (object p)) p), r)
  | 2%nat =>
      let '((c, (m, b)), r) := BodyStep_apply (c, (message_of (object p), body_step p)) in
      (set_area c (set_object (update_message m (object p)) (set_body_step b p)), r)
  | _ => (p, UB)
  end.

(** The [do ... while (state == State::Next)] loop. *)
Fixpoint parse_steps (fuel : nat) : M (ParserImpl T) State :=
  match fuel with
  | O => lift OutOfFuel
  | S fuel' =>
      state ← apply_step;
      if decide (state = Next)
      then _ ← modify (fun p => set_currentStep (S (currentStep p)) p); parse_steps fuel'
      else mret state
  end.

Definition ParserBase_parse : M (ParserImpl T) State := parse_steps (S StepsCount).

Definition ParserBase_feed (data : bytes) (p : ParserImpl T) : bool * ParserImpl T :=
  let '(ok, b) := ArrayStreamBuf_feed data (buffer p) in
  (ok, {| buffer := b; currentStep := currentStep p; object := object p; body_step := body_step p |}).

(** [ParserBase::reset] and the override of [ParserImpl<Request>]; neither
    touches the [BodyStep]. *)
Definition ParserImpl_reset (p : ParserImpl T) : ParserImpl T :=
  {| buffer := ArrayStreamBuf_reset (buffer p); currentStep := 0; object := reset_object (object p);
     body_step := body_step p |}.

End Parser.

(** A memory of a terabyte, for the examples. *)
Definition terabyte : StringMemory.
Proof. refine {| max_size := 2 ^ 62; memory_limit := 2 ^ 40 |}; [split|]; vm_compute; done. Defined.
