(* ===== verification/Termination.v ===== *)
(** * The parser returns

    Every loop of the parser and of the header classes it calls consumes input or
    stops: the fuel the models of these loops are given is never used up. *)

From S2P Require Import Prelude Cxx Stream HttpDefs QValue Mime Cookie Net HttpHeader HttpHeaders HttpMessage HttpParser.

Local Open Scope Z_scope.

(** ** Loops over a cursor *)

(** [m] returns and does not move the cursor back. *)
Definition returns {X A : Type} (m : parser X A) : Prop := forall s,
  wpg True m (fun _ s' => (remaining (fst s') <= remaining (fst s))%nat) (fun _ _ => True) s.

(** So does [m], and when it says so it has moved on. *)
Definition progresses {X A : Type} (again : A -> bool) (m : parser X A) : Prop := forall s,
  wpg True m (fun a s' => (remaining (fst s') <= remaining (fst s))%nat
                /\ (again a = true -> (remaining (fst s') < remaining (fst s))%nat)) (fun _ _ => True) s.

Lemma progresses_returns {X A} again (m : parser X A) : progresses again m -> returns m.
Proof. intros Hm s. eapply wp_mono; [apply Hm|by intros ? ? []|done]. Qed.

Lemma remaining_0 c : eof c = false <-> (0 < remaining c)%nat.
Proof. unfold eof. rewrite Nat.eqb_neq. lia. Qed.

Lemma scan_le stop c ok c' : scan stop c = (ok, c') -> (remaining c' <= remaining c)%nat.
Proof.
  unfold scan. destruct (scan_rest _ _) as [[pre post] o] eqn:E. intros; simplify_eq.
  apply scan_rest_spec in E as [E _]. unfold remaining, in_avail. rewrite E, length_app. simpl. lia.
Qed.

Lemma moves_nil c c' : moves c [] c' -> c' = c.
Proof. intros [E1 E2]. rewrite app_nil_r in E2. destruct c, c'. simpl in *. congruence. Qed.

Lemma advance_1_eof c ok c' : advance 1 c = (ok, c') -> eof c = true -> c' = c.
Proof. rewrite advance_1. unfold eof, remaining, in_avail. destruct (after c); [intros; by simplify_eq|done]. Qed.

Lemma advance_lt n c c' : 0 < n < 2 ^ 63 -> advance n c = (true, c') -> (remaining c' < remaining c)%nat.
Proof.
  intros Hn. rewrite advance_spec by lia. destruct (_ <? _) eqn:E; [done|]. intros [= <-]. bool_to_prop.
  rewrite sbump_remaining. lia.
Qed.

Section Rules.
Context {X : Type}.

Lemma returns_ret {A} (a : A) : returns (X := X) (mret a).
Proof. intros s. by apply wp_ret. Qed.

Lemma returns_throw {A} e : returns (X := X) (A := A) (throw e).
Proof. intros s. by apply wp_throw. Qed.

Lemma returns_lift {A} (r : result A) : r <> OutOfFuel -> returns (X := X) (lift r).
Proof. intros Hr s. by apply wp_lift_any. Qed.

Lemma returns_cursor : returns (X := X) cursor_.
Proof. intros s. by apply wp_cursor_. Qed.

Lemma returns_object : returns (X := X) object_.
Proof. intros s. unfold wpg, object_. cbn. lia. Qed.

Lemma returns_on_object (f : X -> X) : returns (on_object f).
Proof. intros s. by apply wp_on_object. Qed.

Lemma returns_on_cursor {A} (f : cursor -> A * cursor) :
  (forall c a c', f c = (a, c') -> (remaining c' <= remaining c)%nat) -> returns (X := X) (on_cursor f).
Proof. intros Hf s. apply wp_on_cursor. intros a c'. apply Hf. Qed.

Lemma returns_bind {A C} (m : parser X A) (k : A -> parser X C) :
  returns m -> (forall a, returns (k a)) -> returns (m ≫= k).
Proof.
  intros Hm Hk s. apply wp_bind. eapply wp_mono; [apply Hm| |done]. intros a s1 H1.
  eapply wp_mono; [apply Hk| |done]. intros b s2 H2. cbn beta in *. lia.
Qed.

Lemma returns_unless {A} m (again : A) (k : parser X A) : returns m -> returns k -> returns (unless m again k).
Proof. intros. apply returns_bind; [done|]. intros []; [done|apply returns_ret]. Qed.

Lemma returns_scan_to {A} stop (again : A) (k : parser X A) : returns k -> returns (scan_to stop again k).
Proof. intros Hk. apply returns_unless; [|done]. apply returns_on_cursor. intros c a c'. apply scan_le. Qed.

Lemma returns_advancing {A} n (again : A) (k : parser X A) : returns k -> returns (advancing n again k).
Proof. intros Hk. apply returns_unless; [|done]. apply returns_on_cursor. intros c a c'. apply advance_le. Qed.

Lemma returns_reaching {A} chars (again : A) (k : parser X A) : returns k -> returns (reaching chars again k).
Proof. intros Hk. apply returns_unless; [|done]. apply returns_on_cursor. intros c a c'. apply match_until_le. Qed.

Lemma returns_Revert {A} ignored (m : parser X A) : returns m -> returns (Revert ignored m).
Proof.
  intros Hm s. specialize (Hm s). unfold wpg, Revert in *. destruct (m s) as [[c x] [a|e| |]]; cbn in *; [|done..].
  destruct (ignored a); cbn; lia.
Qed.

(** A step over at least one byte in front makes everything after it progress. *)
Lemma progresses_bind {A C} again (m : parser X A) (k : A -> parser X C) :
  returns m -> (forall a, progresses again (k a)) -> progresses again (m ≫= k).
Proof.
  intros Hm Hk s. apply wp_bind. eapply wp_mono; [apply Hm| |done]. intros a s1 H1.
  eapply wp_mono; [apply Hk| |done]. intros b s2 H2. cbn beta in *. intuition lia.
Qed.

Lemma progresses_advancing {A} again n (a : A) (k : parser X A) :
  0 < n < 2 ^ 63 -> again a = false -> returns k -> progresses again (advancing n a k).
Proof.
  intros Hn Ha Hk s. unfold advancing, unless. apply wp_bind, wp_on_cursor. intros ok c' E. destruct ok.
  - eapply wp_mono; [apply Hk| |done]. intros b s2 H2. cbn in *. apply advance_lt in E; [|done]. intuition lia.
  - apply wp_ret. apply advance_le in E. split; [done|]. by rewrite Ha.
Qed.

Lemma progresses_unless {A} again m (a : A) (k : parser X A) :
  returns m -> again a = false -> progresses again k -> progresses again (unless m a k).
Proof.
  intros Hm Ha Hk. apply progresses_bind; [done|]. intros []; [done|].
  intros s. apply wp_ret. split; [done|]. by rewrite Ha.
Qed.

Lemma progresses_Revert {A} again (m : parser X A) : progresses again m -> progresses again (Revert again m).
Proof.
  intros Hm s. specialize (Hm s). unfold wpg, Revert in *. destruct (m s) as [[c x] [a|e| |]]; cbn in *; [|done..].
  destruct (again a) eqn:Ha; cbn; [done|]. split; [lia|done].
Qed.
End Rules.

(** [returns] of a parser from that of its parts; [known] solves the parts that
    are not parsers of the language. *)
Ltac returns_with known :=
  repeat (cbv zeta; intros; match goal with
  | |- returns (Revert _ _) => apply returns_Revert
  | |- returns (unless _ _ _) => apply returns_unless
  | |- returns (scan_to _ _ _) => apply returns_scan_to
  | |- returns (advancing _ _ _) => apply returns_advancing
  | |- returns (reaching _ _ _) => apply returns_reaching
  | |- returns (mret _) => apply returns_ret
  | |- returns (throw _) => apply returns_throw
  | |- returns (Step_raise _ _) => apply returns_throw
  | |- returns cursor_ => apply returns_cursor
  | |- returns object_ => apply returns_object
  | |- returns (on_object _) => apply returns_on_object
  | |- returns (_ ≫= _) => apply returns_bind
  | |- returns (if ?b then _ else _) => destruct b
  | |- returns (match ?x with _ => _ end) => destruct x
  | |- _ => known
  end).
Ltac returns_tac := returns_with fail.

(** ** The values of the headers *)

Lemma skip_separators_le p l : (remaining (skip_separators p l) <= length l)%nat.
Proof.
  revert p. induction l as [|a l IH]; intros p; cbn [skip_separators]; [done|].
  destruct (_ || _); [|done]. specialize (IH (p ++ [a])). simpl. lia.
Qed.

Lemma skip_spaces_le p l : (remaining (skip_spaces p l) <= length l)%nat.
Proof.
  revert p. induction l as [|a l IH]; intros p; cbn [skip_spaces]; [done|].
  destruct (_ =? 32); [|done]. specialize (IH (p ++ [a])). simpl. lia.
Qed.

Lemma accept_scan_le fuel c : (remaining (accept_scan fuel c) <= remaining c)%nat.
Proof.
  revert c. induction fuel as [|fuel IH]; intros c; cbn [accept_scan]; [done|].
  destruct (_ && _); [|done]. specialize (IH (advance 1 c).2). destruct (advance 1 c) as [ok c'] eqn:E.
  apply advance_le in E. simpl in *. lia.
Qed.

Lemma match_raw_first_le {A} (l : list (bytes * A)) c r c' :
  match_raw_first l c = (r, c') -> (remaining c' <= remaining c)%nat.
Proof.
  revert c. induction l as [|[s a] l IH]; intros c; cbn [match_raw_first]; [intros; by simplify_eq|].
  destruct (match_raw s c) as [ok c1] eqn:E. apply match_raw_le in E.
  destruct ok; [intros; by simplify_eq|]. intros E'%IH. lia.
Qed.

Lemma parse_timed_returns : returns parse_timed.
Proof.
  unfold parse_timed. apply returns_bind; [apply returns_on_cursor; intros c a c'; apply match_raw_first_le|].
  intros [d|]; [|apply returns_ret]. apply returns_bind; [apply returns_on_cursor; intros c a c'; apply advance_le|].
  intros ok. destruct (negb ok); [apply returns_throw|]. apply returns_bind; [apply returns_cursor|]. intros c. cbv zeta.
  destruct (ec _); [|apply returns_throw..].
  apply returns_bind; [apply returns_on_cursor; intros c1 a c'; apply advance_le|]. unfold push_directive. returns_tac.
Qed.

(** One round of a [do]/[while (!eof)] loop moves on, or is at the end. *)
Definition moves_on {X : Type} (m : parser X unit) : Prop := forall s,
  wpg True m (fun _ s' => (remaining (fst s') < remaining (fst s))%nat \/ eof (fst s') = true) (fun _ _ => True) s.

Lemma comma_byte a : (schar a =? 44) = true -> (uchar a =? 44) = true.
Proof. revert a. each_byte. Qed.

Lemma parse_directive_moves : moves_on parse_directive.
Proof.
  intros s. unfold parse_directive. apply wp_bind, wp_on_cursor. intros found c1 E1. apply match_raw_first_le in E1.
  apply wp_bind. assert (returns (match found with Some d => push_directive (CacheDirective_plain d) | None => parse_timed end)) as Hr.
  { destruct found; [apply returns_on_object|apply parse_timed_returns]. }
  eapply wp_mono; [apply Hr| |done]. intros u [c2 x2] H2. cbn [fst] in H2. wp_cookie. wp_cookie. wp_cookie.
  - wp_cookie; [by wp_cookie|]. wp_cookie. left. simplify_eq.
    pose proof (skip_separators_le (before c2) (after c2)) as Hs. destruct c2 as [p [|a l]]; [done|].
    apply negb_false_iff in Hb0. change (current _) with (schar a) in Hb0.
    apply comma_byte in Hb0 as Ea.
    cbn [before after skip_separators] in *. rewrite Ea in *. cbn [orb] in *.
    pose proof (skip_separators_le (p ++ [a]) l). unfold remaining, in_avail in *. simpl in *. lia.
  - wp_cookie. right. by apply negb_false_iff.
Qed.

Lemma parse_directives_returns fuel s :
  (remaining (fst s) <= fuel)%nat -> wpg True (parse_directives fuel) (fun _ _ => True) (fun _ _ => True) s.
Proof.
  revert s. induction fuel as [|fuel IH]; intros s Hs; cbn [parse_directives]; apply wp_bind;
    (eapply wp_mono; [apply parse_directive_moves| |done]); intros u s' Hm; wp_cookie; wp_cookie; wp_cookie;
    try by wp_cookie.
  - destruct Hm as [Hm|Hm]; [lia|congruence].
  - destruct Hm as [Hm|Hm]; [|congruence]. apply IH. lia.
Qed.

Lemma fromRaw_fuel str len : MediaType_fromRaw str len <> OutOfFuel.
Proof.
  unfold MediaType_fromRaw, MediaType_parseRaw. pose proof (parse_media_returns str len MediaType_default) as Hm.
  unfold wpg in Hm. by destruct (parse_media _ _ _) as [[c m] [a|e| |]].
Qed.

Lemma parse_media_range_moves str : moves_on (parse_media_range str).
Proof.
  intros s. unfold parse_media_range. do 2 wp_cookie. do 2 wp_cookie. do 2 wp_cookie. do 2 wp_cookie.
  apply wp_bind, wp_lift_any; [done|apply fromRaw_fuel| |done]. intros m _. do 3 wp_cookie. wp_cookie.
  2:{ wp_cookie. right. by apply negb_false_iff. }
  assert (remaining c'0 < remaining (fst s))%nat as Hlt.
  { simplify_eq. pose proof (accept_scan_le (in_avail s.1) s.1). apply negb_true_iff in Hb.
    destruct (eof (accept_scan (in_avail s.1) s.1)) eqn:E.
    - match goal with Ha : advance 1 _ = _ |- _ => apply advance_1_eof in Ha; [congruence|done] end.
    - match goal with Ha : advance 1 _ = _ |- _ => apply advance_1_lt in Ha; [lia|done] end. }
  apply wp_on_cursor. intros ok c2 E2. apply advance_le in E2. cbn [fst snd] in *. wp_cookie; [by wp_cookie|].
  do 2 wp_cookie. wp_cookie; [by wp_cookie|]. wp_cookie. left. simplify_eq.
  pose proof (skip_spaces_le (before c2) (after c2)). unfold remaining, in_avail in *. lia.
Qed.

Lemma parse_media_ranges_returns fuel str s :
  (remaining (fst s) <= fuel)%nat -> wpg True (parse_media_ranges fuel str) (fun _ _ => True) (fun _ _ => True) s.
Proof.
  revert s. induction fuel as [|fuel IH]; intros s Hs; cbn [parse_media_ranges]; apply wp_bind;
    (eapply wp_mono; [apply parse_media_range_moves| |done]); intros u s' Hm; wp_cookie; wp_cookie; wp_cookie;
    try by wp_cookie.
  - destruct Hm as [Hm|Hm]; [lia|congruence].
  - destruct Hm as [Hm|Hm]; [|congruence]. apply IH. lia.
Qed.

Lemma parse_encodings_returns fuel start len str es :
  (start <= len)%nat -> (len - start < fuel)%nat -> (len <= length str)%nat ->
  parse_encodings fuel start len str es <> OutOfFuel.
Proof.
  revert start es. induction fuel as [|fuel IH]; intros start es Hs Hf Hl; [lia|].
  cbn [parse_encodings]. destruct (start =? len)%nat eqn:E; bool_to_prop; [done|]. cbv zeta.
  pose proof (find_if_progress start len str ltac:(lia) Hl) as Hp.
  pose proof (find_if_bounds (fun a => bool_decide (a = chr 44)) start len str Hs) as Hb.
  fold (find_ (chr 44) start len str) in Hb.
  pose proof (find_if_bounds is_http_token (find_ (chr 44) start len str) len str ltac:(lia)) as Hb2.
  match goal with |- match ?q with _ => _ end <> _ => destruct q as [v|] end; [|done].
  apply IH; [lia|lia|done].
Qed.

Section Values.
Context `{DateLib, Resolver}.

Lemma AddressParser_fuel data : AddressParser_new data <> OutOfFuel.
Proof. unfold AddressParser_new, parse_port. cbv zeta. by repeat case_match. Qed.

Lemma stoull_fuel data : stoull data <> OutOfFuel.
Proof. unfold stoull. destruct (strto_prefix data) as [[neg ds] l]. by repeat case_match. Qed.

Lemma Port_fuel data : Port_of_string data <> OutOfFuel.
Proof. unfold Port_of_string. by repeat case_match. Qed.

Lemma ETag_fuel data : ETag_parse data <> OutOfFuel.
Proof.
  unfold ETag_parse, parseOpaqueTag, validateEtagc. cbv zeta.
  repeat (case_match; cbn [mbind result_bind]; try done).
Qed.

(** [parseRaw] of every header class returns, when the length is within the memory. *)
Lemma Header_parseRaw_fuel str len h : (len <= length str)%nat -> snd (Header_parseRaw str len h) <> OutOfFuel.
Proof.
  intros Hl. destruct h; cbn [Header_parseRaw]; try done.
  - unfold on_data, Accept_parseRaw.
    pose proof (parse_media_ranges_returns len str (RawStreamBuf (take len str), mediaRange_)) as Hm. cbn in Hm.
    unfold wpg in Hm. rewrite length_take in Hm. specialize (Hm ltac:(lia)).
    by destruct (parse_media_ranges _ _ _) as [[c m] [a|e| |]].
  - unfold on_data, CacheControl_parseRaw.
    pose proof (parse_directives_returns _ (RawStreamBuf (take len str), directives_) (le_n _)) as Hm. cbn in Hm.
    unfold wpg in Hm. by destruct (parse_directives _ _) as [[c m] [a|e| |]].
  - unfold stores, AcceptEncoding_parseRaw.
    pose proof (parse_encodings_returns (S len) 0 len str encodings_ ltac:(lia) ltac:(lia) Hl). by destruct (parse_encodings _ _ _ _ _).
  - unfold on_data, ContentLength_parse. pose proof (stoull_fuel (take len str)). by destruct (stoull _) as [|[]| |].
  - unfold on_data, MediaType_parseRaw. pose proof (parse_media_returns str len mime_) as Hm.
    unfold wpg in Hm. by destruct (parse_media _ _ _) as [[c m] [a|e| |]].
  - unfold stores. pose proof (fromString_fuel (take len str)). by destruct (FullDate_fromString _).
  - unfold stores. pose proof (ETag_fuel (take len str)). by destruct (ETag_parse _) as [[]| | |].
  - unfold on_data, Host_parse. pose proof (AddressParser_fuel (take len str)).
    destruct (AddressParser_new _) as [p| | |]; try done. pose proof (Port_fuel (Net.port_ p)).
    case_bool_decide; [done|]. by destruct (Port_of_string _).
  - unfold stores. pose proof (fromString_fuel (take len str)). by destruct (FullDate_fromString _).
Qed.
End Values.

(** ** The steps *)

Section Steps.
Context `{DateLib, Resolver, StringMemory}.

Lemma addFromRaw_fuel raw jar : snd (CookieJar_addFromRaw raw jar) <> OutOfFuel.
Proof.
  unfold CookieJar_addFromRaw. pose proof (add_all_returns (length raw) (RawStreamBuf raw, jar) (le_n _)) as Hm.
  unfold wpg in Hm. by destruct (add_all _ _) as [[c j] [u|e| |]].
Qed.

Lemma returns_on_member {X Y A} (of_ : X -> Y) set (f : M Y A) : (forall y, snd (f y) <> OutOfFuel) -> returns (on_member of_ set f).
Proof.
  intros Hf [c x]. unfold wpg, on_member. specialize (Hf (of_ x)). by destruct (f (of_ x)) as [y [a|e| |]].
Qed.

Lemma store_header_returns name raw len : (len <= length raw)%nat -> returns (store_header name raw len).
Proof.
  intros Hl. unfold store_header. destruct (LowercaseEqualStatic _ _).
  { apply returns_bind; [apply returns_on_object|]. intros _. apply returns_on_member, addFromRaw_fuel. }
  destruct (LowercaseEqualStatic _ _).
  { apply returns_bind; [apply returns_lift, Cookie_fromRaw_fuel|]. returns_tac. }
  destruct (isRegistered name); [|apply returns_ret].
  apply returns_bind; [apply returns_lift; unfold makeHeader; by case_match|]. intros h.
  apply returns_bind; [|returns_tac]. apply returns_lift. pose proof (Header_parseRaw_fuel raw len h Hl).
  destruct (Header_parseRaw _ _ _) as [h' []]; cbn; by try done.
Qed.

Lemma Token_fits start c : (diff start c <= length (Token_raw start c))%nat.
Proof. unfold diff, Token_raw, position. rewrite length_drop, length_app. lia. Qed.

Lemma header_line_progresses : progresses id header_line.
Proof.
  apply progresses_Revert, progresses_bind; [apply returns_cursor|]. intros start.
  apply progresses_unless; [apply returns_on_cursor; intros c a c'; apply scan_le|done|].
  apply progresses_advancing; [done|done|]. apply returns_bind; [apply returns_cursor|]. intros c. cbv zeta.
  apply returns_scan_to, returns_bind; [apply returns_cursor|]. intros start'.
  apply returns_scan_to, returns_bind; [apply returns_cursor|]. intros c'. cbv zeta.
  apply returns_bind; [apply store_header_returns, Token_fits|]. returns_tac.
Qed.

Lemma header_lines_returns fuel s :
  (remaining (fst s) < fuel)%nat ->
  wpg True (header_lines fuel) (fun _ s' => (remaining (fst s') <= remaining (fst s))%nat) (fun _ _ => True) s.
Proof.
  revert s. induction fuel as [|fuel IH]; intros s Hs; cbn [header_lines]; apply wp_bind, wp_cursor_;
    destruct (eol (fst s)) eqn:E; try by apply wp_ret.
  - lia.
  - apply wp_bind. eapply wp_mono; [apply header_line_progresses| |done]. intros [] s1 [Hle Hlt]; [|by apply wp_ret].
    specialize (Hlt eq_refl). eapply wp_mono; [apply IH; lia| |done]. intros b s2 Hle2. cbn beta in *. lia.
Qed.

Lemma HeadersStep_returns : returns HeadersStep_apply.
Proof.
  apply returns_Revert. intros s. apply wp_bind, wp_cursor_. apply wp_bind.
  eapply wp_mono; [apply header_lines_returns; lia| |done]. intros ok s1 Hle. destruct ok; [|by apply wp_ret].
  eapply wp_mono; [apply (returns_advancing 2 Again (mret Next)), returns_ret| |done]. intros b s2 Hlt. cbn beta in *. lia.
Qed.

(** A parameter ends in front of a space, or a byte was consumed. *)
Lemma query_param_moves s :
  is_char SP (fst s) = false ->
  wpg True query_param (fun ok s' => (remaining (fst s') <= remaining (fst s))%nat
    /\ (ok = true -> (remaining (fst s') < remaining (fst s))%nat)) (fun _ _ => True) s.
Proof.
  intros Hs. unfold query_param. apply wp_bind, wp_cursor_. apply wp_bind, wp_on_cursor. intros ok c1 E1.
  apply match_until_moves in E1 as (pre & Hm & _). pose proof (moves_remaining _ _ _ Hm) as Hr. cbn [snd].
  assert (forall m : parser Request bool, progresses id m ->
    wpg True m (fun ok s' => (remaining (fst s') <= remaining (fst s))%nat
      /\ (ok = true -> (remaining (fst s') < remaining (fst s))%nat)) (fun _ _ => True) (c1, s.2)) as Hp.
  { intros m Hp. eapply wp_mono; [apply Hp| |done]. cbn. intros b s' []. split; [lia|]. intros. intuition lia. }
  destruct ok; [|apply wp_ret; cbn; split; [lia|done]].
  apply wp_bind, wp_cursor_. cbn [fst]. destruct (is_char SP c1) eqn:E.
  - apply wp_bind, wp_on_object, wp_ret. cbn [fst]. split; [lia|]. intros _.
    destruct pre; [|simpl in Hr; lia]. apply moves_nil in Hm. congruence.
  - destruct (is_char 38 c1); apply Hp.
    + apply progresses_bind; [apply returns_on_object|]. intros _. apply progresses_advancing; [done|done|apply returns_ret].
    + apply progresses_advancing; [done|done|]. returns_tac.
Qed.

Lemma query_params_returns fuel s :
  (remaining (fst s) < fuel)%nat ->
  wpg True (query_params fuel) (fun _ s' => (remaining (fst s') <= remaining (fst s))%nat) (fun _ _ => True) s.
Proof.
  revert s. induction fuel as [|fuel IH]; intros s Hs; cbn [query_params]; apply wp_bind, wp_cursor_;
    destruct (is_char SP (fst s)) eqn:E; try by apply wp_ret.
  - lia.
  - apply wp_bind. eapply wp_mono; [by apply query_param_moves| |done]. intros [] s1 [Hle Hlt]; [|by apply wp_ret].
    specialize (Hlt eq_refl). eapply wp_mono; [apply IH; lia| |done]. intros b s2 Hle2. cbn beta in *. lia.
Qed.

Lemma parse_resource_returns : returns parse_resource.
Proof.
  apply returns_bind; [apply returns_cursor|]. intros t. apply returns_scan_to, returns_bind; [apply returns_cursor|].
  intros c. apply returns_bind; [apply returns_on_object|]. intros _. destruct (is_char 63 c); [|apply returns_ret].
  apply returns_advancing. intros s. apply wp_bind, wp_cursor_. apply query_params_returns. lia.
Qed.

Lemma RequestLineStep_returns : returns RequestLineStep_apply.
Proof.
  unfold RequestLineStep_apply, parse_version. returns_with ltac:(apply parse_resource_returns).
Qed.

Lemma ResponseLineStep_returns : returns ResponseLineStep_apply.
Proof.
  assert (forall buf, returns (X := Response) (on_cursor (match_raw buf))) as Hr.
  { intros buf. apply returns_on_cursor. intros c a c'. apply match_raw_le. }
  assert (forall stop, returns (X := Response) (on_cursor (scan stop))) as Hs.
  { intros stop. apply returns_on_cursor. intros c a c'. apply scan_le. }
  unfold ResponseLineStep_apply. returns_with ltac:(first [apply Hr | apply Hs]).
Qed.

(** *** The body *)

Abbreviation body_parser := (parser (Message * BodyStep)).

Lemma string_append_fuel raw n s : string_append raw n s <> OutOfFuel.
Proof. unfold string_append. by repeat case_match. Qed.

Lemma string_reserve_fuel n : string_reserve n <> OutOfFuel.
Proof. unfold string_reserve. by repeat case_match. Qed.

Lemma append_body_returns raw n : returns (append_body raw n).
Proof.
  apply returns_bind; [apply returns_object|]. intros x.
  apply returns_bind; [apply returns_lift, string_append_fuel|]. returns_tac.
Qed.

Lemma advance_returns n : returns (X := Message * BodyStep) (on_cursor (advance n)).
Proof. apply returns_on_cursor. intros c a c'. apply advance_le. Qed.

Ltac body_returns :=
  returns_with ltac:(first [apply append_body_returns | apply advance_returns | apply returns_lift, string_reserve_fuel | by apply returns_lift]).

Lemma parseContentLength_returns n : returns (parseContentLength n).
Proof. unfold parseContentLength, readBody. body_returns. Qed.

Lemma chunk_data_returns : returns chunk_data.
Proof. unfold chunk_data. body_returns. Qed.

Lemma chunk_size_line_progresses : progresses id chunk_size_line.
Proof.
  apply progresses_Revert, progresses_bind; [apply returns_cursor|]. intros t.
  apply progresses_unless; [apply returns_on_cursor; intros c a c'; apply scan_le|done|].
  apply progresses_bind; [apply returns_cursor|]. intros c. cbv zeta.
  destruct (negb _); [by intros s; apply wp_throw|]. apply progresses_advancing; [done|done|]. returns_tac.
Qed.

(** A chunk whose size is not known yet moves on when it is complete. *)
Lemma Chunk_parse_returns s :
  wpg True Chunk_parse (fun r s' => (remaining (fst s') <= remaining (fst s))%nat
    /\ (size (chunk (snd s).2) = -1 -> r = Complete -> (remaining (fst s') < remaining (fst s))%nat)) (fun _ _ => True) s.
Proof.
  apply wp_bind. change (wpg True object_ ?Q ?E s) with (Q s.2 s). cbv beta. destruct (_ =? -1) eqn:E.
  - apply wp_bind. eapply wp_mono; [apply chunk_size_line_progresses| |done]. intros [] s1 [Hle Hlt].
    + eapply wp_mono; [apply chunk_data_returns| |done]. intros r s2 Hle2. specialize (Hlt eq_refl). cbn beta in *. split; lia.
    + by apply wp_ret.
  - bool_to_prop. eapply wp_mono; [apply chunk_data_returns| |done]. by intros r s2 Hle2.
Qed.

Lemma chunk_loop_returns fuel s :
  (remaining (fst s) < fuel)%nat -> size (chunk (snd s).2) = -1 ->
  wpg True (chunk_loop fuel) (fun _ _ => True) (fun _ _ => True) s.
Proof.
  revert s. induction fuel as [|fuel IH]; intros s Hf Hk; [lia|]. cbn [chunk_loop]. apply wp_bind.
  eapply wp_mono; [apply Chunk_parse_returns| |done]. intros [] s1 [Hle Hlt].
  - apply wp_bind, wp_on_object, wp_bind, wp_cursor_. cbn [fst]. destruct (eof s1.1); [by apply wp_ret|].
    apply IH; [|done]. specialize (Hlt Hk eq_refl). cbn. lia.
  - by apply wp_ret.
  - by apply wp_bind, wp_on_object, wp_ret.
Qed.

(** Only the first chunk may have been started by an earlier input. *)
Lemma chunk_loop_started fuel s :
  (S (remaining (fst s)) < fuel)%nat -> wpg True (chunk_loop fuel) (fun _ _ => True) (fun _ _ => True) s.
Proof.
  intros Hf. destruct fuel as [|fuel]; [lia|]. cbn [chunk_loop]. apply wp_bind.
  eapply wp_mono; [apply Chunk_parse_returns| |done]. intros [] s1 [Hle _].
  - apply wp_bind, wp_on_object, wp_bind, wp_cursor_. cbn [fst]. destruct (eof s1.1); [by apply wp_ret|].
    apply chunk_loop_returns; [|done]. cbn. lia.
  - by apply wp_ret.
  - by apply wp_bind, wp_on_object, wp_ret.
Qed.

Lemma BodyStep_returns s : wpg True BodyStep_apply (fun _ _ => True) (fun _ _ => True) s.
Proof.
  assert (forall (m : body_parser State), returns m -> wpg True m (fun _ _ => True) (fun _ _ => True) s) as Hr.
  { intros m Hm. by eapply wp_mono; [apply Hm|..]. }
  unfold BodyStep_apply. apply wp_bind. change (wpg True object_ ?Q ?E s) with (Q s.2 s). cbv beta.
  repeat case_match; try (by apply wp_ret); try (by apply wp_throw); [apply Hr, parseContentLength_returns|].
  unfold parseTransferEncoding. case_decide; [|by apply wp_throw]. apply wp_bind, wp_cursor_.
  pose proof (chunk_loop_started (S (S (remaining s.1))) s ltac:(lia)) as Hc.
  unfold wpg, catching in *. by destruct (chunk_loop _ s) as [s' []].
Qed.

(** *** The parser *)

Section Parser.
Context {T : Type} `{ParsedMessage T}.
Hypothesis line_step_returns : returns (line_step (T := T)).

Lemma apply_step_fuel (p : ParserImpl T) : snd (apply_step p) <> OutOfFuel.
Proof.
  unfold apply_step. destruct (currentStep p) as [|[|[|k]]]; [..|done].
  - pose proof (line_step_returns (area (buffer p), object p)) as Hm. unfold wpg in Hm.
    by destruct (line_step _) as [[c t] [a|e| |]].
  - pose proof (HeadersStep_returns (area (buffer p), message_of (object p))) as Hm. unfold wpg in Hm.
    by destruct (HeadersStep_apply _) as [[c t] [a|e| |]].
  - pose proof (BodyStep_returns (area (buffer p), (message_of (object p), body_step p))) as Hm. unfold wpg in Hm.
    by destruct (BodyStep_apply _) as [[c [m b]] [a|e| |]].
Qed.

Lemma parse_steps_fuel n (p : ParserImpl T) :
  (3 < n + currentStep p)%nat -> (0 < n)%nat -> snd (parse_steps n p) <> OutOfFuel.
Proof.
  revert p. induction n as [|n IH]; intros p Hn Hn'; [lia|]. cbn [parse_steps]. unfold mbind, M_bind at 1.
  pose proof (apply_step_fuel p) as Hs. destruct (apply_step p) as [p1 [s|e| |]] eqn:E; [|done..].
  case_decide; [|done]. assert (currentStep p1 = currentStep p /\ (currentStep p < 3)%nat) as [Hp Hlt].
  { revert E. unfold apply_step. destruct (currentStep p) as [|[|[|k]]] eqn:Ep; [..|done]; repeat case_match;
      intros; simplify_eq; cbn; rewrite Ep; lia. }
  apply (IH (set_currentStep (S (currentStep p1)) p1)); cbn; lia.
Qed.

Lemma parse_fuel (p : ParserImpl T) : snd (ParserBase_parse p) <> OutOfFuel.
Proof. apply parse_steps_fuel; unfold StepsCount; lia. Qed.
End Parser.

Lemma parse_request_fuel (p : RequestParser) : snd (ParserBase_parse p) <> OutOfFuel.
Proof. apply parse_fuel, RequestLineStep_returns. Qed.

(** ** Properties *)

(** C36. [ParserBase::parse] returns whatever the buffer holds and however far the
    parser has come, for requests and for responses: it asks for more, is done, or
    throws; none of its loops, nor any in the header classes and cookies it reads,
    runs forever. *)
Theorem parse_returns :
  (forall p : RequestParser, snd (ParserBase_parse p) <> OutOfFuel)
  /\ (forall p : ResponseParser, snd (ParserBase_parse p) <> OutOfFuel).
Proof. split; intros p; apply parse_fuel; [apply RequestLineStep_returns|apply ResponseLineStep_returns]. Qed.
End Steps.
