(* ===== verification/Resume.v ===== *)
(** * Resumable parsers

    A step that runs out of input rewinds its cursor and leaves what it stored
    in the message; it is run again on the longer input.  [writer] says that a
    parser only writes to its object (what it does there is a function [f] of the
    text alone, taken from a family [P] closed under composition), [stable_at]
    that more input changes nothing for a parser that did not stop for lack of
    it, and only adds writes for one that did. *)

From S2P Require Import Prelude Cxx Stream.

Local Open Scope Z_scope.

(** ** Input that grows *)

Definition extend (b : bytes) (c : cursor) : cursor := Cursor (before c) (after c ++ b).

(** A test whose value is settled once it holds somewhere ahead. *)
Definition settled (stop : cursor -> bool) : Prop :=
  forall u post b, stop (Cursor [] post) = true ->
  stop (Cursor [] (u ++ post)) = stop (Cursor [] (u ++ post ++ b)).

Definition areal (stop : cursor -> bool) : Prop := forall p l, stop (Cursor p l) = stop (Cursor [] l).

Lemma settled_head (t : Ascii.ascii -> bool) (stop : cursor -> bool) :
  (forall p l, stop (Cursor p l) = match l with [] => false | a :: _ => t a end) -> settled stop.
Proof. intros Hs u post b. rewrite !Hs. destruct u; [destruct post; [done|done]|done]. Qed.

Lemma eol_settled : settled eol.
Proof.
  intros u post b H. destruct post as [|a [|a' post]]; [done|..].
  { unfold eol, next, in_avail in H. simpl in H. by rewrite andb_false_r in H. }
  destruct u as [|x [|y u]]; try done.
Qed.

Lemma eol_areal : areal eol.
Proof. done. Qed.

Lemma scan_extend stop b c c' :
  areal stop -> settled stop -> scan stop c = (true, c') -> scan stop (extend b c) = (true, extend b c').
Proof.
  intros Ha Hs E. apply scan_spec in E as (pre & [E1 E2] & Hk & Ho); [|done].
  assert (stop (Cursor [] (after c')) = true) as Ho' by (rewrite <- Ho; destruct c'; by rewrite (Ha before)).
  clear Ho.
  rewrite (scan_stop stop (extend b c) pre (after c' ++ b)).
  - unfold extend. simpl. by rewrite E2.
  - simpl. by rewrite E1, app_assoc.
  - intros k Hlt. simpl. specialize (Hk k Hlt). rewrite E1 in Hk |- *. rewrite <- Hk.
    rewrite <- app_assoc, !drop_app_le by lia. symmetry. by apply Hs.
  - rewrite <- Ho'. symmetry. by apply (Hs [] (after c') b).
Qed.

Lemma until_settled chars cs : settled (until_stop chars cs).
Proof. by apply (settled_head (until_find chars cs)). Qed.

Lemma match_until_extend chars cs b c c' :
  match_until chars cs c = (true, c') -> match_until chars cs (extend b c) = (true, extend b c').
Proof.
  unfold match_until. destruct (eof c) eqn:E; [done|]. intros Hs.
  replace (eof (extend b c)) with false.
  - apply scan_extend; [done|apply until_settled|done].
  - symmetry. unfold eof, remaining, in_avail in *. simpl. rewrite length_app. apply Nat.eqb_neq.
    apply Nat.eqb_neq in E. lia.
Qed.

Lemma advance_extend n b c c' :
  0 <= n < 2 ^ 63 -> advance n c = (true, c') -> advance n (extend b c) = (true, extend b c').
Proof.
  intros Hn. rewrite !advance_spec by done. unfold remaining, in_avail.
  destruct (Z.of_nat (length (after c)) <? n) eqn:E; [done|]. intros [= <-]. bool_to_prop.
  replace (Z.of_nat (length (after (extend b c))) <? n) with false.
  - f_equal. unfold sbump, extend. simpl. by rewrite take_app_le, drop_app_le by lia.
  - symmetry. apply Z.ltb_ge. simpl. rewrite length_app. lia.
Qed.

(** ** Writers *)

(** A family of state changes closed under composition. *)
Class Family {X : Type} (P : (X -> X) -> Prop) : Prop := {
  family_id : P (fun x => x);
  family_comp f g : P f -> P g -> P (fun x => g (f x)) }.

#[export] Hint Extern 0 => solve [apply family_id] : core.

Section Writers.
Context {X : Type} (P : (X -> X) -> Prop) `{!Family P}.

Definition writes {A} (m : parser X A) (c c' : cursor) (f : X -> X) (r : result A) : Prop :=
  P f /\ forall x, m (c, x) = ((c', f x), r).

Definition writer {A} (m : parser X A) : Prop := forall c, exists c' f r, writes m c c' f r.

(** The outcome of [m'] on the input longer by [b], given that of [m]. *)
Definition stable_at {A} (again : A -> bool) (m m' : parser X A) (c : cursor) (b : bytes) : Prop :=
  exists c' f r, writes m c c' f r /\
  match r with
  | Ok v =>
      if again v then exists c'' g r', P g /\ forall x, m' (extend b c, x) = ((c'', g (f x)), r')
      else writes m' (extend b c) (extend b c') f r
  | Throw _ => writes m' (extend b c) (extend b c') f r
  | _ => True
  end.

Lemma writer_ret {A} (a : A) : writer (mret a).
Proof. intros c. exists c, (fun x => x), (Ok a). by split. Qed.

Lemma writer_lift {A} (r : result A) : writer (lift r).
Proof. intros c. exists c, (fun x => x), r. by split. Qed.

Lemma writer_throw {A} e : writer (A := A) (throw e).
Proof. apply (writer_lift (Throw e)). Qed.

Lemma writer_cursor : writer cursor_.
Proof. intros c. exists c, (fun x => x), (Ok c). by split. Qed.

Lemma writer_on_cursor {A} (f : cursor -> A * cursor) : writer (on_cursor f).
Proof.
  intros c. exists (f c).2, (fun x => x), (Ok (f c).1). split; [done|].
  intros x. unfold on_cursor. simpl. by destruct (f c).
Qed.

Lemma writer_on_object h : P h -> writer (on_object h).
Proof. intros Hh c. exists c, h, (Ok tt). by split. Qed.

Lemma writes_bind {A C} (m : parser X A) (k : A -> parser X C) c c1 f a c2 g r :
  writes m c c1 f (Ok a) -> writes (k a) c1 c2 g r -> writes (m ≫= k) c c2 (fun x => g (f x)) r.
Proof.
  intros [Pf Hm] [Pg Hk]. split; [by apply family_comp|]. intros x.
  by rewrite (bind_Ok _ _ _ _ _ (Hm x)), Hk.
Qed.

Lemma writer_bind {A C} (m : parser X A) (k : A -> parser X C) :
  writer m -> (forall a, writer (k a)) -> writer (m ≫= k).
Proof.
  intros Hm Hk c. destruct (Hm c) as (c1 & f & r & Pf & E). destruct r as [a|e| |].
  - destruct (Hk a c1) as (c2 & g & r & W). exists c2, (fun x => g (f x)), r.
    by eapply writes_bind; [split|].
  - exists c1, f, (Throw e). split; [done|]. intros x. by rewrite (bind_Throw _ _ _ _ _ (E x)).
  - exists c1, f, UB. split; [done|]. intros x. unfold mbind, M_bind. by rewrite E.
  - exists c1, f, OutOfFuel. split; [done|]. intros x. unfold mbind, M_bind. by rewrite E.
Qed.
(** *** Stability of the combinators *)

Section Stable.
Context {A : Type} (again : A -> bool).

Lemma stable_again (m m' : parser X A) c b c1 v :
  (forall x, m (c, x) = ((c1, x), Ok v)) -> again v = true -> writer m' -> stable_at again m m' c b.
Proof.
  intros Hm Hv Hm'. exists c1, (fun x => x), (Ok v). split; [by split|]. rewrite Hv.
  destruct (Hm' (extend b c)) as (c2 & g & r & Pg & E). eauto.
Qed.

Lemma stable_value (m m' : parser X A) c b c1 f v :
  again v = false -> writes m c c1 f (Ok v) -> writes m' (extend b c) (extend b c1) f (Ok v) ->
  stable_at again m m' c b.
Proof. intros Hv W W'. exists c1, f, (Ok v). split; [done|]. by rewrite Hv. Qed.

Lemma stable_ret v c b : again v = false -> stable_at again (mret v) (mret v) c b.
Proof. intros Hv. by apply (stable_value _ _ _ _ c (fun x => x) v). Qed.

Lemma stable_throw e c b : stable_at again (throw e) (throw e) c b.
Proof. exists c, (fun x => x), (Throw e). by split. Qed.

Lemma stable_cursor (k k' : cursor -> parser X A) c b :
  stable_at again (k c) (k' (extend b c)) c b -> stable_at again (cursor_ ≫= k) (cursor_ ≫= k') c b.
Proof. done. Qed.

(** A first part with the same outcome on the longer input. *)
Lemma stable_bind {C} (m m' : parser X C) (k k' : C -> parser X A) c b :
  (exists c1 f r, writes m c c1 f r
   /\ match r with
      | Ok a => writes m' (extend b c) (extend b c1) f r /\ stable_at again (k a) (k' a) c1 b
      | Throw _ => writes m' (extend b c) (extend b c1) f r
      | _ => True
      end) ->
  stable_at again (m ≫= k) (m' ≫= k') c b.
Proof.
  intros (c1 & f & r & [Pf E] & H). destruct r as [a|e| |].
  - destruct H as [[_ E'] (c2 & g & r & Wk & H)].
    exists c2, (fun x => g (f x)), r. split; [by eapply writes_bind; [split|]|].
    destruct Wk as [Pg Ek]. destruct r as [v|e| |]; try done.
    + destruct (again v).
      * destruct H as (c3 & h & r' & Ph & H). exists c3, h, r'. split; [done|]. intros x.
        by rewrite (bind_Ok _ _ _ _ _ (E' x)), H.
      * by eapply writes_bind; [split|].
    + by eapply writes_bind; [split|].
  - exists c1, f, (Throw e). split.
    + split; [done|]. intros x. by rewrite (bind_Throw _ _ _ _ _ (E x)).
    + destruct H as [_ E']. split; [done|]. intros x. by rewrite (bind_Throw _ _ _ _ _ (E' x)).
  - exists c1, f, UB. split; [|done]. split; [done|]. intros x. unfold mbind, M_bind. by rewrite E.
  - exists c1, f, OutOfFuel. split; [|done]. split; [done|]. intros x. unfold mbind, M_bind. by rewrite E.
Qed.

Lemma stable_object h (k k' : parser X A) c b :
  P h -> stable_at again k k' c b ->
  stable_at again (on_object h ≫= fun _ => k) (on_object h ≫= fun _ => k') c b.
Proof. intros Ph Hk. apply stable_bind. exists c, h, (Ok tt). split_and!; done. Qed.

Lemma stable_lift {C} (r : result C) (k k' : C -> parser X A) c b :
  (forall a, r = Ok a -> stable_at again (k a) (k' a) c b) ->
  stable_at again (lift r ≫= k) (lift r ≫= k') c b.
Proof.
  intros Hk. apply stable_bind. exists c, (fun x => x), r. split; [done|].
  destruct r as [a|e| |]; try done. split; [done|]. by apply Hk.
Qed.
End Stable.
End Writers.

(** Decompose a parser into its primitives. *)
Ltac writer_with tac :=
  repeat first
    [ progress tac
    | lazymatch goal with
      | |- writer _ (mret _) => apply writer_ret; [exact _]
      | |- writer _ cursor_ => apply writer_cursor; [exact _]
      | |- writer _ (on_cursor _) => apply writer_on_cursor; [exact _]
      | |- writer _ (throw _) => apply writer_throw; [exact _]
      | |- writer _ (lift _) => apply writer_lift; [exact _]
      | |- writer _ (mbind _ _) => apply writer_bind; [exact _| |intros ?]
      | |- writer _ (if ?b then _ else _) => destruct b
      | |- writer _ (match ?o with _ => _ end) => destruct o
      | |- writer _ (let x := _ in _) => cbv zeta
      end ].
