(* ===== verification/Fragmentation.v ===== *)
(** * Requests arrive in pieces

    The parser gives the same result however its input is cut into pieces.  The
    start line and the headers are parsed again from their beginning each time,
    over a message that has kept what the earlier attempts stored: this is
    harmless because every store is absorbed when it is repeated. *)

From S2P Require Import Prelude Cxx Stream HttpDefs QValue Mime Cookie Net HttpHeader HttpHeaders HttpMessage HeaderMemory.
From S2P Require Import HttpParser Resume.

Local Open Scope Z_scope.

(** ** [unless] and [Revert] *)

Section Combinators.
Context {X : Type} (P : (X -> X) -> Prop) `{!Family P}.

Lemma writer_unless {A} (m : parser X bool) (a : A) k : writer P m -> writer P k -> writer P (unless m a k).
Proof. intros. apply writer_bind; [exact _|done|]. intros []; [done|by apply writer_ret]. Qed.

Lemma writer_Revert {A} ign (m : parser X A) : writer P m -> writer P (Revert ign m).
Proof.
  intros Hm c. destruct (Hm c) as (c1 & f & r & Pf & E).
  exists (match r with Ok a => if ign a then c1 else c | _ => c end), f, r. split; [done|].
  intros x. unfold Revert. rewrite E. by destruct r.
Qed.

Lemma stable_unless {A} (again : A -> bool) (m m' : parser X bool) a (k k' : parser X A) c b :
  again a = true -> writer P k' ->
  stable_at P negb m m' c b ->
  (forall c1 f, writes P m c c1 f (Ok true) -> stable_at P again k k' c1 b) ->
  stable_at P again (unless m a k) (unless m' a k') c b.
Proof.
  intros Ha Wk (c1 & f & r & Wm & H) Hk. destruct r as [[]|e| |].
  - apply stable_bind; [exact _|]. exists c1, f, (Ok true). split; [done|]. split; [done|]. by eapply Hk.
  - exists c1, f, (Ok a). destruct Wm as [Pf E]. split.
    + split; [done|]. intros x. unfold unless. by rewrite (bind_Ok _ _ _ _ _ (E x)).
    + rewrite Ha. destruct H as (c2 & g & r' & Pg & E'). unfold unless. destruct r' as [[]|e| |].
      * destruct (Wk c2) as (c3 & h & r & Ph & E3). exists c3, (fun x => h (g x)), r.
        split; [by apply family_comp|]. intros x. by rewrite (bind_Ok _ _ _ _ _ (E' x)), E3.
      * exists c2, g, (Ok a). split; [done|]. intros x. by rewrite (bind_Ok _ _ _ _ _ (E' x)).
      * exists c2, g, (Throw e). split; [done|]. intros x. by rewrite (bind_Throw _ _ _ _ _ (E' x)).
      * exists c2, g, UB. split; [done|]. intros x. unfold mbind, M_bind. by rewrite E'.
      * exists c2, g, OutOfFuel. split; [done|]. intros x. unfold mbind, M_bind. by rewrite E'.
  - apply stable_bind; [exact _|]. exists c1, f, (Throw e). done.
  - apply stable_bind; [exact _|]. exists c1, f, UB. done.
  - apply stable_bind; [exact _|]. exists c1, f, OutOfFuel. done.
Qed.

(** Once the cursor is put back, only the end of the guarded code matters. *)
Lemma stable_Revert {A} (again ign : A -> bool) (m m' : parser X A) c b :
  (forall v, again v = negb (ign v)) ->
  stable_at P again m m' c b -> stable_at P again (Revert ign m) (Revert ign m') c b.
Proof.
  intros Hi (c1 & f & r & [Pf E] & H).
  exists (match r with Ok a => if ign a then c1 else c | _ => c end), f, r. split.
  { split; [done|]. intros x. unfold Revert. rewrite E. by destruct r. }
  destruct r as [v|e| |]; try done.
  - rewrite Hi in *. destruct (ign v) eqn:Ei; simpl in *.
    + destruct H as [_ H]. split; [done|]. intros x. unfold Revert. rewrite H. by rewrite Ei.
    + destruct H as (c2 & g & r' & Pg & H).
      exists (match r' with Ok a => if ign a then c2 else extend b c | _ => extend b c end), g, r'.
      split; [done|]. intros x. unfold Revert. rewrite H. by destruct r'.
  - destruct H as [_ H]. split; [done|]. intros x. unfold Revert. by rewrite H.
Qed.

(** Moving the cursor to a place that more input does not change. *)
Lemma stable_on_cursor (f : cursor -> bool * cursor) c b :
  (forall c', f c = (true, c') -> f (extend b c) = (true, extend b c')) ->
  stable_at P negb (on_cursor f) (on_cursor f) c b.
Proof.
  intros Hf. destruct (f c) as [[] c'] eqn:E.
  - apply (stable_value _ _ _ _ _ _ c' (fun x => x) true); [done|split; [done|]..]; intros x; unfold on_cursor; simpl.
    + by rewrite E.
    + by rewrite (Hf _ eq_refl).
  - apply (stable_again _ _ _ _ _ _ c' false); [|done|by apply writer_on_cursor].
    intros x. unfold on_cursor. simpl. by rewrite E.
Qed.

Lemma writer_scan_to {A} stop (a : A) k : writer P k -> writer P (scan_to (X := X) stop a k).
Proof. intros. apply writer_unless; [by apply writer_on_cursor|done]. Qed.
Lemma writer_advancing {A} n (a : A) k : writer P k -> writer P (advancing (X := X) n a k).
Proof. intros. apply writer_unless; [by apply writer_on_cursor|done]. Qed.
Lemma writer_reaching {A} chars (a : A) k : writer P k -> writer P (reaching (X := X) chars a k).
Proof. intros. apply writer_unless; [by apply writer_on_cursor|done]. Qed.

Lemma writes_on_cursor (f : cursor -> bool * cursor) c c1 g :
  writes P (on_cursor f) c c1 g (Ok true) -> X -> f c = (true, c1).
Proof. intros [_ E] x. specialize (E x). unfold on_cursor in E. simpl in E. destruct (f c). by simplify_eq. Qed.

Section Moving.
Context {A : Type} (again : A -> bool) (a : A) (k k' : parser X A) (c : cursor) (b : bytes) (x0 : X).
Context (Ha : again a = true) (Wk : writer P k').

Lemma stable_scan_to stop :
  areal stop -> settled stop ->
  (forall c1, scan stop c = (true, c1) -> stable_at P again k k' c1 b) ->
  stable_at P again (scan_to stop a k) (scan_to stop a k') c b.
Proof.
  intros Hl Hs Hk. apply stable_unless; [done|done|..].
  - apply stable_on_cursor. intros c'. by apply scan_extend.
  - intros c1 f W. by apply Hk, (writes_on_cursor _ _ _ _ W).
Qed.

Lemma stable_advancing n :
  0 <= n < 2 ^ 63 -> (forall c1, advance n c = (true, c1) -> stable_at P again k k' c1 b) ->
  stable_at P again (advancing n a k) (advancing n a k') c b.
Proof.
  intros Hn Hk. apply stable_unless; [done|done|..].
  - apply stable_on_cursor. intros c'. by apply advance_extend.
  - intros c1 f W. by apply Hk, (writes_on_cursor _ _ _ _ W).
Qed.

Lemma stable_reaching chars :
  (forall c1, match_until chars Insensitive c = (true, c1) -> stable_at P again k k' c1 b) ->
  stable_at P again (reaching chars a k) (reaching chars a k') c b.
Proof.
  intros Hk. apply stable_unless; [done|done|..].
  - apply stable_on_cursor. intros c'. by apply match_until_extend.
  - intros c1 f W. by apply Hk, (writes_on_cursor _ _ _ _ W).
Qed.
End Moving.
End Combinators.

(** ** What the steps write *)

(** A sequence of stores, each of which later ones leave in force, is absorbed
    when it is repeated. *)
Lemma fold_absorb {S A} (op : S -> A -> S) (stored : A -> S -> Prop) :
  (forall a s, stored a s -> op s a = s) -> (forall a s, stored a (op s a)) ->
  (forall a b s, stored a s -> stored a (op s b)) ->
  forall l s, fold_left op l (fold_left op l s) = fold_left op l s.
Proof.
  intros Hop Hs Hk l s.
  assert (forall l s, Forall (fun a => stored a s) l -> fold_left op l s = s) as Hall.
  { clear l s. induction l as [|a l IH]; intros s Hl; [done|]. inversion Hl; subst. simpl. rewrite Hop by done. auto. }
  assert (forall l s k, Forall (fun a => stored a s) k -> Forall (fun a => stored a (fold_left op l s)) k) as Hkeep.
  { clear l s. induction l as [|b l IH]; intros s k Hl; [done|]. simpl. apply IH.
    eapply Forall_impl; [|exact Hl]. simpl. auto. }
  apply Hall. revert s. induction l as [|a l IH]; intros s; [done|]. simpl. constructor; [|apply IH].
  assert (Forall (fun a => stored a (op s a)) [a]) as H1 by (constructor; [apply Hs|done]).
  assert (Forall (fun a' => stored a' (op s a)) [a]) as H2 by (constructor; [apply Hs|done]).
  apply (Hkeep l) in H2. by inversion H2.
Qed.

(** *** The request line: any of the method, the resource and the version, and
    some parameters *)

Definition add_params (l : list (bytes * bytes)) (q : Query) : Query :=
  fold_left (fun q '(k, v) => Query_add k v q) l q.

Definition write_line (om : option Method.t) (op : option bytes) (ov : option Version) (qs : list (bytes * bytes))
  (r : Request) : Request :=
  {| request_message := set_version (default (version_ (request_message r)) ov) (request_message r);
     method_ := default (method_ r) om; resource_ := default (resource_ r) op;
     query_ := add_params qs (query_ r); address_ := address_ r; timeout_ := timeout_ r |}.

Definition line_write (f : Request -> Request) : Prop :=
  exists om op ov qs, forall r, f r = write_line om op ov qs r.

Lemma write_line_id r : write_line None None None [] r = r.
Proof. by destruct r as [[] ? ? ? ? ?]. Qed.

#[export] Instance line_write_family : Family line_write.
Proof.
  split.
  - exists None, None, None, []. intros r. by rewrite write_line_id.
  - intros f g (om & op & ov & qs & Ef) (om' & op' & ov' & qs' & Eg).
    exists (om' ∪ om), (op' ∪ op), (ov' ∪ ov), (qs ++ qs'). intros r. rewrite Eg, Ef.
    unfold write_line, add_params. simpl. rewrite fold_left_app. by destruct om, om', op, op', ov, ov'.
Qed.

Lemma add_params_twice qs q : add_params qs (add_params qs q) = add_params qs q.
Proof.
  apply (fold_absorb _ (fun '(k, v) q => is_Some (q !! k))).
  - intros [k v] s H. by apply insert_new_present.
  - intros [k v] s. unfold Query_add. rewrite insert_new_lookup, decide_True by done. eauto.
  - intros [k v] [k' v'] s H. unfold Query_add. rewrite insert_new_lookup. case_decide; [eauto|done].
Qed.

Lemma line_write_twice f r : line_write f -> f (f r) = f r.
Proof.
  intros (om & op & ov & qs & E). rewrite !E. unfold write_line. simpl. rewrite add_params_twice.
  by destruct om, op, ov.
Qed.

Lemma write_method m : line_write (set_method m).
Proof. exists (Some m), None, None, []. by intros [[] ? ? ? ? ?]. Qed.
Lemma write_resource p : line_write (set_resource p).
Proof. exists None, (Some p), None, []. by intros [[] ? ? ? ? ?]. Qed.
Lemma write_query k v : line_write (add_query k v).
Proof. exists None, None, None, [(k, v)]. by intros [[] ? ? ? ? ?]. Qed.
Lemma write_version v : line_write (fun r => set_message (set_version v (request_message r)) r).
Proof. exists None, None, (Some v), []. by intros [[] ? ? ? ? ?]. Qed.

Ltac step_writer tac := writer_with ltac:(idtac; lazymatch goal with
  | |- writer _ (scan_to _ _ _) => apply writer_scan_to; [exact _|]
  | |- writer _ (advancing _ _ _) => apply writer_advancing; [exact _|]
  | |- writer _ (reaching _ _ _) => apply writer_reaching; [exact _|]
  | |- writer _ (unless _ _ _) => apply writer_unless; [exact _|..]
  | |- writer _ (Revert _ _) => apply writer_Revert
  | |- writer _ (Step_raise _ _) => apply writer_throw; [exact _]
  | |- writer _ (on_object _) => apply writer_on_object; tac
  end).

Ltac line_writer :=
  step_writer ltac:(apply write_method || apply write_resource || apply write_query || apply write_version).

Lemma query_param_writer : writer line_write query_param.
Proof. unfold query_param. line_writer. Qed.

Lemma query_params_writer n : writer line_write (query_params n).
Proof.
  induction n as [|n IH]; simpl; line_writer; [apply query_param_writer|done].
Qed.

Lemma parse_version_writer : writer line_write parse_version.
Proof. unfold parse_version. line_writer. Qed.

Lemma parse_resource_writer : writer line_write parse_resource.
Proof. unfold parse_resource. line_writer. apply query_params_writer. Qed.

Lemma RequestLineStep_writer : writer line_write RequestLineStep_apply.
Proof.
  unfold RequestLineStep_apply. line_writer; [apply parse_resource_writer|apply parse_version_writer].
Qed.

(** *** Its stability *)

Lemma is_char_areal a : areal (is_char a).
Proof. done. Qed.

Lemma char_head a p l : is_char a (Cursor p l) = match l with [] => Eof =? a | x :: _ => schar x =? a end.
Proof. by destruct l. Qed.

Lemma char_settled a : a <> Eof -> settled (is_char a).
Proof.
  intros Ha. apply (settled_head (fun x => schar x =? a)). intros p [|x l]; [|done].
  rewrite char_head. apply Z.eqb_neq. by intros <-.
Qed.

Lemma resource_end_settled : settled (fun c => is_char 63 c || is_char SP c).
Proof. apply (settled_head (fun x => (schar x =? 63) || (schar x =? SP))). by intros p []. Qed.

Lemma is_char_extend a b c : after c <> [] -> is_char a (extend b c) = is_char a c.
Proof. destruct c as [p []]; [done|]. by unfold is_char, current. Qed.

Lemma found_nonempty chars c c1 : match_until chars Insensitive c = (true, c1) -> after c1 <> [].
Proof. intros (pre & _ & _ & (a & l & -> & _))%match_until_moves. done. Qed.

(** Walk through a step: [moves] for the cursor's movements. *)
Ltac step_stable tac :=
  repeat (idtac; lazymatch goal with
  | |- stable_at _ _ (cursor_ ≫= _) _ _ _ => apply stable_cursor; cbn [before after extend]
  | |- stable_at _ _ (on_object _ ≫= _) _ _ _ => apply stable_object; [exact _|tac|]
  | |- stable_at _ _ (throw _) _ _ _ => apply stable_throw; exact _
  | |- stable_at _ _ (Step_raise _ _) _ _ _ => apply stable_throw; exact _
  | |- stable_at _ _ (mret _) _ _ _ => apply stable_ret; [exact _|reflexivity]
  | |- stable_at _ _ (scan_to _ _ _) _ _ _ => apply stable_scan_to; [exact _|exact Request_default|reflexivity| | | |intros ? ?]
  | |- stable_at _ _ (advancing _ _ _) _ _ _ => apply stable_advancing; [exact _|exact Request_default|reflexivity| |lia|intros ? ?]
  | |- stable_at _ _ (reaching _ _ _) _ _ _ => apply stable_reaching; [exact _|exact Request_default|reflexivity| |intros ? ?]
  end).

Ltac line_stable :=
  step_stable ltac:(apply write_method || apply write_resource || apply write_query || apply write_version).

Lemma query_param_stable c b : stable_at line_write negb query_param query_param c b.
Proof.
  unfold query_param. line_stable; [line_writer..|].
  apply found_nonempty in H as Hne. rewrite !is_char_extend by done.
  destruct (is_char SP c1); [line_stable|].
  destruct (is_char 38 c1); line_stable; [line_writer..|].
  apply found_nonempty in H1 as Hne'. rewrite !is_char_extend by done.
  destruct (is_char 38 c2); line_stable; line_writer.
Qed.

Lemma query_param_eof p x : query_param (Cursor p [], x) = ((Cursor p [], x), Ok false).
Proof. done. Qed.

Lemma stable_OutOfFuel {X A} (P : (X -> X) -> Prop) `{!Family P} (again : A -> bool) m' c b :
  stable_at P again (lift OutOfFuel) m' c b.
Proof. exists c, (fun x => x), OutOfFuel. by split. Qed.

Lemma query_params_stable n n' c b :
  (n <= n')%nat -> stable_at line_write negb (query_params n) (query_params n') c b.
Proof.
  revert n' c. induction n as [|n IH]; intros n' c Hn; destruct (decide (after c = [])) as [E|E].
  - destruct c as [p l]; simpl in *; subst. destruct n'; apply (stable_OutOfFuel line_write).
  - destruct n' as [|n']; simpl; line_stable; fold (extend b c); rewrite is_char_extend by done;
      (destruct (is_char SP c); [line_stable|apply stable_OutOfFuel; exact _]).
  - destruct n' as [|n']; [lia|]. simpl. line_stable.
    destruct c as [p l]; simpl in *; subst. apply (stable_again _ _ _ _ _ _ (Cursor p []) false); [done..|].
    destruct (is_char SP _); line_writer; [apply query_param_writer|apply query_params_writer].
  - destruct n' as [|n']; [lia|]. simpl. line_stable. fold (extend b c). rewrite is_char_extend by done.
    destruct (is_char SP c); [line_stable|].
    apply stable_unless; [exact _|done|apply query_params_writer|apply query_param_stable|].
    intros c1 _ _. apply IH. lia.
Qed.

Lemma parse_resource_stable c b : stable_at line_write negb parse_resource parse_resource c b.
Proof.
  unfold parse_resource. line_stable; [line_writer; apply query_params_writer|done|apply resource_end_settled|].
  line_stable. assert (after c1 <> []) as Hne.
  { apply scan_spec in H as (pre & _ & _ & Hs); [|done]. by destruct c1 as [p []]. }
  rewrite !is_char_extend by done. destruct (is_char 63 c1); line_stable.
  - line_writer; apply query_params_writer.
  - apply query_params_stable. unfold remaining, in_avail. simpl. rewrite length_app. lia.
Qed.

Lemma parse_version_stable c b : stable_at line_write (fun s => negb (is_Next s)) parse_version parse_version c b.
Proof.
  unfold parse_version. line_stable; [line_writer|apply eol_areal|apply eol_settled|]. line_stable.
  destruct (version_of _); line_stable. line_writer.
Qed.

Lemma RequestLineStep_stable c b :
  stable_at line_write (fun s => negb (is_Next s)) RequestLineStep_apply RequestLineStep_apply c b.
Proof.
  unfold RequestLineStep_apply. apply stable_Revert; [done|]. line_stable.
  { line_writer; [apply parse_resource_writer|apply parse_version_writer]. }
  line_stable. destruct (find_method _) as [m|]; line_stable.
  apply found_nonempty in H as Hne. rewrite !is_char_extend by done.
  assert (eof c1 = false /\ eof (extend b c1) = false) as [-> ->].
  { unfold eof, remaining, in_avail. destruct c1 as [p []]; done. }
  destruct (negb (is_char SP c1)); line_stable.
  { line_writer; [apply parse_resource_writer|apply parse_version_writer]. }
  apply stable_unless; [exact _|done|line_writer; apply parse_version_writer|apply parse_resource_stable|].
  intros c2 _ _. line_stable; [apply parse_version_writer|apply parse_version_stable].
Qed.

(** *** The headers: cookies added to the jar or to an emptied one, and typed and
    raw headers *)

Definition add_cookies (cs : list Cookie) (j : CookieJar) : CookieJar :=
  fold_left (fun j c => CookieJar_add c j) cs j.

Definition jar_write (f : CookieJar -> CookieJar) : Prop := exists cs, forall j, f j = add_cookies cs j.

#[export] Instance jar_write_family : Family jar_write.
Proof.
  split.
  - by exists [].
  - intros f g (cs & Ef) (cs' & Eg). exists (cs ++ cs'). intros j.
    rewrite Eg, Ef. unfold add_cookies. by rewrite fold_left_app.
Qed.

Lemma write_jar c : jar_write (CookieJar_add c).
Proof. by exists [c]. Qed.

Lemma add_one_writer : writer jar_write add_one.
Proof. unfold add_one, jar_skip_ws. step_writer ltac:(apply write_jar). Qed.

Lemma add_all_writer n : writer jar_write (add_all n).
Proof. induction n as [|n IH]; simpl; step_writer idtac; [apply add_one_writer|done]. Qed.

Lemma addFromRaw_writes raw : exists cs r, forall j, CookieJar_addFromRaw raw j = (add_cookies cs j, r).
Proof.
  destruct (add_all_writer (length raw) (RawStreamBuf raw)) as (c & f & r & (cs & Ef) & E).
  exists cs, r. intros j. unfold CookieJar_addFromRaw. by rewrite E, Ef.
Qed.

Lemma CookieJar_add_lookup c j : is_Some (CookieJar_add c j !! name c ≫= (.!! value c)).
Proof.
  unfold CookieJar_add. destruct (j !! name c) as [inner|] eqn:E.
  - rewrite lookup_insert_eq. simpl. rewrite insert_new_lookup, decide_True by done. eauto.
  - rewrite insert_new_lookup, decide_True, E by done. simpl. rewrite insert_new_lookup, decide_True by done. eauto.
Qed.

Lemma add_cookies_twice cs j : add_cookies cs (add_cookies cs j) = add_cookies cs j.
Proof.
  apply (fold_absorb _ (fun c j => is_Some (j !! name c ≫= (.!! value c)))).
  - intros c s. destruct (s !! name c) as [inner|] eqn:E; simpl; [|by intros []].
    intros H. unfold CookieJar_add. rewrite E, insert_new_present by done. by apply insert_id.
  - intros c s. apply CookieJar_add_lookup.
  - intros c c' s H. unfold CookieJar_add. destruct (s !! name c') as [inner|] eqn:E.
    + destruct (decide (name c = name c')) as [En|En]; [|by rewrite lookup_insert_ne].
      rewrite En in H |- *. rewrite E in H. rewrite lookup_insert_eq. simpl in *. rewrite insert_new_lookup.
      case_decide; [eauto|done].
    + rewrite insert_new_lookup. case_decide as En; [|done]. rewrite En, E in H. simpl in H. by destruct H.
Qed.

Definition add_typed (hs : list Header) (t : gmap bytes (bytes * Header)) :=
  fold_left (fun t h => insert_ci (Header_name h) h t) hs t.
Definition add_raws (rs : list HttpHeaders.Raw) (t : gmap bytes (bytes * HttpHeaders.Raw)) :=
  fold_left (fun t r => insert_ci (raw_name r) r t) rs t.

Lemma insert_ci_absorb {A B} (key : A -> bytes) (val : A -> B) (l : list A) (t : gmap bytes (bytes * B)) :
  let op := fun t a => insert_ci (key a) (val a) t in fold_left op l (fold_left op l t) = fold_left op l t.
Proof.
  apply (fold_absorb _ (fun a t => is_Some (t !! toLowercase (key a)))).
  - intros a s. apply insert_ci_present.
  - intros a s. rewrite insert_ci_lookup, decide_True by done. eauto.
  - intros a b s H. rewrite insert_ci_lookup. case_decide; [eauto|done].
Qed.

Definition write_msg (cleared : bool) (cs : list Cookie) (hs : list Header) (rs : list HttpHeaders.Raw)
  (m : Message) : Message :=
  {| version_ := version_ m; code_ := code_ m; body_ := body_ m;
     cookies_ := add_cookies cs (if cleared then ∅ else cookies_ m);
     headers_ := {| headers := add_typed hs (headers (headers_ m)); rawHeaders := add_raws rs (rawHeaders (headers_ m)) |} |}.

Definition msg_write (f : Message -> Message) : Prop :=
  exists cl cs hs rs, forall m, f m = write_msg cl cs hs rs m.

#[export] Instance msg_write_family : Family msg_write.
Proof.
  split.
  - exists false, [], [], []. by intros [? ? ? ? []].
  - intros f g (cl & cs & hs & rs & Ef) (cl' & cs' & hs' & rs' & Eg).
    exists (cl || cl'), (if cl' then cs' else cs ++ cs'), (hs ++ hs'), (rs ++ rs'). intros m.
    rewrite Eg, Ef. unfold write_msg, add_typed, add_raws, add_cookies. cbn.
    rewrite !fold_left_app. destruct cl, cl'; try done; by rewrite fold_left_app.
Qed.

Lemma msg_write_twice f m : msg_write f -> f (f m) = f m.
Proof.
  intros (cl & cs & hs & rs & E). rewrite !E. unfold write_msg, add_typed, add_raws. cbn.
  rewrite (insert_ci_absorb Header_name (fun h => h)), (insert_ci_absorb raw_name (fun r => r)).
  f_equal. destruct cl; [done|apply add_cookies_twice].
Qed.

Lemma write_no_cookies : msg_write (on_cookies CookieJar_removeAllCookies).
Proof. exists true, [], [], []. by intros [? ? ? ? []]. Qed.
Lemma write_cookie c : msg_write (on_cookies (CookieJar_add c)).
Proof. exists false, [c], [], []. by intros [? ? ? ? []]. Qed.
Lemma write_typed h : msg_write (on_headers (Collection_add h)).
Proof. exists false, [], [h], []. by intros [? ? ? ? []]. Qed.
Lemma write_raw r : msg_write (on_headers (Collection_addRaw r)).
Proof. exists false, [], [], [r]. by intros [? ? ? ? []]. Qed.

Lemma addFromRaw_writer raw : writer msg_write (on_member cookies_ set_cookies (CookieJar_addFromRaw raw)).
Proof.
  destruct (addFromRaw_writes raw) as (cs & r & E). intros c.
  exists c, (on_cookies (add_cookies cs)), r. split.
  - exists false, cs, [], []. by intros [? ? ? ? []].
  - intros x. unfold on_member. by rewrite E.
Qed.

(** *** Stability of the headers step *)

(** A scan by the next character that did not run to the end. *)
Lemma scan_extend_head (t : Ascii.ascii -> bool) stop b c c' :
  (forall p a l, stop (Cursor p (a :: l)) = t a) -> areal stop -> after c' <> [] ->
  scan stop c = (true, c') -> scan stop (extend b c) = (true, extend b c').
Proof.
  intros Ht Ha Hne E. apply scan_spec in E as (pre & [E1 E2] & Hk & Ho); [|done].
  destruct c' as [p' [|a l]]; [done|]. rewrite Ht in Ho. simpl in *.
  rewrite (scan_stop stop (extend b c) pre ((a :: l) ++ b)).
  - unfold extend. simpl. by rewrite E2.
  - simpl. by rewrite E1, <- app_assoc.
  - intros k Hlt. simpl. specialize (Hk k Hlt). rewrite E1 in Hk |- *.
    rewrite <- app_assoc, drop_app_le by lia. rewrite drop_app_le in Hk by lia.
    destruct (drop k pre) as [|x d] eqn:Ed; [apply (f_equal length) in Ed; rewrite length_drop in Ed; simpl in Ed; lia|].
    simpl in *. by rewrite Ht in *.
  - simpl. by rewrite Ht.
Qed.

Lemma scan_total stop c : stop (Cursor [] []) = true -> (scan stop c).1 = true.
Proof.
  intros Hs. unfold scan. destruct (scan_rest _ _) as [[pre post] []] eqn:E; [done|].
  apply scan_rest_spec in E as (_ & _ & _ & E). congruence.
Qed.

Lemma eol_split c : eol c = true -> exists l, after c = CR :: LF :: l.
Proof.
  destruct c as [p [|a [|a' l]]]; [done| |].
  - unfold eol, next, in_avail. simpl. by rewrite andb_false_r.
  - unfold eol, next, in_avail. simpl. intros [Ha Hb]%andb_true_iff. apply bool_decide_eq_true in Ha as ->.
    exists l. do 2 f_equal. apply Z.eqb_eq in Hb. revert Hb. clear. revert a'. each_byte.
Qed.

Lemma eol_extend b c : eol c = true -> eol (extend b c) = true.
Proof. destruct c as [p l]. intros E. rewrite <- E. symmetry. by apply (eol_settled [] l b). Qed.

(** The memory from an earlier position on, at the end of a line. *)
Lemma raw_at_eol s c l :
  (s <= position c)%nat -> after c = CR :: LF :: l ->
  Token_raw s c = Token_text s c ++ CR :: LF :: l /\ diff s c = length (Token_text s c).
Proof.
  unfold position, Token_raw, Token_text, diff. intros Hs E. rewrite E, drop_app_le by done.
  split; [done|]. by rewrite length_drop.
Qed.

Lemma take_Token_raw s n c : (n <= position c - s)%nat -> take n (Token_raw s c) = take n (Token_text s c).
Proof.
  unfold position, Token_raw, Token_text. intros Hn. destruct (decide (s <= length (before c))%nat).
  - rewrite drop_app_le by done. apply take_app_le. rewrite length_drop. lia.
  - by replace n with 0%nat by lia.
Qed.

Lemma scan_position stop c c' : areal stop -> scan stop c = (true, c') -> (position c <= position c')%nat.
Proof.
  intros Ha E. apply scan_spec in E as (pre & [_ E2] & _); [|done]. unfold position. rewrite E2, length_app. lia.
Qed.

Section HeadersStable.
Context `{DateLib, Resolver}.

Lemma store_header_writer name raw len : writer msg_write (store_header name raw len).
Proof.
  unfold store_header.
  step_writer ltac:(apply write_no_cookies || apply write_cookie || apply write_typed). apply addFromRaw_writer.
Qed.

(** It leaves the cursor alone. *)
Lemma store_header_cursor name raw len :
  exists f r, msg_write f /\ forall c x, store_header name raw len (c, x) = ((c, f x), r).
Proof.
  unfold store_header. destruct (LowercaseEqualStatic _ _).
  { destruct (addFromRaw_writes (take len raw)) as (cs & r & E).
    exists (fun m => on_cookies (add_cookies cs) (on_cookies CookieJar_removeAllCookies m)), r. split.
    - exists true, cs, [], []. by intros [? ? ? ? []].
    - intros c x. unfold mbind, M_bind, on_object, on_member. by rewrite E. }
  destruct (LowercaseEqualStatic _ _).
  { destruct (Cookie_fromRaw (take len raw)) as [k|e| |];
      [exists (on_cookies (CookieJar_add k)), (Ok tt); by split; [apply write_cookie|]|..].
    - by exists (fun m => m), (Throw e).
    - by exists (fun m => m), UB.
    - by exists (fun m => m), OutOfFuel. }
  destruct (isRegistered name); [|by exists (fun m => m), (Ok tt)].
  unfold makeHeader. destruct (find_registered name) as [h|]; [|by eexists (fun m => m), (Throw _)].
  unfold mbind, M_bind, lift. destruct (Header_parseRaw raw len h) as [h' [[]|e| |]];
    [exists (on_headers (Collection_add h')), (Ok tt); by split; [apply write_typed|]|..].
  - by exists (fun m => m), (Throw e).
  - by exists (fun m => m), UB.
  - by exists (fun m => m), OutOfFuel.
Qed.

(** What is stored for a header depends on its line only. *)
Lemma store_header_memory name v x y s :
  store_header name (v ++ CR :: x) (length v) s = store_header name (v ++ CR :: y) (length v) s.
Proof.
  unfold store_header. rewrite !take_memory by lia.
  destruct (LowercaseEqualStatic _ _); [done|]. destruct (LowercaseEqualStatic _ _); [done|].
  destruct (isRegistered name); [|done]. destruct (makeHeader name) as [h|e| |]; try done.
  rewrite !(bind_Ok (lift (Ok h)) _ s s h) by done. by rewrite (Header_parseRaw_memory v x y h).
Qed.

Ltac msg_writer := step_writer ltac:(apply write_raw); try apply store_header_writer.

Lemma header_line_writer : writer msg_write header_line.
Proof. unfold header_line. msg_writer. Qed.

Lemma header_lines_writer n : writer msg_write (header_lines n).
Proof. induction n as [|n IH]; simpl; msg_writer; [apply header_line_writer|done]. Qed.

Lemma HeadersStep_writer : writer msg_write HeadersStep_apply.
Proof. unfold HeadersStep_apply. msg_writer. apply header_lines_writer. Qed.

Ltac msg_stable := repeat (idtac; lazymatch goal with
  | |- stable_at _ _ (cursor_ ≫= _) _ _ _ => apply stable_cursor; cbn [before after extend]
  | |- stable_at _ _ (scan_to _ _ _) _ _ _ => apply stable_scan_to; [exact _|exact Message_default|reflexivity| | | |intros ? ?]
  | |- stable_at _ _ (advancing _ _ _) _ _ _ => apply stable_advancing; [exact _|exact Message_default|reflexivity| |lia|intros ? ?]
  | |- stable_at _ _ (mret _) _ _ _ => apply stable_ret; [exact _|reflexivity]
  end).

(** The end of a header line, from the blanks before the value on. *)
Definition header_value (name : bytes) : parser Message bool :=
  scan_to (fun c => negb (is_char SP c)) false (
  start ← cursor_;
  scan_to eol false (
  c ← cursor_;
  let raw := Token_raw (position start) c in
  let len := diff (position start) c in
  _ ← store_header name raw len;
  _ ← on_object (on_headers (Collection_addRaw {| raw_name := name; raw_value := take len raw |}));
  advancing 2 false (mret true))).

Lemma header_value_writer name : writer msg_write (header_value name).
Proof. unfold header_value. msg_writer. Qed.

Lemma header_value_stable name c b : stable_at msg_write negb (header_value name) (header_value name) c b.
Proof.
  pose proof (header_value_writer name) as W. unfold header_value in *.
  destruct (scan (fun c => negb (is_char SP c)) c) as [ok c1] eqn:E1.
  assert (ok = true) as ->.
  { pose proof (scan_total (fun c => negb (is_char SP c)) c eq_refl) as Ht. by rewrite E1 in Ht. }
  assert (forall x : Message, on_cursor (scan (fun c => negb (is_char SP c))) (c, x) = ((c1, x), Ok true)) as E1'.
  { intros x. by apply on_cursor_eq. }
  destruct (decide (after c1 = [])) as [Hn|Hn].
  - destruct c1 as [p l]; simpl in *; subst.
    apply (stable_again _ _ _ _ _ _ (Cursor (p ++ []) []) false); [|done|done].
    intros x. unfold scan_to at 1, unless. by rewrite (bind_Ok _ _ _ _ _ (E1' x)).
  - unfold scan_to at 1 3, unless. apply stable_bind; [exact _|].
    exists c1, (fun x => x), (Ok true). split; [by split|]. split.
    { split; [done|]. intros x. apply on_cursor_eq.
      by apply (scan_extend_head (fun a => negb (schar a =? SP))). }
    apply stable_cursor. apply stable_scan_to; [exact _|exact Message_default|done| |apply eol_areal|apply eol_settled|].
    { msg_writer. }
    intros c2 E2. apply stable_cursor. cbv zeta.
    apply scan_position in E2 as Hp; [|done].
    assert (eol c2 = true) as He by (by apply scan_spec in E2 as (? & _ & _ & ?)).
    apply eol_split in He as [l Hl].
    destruct (raw_at_eol (position c1) c2 l Hp Hl) as [-> Hd].
    destruct (raw_at_eol (position (extend b c1)) (extend b c2) (l ++ b)) as [-> _]; [done|simpl; by rewrite Hl|].
    change (diff (position (extend b c1)) (extend b c2)) with (diff (position c1) c2).
    change (Token_text (position (extend b c1)) (extend b c2)) with (Token_text (position c1) c2).
    rewrite Hd. set (v := Token_text (position c1) c2). rewrite !take_app_length.
    apply stable_bind; [exact _|].
    destruct (store_header_cursor name (v ++ CR :: LF :: l) (length v)) as (f & r & Pf & Ef).
    exists c2, f, r. split; [by split|].
    assert (writes msg_write (store_header name (v ++ CR :: LF :: l ++ b) (length v)) (extend b c2) (extend b c2) f r) as Hw.
    { split; [done|]. intros x. by rewrite (store_header_memory _ _ _ (LF :: l)). }
    destruct r; try done. split; [done|].
    apply stable_object; [exact _|apply write_raw|]. msg_stable. msg_writer.
Qed.

Lemma header_line_value :
  header_line = Revert id (
    start ← cursor_;
    scan_to (is_char 58) false (
    advancing 1 false (
    c ← cursor_; header_value (take (diff (position start) c - 1) (Token_raw (position start) c))))).
Proof. done. Qed.

Lemma header_line_stable c b : stable_at msg_write negb header_line header_line c b.
Proof.
  rewrite header_line_value. apply stable_Revert; [by intros []|]. msg_stable.
  { step_writer idtac. apply header_value_writer. }
  { apply is_char_areal. }
  { by apply char_settled. }
  msg_stable.
  { step_writer idtac. apply header_value_writer. }
  match goal with |- stable_at _ _ (header_value ?n) (header_value ?n') _ _ => assert (n' = n) as -> end.
  { rewrite !take_Token_raw by (simpl; unfold diff, position; simpl; lia). done. }
  apply header_value_stable.
Qed.

Lemma header_line_short l p x :
  l = [] \/ l = [CR] -> header_line (Cursor p l, x) = ((Cursor p l, x), Ok false).
Proof. by intros [->| ->]. Qed.

Lemma header_lines_stable n n' c b :
  (n <= n')%nat -> stable_at msg_write negb (header_lines n) (header_lines n') c b.
Proof.
  revert n' c. induction n as [|n IH]; intros n' c Hn; destruct (eol c) eqn:Ec.
  1, 3: destruct n'; simpl; apply stable_cursor; rewrite Ec, eol_extend by done; by apply (stable_ret msg_write negb true).
  - simpl. destruct n'; apply stable_cursor; rewrite Ec; apply stable_OutOfFuel; exact _.
  - destruct n' as [|n']; [lia|]. simpl. apply stable_cursor. rewrite Ec. fold (extend b c).
    destruct (eol (extend b c)) eqn:Eb.
    + apply (stable_again _ _ _ _ _ _ c false); [|done|apply writer_ret; exact _].
      assert (after c = [] \/ after c = [CR]) as Hs.
      { apply eol_split in Eb as [l Hl]. destruct c as [p [|a [|a' l']]]; simpl in *; [by left| |].
        - right. by injection Hl as -> _.
        - injection Hl as -> -> _. done. }
      intros x. destruct c as [p l]. unfold unless. by rewrite (bind_Ok _ _ _ _ _ (header_line_short l p x Hs)).
    + apply stable_unless; [exact _|done|apply header_lines_writer|apply header_line_stable|].
      intros c1 f _. apply IH. lia.
Qed.

Lemma HeadersStep_stable c b :
  stable_at msg_write (fun s => negb (is_Next s)) HeadersStep_apply HeadersStep_apply c b.
Proof.
  unfold HeadersStep_apply. apply stable_Revert; [done|]. apply stable_cursor.
  apply stable_unless; [exact _|done|msg_writer|apply header_lines_stable|].
  - unfold remaining, in_avail, extend. simpl. rewrite length_app. lia.
  - intros c1 f _. msg_stable. msg_writer.
Qed.
End HeadersStable.

(** ** The body *)

Lemma advance_within n c : 0 <= n <= Z.of_nat (remaining c) -> advance n c = (true, sbump (Z.to_nat n) c).
Proof.
  intros Hn. unfold advance. fold (remaining c). replace (Z.of_nat (remaining c) <? wraps 64 n) with false.
  - by rewrite Z.min_l by lia.
  - symmetry. apply Z.ltb_ge. etransitivity; [|apply Hn]. unfold wraps.
    assert ((n + 2 ^ (64 - 1)) mod 2 ^ 64 <= n + 2 ^ (64 - 1)) by (apply Z.mod_le; lia). lia.
Qed.

Section BodyStable.
Context `{StringMemory}.

(** What [append] does when there is memory. *)
Lemma string_append_ok raw n s :
  0 <= n <= Z.of_nat (length raw) -> Z.of_nat (length s) + n <= memory_limit ->
  string_append raw n s = Ok (s ++ take (Z.to_nat n) raw).
Proof.
  intros Hn Hm. unfold string_append. pose proof memory_limit_ok. 
  rewrite !(proj2 (Z.ltb_ge _ _)) by lia. done.
Qed.

Lemma string_append_Ok raw n s s' :
  0 <= n -> string_append raw n s = Ok s' ->
  s' = s ++ take (Z.to_nat n) raw /\ n <= Z.of_nat (length raw).
Proof. unfold string_append. intros Hn. repeat case_match; intros; simplify_eq. bool_to_prop. split; [done|lia]. Qed.

Definition with_body (s : bytes) (n : Z) (x : Message * BodyStep) : Message * BodyStep :=
  (set_body s x.1, {| chunk := chunk x.2; bytesRead := n |}).

(** [readBody] on an area [a]. *)
Lemma readBody_short need p a x :
  Z.of_nat (length a) < need -> 
  readBody need (Cursor p a, x)
  = match string_append a (Z.of_nat (length a)) (body_ x.1) with
    | Ok s => ((Cursor (p ++ a) [], with_body s (wrapu 64 (bytesRead x.2 + Z.of_nat (length a))) x), Ok false)
    | Throw e => ((Cursor (p ++ a) [], x), Throw e)
    | UB => ((Cursor (p ++ a) [], x), UB)
    | OutOfFuel => ((Cursor (p ++ a) [], x), OutOfFuel)
    end.
Proof.
  intros Hn. unfold readBody. rewrite (bind_Ok cursor_ _ _ (Cursor p a, x) (Cursor p a)) by done.
  unfold remaining, in_avail. cbn [after]. rewrite (proj2 (Z.ltb_lt _ _)) by done.
  assert (advance (Z.of_nat (length a)) (Cursor p a) = (true, Cursor (p ++ a) [])) as Ea.
  { rewrite advance_within by (unfold remaining, in_avail; simpl; lia). unfold sbump. simpl.
    by rewrite Nat2Z.id, firstn_all, drop_all. }
  unfold mbind, M_bind, on_cursor. cbn [fst snd]. rewrite Ea. cbn [fst snd].
  unfold append_body, cursor_, object_, on_object, mbind, M_bind, Token_raw, Token_size, position, lift.
  cbn [fst snd before after]. rewrite app_nil_r, drop_app_length, length_app.
  replace (length p + length a - length p)%nat with (length a) by lia.
  by destruct (string_append a _ _).
Qed.

Lemma readBody_full need p a x :
  0 <= need <= Z.of_nat (length a) -> 
  readBody need (Cursor p a, x)
  = let c := Cursor (p ++ take (Z.to_nat need) a) (drop (Z.to_nat need) a) in
    match string_append a need (body_ x.1) with
    | Ok s => ((c, with_body s (bytesRead x.2) x), Ok true)
    | Throw e => ((c, x), Throw e)
    | UB => ((c, x), UB)
    | OutOfFuel => ((c, x), OutOfFuel)
    end.
Proof.
  intros Hn. unfold readBody. rewrite (bind_Ok cursor_ _ _ (Cursor p a, x) (Cursor p a)) by done.
  unfold remaining, in_avail. cbn [after]. rewrite (proj2 (Z.ltb_ge _ _)) by lia.
  unfold mbind, M_bind, on_cursor. cbn [fst snd].
  rewrite advance_within by (unfold remaining, in_avail; simpl; lia). cbn [fst snd].
  unfold append_body, cursor_, object_, on_object, mbind, M_bind, Token_raw, Token_size, position, lift, sbump.
  cbn [fst snd before after]. rewrite <- app_assoc, take_drop, drop_app_length, length_app, length_take.
  replace (Z.of_nat (length p + Z.to_nat need `min` length a - length p)) with need by lia.
  destruct x as [m []]. by destruct (string_append a _ _).
Qed.

Lemma wrapu_sub cl k : 0 <= k <= wrapu 64 cl -> wrapu 64 (cl - k) = wrapu 64 cl - k.
Proof.
  intros Hk. unfold wrapu in *. rewrite <- Zminus_mod_idemp_l. apply Z.mod_small.
  pose proof (Z.mod_pos_bound cl (2 ^ 64)). lia.
Qed.

(** How many bytes the step still wants, and what it does about them. *)
Definition wanted (cl : Z) (b : BodyStep) : Z := wrapu 64 (cl - bytesRead b).

Definition finish_body : bool -> parser (Message * BodyStep) State := fun ok =>
  if negb ok then mret Again else _ ← on_object (set_bytesRead 0); mret Done.

Lemma parseContentLength_read cl c m b :
  (0 < bytesRead b \/ bytesRead b = 0 /\ string_reserve (wrapu 32 cl) = Ok tt) ->
  parseContentLength cl (c, (m, b)) = (readBody (wanted cl b) ≫= finish_body) (c, (m, b)).
Proof.
  intros Hb. unfold parseContentLength, wanted. rewrite (bind_Ok object_ _ _ (c, (m, b)) (m, b)) by done.
  cbn [snd]. destruct Hb as [Hb|[-> Hr]].
  - by rewrite (proj2 (Z.ltb_lt _ _)).
  - rewrite Hr, Z.sub_0_r. done.
Qed.

(** The step stops for lack of input only after it has taken all there is. *)
Lemma parseContentLength_again cl p a m bs c1 x1 :
  bytesRead bs = 0 -> parseContentLength cl (Cursor p a, (m, bs)) = ((c1, x1), Ok Again) ->
  string_reserve (wrapu 32 cl) = Ok tt /\ Z.of_nat (length a) < wanted cl bs
  /\ c1 = Cursor (p ++ a) [] /\ x1 = with_body (body_ m ++ a) (Z.of_nat (length a)) (m, bs).
Proof.
  intros Hr E. destruct (string_reserve (wrapu 32 cl)) as [[]|e| |] eqn:Ev.
  2-4: exfalso; revert E; unfold parseContentLength, mbind, M_bind, object_, lift; cbn [snd]; rewrite Hr, Ev; done.
  rewrite parseContentLength_read in E by auto.
  assert (0 <= wanted cl bs < 2 ^ 64) as Hneed by (apply wrapu_range; lia).
  unfold mbind, M_bind in E.
  destruct (Z.lt_ge_cases (Z.of_nat (length a)) (wanted cl bs)) as [Hs|Hs].
  2: { rewrite readBody_full in E by lia. cbv zeta in E. destruct (string_append a _ _); simplify_eq/=. }
  rewrite readBody_short in E by done. cbn [fst snd] in E.
  destruct (string_append a _ (body_ m)) as [s|e| |] eqn:Es; simplify_eq/=.
  apply string_append_Ok in Es as [-> _]; [|lia]. rewrite Nat2Z.id, firstn_all in *.
  rewrite Hr, Z.add_0_l, (wrapu_small 64) in E by lia.
  apply (f_equal fst) in E. cbn [fst finish_body negb mret M_ret] in E.
  by apply pair_equal_spec in E as [<- <-].
Qed.

Lemma parseContentLength_resume cl p a b m bs c1 x1 :
  bytesRead bs = 0 -> parseContentLength cl (Cursor p a, (m, bs)) = ((c1, x1), Ok Again) ->
  Z.of_nat (length (body_ x1.1)) + Z.of_nat (length b) <= memory_limit ->
  parseContentLength cl (extend b c1, x1) = parseContentLength cl (Cursor p (a ++ b), (m, bs)).
Proof.
  intros Hr E Hm. apply parseContentLength_again in E as (Ev & Hs & -> & Ex); [|done]. subst x1.
  rewrite (parseContentLength_read _ (Cursor p (a ++ b))) by auto. cbn in Hm. rewrite length_app in Hm.
  set (need := wanted cl bs) in *. assert (0 <= need < 2 ^ 64) as Hneed by (apply wrapu_range; lia).
  set (x1 := with_body (body_ m ++ a) (Z.of_nat (length a)) (m, bs)).
  assert (wanted cl x1.2 = need - Z.of_nat (length a)) as Hw.
  { unfold wanted, x1. cbn. subst need. unfold wanted in *. rewrite Hr, Z.sub_0_r in *. apply wrapu_sub. lia. }
  rewrite (surjective_pairing x1), parseContentLength_read, Hw, <- surjective_pairing.
  2: { cbn. destruct a; simpl; [by right|left; lia]. }
  unfold mbind, M_bind, extend. cbn [before after app].
  destruct (Z.lt_ge_cases (Z.of_nat (length b)) (need - Z.of_nat (length a))) as [Hb|Hb].
  - rewrite !readBody_short by (rewrite ?length_app; lia).
    rewrite !string_append_ok by (cbn; rewrite ?length_app; lia).
    unfold x1, with_body. cbn. rewrite !Nat2Z.id, !firstn_all, Hr, !length_app, <- !app_assoc, Z.add_0_l.
    do 4 f_equal. rewrite Nat2Z.inj_add. done.
  - rewrite !readBody_full by (rewrite ?length_app; lia). cbv zeta.
    rewrite !string_append_ok by (cbn; rewrite ?length_app; lia).
    unfold x1, with_body, finish_body. cbn.
    replace (Z.to_nat need) with (length a + Z.to_nat (need - Z.of_nat (length a)))%nat by lia.
    rewrite take_app_add, drop_app_add, <- !app_assoc. done.
Qed.

(** Nothing in the chunked decoder touches the headers. *)
Definition keeps_headers {A} (m : parser (Message * BodyStep) A) : Prop :=
  forall s, headers_ (m s).1.2.1 = headers_ s.2.1.

Lemma kh_bind {A C} (m : parser (Message * BodyStep) A) (k : A -> parser (Message * BodyStep) C) :
  keeps_headers m -> (forall a, keeps_headers (k a)) -> keeps_headers (m ≫= k).
Proof.
  intros Hm Hk s. specialize (Hm s). unfold mbind, M_bind. destruct (m s) as [s' [a|e| |]]; try done.
  by rewrite (Hk a s').
Qed.

Lemma kh_on_cursor {A} (f : cursor -> A * cursor) : keeps_headers (on_cursor f).
Proof. intros [c x]. unfold on_cursor. cbn. by destruct (f c). Qed.

Lemma kh_Revert {A} ign (m : parser (Message * BodyStep) A) : keeps_headers m -> keeps_headers (Revert ign m).
Proof. intros Hm s. specialize (Hm s). unfold Revert. by destruct (m s) as [[c x] [a|e| |]]. Qed.

Ltac keep_headers := repeat (idtac; lazymatch goal with
  | |- keeps_headers (mbind _ _) => apply kh_bind; [|intros ?]
  | |- keeps_headers (on_cursor _) => apply kh_on_cursor
  | |- keeps_headers (Revert _ _) => apply kh_Revert
  | |- keeps_headers (unless _ _ _) => unfold unless
  | |- keeps_headers (scan_to _ _ _) => unfold scan_to
  | |- keeps_headers (advancing _ _ _) => unfold advancing
  | |- keeps_headers (append_body _ _) => unfold append_body
  | |- keeps_headers (if ?b then _ else _) => destruct b
  | |- keeps_headers (match ?b with _ => _ end) => destruct b
  | |- keeps_headers (let x := _ in _) => cbv zeta
  end); try (by intros ?).

Lemma Chunk_parse_headers : keeps_headers Chunk_parse.
Proof. unfold Chunk_parse, chunk_size_line, chunk_data. keep_headers. Qed.

Lemma chunk_loop_headers n : keeps_headers (chunk_loop n).
Proof. induction n as [|n IH]; [by intros ?|]. simpl. keep_headers; apply Chunk_parse_headers. Qed.

Lemma parseTransferEncoding_headers te s c x r :
  parseTransferEncoding te s = ((c, x), r) -> headers_ x.1 = headers_ s.2.1.
Proof.
  intros E. enough (keeps_headers (parseTransferEncoding te)) as Hk by (by rewrite <- (Hk s), E).
  unfold parseTransferEncoding. destruct (decide _); [|by intros ?]. apply kh_bind; [by intros ?|]. intros c0 s0.
  pose proof (chunk_loop_headers (S (S (remaining c0))) s0) as Hl. unfold catching.
  by destruct (chunk_loop _ s0) as [? [?|?| |]].
Qed.
(** It never asks for a step after it. *)
Definition not_Next {S} (m : M S State) : Prop := forall s, (m s).2 <> Ok Next.

Lemma nn_bind {S A} (m : M S A) (k : A -> M S State) : (forall a, not_Next (k a)) -> not_Next (m ≫= k).
Proof. intros Hk s. unfold mbind, M_bind. destruct (m s) as [s' [a|e| |]]; try done. apply Hk. Qed.

Ltac never_Next := repeat (idtac; lazymatch goal with
  | |- not_Next (mbind _ _) => apply nn_bind; intros ?
  | |- not_Next (if ?b then _ else _) => destruct b
  | |- not_Next (match ?b with _ => _ end) => destruct b
  end); try (by intros ?).

Lemma BodyStep_not_Next : not_Next BodyStep_apply.
Proof.
  unfold BodyStep_apply, parseContentLength, parseTransferEncoding. never_Next.
  intros s Hn. unfold catching in Hn.
  assert (not_Next (chunk_loop (S (S (remaining a0))))) as Hc.
  { generalize (S (S (remaining a0))). induction n as [|n IH]; [by intros ?|]. simpl. never_Next. }
  specialize (Hc s). destruct (chunk_loop _ s) as [? [?|?| |]]; done.
Qed.
End BodyStable.

(** ** The parser *)

Section ParserStable.
Context `{DateLib, Resolver, StringMemory}.

(** The parser [p] with more bytes in its buffer. *)
Definition extend_parser (b : bytes) (p : RequestParser) : RequestParser := set_area (extend b (area (buffer p))) p.

Lemma apply_step_currentStep (p q : RequestParser) r : apply_step p = (q, r) -> currentStep q = currentStep p.
Proof.
  unfold apply_step. destruct (currentStep p) as [|[|[|k]]] eqn:E.
  - destruct (line_step _) as [[c t] r']. intros [= <- <-]. done.
  - destruct (HeadersStep_apply _) as [[c t] r']. intros [= <- <-]. done.
  - destruct (BodyStep_apply _) as [[c [m b]] r']. intros [= <- <-]. done.
  - intros [= <- <-]. done.
Qed.

(** Four rounds are enough. *)
Lemma parse_steps_enough n n' (p : RequestParser) :
  (currentStep p <= 3)%nat -> (4 <= n + currentStep p)%nat -> (4 <= n' + currentStep p)%nat ->
  parse_steps n p = parse_steps n' p.
Proof.
  revert n' p. induction n as [|n IH]; intros n' p Hp Hn Hn'; [lia|]. destruct n' as [|n']; [lia|]. simpl.
  unfold mbind, M_bind. destruct (apply_step p) as [q [s|e| |]] eqn:E; try done.
  destruct (decide (s = Next)) as [->|]; [|done]. simpl.
  apply apply_step_currentStep in E as Ec. destruct (decide (currentStep p = 3%nat)) as [E3|E3].
  - unfold apply_step in E. rewrite E3 in E. by simplify_eq.
  - apply IH; simpl; lia.
Qed.

Lemma parse_steps_parse n (p : RequestParser) :
  (currentStep p <= 3)%nat -> (4 <= n + currentStep p)%nat -> parse_steps n p = ParserBase_parse p.
Proof. intros. unfold ParserBase_parse, StepsCount. apply parse_steps_enough; lia. Qed.

Lemma parse_unfold (p : RequestParser) :
  (currentStep p <= 2)%nat ->
  ParserBase_parse p = match apply_step p with
                       | (q, Ok Next) => ParserBase_parse (set_currentStep (S (currentStep q)) q)
                       | r => r
                       end.
Proof.
  intros Hp. unfold ParserBase_parse at 1, StepsCount. simpl parse_steps at 1. unfold mbind at 1, M_bind at 1.
  destruct (apply_step p) as [q [s|e| |]] eqn:E; try done. destruct s; try done.
  rewrite decide_True by done. unfold mbind, M_bind, modify.
  apply apply_step_currentStep in E. apply (parse_steps_parse 3); simpl; lia.
Qed.

Lemma Revert_again {X A} ign (m : parser X A) s c x v :
  Revert ign m s = ((c, x), Ok v) -> ign v = false -> c = s.1.
Proof.
  unfold Revert. destruct (m s) as [[c' x'] [a|e| |]]; intros [= <- <- E] Hi; try done.
  subst. by rewrite Hi.
Qed.

(** A step that was run before on a part of its input, as [stable_at] gives it. *)
Lemma stable_run {X} (P : (X -> X) -> Prop) (m : parser X State) c x b c1 x1 s :
  (forall f x, P f -> f (f x) = f x) -> (forall s c x v, m s = ((c, x), Ok v) -> is_Next v = false -> c = s.1) ->
  stable_at P (fun s => negb (is_Next s)) m m c b -> m (c, x) = ((c1, x1), Ok s) ->
  if is_Next s then m (extend b c, x) = ((extend b c1, x1), Ok s)
  else c1 = c /\ m (extend b c, x1) = m (extend b c, x).
Proof.
  intros Hi Hr (c' & f & r & [Pf E] & Hst) Em. pose proof Em as Em'. rewrite E in Em. simplify_eq.
  destruct (is_Next s) eqn:Es; simpl in Hst.
  - destruct Hst as [_ Hst]. apply Hst.
  - destruct Hst as (c'' & g & r' & _ & Hst). split; [exact (Hr _ _ _ _ Em' Es)|]. rewrite !Hst. by rewrite Hi.
Qed.

Definition chunked_body (p : RequestParser) : bool :=
  (currentStep p =? 2)%nat && bool_decide (is_Some (tryGet_TransferEncoding (headers_ (request_message (object p))))).

Lemma body_resume (p q : RequestParser) b :
  currentStep p = 2%nat -> apply_step p = (q, Ok Again) -> chunked_body q = false ->
  bytesRead (body_step p) = 0 ->
  Z.of_nat (length (body_ (request_message (object q)))) + Z.of_nat (length b) <= memory_limit ->
  apply_step (extend_parser b q) = apply_step (extend_parser b p).
Proof.
  destruct p as [[[pre a] mx] k t bs], t as [m me re qu ad ti]. unfold apply_step. cbn. intros -> E Hc Hr Hm.
  destruct (BodyStep_apply (Cursor pre a, (m, bs))) as [[c1 [m1 bs1]] r] eqn:Eb. simplify_eq.
  unfold chunked_body in Hc. cbn in *. unfold BodyStep_apply, mbind, M_bind, object_ in *. cbn in *.
  destruct (tryGet_ContentLength (headers_ m)) as [cl|] eqn:Ecl, (tryGet_TransferEncoding (headers_ m)) as [te|] eqn:Ete;
    try done.
  - pose proof (parseContentLength_resume _ _ _ b _ _ _ _ Hr Eb Hm) as Er.
    apply parseContentLength_again in Eb as (_ & _ & _ & Ex); [|done].
    apply (f_equal (fun x => headers_ x.1)) in Ex. cbn in Ex. rewrite Ex, Ecl, Ete, Er. by destruct (parseContentLength _ _) as [[? []] ?].
  - exfalso. apply parseTransferEncoding_headers in Eb. cbn in Eb. by rewrite Eb, Ete in Hc.
Qed.

Lemma early_step_resume (p q : RequestParser) s b :
  (currentStep p <= 1)%nat -> apply_step p = (q, Ok s) ->
  body_step q = body_step p
  /\ if is_Next s then apply_step (extend_parser b p) = (extend_parser b q, Ok s)
     else apply_step (extend_parser b q) = apply_step (extend_parser b p).
Proof.
  destruct p as [[c mx] k t bs]. unfold apply_step. cbn [currentStep buffer area object body_step].
  intros Hk E. destruct k as [|[|k]]; [..|lia].
  - cbn [line_step Request_parsed] in *.
    destruct (RequestLineStep_apply (c, t)) as [[c1 t1] r] eqn:El. simplify_eq. split; [done|].
    pose proof (stable_run line_write RequestLineStep_apply _ _ b _ _ _ (fun f x Hf => line_write_twice f x Hf)
      (fun s c x v => Revert_again _ _ s c x v) (RequestLineStep_stable c b) El) as Hr.
    cbn. destruct (is_Next s); [by rewrite Hr|]. destruct Hr as [-> ->].
    by destruct (RequestLineStep_apply (extend b c, t)) as [[? ?] ?].
  - destruct (HeadersStep_apply (c, _)) as [[c1 m1] r] eqn:El. simplify_eq. split; [done|].
    pose proof (stable_run msg_write HeadersStep_apply _ _ b _ _ _ (fun f x Hf => msg_write_twice f x Hf)
      (fun s c x v => Revert_again _ _ s c x v) (HeadersStep_stable c b) El) as Hr.
    cbn in *. destruct (is_Next s); [by rewrite Hr|]. destruct Hr as [-> ->].
    by destruct (HeadersStep_apply (extend b c, request_message t)) as [[? ?] ?].
Qed.

Lemma body_not_Next (p q : RequestParser) : currentStep p = 2%nat -> apply_step p <> (q, Ok Next).
Proof.
  intros Hk E. unfold apply_step in E. rewrite Hk in E.
  pose proof (BodyStep_not_Next (area (buffer p), (message_of (object p), body_step p))) as Hn.
  destruct (BodyStep_apply _) as [[c [m b]] r]. by simplify_eq.
Qed.

Lemma parse_resume (p q : RequestParser) b :
  (currentStep p <= 2)%nat -> ParserBase_parse p = (q, Ok Again) -> chunked_body q = false ->
  bytesRead (body_step p) = 0 ->
  Z.of_nat (length (body_ (request_message (object q)))) + Z.of_nat (length b) <= memory_limit ->
  ParserBase_parse (extend_parser b q) = ParserBase_parse (extend_parser b p).
Proof.
  intros Hp. remember (2 - currentStep p)%nat as d eqn:Ed. revert p Hp Ed.
  induction d as [|d IH]; intros p Hp Ed E Hc Hr Hm; rewrite parse_unfold in E by done.
  all: destruct (apply_step p) as [q' [s|e| |]] eqn:Es; try done.
  all: apply apply_step_currentStep in Es as Ek.
  - destruct s; simplify_eq; [|exfalso; revert Es; apply body_not_Next; lia].
    rewrite !parse_unfold by (cbn; lia). by rewrite (body_resume p q b) by (done || lia).
  - destruct (early_step_resume p q' s b ltac:(lia) Es) as [Eb Hs]. destruct s; simplify_eq; cbn [is_Next] in Hs.
    + rewrite !parse_unfold by (cbn; lia). by rewrite Hs.
    + rewrite (parse_unfold (extend_parser b p)) by (cbn; lia).
      change (is_Next Next) with true in Hs. rewrite Hs.
      apply (IH (set_currentStep (S (currentStep q')) q')); try done; cbn; [lia..|by rewrite Eb].
Qed.
End ParserStable.

(** ** No byte of the buffer is lost *)

Section Conservation.
Context {X : Type} (n : nat).

Abbreviation conserves m := (agree (X := X) n m m).

Lemma conserves_unless {A} (m : parser X bool) (a : A) k :
  conserves m -> conserves k -> conserves (unless m a k).
Proof. intros. apply agree_bind; [done|]. intros []; [done|apply agree_ret]. Qed.

Lemma conserves_Revert {A} ign (m : parser X A) : conserves m -> conserves (Revert ign m).
Proof.
  intros Hm c x Hc. split; [done|]. destruct (Hm c x Hc) as [_ Hn]. unfold Revert.
  destruct (m (c, x)) as [[c' x'] [a|e| |]]; try done. by destruct (ign a).
Qed.

Lemma scan_keeps stop : areal stop -> keeps (scan stop).
Proof.
  intros Ha c. destruct (scan stop c) as [ok c'] eqn:E. apply scan_spec in E as (pre & Hm & _); [|done].
  by eapply moves_keeps.
Qed.

Lemma conserves_scan_to {A} stop (a : A) k : areal stop -> conserves k -> conserves (scan_to stop a k).
Proof. intros. apply conserves_unless; [|done]. by apply agree_on_cursor, scan_keeps. Qed.
Lemma conserves_advancing {A} i (a : A) k : conserves k -> conserves (advancing i a k).
Proof. intros. apply conserves_unless; [|done]. apply agree_on_cursor, advance_keeps. Qed.
Lemma conserves_reaching {A} chars (a : A) k : conserves k -> conserves (reaching chars a k).
Proof. intros. apply conserves_unless; [|done]. apply agree_on_cursor, match_until_keeps. Qed.
Lemma conserves_on_member {Y A} (of_ : X -> Y) set (f : M Y A) : conserves (on_member of_ set f).
Proof. intros c x Hc. split; [done|]. unfold on_member. by destruct (f (of_ x)). Qed.
Lemma conserves_object {C} (k : X -> parser X C) : (forall x, conserves (k x)) -> conserves (object_ ≫= k).
Proof. intros Hk c x Hc. by apply Hk. Qed.
Lemma conserves_catching {A} (m : parser X A) h : conserves m -> (forall e, conserves (h e)) -> conserves (catching m h).
Proof.
  intros Hm Hh c x Hc. split; [done|]. destruct (Hm c x Hc) as [_ Hn]. unfold catching.
  destruct (m (c, x)) as [[c' x'] [a|e| |]]; try done. by apply Hh.
Qed.
End Conservation.

Ltac conserve := repeat (idtac; lazymatch goal with
  | |- agree _ (object_ ≫= _) _ => apply conserves_object; intros ?
  | |- agree _ (cursor_ ≫= _) _ => apply agree_cursor; intros ? ?
  | |- agree _ (mbind _ _) _ => apply agree_bind; [|intros ?]
  | |- agree _ (mret _) _ => apply agree_ret
  | |- agree _ (throw _) _ => apply agree_throw
  | |- agree _ (Step_raise _ _) _ => apply agree_throw
  | |- agree _ (lift _) _ => apply agree_lift
  | |- agree _ (on_object _) _ => apply agree_on_object
  | |- agree _ (on_member _ _ _) _ => apply conserves_on_member
  | |- agree _ (on_cursor _) _ => apply agree_on_cursor; auto with pistache
  | |- agree _ (scan_to _ _ _) _ => apply conserves_scan_to; [done|]
  | |- agree _ (advancing _ _ _) _ => apply conserves_advancing
  | |- agree _ (reaching _ _ _) _ => apply conserves_reaching
  | |- agree _ (unless _ _ _) _ => apply conserves_unless
  | |- agree _ (Revert _ _) _ => apply conserves_Revert
  | |- agree _ (catching _ _) _ => apply conserves_catching; [|intros ?]
  | |- agree _ (if ?b then _ else _) _ => destruct b
  | |- agree _ (match ?b with _ => _ end) _ => destruct b
  | |- agree _ (let x := _ in _) _ => cbv zeta
  end).

Section StepsConserve.
Context `{DateLib, Resolver, StringMemory}.

Lemma query_params_conserves n k : agree n (query_params k) (query_params k).
Proof. induction k as [|k IH]; simpl; unfold query_param; conserve; done. Qed.

Lemma RequestLineStep_conserves n : agree n RequestLineStep_apply RequestLineStep_apply.
Proof.
  unfold RequestLineStep_apply, parse_resource, parse_version. conserve. apply query_params_conserves.
Qed.

Lemma header_lines_conserves n k : agree n (header_lines k) (header_lines k).
Proof. induction k as [|k IH]; simpl; unfold header_line, store_header; conserve; done. Qed.

Lemma HeadersStep_conserves n : agree n HeadersStep_apply HeadersStep_apply.
Proof. unfold HeadersStep_apply. conserve. apply header_lines_conserves. Qed.

Lemma chunk_loop_conserves n k : agree n (chunk_loop k) (chunk_loop k).
Proof.
  induction k as [|k IH]; simpl; unfold Chunk_parse, chunk_size_line, chunk_data, append_body; conserve; done.
Qed.

Lemma BodyStep_conserves n : agree n BodyStep_apply BodyStep_apply.
Proof.
  unfold BodyStep_apply, parseContentLength, parseTransferEncoding, readBody, append_body. conserve.
  apply chunk_loop_conserves.
Qed.
End StepsConserve.

(** ** Any way of cutting a request *)

Section Pieces.
Context `{DateLib, Resolver, StringMemory}.

Definition buffered (p : RequestParser) : nat := area_size (area (buffer p)).
Definition body_of (p : RequestParser) : bytes := body_ (request_message (object p)).

Lemma agree_run {X A} n (m : parser X A) c x c' x' r :
  agree n m m -> area_size c = n -> m (c, x) = ((c', x'), r) -> area_size c' = n.
Proof. intros Ha Hc E. destruct (Ha c x Hc) as [_ Hn]. by rewrite E in Hn. Qed.

Lemma apply_step_conserves (p q : RequestParser) r :
  apply_step p = (q, r) -> buffered q = buffered p /\ array_maxSize (buffer q) = array_maxSize (buffer p).
Proof.
  unfold apply_step, buffered. destruct (currentStep p) as [|[|[|k]]]; [| | |by intros; simplify_eq].
  - destruct (line_step _) as [[c t] r'] eqn:E. intros; simplify_eq. split; [|done].
    by eapply agree_run; [apply RequestLineStep_conserves|done|exact E].
  - destruct (HeadersStep_apply _) as [[c t] r'] eqn:E. intros; simplify_eq. split; [|done].
    by eapply agree_run; [apply HeadersStep_conserves|done|exact E].
  - destruct (BodyStep_apply _) as [[c [m b]] r'] eqn:E. intros; simplify_eq. split; [|done].
    by eapply agree_run; [apply BodyStep_conserves|done|exact E].
Qed.

Lemma writer_body {X A} (P : (X -> X) -> Prop) (body : X -> bytes) (m : parser X A) c x c' x' r :
  writer P m -> (forall f x, P f -> body (f x) = body x) -> m (c, x) = ((c', x'), r) -> body x' = body x.
Proof. intros W Hb E. destruct (W c) as (c1 & f & r1 & Pf & Ef). rewrite Ef in E. simplify_eq. by apply Hb. Qed.

Lemma early_step_body (p q : RequestParser) r :
  (currentStep p <= 1)%nat -> apply_step p = (q, r) -> body_of q = body_of p /\ body_step q = body_step p.
Proof.
  unfold apply_step, body_of. destruct (currentStep p) as [|[|k]]; [..|lia]; intros _.
  - destruct (line_step _) as [[c t] r'] eqn:E. intros; simplify_eq. split; [|done]. cbn.
    eapply (writer_body line_write (fun t => body_ (request_message t))); [apply RequestLineStep_writer| |exact E].
    intros f x (om & op & ov & qs & ->). done.
  - destruct (HeadersStep_apply _) as [[c t] r'] eqn:E. intros; simplify_eq. split; [|done]. cbn.
    eapply (writer_body msg_write body_); [apply HeadersStep_writer| |exact E].
    intros f x (cl & cs & hs & rs & ->). done.
Qed.

Lemma body_step_again (p q : RequestParser) :
  currentStep p = 2%nat -> apply_step p = (q, Ok Again) -> chunked_body q = false -> bytesRead (body_step p) = 0 ->
  (length (body_of q) <= length (body_of p) + buffered p)%nat.
Proof.
  destruct p as [[[pre a] mx] k t bs], t as [m me re qu ad ti]. unfold apply_step, body_of, buffered.
  cbn. intros -> E Hc Hr.
  destruct (BodyStep_apply (Cursor pre a, (m, bs))) as [[c1 [m1 bs1]] r] eqn:Eb. simplify_eq.
  unfold chunked_body in Hc. cbn in *. unfold BodyStep_apply, mbind, M_bind, object_ in *. cbn in *.
  destruct (tryGet_ContentLength (headers_ m)) as [cl|] eqn:Ecl, (tryGet_TransferEncoding (headers_ m)) as [te|] eqn:Ete;
    try done.
  - apply parseContentLength_again in Eb as (_ & _ & _ & Ex); [|done].
    apply (f_equal (fun x => body_ x.1)) in Ex. cbn in Ex. rewrite Ex, length_app. unfold area_size. cbn. lia.
  - exfalso. apply parseTransferEncoding_headers in Eb. cbn in Eb. by rewrite Eb, Ete in Hc.
Qed.

Lemma parse_again (p q : RequestParser) :
  (currentStep p <= 2)%nat -> ParserBase_parse p = (q, Ok Again) ->
  (currentStep q <= 2)%nat /\ buffered q = buffered p /\ array_maxSize (buffer q) = array_maxSize (buffer p)
  /\ (chunked_body q = false -> bytesRead (body_step p) = 0 ->
      (length (body_of q) <= length (body_of p) + buffered p)%nat).
Proof.
  intros Hp. remember (2 - currentStep p)%nat as d eqn:Ed. revert p Hp Ed.
  induction d as [|d IH]; intros p Hp Ed E; rewrite parse_unfold in E by done.
  all: destruct (apply_step p) as [q' [s|e| |]] eqn:Es; try done.
  all: apply apply_step_currentStep in Es as Ek; apply apply_step_conserves in Es as Hb.
  - destruct s; simplify_eq; [|exfalso; revert Es; apply body_not_Next; lia].
    split_and!; [lia|apply Hb|apply Hb|]. intros. apply body_step_again; try done. lia.
  - apply early_step_body in Es as Hbd; [|lia]. destruct s; simplify_eq.
    + split_and!; [lia|apply Hb|apply Hb|]. intros. rewrite (proj1 Hbd). lia.
    + apply IH in E as (? & Hb1 & Hm1 & Hl); [|cbn; lia..].
      split_and!; [done|by rewrite Hb1; apply Hb|by rewrite Hm1; apply Hb|].
      intros Hc Hr. specialize (Hl Hc). cbn in Hl. rewrite (proj2 Hbd) in Hl. specialize (Hl Hr).
      destruct Hb as [Hb _], Hbd as [Hbd _]. unfold buffered, body_of in *. cbn in *. rewrite Hbd, Hb in Hl. lia.
Qed.

(** [received p data q]: [data] was fed to [p] piece by piece, with a [parse] that
    asked for more after each piece; [q] is what [p] has become. *)
Inductive received (p : RequestParser) : bytes -> RequestParser -> Prop :=
  | received_nothing : received p [] p
  | received_piece data q piece q' :
      received p data q -> (ParserBase_feed piece q).1 = true ->
      ParserBase_parse (ParserBase_feed piece q).2 = (q', Ok Again) -> chunked_body q' = false ->
      received p (data ++ piece) q'.

Lemma feed_accepted piece (q : RequestParser) :
  (ParserBase_feed piece q).1 = true ->
  (ParserBase_feed piece q).2 = extend_parser piece q
  /\ (buffered q + length piece <= array_maxSize (buffer q))%nat.
Proof.
  unfold ParserBase_feed, ArrayStreamBuf_feed, array_bytes, buffered, area_size. rewrite length_app.
  destruct (_ <? _)%nat eqn:E; [done|]. bool_to_prop. intros _. split; [|lia]. by destruct q as [[[] ?] ? ? ?].
Qed.

Lemma feed_accepts piece (q : RequestParser) :
  (buffered q + length piece <= array_maxSize (buffer q))%nat -> ParserBase_feed piece q = (true, extend_parser piece q).
Proof.
  unfold ParserBase_feed, ArrayStreamBuf_feed, array_bytes, buffered, area_size. rewrite length_app. intros Hl.
  rewrite (proj2 (Nat.ltb_ge _ _)) by lia. by destruct q as [[[] ?] ? ? ?].
Qed.

Lemma extend_buffered b p : buffered (extend_parser b p) = (buffered p + length b)%nat.
Proof. unfold buffered, extend_parser, extend, area_size. cbn. rewrite length_app. lia. Qed.

Lemma extend_extend a b p : extend_parser b (extend_parser a p) = extend_parser (a ++ b) p.
Proof. unfold extend_parser, extend, set_area. cbn. by rewrite app_assoc. Qed.

Lemma received_once max data q :
  Z.of_nat max <= memory_limit -> received (ParserImpl_new max) data q ->
  (currentStep q <= 2)%nat /\ buffered q = length data /\ array_maxSize (buffer q) = max
  /\ (length data <= max)%nat
  /\ (data = [] /\ q = ParserImpl_new max
      \/ ParserBase_parse (extend_parser data (ParserImpl_new max)) = (q, Ok Again)
         /\ chunked_body q = false /\ (length (body_of q) <= length data)%nat).
Proof.
  intros Hmax. induction 1 as [|data q piece q' _ (Hk & Hb & Hm & Hl & Hq) Hf E Hc].
  { split_and!; cbn; try lia. by left. }
  apply feed_accepted in Hf as [Hf Hfit]. rewrite Hf in E.
  apply parse_again in E as Ha; [|cbn; lia]. rewrite extend_buffered in Ha. destruct Ha as (Hk' & Hb' & Hm' & Hl').
  cbn in Hm'. rewrite length_app. split_and!; [done|lia|congruence|lia|right].
  assert (ParserBase_parse (extend_parser (data ++ piece) (ParserImpl_new max)) = (q', Ok Again)) as E1.
  { destruct Hq as [[-> ->]|(Eq & Hcq & Hlq)]; [done|]. rewrite <- extend_extend.
    rewrite <- (parse_resume _ q); [done|cbn; lia|done|done|done|]. fold (body_of q). lia. }
  split_and!; [done|done|]. apply parse_again in E1 as (_ & _ & _ & Hl1); [|cbn; lia].
  specialize (Hl1 Hc eq_refl). rewrite extend_buffered, length_app in Hl1. cbn in Hl1. lia.
Qed.

(** C1. However a request is cut into pieces on its way, the parser ends in the same
    state with the same result as if it had come in one: a start line and
    headers cut anywhere, and a body of a given length.  (The pieces must leave
    the parser asking for more, and not inside a chunked body.) *)
Theorem parse_pieces max data q piece :
  Z.of_nat max <= memory_limit -> received (ParserImpl_new max) data q -> (length (data ++ piece) <= max)%nat ->
  ParserBase_parse (ParserBase_feed piece q).2
  = ParserBase_parse (ParserBase_feed (data ++ piece) (ParserImpl_new max)).2.
Proof.
  intros Hmax Hrec Hlen. apply received_once in Hrec as (Hk & Hb & Hm & Hl & Hq); [|done].
  rewrite length_app in Hlen. rewrite !feed_accepts by (rewrite ?length_app; cbn; lia). cbn [snd].
  destruct Hq as [[-> ->]|(Eq & Hcq & Hlq)]; [done|]. rewrite <- extend_extend.
  apply parse_resume; [cbn; lia|done|done|done|]. fold (body_of q). lia.
Qed.

End Pieces.

(** ** Witnesses *)

Definition post1 : bytes := B "POST /a?x=1&y HT".
Definition post2 : bytes := B "TP/1.1" ++ crlf ++ B "Content-Len".
Definition post3 : bytes := B "gth: 5" ++ crlf ++ B "X: y" ++ crlf ++ [CR].
Definition post4 : bytes := LF :: B "he".

Definition receive (piece : bytes) (p : RequestParser) : RequestParser :=
  (ParserBase_parse (H := no_dates) (H0 := no_resolver) (H1 := terabyte) (ParserBase_feed piece p).2).1.

Definition posted : RequestParser := receive post4 (receive post3 (receive post2 (receive post1 (ParserImpl_new 100)))).

Lemma parse_pieces_witness :
  ParserBase_parse (H := no_dates) (H0 := no_resolver) (H1 := terabyte) (ParserBase_feed (B "llo") posted).2
  = ParserBase_parse (H := no_dates) (H0 := no_resolver) (H1 := terabyte)
      (ParserBase_feed (((([] ++ post1) ++ post2) ++ post3) ++ post4 ++ B "llo") (ParserImpl_new 100)).2
  /\ body_of (receive (B "llo") posted) = B "hello".
Proof.
  split; [|vm_compute; reflexivity]. rewrite (app_assoc _ post4).
  apply (parse_pieces (H := no_dates) (H0 := no_resolver) (H1 := terabyte) 100 (((([] ++ post1) ++ post2) ++ post3) ++ post4)).
  - vm_compute. done.
  - apply (received_piece _ _ (receive post3 (receive post2 (receive post1 (ParserImpl_new 100)))));
      [|vm_compute; reflexivity..].
    apply (received_piece _ _ (receive post2 (receive post1 (ParserImpl_new 100)))); [|vm_compute; reflexivity..].
    apply (received_piece _ _ (receive post1 (ParserImpl_new 100))); [|vm_compute; reflexivity..].
    apply (received_piece _ _ (ParserImpl_new 100)); [apply received_nothing|vm_compute; reflexivity..].
  - vm_compute. lia.
Defined.
