(* ===== verification/RequestText.v ===== *)
(** * What the parser reads: well-formed requests

    The text of a request and what the parser makes of it: method, resource,
    parameters, version, the headers stored one line after the other, and the
    body announced by a Content-Length. *)

From S2P Require Import Prelude Cxx Stream HttpDefs QValue Mime Cookie Net HttpHeader HttpHeaders HttpMessage HeaderMemory.
From S2P Require Import HttpParser Resume Fragmentation.

Local Open Scope Z_scope.

(** ** Evaluation of the primitives *)

Section Run.
Context {X A : Type}.

Lemma run_scan_to stop (a : A) (k : parser X A) c c' x :
  scan stop c = (true, c') -> scan_to stop a k (c, x) = k (c', x).
Proof. intros E. unfold scan_to, unless. by rewrite (bind_Ok _ _ _ _ _ (on_cursor_eq _ _ _ _ _ E)). Qed.

Lemma run_reaching chars (a : A) (k : parser X A) c c' x :
  match_until chars Insensitive c = (true, c') -> reaching chars a k (c, x) = k (c', x).
Proof. intros E. unfold reaching, unless. by rewrite (bind_Ok _ _ _ _ _ (on_cursor_eq _ _ _ _ _ E)). Qed.

Lemma run_advance_1 (a : A) (k : parser X A) p b l x :
  advancing 1 a k (Cursor p (b :: l), x) = k (Cursor (p ++ [b]) l, x).
Proof. unfold advancing, unless. by rewrite (bind_Ok _ _ _ _ _ (on_cursor_eq _ _ _ _ _ (advance_1_cons b p l))). Qed.

Lemma run_advance_2 (a : A) (k : parser X A) p b c l x :
  advancing 2 a k (Cursor p (b :: c :: l), x) = k (Cursor (p ++ [b; c]) l, x).
Proof.
  assert (advance 2 (Cursor p (b :: c :: l)) = (true, Cursor (p ++ [b; c]) l)) as E.
  { rewrite advance_spec by lia. unfold remaining, in_avail. cbn [after length].
    by rewrite (proj2 (Z.ltb_ge _ _)) by lia. }
  unfold advancing, unless. by rewrite (bind_Ok _ _ _ _ _ (on_cursor_eq _ _ _ _ _ E)).
Qed.
End Run.

Lemma scan_head (t : Ascii.ascii -> bool) stop p l a rest :
  (forall q b r, stop (Cursor q (b :: r)) = t b) -> Forall (fun b => t b = false) l -> t a = true ->
  scan stop (Cursor p (l ++ a :: rest)) = (true, Cursor (p ++ l) (a :: rest)).
Proof.
  intros Hs Fl Ha. apply scan_stop; [done| |by rewrite Hs].
  intros k Hk. cbn [after]. rewrite drop_app_le by lia.
  destruct (drop k l) as [|b d] eqn:E; [apply (f_equal length) in E; rewrite length_drop in E; simpl in E; lia|].
  simpl. rewrite Hs. rewrite list.Forall_forall in Fl. apply Fl.
  assert (b ∈ drop k l) as Hin by (rewrite E; by left). rewrite <- (take_drop k l). set_solver.
Qed.

Lemma scan_eol p l rest :
  CR ∉ l -> scan eol (Cursor p (l ++ CR :: LF :: rest)) = (true, Cursor (p ++ l) (CR :: LF :: rest)).
Proof.
  intros Hl. apply scan_stop; [done| |done]. intros k Hk. cbn [after]. rewrite drop_app_le by lia.
  destruct (drop k l) as [|b d] eqn:E; [apply (f_equal length) in E; rewrite length_drop in E; simpl in E; lia|].
  simpl. unfold eol. cbn [after]. rewrite bool_decide_eq_false_2; [done|]. intros ->. apply Hl.
  assert (CR ∈ drop k l) as Hin by (rewrite E; by left). rewrite <- (take_drop k l). set_solver.
Qed.

(** Separators the parsers look for, none of them a letter. *)
Lemma match_until_found chars p l a rest :
  Forall (fun ch => tolower ch = ch) chars -> Forall (fun b => b ∉ chars) l -> a ∈ chars ->
  match_until chars Insensitive (Cursor p (l ++ a :: rest)) = (true, Cursor (p ++ l) (a :: rest)).
Proof.
  intros Hc Fl Ha. rewrite list.Forall_forall in Hc.
  assert (forall b, until_find chars Insensitive b = true <-> b ∈ chars) as Hf.
  { intros b. rewrite until_find_insensitive. split.
    - intros (ch & Hin & <-). by rewrite Hc.
    - intros Hin. exists b. split; [done|by apply Hc]. }
  unfold match_until. replace (eof _) with false by (symmetry; unfold eof, remaining, in_avail; cbn [after];
    rewrite length_app; cbn [length]; apply Nat.eqb_neq; lia).
  apply (scan_head (until_find chars Insensitive)); [done| |by apply Hf].
  eapply Forall_impl; [|exact Fl]. simpl. intros b Hb. apply not_true_iff_false. by rewrite Hf.
Qed.

Lemma Token_text_app p l r : Token_text (length p) (Cursor (p ++ l) r) = l.
Proof. unfold Token_text. cbn [before]. apply drop_app_length. Qed.

(** ** The request line *)

Definition query_pair (kv : bytes * bytes) : bytes := kv.1 ++ B "=" ++ kv.2.

Fixpoint query_text (l : list (bytes * bytes)) : bytes :=
  match l with
  | [] => []
  | [kv] => query_pair kv
  | kv :: l' => query_pair kv ++ B "&" ++ query_text l'
  end.

Definition key_ok (k : bytes) : Prop := Forall (fun b => b ∉ [equals; chr 32; chr 38]) k.
Definition val_ok (v : bytes) : Prop := Forall (fun b => b ∉ [chr 32; chr 38]) v.
Definition param_ok (kv : bytes * bytes) : Prop := key_ok kv.1 /\ val_ok kv.2.

Definition add_all_params (l : list (bytes * bytes)) (r : Request) : Request :=
  fold_left (fun r '(k, v) => add_query k v r) l r.

Lemma lower_separators : Forall (fun ch => tolower ch = ch) [equals; chr 32; chr 38].
Proof. repeat constructor. Qed.

(** One parameter followed by ['&'] or by the space. *)
Lemma query_param_eval k v p (a : Ascii.ascii) rest r :
  param_ok (k, v) -> a = chr 38 \/ a = chr 32 ->
  query_param (Cursor p (k ++ B "=" ++ v ++ a :: rest), r)
  = ((if decide (a = chr 38) then Cursor (p ++ k ++ B "=" ++ v ++ [a]) rest
      else Cursor (p ++ k ++ B "=" ++ v) (a :: rest), add_query k v r), Ok true).
Proof.
  intros [Hk Hv] Ha. unfold query_param. rewrite (bind_Ok cursor_ _ _ _ _ eq_refl). cbn [fst].
  rewrite (run_reaching _ _ _ _ (Cursor (p ++ k) (B "=" ++ v ++ a :: rest)))
    by (apply match_until_found; [apply lower_separators|done|left]).
  rewrite (bind_Ok cursor_ _ _ _ _ eq_refl). cbn [fst].
  change (is_char SP _) with false. change (is_char 38 (Cursor (p ++ k) _)) with false. cbv iota.
  change (B "=" ++ v ++ a :: rest) with (equals :: v ++ a :: rest). rewrite run_advance_1.
  rewrite (bind_Ok cursor_ _ _ _ _ eq_refl). cbn [fst].
  rewrite (run_reaching _ _ _ _ (Cursor (((p ++ k) ++ [equals]) ++ v) (a :: rest)))
    by (apply match_until_found; [repeat constructor|done|set_solver]).
  rewrite (bind_Ok cursor_ _ _ _ _ eq_refl). cbn [fst]. rewrite (bind_Ok (on_object _) _ _ _ _ eq_refl). cbn [fst snd].
  unfold position. cbn [before]. rewrite !Token_text_app.
  destruct Ha as [-> | ->].
  - change (is_char 38 _) with true. cbv iota. rewrite run_advance_1, decide_True by done. unfold mret, M_ret.
    by rewrite <- !app_assoc.
  - change (is_char 38 _) with false. cbv iota. rewrite decide_False by done. unfold mret, M_ret.
    by rewrite <- !app_assoc.
Qed.

Lemma param_start k v p l : key_ok k -> is_char SP (Cursor p (query_pair (k, v) ++ l)) = false.
Proof.
  intros Hk. unfold query_pair. cbn [fst snd]. destruct k as [|a k]; [done|].
  inversion Hk as [|? ? Ha _]; subst. rewrite <- app_assoc. cbn [app]. rewrite char_head.
  apply Z.eqb_neq. intros E. apply Ha. assert (a = chr 32) as -> by (revert E; clear; revert a; each_byte). set_solver.
Qed.

Lemma query_text_cons kv kv' l : query_text (kv :: kv' :: l) = query_pair kv ++ B "&" ++ query_text (kv' :: l).
Proof. done. Qed.

Lemma query_params_eval l kv p rest r n :
  Forall param_ok (kv :: l) -> (length (query_text (kv :: l)) < n)%nat ->
  query_params n (Cursor p (query_text (kv :: l) ++ chr 32 :: rest), r)
  = ((Cursor (p ++ query_text (kv :: l)) (chr 32 :: rest), add_all_params (kv :: l) r), Ok true).
Proof.
  revert kv p r n. induction l as [|kv' l IH]; intros [k v] p r n Hall Hn;
    (destruct n as [|n]; [lia|]); inversion Hall as [|? ? Hkv Hl]; subst; cbn [query_params];
    rewrite (bind_Ok cursor_ _ _ _ _ eq_refl); cbn [fst].
  - cbn [query_text]. rewrite param_start by apply Hkv. unfold unless, query_pair. cbn [fst snd].
    rewrite <- !app_assoc.
    erewrite bind_Ok by (apply query_param_eval; [done|by right]). rewrite decide_False by done. cbv iota.
    by destruct n.
  - rewrite query_text_cons in *. rewrite <- app_assoc, param_start by apply Hkv.
    unfold unless, query_pair. cbn [fst snd]. rewrite <- !app_assoc.
    change (B "&" ++ query_text (kv' :: l) ++ chr 32 :: rest) with (chr 38 :: (query_text (kv' :: l) ++ chr 32 :: rest)).
    erewrite bind_Ok by (apply query_param_eval; [done|by left]). rewrite decide_True by done. cbv iota.
    rewrite IH; [|done|].
    + unfold add_all_params. cbn [fold_left]. by rewrite <- !app_assoc.
    + rewrite !length_app in Hn. change (length (B "&")) with 1%nat in Hn. lia.
Qed.

(** The resource and its parameters, up to the space before the version. *)
Definition target_text (path : bytes) (params : list (bytes * bytes)) : bytes :=
  path ++ match params with [] => [] | _ => B "?" ++ query_text params end.

Definition path_ok (path : bytes) : Prop := Forall (fun b => b ∉ [chr 63; chr 32]) path.

Lemma resource_stop a : a ∉ [chr 63; chr 32] -> (schar a =? 63) || (schar a =? SP) = false.
Proof. intros Ha. destruct (_ || _) eqn:E; [|done]. exfalso. apply Ha. revert E. clear. revert a. each_byte; set_solver. Qed.

Lemma parse_resource_eval path params p rest r :
  path_ok path -> Forall param_ok params ->
  parse_resource (Cursor p (target_text path params ++ chr 32 :: rest), r)
  = ((Cursor (p ++ target_text path params) (chr 32 :: rest), add_all_params params (set_resource path r)), Ok true).
Proof.
  intros Hp Hq. unfold parse_resource, target_text. rewrite (bind_Ok cursor_ _ _ _ _ eq_refl). cbn [fst].
  assert (Forall (fun b => (schar b =? 63) || (schar b =? SP) = false) path) as Fp.
  { eapply Forall_impl; [|exact Hp]. apply resource_stop. }
  destruct params as [|kv params].
  - rewrite app_nil_r.
    rewrite (run_scan_to _ _ _ _ (Cursor (p ++ path) (chr 32 :: rest)))
      by (by apply (scan_head (fun b => (schar b =? 63) || (schar b =? SP)))).
    rewrite (bind_Ok cursor_ _ _ _ _ eq_refl). cbn [fst]. rewrite (bind_Ok (on_object _) _ _ _ _ eq_refl).
    unfold position. cbn [before fst snd]. by rewrite Token_text_app.
  - rewrite <- app_assoc.
    change ((B "?" ++ query_text (kv :: params)) ++ chr 32 :: rest)
      with (chr 63 :: (query_text (kv :: params) ++ chr 32 :: rest)).
    rewrite (run_scan_to _ _ _ _ (Cursor (p ++ path) (chr 63 :: (query_text (kv :: params) ++ chr 32 :: rest))))
      by (by apply (scan_head (fun b => (schar b =? 63) || (schar b =? SP)))).
    rewrite (bind_Ok cursor_ _ _ _ _ eq_refl). cbn [fst]. rewrite (bind_Ok (on_object _) _ _ _ _ eq_refl).
    unfold position. cbn [before fst snd]. rewrite Token_text_app. change (is_char 63 _) with true. cbv iota.
    rewrite run_advance_1, (bind_Ok cursor_ _ _ _ _ eq_refl). cbn [fst].
    rewrite query_params_eval; [by rewrite <- !app_assoc|done|].
    unfold remaining, in_avail. cbn [after]. rewrite length_app. lia.
Qed.

(** The whole line. *)
Definition request_line (m : Method.t) (path : bytes) (params : list (bytes * bytes)) (v : Version) : bytes :=
  methodString m ++ [chr 32] ++ target_text path params ++ [chr 32] ++ versionString v ++ crlf.

Definition with_line (m : Method.t) (path : bytes) (params : list (bytes * bytes)) (v : Version) (r : Request) : Request :=
  let r := add_all_params params (set_resource path (set_method m r)) in
  set_message (set_version v (request_message r)) r.

Lemma methodString_no_space m : Forall (fun b => b ∉ [chr 32]) (methodString m).
Proof.
  apply list.Forall_forall. intros a Ha. enough (chr 32 ∉ methodString m) by set_solver.
  apply find_char_None. by destruct m.
Qed.

Lemma versionString_facts v : (CR ∉ versionString v) /\ version_of (versionString v) = Some v.
Proof. split; [apply find_char_None|]; by destruct v. Qed.

Lemma RequestLineStep_eval m path params v p rest r :
  path_ok path -> Forall param_ok params ->
  RequestLineStep_apply (Cursor p (request_line m path params v ++ rest), r)
  = ((Cursor (p ++ request_line m path params v) rest, with_line m path params v r), Ok Next).
Proof.
  intros Hp Hq. unfold RequestLineStep_apply, Revert, request_line.
  rewrite <- !app_assoc. cbn [app].
  rewrite (bind_Ok cursor_ _ _ _ _ eq_refl). cbn [fst].
  erewrite run_reaching by (apply match_until_found; [repeat constructor|apply methodString_no_space|by left]).
  rewrite (bind_Ok cursor_ _ _ _ _ eq_refl). cbn [fst]. unfold position at 1. cbn [before].
  rewrite Token_text_app, find_methodString, (bind_Ok (on_object _) _ _ _ _ eq_refl). cbn [fst snd].
  change (eof _) with false. change (negb (is_char SP _)) with false. cbv iota. rewrite run_advance_1.
  unfold unless at 1. erewrite bind_Ok by (by apply parse_resource_eval). cbv iota. rewrite run_advance_1.
  unfold parse_version. rewrite (bind_Ok cursor_ _ _ _ _ eq_refl). cbn [fst].
  destruct (versionString_facts v) as [Hv Ev]. unfold crlf. cbn [app].
  erewrite run_scan_to by (by apply scan_eol). rewrite (bind_Ok cursor_ _ _ _ _ eq_refl). cbn [fst].
  unfold position at 1. cbn [before]. rewrite Token_text_app, Ev, (bind_Ok (on_object _) _ _ _ _ eq_refl). cbn [fst snd].
  rewrite run_advance_2. unfold mret, M_ret. cbn [fst snd]. change (is_Next Next) with true. cbv iota.
  unfold with_line. by rewrite <- !app_assoc.
Qed.

(** ** The headers *)

Section Headers.
Context `{DateLib, Resolver}.

Definition header_text (h : bytes * bytes) : bytes := h.1 ++ B ": " ++ h.2 ++ crlf.
Definition headers_text (hs : list (bytes * bytes)) : bytes := mjoin (map header_text hs).

Definition header_ok (h : bytes * bytes) : Prop :=
  (chr 58 ∉ h.1) /\ (CR ∉ h.1) /\ (CR ∉ h.2) /\ head h.2 <> Some (chr 32).

(** What is stored for one header line, and for a sequence of them: the first
    exception ends it. *)
Definition read_header (h : bytes * bytes) : M Message unit :=
  _ ← (fun m => let '((_, m'), r) := store_header h.1 (h.2 ++ crlf) (length h.2) (Cursor [] [], m) in (m', r));
  modify (on_headers (Collection_addRaw {| raw_name := h.1; raw_value := h.2 |})).

Fixpoint read_headers (hs : list (bytes * bytes)) : M Message unit :=
  match hs with
  | [] => mret tt
  | h :: hs' => _ ← read_header h; read_headers hs'
  end.

(** A line of the text is read as its header; an exception puts the cursor back. *)
Lemma header_line_eval h p rest m :
  header_ok h ->
  header_line (Cursor p (header_text h ++ rest), m)
  = match read_header h m with
    | (m', Ok _) => ((Cursor (p ++ header_text h) rest, m'), Ok true)
    | (m', Throw e) => ((Cursor p (header_text h ++ rest), m'), Throw e)
    | (m', UB) => ((Cursor p (header_text h ++ rest), m'), UB)
    | (m', OutOfFuel) => ((Cursor p (header_text h ++ rest), m'), OutOfFuel)
    end.
Proof.
  destruct h as [n v]. intros (Hn & _ & Hv & Hs). cbn [fst snd] in *. rewrite header_line_value.
  unfold header_text. cbn [fst snd]. rewrite <- !app_assoc.
  change (B ": " ++ v ++ crlf ++ rest) with (chr 58 :: chr 32 :: (v ++ CR :: LF :: rest)).
  assert (scan (is_char 58) (Cursor p (n ++ chr 58 :: chr 32 :: (v ++ CR :: LF :: rest)))
          = (true, Cursor (p ++ n) (chr 58 :: chr 32 :: (v ++ CR :: LF :: rest)))) as Es.
  { apply (scan_head (fun a => schar a =? 58)); [done| |done]. apply list.Forall_forall. intros a Ha.
    apply Z.eqb_neq. intros E. apply Hn. assert (a = chr 58) as -> by (revert E; clear; revert a; each_byte). done. }
  unfold Revert. rewrite (bind_Ok cursor_ _ _ _ _ eq_refl). cbn [fst].
  rewrite (run_scan_to _ _ _ _ _ _ Es), run_advance_1, (bind_Ok cursor_ _ _ _ _ eq_refl). cbn [fst].
  unfold position, diff. cbn [before].
  replace (take _ (Token_raw _ _)) with n.
  2: { unfold Token_raw, position. cbn [before after]. rewrite !length_app. cbn [length].
       rewrite <- !app_assoc, drop_app_length. replace (length p + length n + 1 - length p - 1)%nat with (length n) by lia.
       by rewrite take_app_length. }
  unfold header_value.
  rewrite (run_scan_to _ _ _ _ (Cursor (((p ++ n) ++ [chr 58]) ++ [chr 32]) (v ++ CR :: LF :: rest))).
  2: { apply (scan_stop _ (Cursor ((p ++ n) ++ [chr 58]) (chr 32 :: v ++ CR :: LF :: rest)) [chr 32]); [done|by intros [|k] ?; [|simpl in *; lia]|].
       destruct v as [|a v]; [done|]. cbn in Hs. apply negb_true_iff, Z.eqb_neq. cbn. intros E. apply Hs. f_equal.
       revert E. clear. revert a. each_byte. }
  rewrite (bind_Ok cursor_ _ _ _ _ eq_refl). cbn [fst].
  erewrite run_scan_to by (by apply scan_eol). rewrite (bind_Ok cursor_ _ _ _ _ eq_refl). cbn [fst]. cbv zeta.
  set (q := ((p ++ n) ++ [chr 58]) ++ [chr 32]).
  replace (Token_raw (position (Cursor q _)) _) with (v ++ CR :: LF :: rest)
    by (unfold Token_raw, position; cbn [before after]; by rewrite <- app_assoc, drop_app_length).
  replace (diff (position (Cursor q _)) _) with (length v)
    by (unfold diff, position; cbn [before]; rewrite length_app; lia).
  rewrite take_app_length. unfold read_header. cbn [fst snd]. unfold crlf.
  destruct (store_header_cursor n (v ++ CR :: LF :: rest) (length v)) as (f & r & _ & Ef).
  unfold mbind, M_bind. rewrite Ef. rewrite (store_header_memory n v [LF] (LF :: rest)), Ef.
  destruct r as [[]|e| |]; try done. unfold on_object. cbn [fst snd].
  fold (@on_object Message). rewrite run_advance_2. unfold mret, M_ret, modify, q. cbn. by rewrite <- !app_assoc.
Qed.

Lemma header_text_start h p l : header_ok h -> eol (Cursor p (header_text h ++ l)) = false.
Proof.
  destruct h as [n v]. intros (_ & Hcr & _ & _). unfold header_text. cbn [fst snd] in *. destruct n as [|a n]; [done|].
  unfold eol. cbn [after app]. rewrite bool_decide_eq_false_2; [done|]. intros ->. apply Hcr. by left.
Qed.

Lemma header_text_length h : (0 < length (header_text h))%nat.
Proof. unfold header_text. rewrite !length_app. unfold crlf. cbn. lia. Qed.

Lemma headers_text_cons h hs : headers_text (h :: hs) = header_text h ++ headers_text hs.
Proof. done. Qed.

Lemma header_lines_eval hs p rest m k :
  Forall header_ok hs -> (length (headers_text hs) < k)%nat ->
  match header_lines k (Cursor p (headers_text hs ++ crlf ++ rest), m), read_headers hs m with
  | ((c, m1), Ok b), (m2, Ok _) => b = true /\ c = Cursor (p ++ headers_text hs) (crlf ++ rest) /\ m1 = m2
  | ((_, m1), Throw e), (m2, Throw e') => m1 = m2 /\ e = e'
  | ((_, m1), UB), (m2, UB) => m1 = m2
  | ((_, m1), OutOfFuel), (m2, OutOfFuel) => m1 = m2
  | _, _ => False
  end.
Proof.
  revert p m k. induction hs as [|h hs IH]; intros p m k Hok Hk; (destruct k as [|k]; [lia|]); cbn [header_lines read_headers].
  - cbn. by rewrite app_nil_r.
  - inversion Hok as [|? ? Hh Hhs]; subst. rewrite headers_text_cons in *. rewrite <- app_assoc.
    rewrite (bind_Ok cursor_ _ _ _ _ eq_refl). cbn [fst]. rewrite header_text_start by done.
    unfold unless, mbind, M_bind. rewrite header_line_eval by done. destruct (read_header h m) as [m' [[]|e| |]]; try done.
    rewrite length_app in Hk. pose proof (header_text_length h).
    specialize (IH (p ++ header_text h) m' k Hhs ltac:(lia)). by rewrite <- app_assoc in IH.
Qed.

Lemma HeadersStep_eval hs p rest m m' :
  Forall header_ok hs -> read_headers hs m = (m', Ok tt) ->
  HeadersStep_apply (Cursor p (headers_text hs ++ crlf ++ rest), m)
  = ((Cursor (p ++ headers_text hs ++ crlf) rest, m'), Ok Next).
Proof.
  intros Hok E. unfold HeadersStep_apply, Revert. rewrite (bind_Ok cursor_ _ _ _ _ eq_refl). cbn [fst].
  pose proof (header_lines_eval hs p rest m (S (remaining (Cursor p (headers_text hs ++ crlf ++ rest)))) Hok) as Hl.
  rewrite E in Hl. unfold unless, mbind, M_bind.
  destruct (header_lines _ _) as [[c m1] [b|e| |]]; (destruct Hl as (-> & -> & ->) || destruct Hl);
    try (unfold remaining, in_avail; cbn; rewrite length_app; lia).
  cbv iota. unfold crlf. cbn [app]. rewrite run_advance_2. cbn. by rewrite <- app_assoc.
Qed.
End Headers.

(** ** The request *)

Section Request.
Context `{DateLib, Resolver, StringMemory}.

Definition request_text (m : Method.t) (path : bytes) (params : list (bytes * bytes)) (v : Version)
  (hs : list (bytes * bytes)) (body : bytes) : bytes :=
  request_line m path params v ++ headers_text hs ++ crlf ++ body.

(** What the parser holds when it is done with the request [r] and [rest] is unread. *)
Definition parsed (max : nat) (text rest : bytes) (r : Request) : RequestParser :=
  {| buffer := Array (Cursor text rest) max; currentStep := 2; object := r; body_step := BodyStep_new |}.

Lemma BodyStep_eval p body rest m :
  tryGet_TransferEncoding (headers_ m) = None -> body_ m = [] ->
  match tryGet_ContentLength (headers_ m) with Some n => n = Z.of_nat (length body) | None => body = [] end ->
  Z.of_nat (length body) <= memory_limit ->
  BodyStep_apply (Cursor p (body ++ rest), (m, BodyStep_new))
  = ((Cursor (p ++ body) rest, (set_body body m, BodyStep_new)), Ok Done).
Proof.
  intros Ht Hb Hc Hm. unfold BodyStep_apply, mbind at 1, M_bind at 1, object_ at 1. cbn [fst snd]. rewrite Ht.
  pose proof memory_limit_ok. pose proof max_size_ok.
  destruct (tryGet_ContentLength (headers_ m)) as [n|]; subst.
  - assert (wanted (Z.of_nat (length body)) BodyStep_new = Z.of_nat (length body)) as Hw.
    { unfold wanted. cbn. rewrite Z.sub_0_r. apply wrapu_small. lia. }
    rewrite parseContentLength_read, Hw.
    + unfold mbind, M_bind. rewrite readBody_full by (rewrite length_app; lia). cbv zeta.
      rewrite string_append_ok by (cbn; rewrite ?Hb, ?length_app; cbn; lia).
      rewrite Nat2Z.id. cbn [fst]. rewrite Hb, take_app_length, drop_app_length. done.
    + right. split; [done|]. unfold string_reserve.
      pose proof (Z.mod_le (Z.of_nat (length body)) (2 ^ 32)). unfold wrapu.
      by rewrite !(proj2 (Z.ltb_ge _ _)) by lia.
  - rewrite app_nil_r. cbn [app]. rewrite <- Hb. by destruct m.
Qed.

Abbreviation at_step k c max t b :=
  {| buffer := Array c max; currentStep := k; object := t; body_step := b |}.

Lemma parse_line (c c' : cursor) max (t t' : Request) b :
  RequestLineStep_apply (c, t) = ((c', t'), Ok Next) ->
  ParserBase_parse (at_step 0 c max t b) = ParserBase_parse (at_step 1 c' max t' b).
Proof. intros E. rewrite parse_unfold by (cbn; lia). unfold apply_step. cbn [line_step Request_parsed object buffer area currentStep]. by rewrite E. Qed.

Lemma parse_headers (c c' : cursor) max t m b :
  HeadersStep_apply (c, request_message t) = ((c', m), Ok Next) ->
  ParserBase_parse (at_step 1 c max t b) = ParserBase_parse (at_step 2 c' max (set_message m t) b).
Proof. intros E. rewrite parse_unfold by (cbn; lia). unfold apply_step. cbn [message_of Request_parsed object buffer area currentStep body_step]. by rewrite E. Qed.

Lemma parse_body (c c' : cursor) max t m b b' r :
  BodyStep_apply (c, (request_message t, b)) = ((c', (m, b')), r) -> r <> Ok Next ->
  ParserBase_parse (at_step 2 c max t b) = (at_step 2 c' max (set_message m t) b', r).
Proof.
  intros E Hr. rewrite parse_unfold by (cbn; lia). unfold apply_step. cbn [message_of Request_parsed object buffer area currentStep body_step].
  rewrite E. by destruct r as [[]|e| |].
Qed.

Lemma read_headers_body hs m m' r : read_headers hs m = (m', r) -> body_ m' = body_ m.
Proof.
  revert m. induction hs as [|[n v] hs IH]; intros m; cbn [read_headers]; [by intros [= <- <-]|].
  unfold read_header, mbind, M_bind. cbn [fst snd].
  destruct (store_header_cursor n (v ++ crlf) (length v)) as (f & r0 & (cl & cs & hd & rs & Hf) & Ef). rewrite Ef.
  destruct r0 as [[]|e| |]; [|intros [= <- <-]; by rewrite Hf..].
  intros E%IH. rewrite E. cbn. by rewrite Hf.
Qed.

Lemma parse_request_text max m path params v hs body rest msg :
  let r := with_line m path params v Request_default in
  path_ok path -> Forall param_ok params -> Forall header_ok hs ->
  read_headers hs (request_message r) = (msg, Ok tt) ->
  tryGet_TransferEncoding (headers_ msg) = None ->
  match tryGet_ContentLength (headers_ msg) with Some n => n = Z.of_nat (length body) | None => body = [] end ->
  Z.of_nat (length body) <= memory_limit ->
  (length (request_text m path params v hs body ++ rest) <= max)%nat ->
  ParserBase_parse (ParserBase_feed (request_text m path params v hs body ++ rest) (ParserImpl_new max)).2
  = (parsed max (request_text m path params v hs body) rest (set_message (set_body body msg) r), Ok Done).
Proof.
  intros r Hp Hq Hh Er Ht Hc Hm Hl. rewrite feed_accepts by (cbn; lia). cbn [snd].
  assert (body_ msg = []) as Hb.
  { rewrite (read_headers_body _ _ _ _ Er). unfold r, with_line. cbn. clear.
    enough (forall r, body_ (request_message r) = [] -> body_ (request_message (add_all_params params r)) = []) as He
      by (by apply He).
    induction params as [|[k v'] l IH]; intros r Hr; [done|]. by apply IH. }
  change (extend_parser _ _) with (at_step 0 (Cursor [] (request_text m path params v hs body ++ rest)) max Request_default BodyStep_new).
  unfold request_text. rewrite <- !app_assoc.
  rewrite (parse_line _ _ _ _ _ _ (RequestLineStep_eval m path params v [] _ _ Hp Hq)).
  fold r. rewrite (parse_headers _ _ _ _ _ _ (HeadersStep_eval hs _ (body ++ rest) _ _ Hh Er)).
  rewrite (parse_body _ _ _ (set_message msg r) _ _ _ _ (BodyStep_eval _ body rest msg Ht Hb Hc Hm)) by done.
  unfold parsed. by rewrite <- !app_assoc.
Qed.

(** C2. A request whose parts are well formed is parsed: the method, the resource,
    the parameters (of several with one name the first is kept) and the version
    are those of its first line, the headers are stored in the order of their
    lines, the body is as long as its Content-Length says, and the bytes after it
    are left unread. *)
Theorem request_parsed max m path params v hs body rest msg :
  let r := with_line m path params v Request_default in
  path_ok path -> Forall param_ok params -> Forall header_ok hs ->
  read_headers hs (request_message r) = (msg, Ok tt) ->
  tryGet_TransferEncoding (headers_ msg) = None ->
  match tryGet_ContentLength (headers_ msg) with Some n => n = Z.of_nat (length body) | None => body = [] end ->
  Z.of_nat (length body) <= memory_limit ->
  (length (request_text m path params v hs body ++ rest) <= max)%nat ->
  ParserBase_parse (ParserBase_feed (request_text m path params v hs body ++ rest) (ParserImpl_new max)).2
  = (parsed max (request_text m path params v hs body) rest (set_message (set_body body msg) r), Ok Done).
Proof. intros r. apply parse_request_text. Qed.
End Request.

(** ** Witness *)

Lemma request_parsed_witness :
  let hs := [(B "X-Id", B "7"); (B "Content-Length", B "5")] in
  ParserBase_parse (H := no_dates) (H0 := no_resolver) (H1 := terabyte)
    (ParserBase_feed (request_text Method.Post (B "/a") [(B "x", B "1"); (B "y", [])] Http11 hs (B "hello") ++ B "GET")
       (ParserImpl_new 100)).2
  = (parsed 100 (request_text Method.Post (B "/a") [(B "x", B "1"); (B "y", [])] Http11 hs (B "hello")) (B "GET")
       (set_message (set_body (B "hello")
          (read_headers (H := no_dates) (H0 := no_resolver) hs Message_default).1)
          (with_line Method.Post (B "/a") [(B "x", B "1"); (B "y", [])] Http11 Request_default)), Ok Done).
Proof.
  intros hs. unfold hs. apply (request_parsed (H := no_dates) (H0 := no_resolver) (H1 := terabyte)).
  - repeat constructor; set_solver.
  - repeat constructor; set_solver.
  - repeat constructor; try (apply find_char_None; reflexivity); discriminate.
  - vm_compute. reflexivity.
  - vm_compute. reflexivity.
  - vm_compute. reflexivity.
  - vm_compute. discriminate.
  - vm_compute. lia.
Defined.
