(* ===== verification/HttpResponse.v ===== *)
(** * Writing responses: [ResponseWriter] and [ResponseStream] of [src/common/http.cc]

    A response is written to a [DynamicStreamBuf] and handed to the transport as
    one buffer.  The transport and the peer are the environment: the peer is the
    file descriptor it still has, if it is there, and what is handed over is the
    result.  The compression libraries are parameters. *)

From S2P Require Import Prelude Cxx Stream HttpDefs QValue Mime Cookie Net HttpHeader HttpHeaders HttpMessage.

Local Open Scope Z_scope.

(** The sequences the unordered maps are iterated in: their elements, in some order. *)
Class Iteration := {
  header_order : gmap bytes (bytes * Header) -> list (bytes * (bytes * Header));
  param_order : gmap bytes bytes -> list (bytes * bytes);
  jar_order : CookieJar -> list (bytes * gmap bytes Cookie);
  values_order : gmap bytes Cookie -> list (bytes * Cookie);
  header_order_ok m : header_order m ≡ₚ map_to_list m;
  param_order_ok m : param_order m ≡ₚ map_to_list m;
  jar_order_ok m : jar_order m ≡ₚ map_to_list m;
  values_order_ok m : values_order m ≡ₚ map_to_list m }.

(** The compression libraries: the compressed data, or the exception thrown for the
    failure they report. *)
Class Compressors := { compress : Encoding -> bytes -> result bytes }.

(** ** Output *)

(** [PST_OUT(os << t1 << t2 ...)] on a stream in a good state. *)
Definition put_texts (texts : list bytes) (d : DynamicStreamBuf) : bool * DynamicStreamBuf :=
  let os := fold_left (fun os t => ostream_write t os) texts (OStream d true) in (good os, rdbuf os).

(** A sequence of [PST_OUT]s; the text of each may throw. *)
Fixpoint put_all (l : list (result (list bytes))) : M DynamicStreamBuf bool :=
  match l with
  | [] => mret true
  | r :: l' =>
      texts ← lift r;
      ok ← (fun d => let '(ok, d') := put_texts texts d in (d', Ok ok));
      if ok : bool then put_all l' else mret false
  end.

Definition status_line (version : Version) (code : Z) : list (result (list bytes)) :=
  [Ok [versionString version; B " "]; Ok [to_string code]; Ok [B " "]; Ok [codeString code]; Ok [crlf]].

Definition writeStatusLine (version : Version) (code : Z) : M DynamicStreamBuf bool :=
  put_all (status_line version code).

Section Write.
Context `{DateLib, Iteration}.

Definition header_puts (h : Header) : list (result (list bytes)) :=
  [Ok [Header_name h; B ": "]; t ← Header_write param_order h; Ok [t]; Ok [crlf]].

Definition writeHeaders (headers : Collection) : M DynamicStreamBuf bool :=
  put_all (mjoin (map header_puts (Collection_list header_order headers))).

Definition cookie_puts (c : Cookie) : list (result (list bytes)) :=
  [Ok [B "Set-Cookie: "]; Ok [Cookie_write c]; Ok [crlf]].

Definition writeCookies (cookies : CookieJar) : M DynamicStreamBuf bool :=
  l ← lift (CookieJar_list jar_order values_order cookies);
  put_all (mjoin (map cookie_puts l)).

(** [writeHeader<H>(os, args...)]: one expression, checked after it. *)
Definition writeHeader (h : Header) : list (result (list bytes)) :=
  [t ← Header_write param_order h; Ok [Header_name h; B ": "; t; crlf]].

(** ** [ResponseWriter] *)

(** What becomes of a response: the promise is rejected, or the transport was
    given a buffer for a descriptor. *)
Inductive outcome : Type :=
  | Rejected (reason : bytes)
  | AsyncWrite (fd : Z) (buffer : RawBuffer).

(** The [Timeout] of a response as far as [disarm] sees it: not armed; armed with a timer in the
    transport's table, which will answer or was disarmed; armed without one there.  The
    object and its timer are in [Timeout], and [TimeoutUse] shows that they do this. *)
Inductive TimeoutState : Set := TimerIdle | TimerWaiting | TimerDisarmed | TimerGone.

Definition not_armed : exn := RuntimeError (B "Timer has not been armed").
(** [Timeout::disarm]: what [Transport::disarmTimer] throws leaves it. *)
Definition timeout_disarm (t : TimeoutState) : result TimeoutState :=
  match t with
  | TimerIdle => Ok TimerIdle
  | TimerWaiting | TimerDisarmed => Ok TimerDisarmed
  | TimerGone => Throw not_armed
  end.

Record ResponseWriter : Type := {
  response_ : Message;
  peer_ : option Z;
  buf_ : DynamicStreamBuf;
  sent_bytes_ : Z;
  contentEncoding_ : Encoding;
  timeout_ : TimeoutState }.

Definition DefaultStreamSize : Z := 512.

Definition ResponseWriter_new (version : Version) (peer : option Z) (maxResponseSize : Z) : ResponseWriter :=
  {| response_ := set_version version Message_default; peer_ := peer;
     buf_ := DynamicStreamBuf_new DefaultStreamSize maxResponseSize; sent_bytes_ := 0;
     contentEncoding_ := Identity; timeout_ := TimerIdle |}.

(** The copy constructor behind [clone]: the buffer, the sent bytes and the
    encoding are those of a new writer. *)
Definition ResponseWriter_clone (w : ResponseWriter) : ResponseWriter :=
  {| response_ := response_ w; peer_ := peer_ w;
     buf_ := DynamicStreamBuf_new DefaultStreamSize (maxSize_ (buf_ w)); sent_bytes_ := 0;
     contentEncoding_ := Identity; timeout_ := timeout_ w |}.

Definition set_response (m : Message) (w : ResponseWriter) : ResponseWriter :=
  {| response_ := m; peer_ := peer_ w; buf_ := buf_ w; sent_bytes_ := sent_bytes_ w;
     contentEncoding_ := contentEncoding_ w; timeout_ := timeout_ w |}.
Definition set_buf (d : DynamicStreamBuf) (w : ResponseWriter) : ResponseWriter :=
  {| response_ := response_ w; peer_ := peer_ w; buf_ := d; sent_bytes_ := sent_bytes_ w;
     contentEncoding_ := contentEncoding_ w; timeout_ := timeout_ w |}.
Definition set_encoding (e : Encoding) (w : ResponseWriter) : ResponseWriter :=
  {| response_ := response_ w; peer_ := peer_ w; buf_ := buf_ w; sent_bytes_ := sent_bytes_ w;
     contentEncoding_ := e; timeout_ := timeout_ w |}.
(** [sent_bytes_ += buffer.size();] *)
Definition count_sent (n : Z) (w : ResponseWriter) : ResponseWriter :=
  {| response_ := response_ w; peer_ := peer_ w; buf_ := buf_ w; sent_bytes_ := wraps 64 (sent_bytes_ w + n);
     contentEncoding_ := contentEncoding_ w; timeout_ := timeout_ w |}.
Definition set_timeout (t : TimeoutState) (w : ResponseWriter) : ResponseWriter :=
  {| response_ := response_ w; peer_ := peer_ w; buf_ := buf_ w; sent_bytes_ := sent_bytes_ w;
     contentEncoding_ := contentEncoding_ w; timeout_ := t |}.
(** [timeout_.disarm();] *)
Definition disarm : M ResponseWriter unit :=
  w ← get; t ← lift (timeout_disarm (timeout_ w)); modify (set_timeout t).

(** [std::runtime_error] and the classes derived from it. *)
Definition is_runtime_error (e : exn) : bool :=
  match e with RuntimeError _ | RangeError _ | ServerError _ | SocketError _ => true | _ => false end.

Definition exceeded : bytes := B "Response exceeded buffer size".

Definition on_buf {A : Type} (m : M DynamicStreamBuf A) : M ResponseWriter A := fun w =>
  let '(d, r) := m (buf_ w) in (set_buf d w, r).

(** The [PST_OUT]s of [putOnWire].  The macro tests the stream of [putOnWire], which
    the first three functions do not use, and not what they return. *)
Definition response_puts (m : Message) (data : bytes) : M DynamicStreamBuf bool :=
  _ ← writeStatusLine (version_ m) (code_ m);
  _ ← writeHeaders (headers_ m);
  _ ← writeCookies (cookies_ m);
  put_all (writeHeader (HContentLength (Z.of_nat (length data))) ++ [Ok [crlf]]
           ++ if (0 <? length data)%nat then [Ok [data]] else []).

Definition putOnWire (data : bytes) : M ResponseWriter outcome := fun w =>
  let body : M ResponseWriter outcome :=
    ok ← on_buf (response_puts (response_ w) data);
    if negb ok then mret (Rejected exceeded)
    else
      w ← get;
      let buffer := DynamicStreamBuf_buffer (buf_ w) in
      _ ← modify (count_sent (Z.of_nat (raw_length buffer)));
      _ ← disarm;
      match peer_ w with
      | None => throw (RuntimeError (B "Write failed: Broken pipe"))
      | Some fd => mret (AsyncWrite fd buffer)
      end in
  match body w with
  | (w', Throw e) => if is_runtime_error e then (w', Ok (Rejected (what e))) else (w', Throw e)
  | r => r
  end.

(** [setMime], also the first part of [sendImpl]: the type of a header that is
    there is changed in place. *)
Definition Collection_setMime (mime : MediaType) (c : Collection) : Collection :=
  match tryGet (B "Content-Type") c with
  | Some _ =>
      {| headers := alter (fun e => (e.1, HContentType mime)) (toLowercase (B "Content-Type")) (headers c);
         rawHeaders := rawHeaders c |}
  | None => Collection_add (HContentType mime) c
  end.

Definition on_response (f : Message -> Message) (w : ResponseWriter) : ResponseWriter := set_response (f (response_ w)) w.
Definition on_headers (f : Collection -> Collection) (w : ResponseWriter) : ResponseWriter :=
  on_response (fun m => set_headers (f (headers_ m)) m) w.

Definition setMime (mime : MediaType) : M ResponseWriter unit := modify (on_headers (Collection_setMime mime)).

Definition sendMethodNotAllowed (supportedMethods : list Method.t) : M ResponseWriter outcome :=
  _ ← modify (on_response (set_code (Code.value Code.Method_Not_Allowed)));
  _ ← modify (on_headers (Collection_add (HAllow supportedMethods)));
  putOnWire (codeString (Code.value Code.Method_Not_Allowed)).

Section Compression.
Context `{ContentEncodings, Compressors}.

(** [setCompression]: the encodings the library was built with. *)
Definition setCompression (e : Encoding) : M ResponseWriter unit :=
  if encodingSupported e then modify (set_encoding e)
  else throw (RuntimeError (B "Unsupported content encoding compression requested.")).

Definition sendImpl (code : Z) (data : bytes) (mime : MediaType) : M ResponseWriter outcome :=
  _ ← modify (on_response (set_code code));
  _ ← (if MediaType_isValid mime then setMime mime else mret tt);
  w ← get;
  match contentEncoding_ w with
  | Identity => putOnWire data
  | (Br | Zstd | Deflate) as e =>
      if negb (encodingSupported e) then throw (RuntimeError (B "User requested unknown content encoding."))
      else
        compressed ← lift (compress e data);
        _ ← modify (on_headers (Collection_add (HContentEncoding e)));
        putOnWire compressed
  | _ => throw (RuntimeError (B "User requested unknown content encoding."))
  end.

Definition send (code : Z) (body : bytes) (mime : MediaType) : M ResponseWriter outcome := sendImpl code body mime.
End Compression.

(** ** [ResponseStream] *)

Record ResponseStream : Type := {
  stream_response : Message;
  stream_peer : option Z;
  stream_buf : DynamicStreamBuf;
  stream_timeout : TimeoutState }.

Definition set_stream_buf (d : DynamicStreamBuf) (s : ResponseStream) : ResponseStream :=
  {| stream_response := stream_response s; stream_peer := stream_peer s; stream_buf := d;
     stream_timeout := stream_timeout s |}.

(** The constructor: a failure of [writeHeaders] is the one it does not throw for. *)
Definition stream_start (m : Message) : M DynamicStreamBuf unit :=
  ok ← writeStatusLine (version_ m) (code_ m);
  if negb ok then throw (RuntimeError exceeded) else
  ok ← writeCookies (cookies_ m);
  if negb ok then throw (RuntimeError exceeded) else
  ok ← writeHeaders (headers_ m);
  if negb ok then mret tt else
  ok ← put_all (writeHeader (HTransferEncoding Chunked));
  if negb ok then throw (RuntimeError exceeded) else
  _ ← put_all [Ok [crlf]];
  mret tt.

Definition ResponseStream_new (m : Message) (peer : option Z) (timeout : TimeoutState) (streamSize maxResponseSize : Z)
  : result ResponseStream :=
  let '(d, r) := stream_start m (DynamicStreamBuf_new streamSize maxResponseSize) in
  _ ← r;
  Ok {| stream_response := m; stream_peer := peer; stream_buf := d; stream_timeout := timeout |}.

(** [ResponseWriter::stream]. *)
Definition ResponseWriter_stream (code streamSize : Z) (w : ResponseWriter) : result ResponseStream :=
  ResponseStream_new (set_code code (response_ w)) (peer_ w) (timeout_ w) streamSize (maxSize_ (buf_ w)).

(** Output on a fresh [std::ostream] over the buffer, whose state is not looked at. *)
Definition stream_put (texts : list bytes) (s : ResponseStream) : ResponseStream :=
  set_stream_buf (put_texts texts (stream_buf s)).2 s.

(** [write(data, sz)] returns [sz] whatever happened. *)
Definition ResponseStream_write (data : bytes) (s : ResponseStream) : Z * ResponseStream :=
  (Z.of_nat (length data), stream_put [to_hex (Z.of_nat (length data)); crlf; data; crlf] s).

(** [digitsCount]: [while (val % 10) { ++digits; val /= 10; }]. *)
Fixpoint digitsCount_loop (fuel : nat) (val digits : Z) : Z :=
  match fuel with
  | O => digits
  | S fuel' => if Z.rem val 10 =? 0 then digits else digitsCount_loop fuel' (Z.quot val 10) (digits + 1)
  end.
Definition digitsCount (val : Z) : Z := digitsCount_loop (S (Z.to_nat (Z.log2 (Z.abs val)))) val 0.

(** [operator<<] for text and for an integer of [w] bits: the stream is still in
    the hexadecimal mode of the size when the value is written. *)
Definition put_text (s : bytes) (st : ResponseStream) : ResponseStream :=
  stream_put [to_hex (Z.of_nat (length s)); crlf; s; crlf] st.
Definition put_int (w val : Z) (st : ResponseStream) : ResponseStream :=
  stream_put [to_hex (digitsCount val); crlf; to_hex (wrapu w val); crlf] st.

Definition set_stream_timeout (t : TimeoutState) (s : ResponseStream) : ResponseStream :=
  {| stream_response := stream_response s; stream_peer := stream_peer s; stream_buf := stream_buf s;
     stream_timeout := t |}.
Definition stream_disarm : M ResponseStream unit :=
  s ← get; t ← lift (timeout_disarm (stream_timeout s)); modify (set_stream_timeout t).

Definition flush_buffer : M ResponseStream outcome := fun s =>
  let buf := DynamicStreamBuf_buffer (stream_buf s) in
  match stream_peer s with
  | None => (s, Throw (RuntimeError (B "Write failed: Broken pipe")))
  | Some fd => (set_stream_buf (DynamicStreamBuf_clear (stream_buf s)) s, Ok (AsyncWrite fd buf))
  end.
(** [flush]: the peer's absence is an exception, raised after the timeout was
    disarmed and before the buffer is cleared. *)
Definition ResponseStream_flush : M ResponseStream outcome := _ ← stream_disarm; flush_buffer.

Definition ResponseStream_ends : M ResponseStream outcome := fun s =>
  let '(ok, d) := put_texts [B "0"; crlf; crlf] (stream_buf s) in
  let s := set_stream_buf d s in
  if negb ok then (s, Throw (RuntimeError exceeded)) else ResponseStream_flush s.

End Write.

(** ** What a buffer holds after an output *)

(** [text] was appended as far as there is room; [ok] tells whether all of it was. *)
Record appended (text : bytes) (d : DynamicStreamBuf) (ok : bool) (d' : DynamicStreamBuf) : Prop := {
  app_wf : dyn_wf d';
  app_max : maxSize_ d' = maxSize_ d;
  app_content : content d' = content d ++ take (Z.to_nat (maxSize_ d) - length (content d)) text;
  app_ok : ok = bool_decide (Z.of_nat (length (content d) + length text) <= maxSize_ d) }.

Lemma content_max d : dyn_wf d -> Z.of_nat (length (content d)) <= maxSize_ d.
Proof. intros Hd. rewrite length_content by done. destruct Hd. lia. Qed.

Lemma appended_nil d : dyn_wf d -> appended [] d true d.
Proof.
  intros Hd. pose proof (content_max d Hd). split; [done|done|by rewrite take_nil, app_nil_r|].
  rewrite bool_decide_eq_true_2; [done|]. cbn. lia.
Qed.

(** Once the buffer is full, nothing more is appended. *)
Lemma appended_full t d d' : dyn_wf d -> appended t d false d' -> Z.of_nat (length (content d')) = maxSize_ d'.
Proof.
  intros Hd []. pose proof (content_max d Hd). symmetry in app_ok0. apply bool_decide_eq_false in app_ok0.
  rewrite app_content0, app_max0, length_app, length_take. lia.
Qed.

Lemma appended_app_any t1 t2 d ok1 d1 ok2 d2 :
  dyn_wf d -> appended t1 d ok1 d1 -> appended t2 d1 ok2 d2 ->
  appended (t1 ++ t2) d (bool_decide (Z.of_nat (length (content d) + length (t1 ++ t2)) <= maxSize_ d)) d2.
Proof.
  intros Hd H1 H2. pose proof (content_max d Hd) as Hc. destruct ok1.
  - destruct H1 as [W1 M1 C1 O1], H2 as [W2 M2 C2 O2]. symmetry in O1. apply bool_decide_eq_true in O1.
    rewrite (take_ge t1) in C1 by lia. rewrite C1, M1, length_app in C2.
    split; [done|congruence| |done].
    rewrite C2, take_app, (take_ge t1), <- app_assoc by lia. do 3 f_equal. lia.
  - pose proof (appended_full _ _ _ Hd H1) as Hf. destruct H1 as [W1 M1 C1 O1], H2 as [W2 M2 C2 O2].
    symmetry in O1. apply bool_decide_eq_false in O1.
    replace (Z.to_nat (maxSize_ d1) - length (content d1))%nat with 0%nat in C2 by lia.
    rewrite take_0, app_nil_r, C1 in C2. split; [done|congruence| |done].
    rewrite C2, take_app_le by lia. done.
Qed.

Lemma appended_app t1 t2 d ok1 d1 ok2 d2 :
  dyn_wf d -> appended t1 d ok1 d1 -> appended t2 d1 ok2 d2 -> (ok1 = false -> ok2 = false \/ t2 <> []) ->
  appended (t1 ++ t2) d ok2 d2.
Proof.
  intros Hd H1 H2 Hne. pose proof (appended_app_any _ _ _ _ _ _ _ Hd H1 H2) as [W M' C _]. split; [done..|].
  pose proof (content_max d Hd). rewrite length_app. destruct ok1.
  - destruct H1 as [_ M1 C1 O1]. symmetry in O1. apply bool_decide_eq_true in O1.
    rewrite (take_ge t1) in C1 by lia. rewrite (app_ok _ _ _ _ H2), C1, M1, length_app. apply bool_decide_ext. lia.
  - pose proof (appended_full _ _ _ Hd H1) as Hf. destruct H1 as [_ M1 _ O1].
    symmetry in O1. apply bool_decide_eq_false in O1. rewrite bool_decide_eq_false_2 by lia.
    destruct (Hne eq_refl) as [->|Hn]; [done|]. rewrite (app_ok _ _ _ _ H2). apply bool_decide_eq_false_2.
    destruct t2; [done|]. cbn. lia.
Qed.

Lemma put_texts_append texts d :
  dyn_wf d -> appended (mjoin texts) d (put_texts texts d).1 (put_texts texts d).2.
Proof.
  intros Hd. unfold put_texts. cbn [fst snd].
  enough (forall ok d0 t0, appended t0 d ok d0 ->
    let os := fold_left (fun os t => ostream_write t os) texts (OStream d0 ok) in
    appended (t0 ++ mjoin texts) d (good os) (rdbuf os)) as H by (by apply (H true d []), appended_nil).
  induction texts as [|t texts IH]; intros ok d0 t0 H0; cbn [fold_left mjoin list_join].
  { by rewrite app_nil_r. }
  fold (mjoin (M := list) texts). rewrite app_assoc. destruct ok.
  - change (ostream_write t (OStream d0 true)) with (let '(ok, d1) := sputn t d0 in OStream d1 ok).
    pose proof (sputn_wf t d0 (app_wf _ _ _ _ H0)) as Hs. destruct (sputn t d0) as [ok d1]. apply IH.
    eapply appended_app; [done|exact H0| |done]. by destruct Hs as (? & ? & ? & ?).
  - change (ostream_write t (OStream d0 false)) with (OStream d0 false).
    apply IH. pose proof (appended_full _ _ _ Hd H0) as Hf. destruct H0 as [W M' C O]. split; [done|done| |].
    + rewrite C. symmetry in O. apply bool_decide_eq_false in O. by rewrite take_app_le by lia.
    + symmetry in O |- *. apply bool_decide_eq_false in O. apply bool_decide_eq_false_2. rewrite length_app. lia.
Qed.

(** The text of a sequence of [PST_OUT]s, when none of them throws. *)
Fixpoint puts_text (l : list (result (list bytes))) : option bytes :=
  match l with
  | [] => Some []
  | Ok texts :: l' => app (mjoin texts) <$> puts_text l'
  | _ :: _ => None
  end.

Lemma puts_text_app l k :
  puts_text (l ++ k) = t ← puts_text l; t' ← puts_text k; Some (t ++ t').
Proof.
  induction l as [|[ts|e| |] l IH]; cbn; try done.
  - by destruct (puts_text k).
  - rewrite IH. destruct (puts_text l), (puts_text k); cbn; try done. by rewrite app_assoc.
Qed.

Lemma put_all_append l d text :
  dyn_wf d -> puts_text l = Some text ->
  exists ok d', put_all l d = (d', Ok ok) /\ appended text d ok d'.
Proof.
  revert d text. induction l as [|[ts|e| |] l IH]; intros d text Hd; cbn [puts_text]; try done.
  - intros [= <-]. exists true, d. split; [done|by apply appended_nil].
  - destruct (puts_text l) as [t|] eqn:El; [|done]. intros [= <-]. cbn [put_all].
    pose proof (put_texts_append ts d Hd) as Ha. unfold mbind, M_bind, lift.
    destruct (put_texts ts d) as [ok d'] eqn:Ep. cbn [fst snd] in Ha. destruct ok.
    + destruct (IH d' t (app_wf _ _ _ _ Ha) eq_refl) as (ok & d'' & -> & Ha'). exists ok, d''. split; [done|].
      by eapply appended_app.
    + exists false, d'. split; [done|]. pose proof (appended_full _ _ _ Hd Ha) as Hf. destruct Ha as [W M' C O].
      symmetry in O. apply bool_decide_eq_false in O. split; [done|done| |].
      * rewrite C. by rewrite take_app_le by lia.
      * symmetry. apply bool_decide_eq_false_2. rewrite length_app. lia.
Qed.

Section ResponseTheorems.
Context `{DateLib, Iteration}.

(** *** The text of a response *)

Definition header_line_text (h : Header) : option bytes :=
  match Header_write param_order h with
  | Ok t => Some (Header_name h ++ B ": " ++ t ++ crlf)
  | _ => None
  end.

Definition cookie_line_text (c : Cookie) : bytes := B "Set-Cookie: " ++ Cookie_write c ++ crlf.

Definition cookies_text (cookies : CookieJar) : option bytes :=
  match CookieJar_list jar_order values_order cookies with
  | Ok l => Some (mjoin (map cookie_line_text l))
  | _ => None
  end.

Definition status_text (m : Message) : bytes :=
  versionString (version_ m) ++ B " " ++ to_string (code_ m) ++ B " " ++ codeString (code_ m) ++ crlf.

Definition response_text (m : Message) (data : bytes) : option bytes :=
  hs ← mapM header_line_text (Collection_list header_order (headers_ m));
  cs ← cookies_text (cookies_ m);
  Some (status_text m ++ mjoin hs ++ cs
        ++ B "Content-Length: " ++ to_string (Z.of_nat (length data)) ++ crlf ++ crlf ++ data).

Lemma status_line_text m : puts_text (status_line (version_ m) (code_ m)) = Some (status_text m).
Proof. cbn. unfold status_text. by rewrite !app_nil_r, <- !app_assoc. Qed.

Lemma headers_puts_text l hs :
  mapM header_line_text l = Some hs -> puts_text (mjoin (map header_puts l)) = Some (mjoin hs).
Proof.
  revert hs. induction l as [|h l IH]; intros hs E; [by injection E as <-|].
  apply mapM_Some_1 in E. inversion E as [|? u ? us E1 E2]; subst. apply mapM_Some_2 in E2.
  unfold header_line_text in E1. destruct (Header_write param_order h) as [t|e| |] eqn:Eh; try done. simplify_eq.
  change (mjoin (map header_puts (h :: l))) with (header_puts h ++ mjoin (map header_puts l)).
  rewrite puts_text_app, (IH us) by done. unfold header_puts. rewrite Eh. cbn.
  by rewrite !app_nil_r, <- !app_assoc.
Qed.

Lemma cookies_puts_text l : puts_text (mjoin (map cookie_puts l)) = Some (mjoin (map cookie_line_text l)).
Proof.
  induction l as [|c l IH]; [done|].
  change (mjoin (map cookie_puts (c :: l))) with (cookie_puts c ++ mjoin (map cookie_puts l)).
  rewrite puts_text_app, IH. cbn. unfold cookie_line_text. by rewrite !app_nil_r, <- !app_assoc.
Qed.

Lemma writeCookies_append cookies d text :
  dyn_wf d -> cookies_text cookies = Some text ->
  exists ok d', writeCookies cookies d = (d', Ok ok) /\ appended text d ok d'.
Proof.
  unfold cookies_text, writeCookies. destruct (CookieJar_list _ _ _) as [l|e| |]; [|done..].
  intros Hd [= <-]. apply (put_all_append _ d _ Hd (cookies_puts_text l)).
Qed.

Lemma tail_puts_text data :
  puts_text (writeHeader (HContentLength (Z.of_nat (length data))) ++ [Ok [crlf]]
             ++ if (0 <? length data)%nat then [Ok [data]] else [])
  = Some (B "Content-Length: " ++ to_string (Z.of_nat (length data)) ++ crlf ++ crlf ++ data).
Proof. destruct data; cbn; by rewrite ?app_nil_r, <- ?app_assoc. Qed.

Lemma response_puts_append m data text d :
  dyn_wf d -> response_text m data = Some text ->
  exists ok d', response_puts m data d = (d', Ok ok) /\ appended text d ok d'.
Proof.
  intros Hd. unfold response_text.
  destruct (mapM header_line_text _) as [hs|] eqn:Eh; [|done].
  destruct (cookies_text (cookies_ m)) as [cs|] eqn:Ec; [|done]. intros [= <-]. unfold response_puts.
  destruct (put_all_append _ d _ Hd (status_line_text m)) as (ok1 & d1 & E1 & A1).
  destruct (put_all_append _ d1 _ (app_wf _ _ _ _ A1) (headers_puts_text _ _ Eh)) as (ok2 & d2 & E2 & A2).
  destruct (writeCookies_append _ d2 _ (app_wf _ _ _ _ A2) Ec) as (ok3 & d3 & E3 & A3).
  destruct (put_all_append _ d3 _ (app_wf _ _ _ _ A3) (tail_puts_text data)) as (ok4 & d4 & E4 & A4).
  unfold writeStatusLine, writeHeaders.
  rewrite (bind_Ok _ _ _ _ _ E1), (bind_Ok _ _ _ _ _ E2), (bind_Ok _ _ _ _ _ E3), E4.
  exists ok4, d4. split; [done|].
  assert (forall t : bytes, t ++ B "Content-Length: " ++ to_string (Z.of_nat (length data)) ++ crlf ++ crlf ++ data <> []) as Hne
    by (intros t Et%(f_equal length); rewrite !length_app in Et; change (length (B "Content-Length: ")) with 16%nat in Et; cbn in Et; lia).
  eapply appended_app; [done|exact A1| |].
  2: { intros _. right. rewrite app_assoc. apply Hne. }
  eapply appended_app; [apply A1|exact A2| |intros _; right; apply Hne].
  eapply appended_app; [apply A2|exact A3|exact A4|intros _; right; apply (Hne [])].
Qed.

Lemma putOnWire_eval w data text :
  dyn_wf (buf_ w) -> content (buf_ w) = [] -> response_text (response_ w) data = Some text ->
  (putOnWire data w).2
  = Ok (if bool_decide (Z.of_nat (length text) <= maxSize_ (buf_ w)) then
          match timeout_disarm (timeout_ w), peer_ w with
          | Ok _, Some fd => AsyncWrite fd (Stream.Raw text (length text))
          | Ok _, None => Rejected (B "Write failed: Broken pipe")
          | _, _ => Rejected (what not_armed)
          end
        else Rejected exceeded).
Proof.
  intros Hd Hc Ht. destruct (response_puts_append _ _ _ _ Hd Ht) as (ok & d' & E & [W M' C O]).
  rewrite Hc in C, O. cbn in C, O. rewrite Nat.sub_0_r in C. unfold putOnWire, on_buf.
  unfold mbind, M_bind. rewrite E. rewrite <- O. destruct ok; [|done].
  symmetry in O. apply bool_decide_eq_true in O. rewrite take_ge in C by lia. cbn.
  destruct w as [m0 p0 b0 n0 e0 t0], t0, p0; cbn in *; by rewrite ?buffer_content, ?C.
Qed.


(** The stream's constructor throws when the status line or the cookies do not fit
    and returns normally when the headers do not: the response is then cut off in
    the middle of a header, without the chunked encoding its body will have. *)
Theorem stream_headers_cut_silently m peer timeout streamSize maxSize hs cookies :
  0 <= streamSize <= maxSize ->
  mapM header_line_text (Collection_list header_order (headers_ m)) = Some hs ->
  cookies_text (cookies_ m) = Some cookies ->
  Z.of_nat (length (status_text m ++ cookies)) <= maxSize < Z.of_nat (length (status_text m ++ cookies ++ mjoin hs)) ->
  exists s, ResponseStream_new m peer timeout streamSize maxSize = Ok s
  /\ content (stream_buf s) = take (Z.to_nat maxSize) (status_text m ++ cookies ++ mjoin hs).
Proof.
  intros Hs Eh Ec Hl. destruct (new_wf streamSize maxSize Hs) as [Hd Hc].
  destruct (put_all_append _ _ _ Hd (status_line_text m)) as (ok1 & d1 & E1 & A1).
  destruct (writeCookies_append _ d1 _ (app_wf _ _ _ _ A1) Ec) as (ok2 & d2 & E2 & A2).
  destruct (put_all_append _ d2 _ (app_wf _ _ _ _ A2) (headers_puts_text _ _ Eh)) as (ok3 & d3 & E3 & A3).
  set (d0 := DynamicStreamBuf_new streamSize maxSize) in *. assert (maxSize_ d0 = maxSize) as Hm by done.
  rewrite !length_app in Hl.
  assert (ok1 = true) as ->.
  { rewrite (app_ok _ _ _ _ A1), Hc, Hm. apply bool_decide_eq_true_2. cbn. lia. }
  assert (appended (status_text m ++ cookies) d0 ok2 d2) as A12 by (by eapply appended_app).
  assert (ok2 = true) as ->.
  { rewrite (app_ok _ _ _ _ A12), Hc, Hm, length_app. apply bool_decide_eq_true_2. cbn. lia. }
  assert (appended ((status_text m ++ cookies) ++ mjoin hs) d0 ok3 d3) as A123 by (by eapply appended_app).
  assert (ok3 = false) as ->.
  { rewrite (app_ok _ _ _ _ A123), Hc, Hm, !length_app. apply bool_decide_eq_false_2. cbn. lia. }
  eexists. split.
  - unfold ResponseStream_new, stream_start, writeStatusLine, writeHeaders. fold d0.
    rewrite (bind_Ok _ _ _ _ _ E1). cbn [negb]. rewrite (bind_Ok _ _ _ _ _ E2). cbn [negb].
    rewrite (bind_Ok _ _ _ _ _ E3). cbn. reflexivity.
  - cbn [stream_buf]. rewrite (app_content _ _ _ _ A123), Hc, Hm, <- app_assoc. cbn. by rewrite Nat.sub_0_r.
Qed.
End ResponseTheorems.

(** ** Witnesses *)

Definition plain_order : Iteration.
Proof.
  by refine {| header_order := map_to_list; param_order := map_to_list; jar_order := map_to_list;
               values_order := map_to_list |}.
Defined.

Definition small_message : Message :=
  {| version_ := Http11; code_ := 200; body_ := []; cookies_ := ∅;
     headers_ := Collection_add (HServer [B "pistache"]) Collection_empty |}.

Definition small_writer : ResponseWriter := set_response small_message (ResponseWriter_new Http11 (Some 7) 4096).

Definition small_text : bytes :=
  B "HTTP/1.1 200 OK" ++ crlf ++ B "Server: pistache" ++ crlf ++ B "Content-Length: 5" ++ crlf ++ crlf ++ B "hello".


Lemma stream_headers_cut_silently_witness :
  exists s, ResponseStream_new (H := no_dates) (H0 := plain_order) small_message (Some 7) TimerIdle 16 20 = Ok s
  /\ content (stream_buf s) = B "HTTP/1.1 200 OK" ++ crlf ++ B "Ser".
Proof.
  apply (stream_headers_cut_silently (H := no_dates) (H0 := plain_order) small_message (Some 7) TimerIdle 16 20
           [B "Server: pistache" ++ crlf] []).
  - lia.
  - vm_compute. reflexivity.
  - vm_compute. reflexivity.
  - vm_compute. split; [discriminate|reflexivity].
Defined.
