(* ===== verification/TypedHeaders.v ===== *)
(** * Typed access to headers: [include/pistache/http_headers.h]

    [tryGet<H>()] casts the header filed under [H::Name] to [H] without a test.  The
    classes are those of [HttpHeader]; a collection has whatever history of calls, the
    parser's among them. *)

From S2P Require Import Prelude Cxx Stream HttpDefs QValue Mime Cookie Net HttpHeader HttpHeaders HttpMessage.
From S2P Require Import HttpResponse HttpParser Fragmentation RequestText.

Local Open Scope Z_scope.

(** ** The template argument [H] *)

Module Class.
Inductive t : Set :=
  | Accept | AccessControlAllowOrigin | AccessControlAllowHeaders | AccessControlExposeHeaders
  | AccessControlAllowMethods | Allow | CacheControl | Connection | AcceptEncoding | ContentEncoding
  | TransferEncoding | ContentLength | ContentType | Authorization | Date | ETag | Expect | Host
  | LastModified | Location | Server | UserAgent.
End Class.

#[export] Instance Class_eq_dec : EqDecision Class.t.
Proof. solve_decision. Defined.

(** [H::Name] *)
Definition class_Name (k : Class.t) : bytes :=
  match k with
  | Class.Accept => B "Accept"
  | Class.AccessControlAllowOrigin => B "Access-Control-Allow-Origin"
  | Class.AccessControlAllowHeaders => B "Access-Control-Allow-Headers"
  | Class.AccessControlExposeHeaders => B "Access-Control-Expose-Headers"
  | Class.AccessControlAllowMethods => B "Access-Control-Allow-Methods"
  | Class.Allow => B "Allow"
  | Class.CacheControl => B "Cache-Control"
  | Class.Connection => B "Connection"
  | Class.AcceptEncoding => B "Accept-Encoding"
  | Class.ContentEncoding => B "Content-Encoding"
  | Class.TransferEncoding => B "Transfer-Encoding"
  | Class.ContentLength => B "Content-Length"
  | Class.ContentType => B "Content-Type"
  | Class.Authorization => B "Authorization"
  | Class.Date => B "Date"
  | Class.ETag => B "ETag"
  | Class.Expect => B "Expect"
  | Class.Host => B "Host"
  | Class.LastModified => B "Last-Modified"
  | Class.Location => B "Location"
  | Class.Server => B "Server"
  | Class.UserAgent => B "User-Agent"
  end.

(** The dynamic class of a header. *)
Definition class_of (h : Header) : Class.t :=
  match h with
  | HAccept _ => Class.Accept
  | HAccessControlAllowOrigin _ => Class.AccessControlAllowOrigin
  | HAccessControlAllowHeaders _ => Class.AccessControlAllowHeaders
  | HAccessControlExposeHeaders _ => Class.AccessControlExposeHeaders
  | HAccessControlAllowMethods _ => Class.AccessControlAllowMethods
  | HAllow _ => Class.Allow
  | HCacheControl _ => Class.CacheControl
  | HConnection _ => Class.Connection
  | HAcceptEncoding _ => Class.AcceptEncoding
  | HContentEncoding _ => Class.ContentEncoding
  | HTransferEncoding _ => Class.TransferEncoding
  | HContentLength _ => Class.ContentLength
  | HContentType _ => Class.ContentType
  | HAuthorization _ => Class.Authorization
  | HDate _ => Class.Date
  | HETag _ _ => Class.ETag
  | HExpect _ => Class.Expect
  | HHost _ _ => Class.Host
  | HLastModified _ => Class.LastModified
  | HLocation _ => Class.Location
  | HServer _ => Class.Server
  | HUserAgent _ => Class.UserAgent
  end.

(** [tryGet<H>()], [get<H>()], [has<H>()] and [remove<H>()].  The cast has the class it is
    to: a header of another class is undefined behaviour. *)
Definition cast (k : Class.t) (h : Header) : result Header := if decide (class_of h = k) then Ok h else UB.

Definition tryGet_as (k : Class.t) (c : Collection) : result (option Header) :=
  match tryGet (class_Name k) c with Some h => h ← cast k h; Ok (Some h) | None => Ok None end.
Definition get_as (k : Class.t) (c : Collection) : result Header :=
  h ← Collection_get (class_Name k) c; cast k h.
Definition has_as (k : Class.t) (c : Collection) : bool := Collection_has (class_Name k) c.
Definition remove_as (k : Class.t) (c : Collection) : bool * Collection := Collection_remove (class_Name k) c.

(** ** Lemmas on the classes *)

Lemma Header_name_class h : Header_name h = class_Name (class_of h).
Proof. by destruct h. Qed.

(** No two classes have names that are equal up to case. *)
Lemma class_Name_inj j k : toLowercase (class_Name j) = toLowercase (class_Name k) -> j = k.
Proof. by destruct j, k. Qed.

Lemma class_of_name h k : toLowercase (Header_name h) = toLowercase (class_Name k) -> class_of h = k.
Proof. rewrite Header_name_class. apply class_Name_inj. Qed.

(** A header's class is the same after [parse]. *)
Lemma on_data_class {A} k (mk : A -> Header) (m : M A unit) a :
  (forall a, class_of (mk a) = k) -> class_of (on_data mk m a).1 = k.
Proof. intros Hk. unfold on_data. destruct (m a). apply Hk. Qed.

Lemma stores_class {A} k (mk : A -> Header) r h :
  (forall a, class_of (mk a) = k) -> class_of h = k -> class_of (stores mk r h).1 = k.
Proof. intros Hk Hh. unfold stores. destruct r; [apply Hk|done..]. Qed.

Lemma parseRaw_class `{DateLib, Resolver} str len h : class_of (Header_parseRaw str len h).1 = class_of h.
Proof.
  destruct h; cbn [Header_parseRaw class_of]; first [done|by apply on_data_class; try intros []|by apply stores_class; try intros []].
Qed.

Lemma parseRaw_name `{DateLib, Resolver} str len h : Header_name (Header_parseRaw str len h).1 = Header_name h.
Proof. by rewrite !Header_name_class, parseRaw_class. Qed.

(** What the registry makes depends on the name up to its case. *)
Lemma makeHeader_ci n n' : toLowercase n = toLowercase n' -> find_registered n = find_registered n'.
Proof.
  intros E. unfold find_registered, LowercaseEqual. unfold toLowercase in E. by rewrite E.
Qed.

(** ** Histories of a collection *)

Section Histories.
Context `{DateLib, Resolver, StringMemory}.

(** The calls that make or change a collection: those of its class, [setMime] on the
    response's, and a run of either parser over whatever its buffer holds. *)
Inductive built : Collection -> Prop :=
  | built_empty : built Collection_empty
  | built_clear c : built c -> built (Collection_clear c)
  | built_add h c : built c -> built (Collection_add h c)
  | built_addRaw r c : built c -> built (Collection_addRaw r c)
  | built_remove name c : built c -> built (snd (Collection_remove name c))
  | built_setMime mime c : built c -> built (Collection_setMime mime c)
  | built_request (p p' : RequestParser) r :
      built (headers_ (request_message (object p))) -> ParserBase_parse p = (p', r) ->
      built (headers_ (request_message (object p')))
  | built_response (p p' : ResponseParser) r :
      built (headers_ (response_message (object p))) -> ParserBase_parse p = (p', r) ->
      built (headers_ (response_message (object p'))).

(** *** What a parser keeps of the object it fills, however it ends *)

Definition retains {X A : Type} (P : X -> Prop) (m : parser X A) : Prop := forall s, P s.2 -> P (m s).1.2.

Section Retains.
Context {X : Type} {P : X -> Prop}.

Lemma retains_on_object (f : X -> X) : (forall x, P x -> P (f x)) -> retains P (on_object f).
Proof. intros Hf [c x]. apply Hf. Qed.

Lemma retains_on_cursor {A} (f : cursor -> A * cursor) : retains P (on_cursor f).
Proof. intros [c x] Hx. unfold on_cursor. by destruct (f _). Qed.

Lemma retains_bind {A C} (m : parser X A) (k : A -> parser X C) : retains P m -> (forall a, retains P (k a)) -> retains P (m ≫= k).
Proof.
  intros Hm Hk s Hs. specialize (Hm s Hs). unfold mbind, M_bind. destruct (m s) as [s' [a|e| |]]; try done. by apply Hk.
Qed.

Lemma retains_unless {A} m (again : A) (k : parser X A) : retains P m -> retains P k -> retains P (unless m again k).
Proof. intros. apply retains_bind; [done|]. intros []; [done|]. by intros [c x]. Qed.

Lemma retains_scan_to {A} stop (again : A) (k : parser X A) : retains P k -> retains P (scan_to stop again k).
Proof. intros. by apply retains_unless; [apply retains_on_cursor|]. Qed.
Lemma retains_advancing {A} n (again : A) (k : parser X A) : retains P k -> retains P (advancing n again k).
Proof. intros. by apply retains_unless; [apply retains_on_cursor|]. Qed.
Lemma retains_reaching {A} chars (again : A) (k : parser X A) : retains P k -> retains P (reaching chars again k).
Proof. intros. by apply retains_unless; [apply retains_on_cursor|]. Qed.

Lemma retains_Revert {A} ignored (m : parser X A) : retains P m -> retains P (Revert ignored m).
Proof. intros Hm s Hs. specialize (Hm s Hs). unfold Revert. by destruct (m s) as [[c x] []]. Qed.

Lemma retains_catching {A} (m : parser X A) handler : retains P m -> (forall e, retains P (handler e)) -> retains P (catching m handler).
Proof.
  intros Hm Hh s Hs. specialize (Hm s Hs). unfold catching. destruct (m s) as [s' [a|e| |]]; try done. by apply Hh.
Qed.

(** Every other step leaves the object alone. *)
Lemma retains_const {A} (m : parser X A) : (forall s, (m s).1 = s) -> retains P m.
Proof. intros E s Hs. by rewrite E. Qed.
End Retains.

(** [retains] of a parser from that of its parts; [known] solves the parts that are not
    parsers of the language. *)
Ltac retains_with known :=
  repeat (cbv zeta; intros; match goal with
  | |- retains _ (Revert _ _) => apply retains_Revert
  | |- retains _ (unless _ _ _) => apply retains_unless
  | |- retains _ (scan_to _ _ _) => apply retains_scan_to
  | |- retains _ (advancing _ _ _) => apply retains_advancing
  | |- retains _ (reaching _ _ _) => apply retains_reaching
  | |- retains _ (catching _ _) => apply retains_catching
  | |- retains _ (_ ≫= _) => apply retains_bind
  | |- retains _ (on_object _) => apply retains_on_object; intros ? Hwf; first [exact Hwf|apply add_wf; exact Hwf]
  | |- retains _ (on_cursor _) => apply retains_on_cursor
  | |- retains _ (if ?b then _ else _) => destruct b
  | |- retains _ (match ?x with _ => _ end) => destruct x
  | |- retains _ (mret _) => by apply retains_const; intros []
  | |- retains _ (lift _) => by apply retains_const; intros []
  | |- retains _ (throw _) => by apply retains_const; intros []
  | |- retains _ (Step_raise _ _) => by apply retains_const; intros []
  | |- retains _ cursor_ => by apply retains_const; intros []
  | |- retains _ object_ => by apply retains_const; intros []
  | |- _ => first [assumption|known]
  end).
Ltac retains_tac := retains_with fail.

(** *** The steps of the parser *)

Definition message_wf (m : Message) : Prop := Collection_wf (headers_ m).
Definition request_wf (r : Request) : Prop := message_wf (request_message r).
Definition response_wf (r : Response) : Prop := message_wf (response_message r).
Definition body_wf (x : Message * BodyStep) : Prop := message_wf x.1.

Lemma query_params_retains fuel : retains request_wf (query_params fuel).
Proof. induction fuel; cbn [query_params]; unfold query_param; retains_tac. Qed.

Lemma RequestLineStep_retains : retains request_wf RequestLineStep_apply.
Proof. unfold RequestLineStep_apply, parse_resource, parse_version. retains_with ltac:(apply query_params_retains). Qed.

Lemma ResponseLineStep_retains : retains response_wf ResponseLineStep_apply.
Proof. unfold ResponseLineStep_apply. retains_tac. Qed.

Lemma addFromRaw_retains raw : retains message_wf (on_member cookies_ set_cookies (CookieJar_addFromRaw raw)).
Proof. intros [c m] Hm. unfold on_member. by destruct (CookieJar_addFromRaw _ _). Qed.

Lemma store_header_retains name raw len : retains message_wf (store_header name raw len).
Proof. unfold store_header. retains_with ltac:(apply addFromRaw_retains). Qed.

Lemma header_lines_retains fuel : retains message_wf (header_lines fuel).
Proof. induction fuel; cbn [header_lines]; unfold header_line; retains_with ltac:(apply store_header_retains). Qed.

Lemma HeadersStep_retains : retains message_wf HeadersStep_apply.
Proof. unfold HeadersStep_apply. retains_with ltac:(apply header_lines_retains). Qed.

Lemma append_body_retains raw n : retains body_wf (append_body raw n).
Proof. unfold append_body. retains_tac. Qed.

Lemma readBody_retains n : retains body_wf (readBody n).
Proof. unfold readBody. retains_with ltac:(apply append_body_retains). Qed.

Lemma chunk_loop_retains fuel : retains body_wf (chunk_loop fuel).
Proof.
  induction fuel; cbn [chunk_loop]; unfold Chunk_parse, chunk_size_line, chunk_data; retains_with ltac:(apply append_body_retains).
Qed.

Lemma BodyStep_retains : retains body_wf BodyStep_apply.
Proof.
  unfold BodyStep_apply, parseContentLength, parseTransferEncoding.
  retains_with ltac:(first [apply readBody_retains|apply chunk_loop_retains]).
Qed.

(** *** The parser *)

Section Parser.
Context {T : Type} `{ParsedMessage T}.
Let object_wf (t : T) : Prop := message_wf (message_of t).
Hypothesis line_step_retains : retains object_wf (line_step (T := T)).
Hypothesis message_updated : forall m (t : T), message_of (update_message m t) = m.

Lemma apply_step_retains (p : ParserImpl T) : object_wf (object p) -> object_wf (object (apply_step p).1).
Proof.
  intros Hp. unfold apply_step. destruct (currentStep p) as [|[|[|n]]]; [..|done].
  - pose proof (line_step_retains (area (buffer p), object p) Hp) as Hs. by destruct (line_step _) as [[c t] r].
  - pose proof (HeadersStep_retains (area (buffer p), message_of (object p)) Hp) as Hs.
    destruct (HeadersStep_apply _) as [[c m] r]. unfold object_wf. cbn. by rewrite message_updated.
  - pose proof (BodyStep_retains (area (buffer p), (message_of (object p), body_step p)) Hp) as Hs.
    destruct (BodyStep_apply _) as [[c [m b]] r]. unfold object_wf. cbn. by rewrite message_updated.
Qed.

Lemma parse_steps_retains fuel (p : ParserImpl T) : object_wf (object p) -> object_wf (object (parse_steps fuel p).1).
Proof.
  revert p. induction fuel as [|fuel IH]; intros p Hp; cbn [parse_steps]; [done|]. unfold mbind, M_bind at 1.
  apply apply_step_retains in Hp. destruct (apply_step p) as [p1 [s|e| |]]; try done. case_decide; [|done].
  by apply (IH (set_currentStep (S (currentStep p1)) p1)).
Qed.
End Parser.

(** [setMime] changes the type of the header that is there in place. *)
Lemma setMime_wf mime c : Collection_wf c -> Collection_wf (Collection_setMime mime c).
Proof.
  intros Hc. unfold Collection_setMime. destruct (tryGet _ c) as [h0|] eqn:E; [|by apply add_wf].
  pose proof (tryGet_name _ _ _ Hc E) as En. unfold tryGet in E. apply fmap_Some in E as ([n0 h1] & El & ->).
  intros k n h. cbn [headers]. destruct (decide (k = toLowercase (B "Content-Type"))) as [->|Hk].
  - rewrite lookup_alter_eq, El. cbn. intros [= <- <-]. destruct (Hc _ _ _ El) as [-> E2]. split; [|done].
    apply (class_of_name h1 Class.ContentType) in En. by destruct h1.
  - rewrite lookup_alter_ne by done. apply Hc.
Qed.

Lemma built_wf c : built c -> Collection_wf c.
Proof.
  induction 1 as [|c _ _|h c _ IH|r c _ IH|name c _ IH|mime c _ IH|p p' r _ IH E|p p' r _ IH E].
  - apply Collection_empty_wf.
  - apply Collection_empty_wf.
  - by apply add_wf.
  - intros k n h. apply IH.
  - by apply remove_wf.
  - by apply setMime_wf.
  - pose proof (parse_steps_retains (T := Request) RequestLineStep_retains (fun _ _ => eq_refl) (S StepsCount) p IH) as Hp.
    unfold ParserBase_parse in E. by rewrite E in Hp.
  - pose proof (parse_steps_retains (T := Response) ResponseLineStep_retains (fun _ _ => eq_refl) (S StepsCount) p IH) as Hp.
    unfold ParserBase_parse in E. by rewrite E in Hp.
Qed.

Lemma wf_class c k h : Collection_wf c -> tryGet (class_Name k) c = Some h -> class_of h = k.
Proof. intros Hc E. by apply class_of_name, (tryGet_name _ _ _ Hc E). Qed.

(** ** What is found of the lines that were read *)

(** The class's reading of a value: the header the registry makes, once it has parsed it. *)
Definition read_as (name v : bytes) : option Header :=
  match makeHeader name with Ok h0 => Some (Header_parseRaw (v ++ crlf) (length v) h0).1 | _ => None end.

(** The first line with a name, up to case. *)
Definition first_line (name : bytes) (hs : list (bytes * bytes)) : option (bytes * bytes) :=
  List.find (fun h => LowercaseEqual name h.1) hs.

(** Names that are no cookie's. *)
Definition no_cookie (name : bytes) : Prop :=
  LowercaseEqualStatic name (B "cookie") = false /\ LowercaseEqualStatic name (B "set-cookie") = false.

Lemma class_no_cookie k : no_cookie (class_Name k).
Proof. by destruct k. Qed.

Lemma LowercaseEqualStatic_ci n n' s : toLowercase n = toLowercase n' -> LowercaseEqualStatic n s = LowercaseEqualStatic n' s.
Proof. intros E. unfold LowercaseEqualStatic. unfold toLowercase in E. by rewrite E. Qed.

Lemma LowercaseEqual_true a b : LowercaseEqual a b = true <-> toLowercase a = toLowercase b.
Proof. apply bool_decide_eq_true. Qed.
Lemma LowercaseEqual_false a b : LowercaseEqual a b = false <-> toLowercase a <> toLowercase b.
Proof. apply bool_decide_eq_false. Qed.

(** What a line that is read makes of the typed headers and of the cookies. *)
Lemma store_header_Ok n v raw m c m' :
  store_header n (v ++ raw) (length v) (c, m) = ((c, m'), Ok tt) ->
  if LowercaseEqualStatic n (B "cookie") || LowercaseEqualStatic n (B "set-cookie") then headers_ m' = headers_ m
  else cookies_ m' = cookies_ m /\
       headers_ m' = match makeHeader n with
                     | Ok h0 => Collection_add (Header_parseRaw (v ++ raw) (length v) h0).1 (headers_ m)
                     | _ => headers_ m end.
Proof.
  unfold store_header. destruct (LowercaseEqualStatic n (B "cookie")); [|destruct (LowercaseEqualStatic n (B "set-cookie"))]; cbn [orb].
  - unfold mbind, M_bind, on_object, on_member. cbn. destruct (CookieJar_addFromRaw _ _) as [j [[]|e| |]]; [|done..].
    by intros [= <-].
  - unfold mbind, M_bind, lift. destruct (Cookie_fromRaw _) as [k|e| |]; [|done..]. by intros [= <-].
  - unfold isRegistered, makeHeader. destruct (find_registered n) as [h0|]; cbn; [|by intros [= <-]].
    unfold mbind, M_bind, lift. destruct (Header_parseRaw _ _ h0) as [h [[]|e| |]]; cbn; [|done..]. by intros [= <-].
Qed.

Lemma read_header_Ok_inv h m m' :
  read_header h m = (m', Ok tt) ->
  exists m1, store_header h.1 (h.2 ++ crlf) (length h.2) (Cursor [] [], m) = ((Cursor [] [], m1), Ok tt)
    /\ m' = on_headers (Collection_addRaw {| raw_name := h.1; raw_value := h.2 |}) m1.
Proof.
  unfold read_header, mbind, M_bind. destruct (store_header_cursor h.1 (h.2 ++ crlf) (length h.2)) as (f & r & _ & Ef).
  rewrite Ef. destruct r as [[]|e| |]; [|done..]. intros [= <-]. eauto.
Qed.

(** One line: what it adds to the typed headers under a name. *)
Lemma read_header_tryGet h m m' name :
  no_cookie name -> read_header h m = (m', Ok tt) ->
  tryGet name (headers_ m')
  = match tryGet name (headers_ m) with
    | Some h' => Some h'
    | None => if LowercaseEqual name h.1 then read_as h.1 h.2 else None
    end.
Proof.
  destruct h as [n v]. intros [C1 C2] (m1 & E & ->)%read_header_Ok_inv. cbn [fst snd] in *.
  change (tryGet name (headers_ (on_headers _ m1))) with (tryGet name (headers_ m1)). apply store_header_Ok in E.
  destruct (LowercaseEqualStatic n _ || LowercaseEqualStatic n _) eqn:C.
  - rewrite E. assert (LowercaseEqual name n = false) as ->; [|by destruct (tryGet _ _)].
    apply LowercaseEqual_false. intros En. rewrite !(LowercaseEqualStatic_ci name n) in C1, C2 by done.
    by rewrite C1, C2 in C.
  - destruct E as [_ ->]. unfold read_as, makeHeader. destruct (find_registered n) as [h0|] eqn:Ef; cbn.
    + apply find_registered_name in Ef as [En _]. rewrite add_tryGet.
      assert (LowercaseEqual name (Header_name (Header_parseRaw (v ++ crlf) (length v) h0).1) = LowercaseEqual name n) as ->.
      { rewrite parseRaw_name. unfold LowercaseEqual. unfold toLowercase in En. by rewrite En. }
      destruct (LowercaseEqual name n); by destruct (tryGet _ _).
    + by destruct (tryGet _ _), (LowercaseEqual name n).
Qed.

Lemma read_header_tryGetRaw h m m' name :
  read_header h m = (m', Ok tt) ->
  tryGetRaw name (headers_ m')
  = match tryGetRaw name (headers_ m) with
    | Some r => Some r
    | None => if LowercaseEqual name h.1 then Some {| raw_name := h.1; raw_value := h.2 |} else None
    end.
Proof.
  intros (m1 & E & ->)%read_header_Ok_inv. destruct h as [n v]. cbn [fst snd] in *.
  assert (rawHeaders (headers_ m1) = rawHeaders (headers_ m)) as Er.
  { apply store_header_Ok in E. destruct (_ || _); [by rewrite E|]. destruct E as [_ ->]. by destruct (makeHeader n). }
  unfold tryGetRaw. cbn [headers_ on_headers set_headers Collection_addRaw rawHeaders]. rewrite insert_ci_lookup, Er.
  cbn [raw_name]. destruct (LowercaseEqual name n) eqn:En.
  - apply LowercaseEqual_true in En. rewrite decide_True by done. by destruct (rawHeaders _ !! _) as [[]|].
  - apply LowercaseEqual_false in En. rewrite decide_False by done. by destruct (rawHeaders _ !! _) as [[]|].
Qed.

(** All lines: the first with the name counts, unless the message had one before. *)
Lemma read_headers_tryGet hs m m' name :
  no_cookie name -> read_headers hs m = (m', Ok tt) ->
  tryGet name (headers_ m')
  = match tryGet name (headers_ m) with
    | Some h' => Some h'
    | None => match first_line name hs with Some (n, v) => read_as n v | None => None end
    end.
Proof.
  intros Hn. revert m. induction hs as [|h hs IH]; intros m; cbn [read_headers first_line List.find].
  - intros [= <-]. by destruct (tryGet _ _).
  - unfold mbind, M_bind. destruct (read_header h m) as [m1 [[]|e| |]] eqn:E; [|done..]. intros E1%IH. rewrite E1.
    rewrite (read_header_tryGet _ _ _ _ Hn E). destruct (tryGet name (headers_ m)); [done|]. destruct h as [n v].
    cbn [fst snd]. destruct (LowercaseEqual name n) eqn:En; [|done].
    destruct (read_as n v) eqn:Er; [done|]. destruct (first_line name hs) as [[n' v']|] eqn:Ef; [|done].
    apply find_some in Ef as [_ En']. apply LowercaseEqual_true in En, En'. unfold read_as, makeHeader in *.
    rewrite (makeHeader_ci n' n) by (cbn [fst] in En'; congruence). by destruct (find_registered n).
Qed.

Lemma read_headers_tryGetRaw hs m m' name :
  read_headers hs m = (m', Ok tt) ->
  tryGetRaw name (headers_ m')
  = match tryGetRaw name (headers_ m) with
    | Some r => Some r
    | None => (fun h => {| raw_name := h.1; raw_value := h.2 |}) <$> first_line name hs
    end.
Proof.
  revert m. induction hs as [|h hs IH]; intros m; cbn [read_headers first_line List.find].
  - intros [= <-]. by destruct (tryGetRaw _ _).
  - unfold mbind, M_bind. destruct (read_header h m) as [m1 [[]|e| |]] eqn:E; [|done..]. intros E1%IH. rewrite E1.
    rewrite (read_header_tryGetRaw _ _ _ _ E). destruct (tryGetRaw name (headers_ m)); [done|]. destruct h as [n v].
    cbn [fst snd]. by destruct (LowercaseEqual name n).
Qed.

Lemma read_headers_wf hs m m' : Collection_wf (headers_ m) -> read_headers hs m = (m', Ok tt) -> Collection_wf (headers_ m').
Proof.
  revert m. induction hs as [|h hs IH]; intros m Hm; cbn [read_headers]; [by intros [= <-]|].
  unfold mbind, M_bind. destruct (read_header h m) as [m1 [[]|e| |]] eqn:E; [|done..]. apply IH.
  apply read_header_Ok_inv in E as (m2 & E & ->). pose proof (store_header_retains h.1 (h.2 ++ crlf) (length h.2) (Cursor [] [], m) Hm) as Hw.
  by rewrite E in Hw.
Qed.

(** Lines that are no cookies leave the cookies alone. *)
Lemma read_headers_cookies hs m m' :
  Forall (fun h => no_cookie h.1) hs -> read_headers hs m = (m', Ok tt) -> cookies_ m' = cookies_ m.
Proof.
  intros Hn. revert m. induction Hn as [|h hs [C1 C2] _ IH]; intros m; cbn [read_headers]; [by intros [= <-]|].
  unfold mbind, M_bind. destruct (read_header h m) as [m1 [[]|e| |]] eqn:E; [|done..]. intros ->%IH.
  apply read_header_Ok_inv in E as (m2 & E & ->). apply store_header_Ok in E. rewrite C1, C2 in E. apply E.
Qed.

(** The lines of a block that is read to its end were all read. *)
Lemma HeadersStep_Next hs p rest m c m' :
  Forall header_ok hs -> HeadersStep_apply (Cursor p (headers_text hs ++ crlf ++ rest), m) = ((c, m'), Ok Next) ->
  read_headers hs m = (m', Ok tt).
Proof.
  intros Hok. unfold HeadersStep_apply, Revert. rewrite (bind_Ok cursor_ _ _ _ _ eq_refl). cbn [fst].
  pose proof (header_lines_eval hs p rest m (S (remaining (Cursor p (headers_text hs ++ crlf ++ rest)))) Hok) as Hl.
  unfold unless, mbind, M_bind. destruct (header_lines _ _) as [[c1 m1] [b|e| |]]; destruct (read_headers hs m) as [m2 [[]|e'| |]];
    try (intros; discriminate).
  all: destruct Hl as (-> & -> & ->) || destruct Hl; try (unfold remaining, in_avail; cbn; rewrite length_app; lia).
  unfold advancing, unless, mbind, M_bind, on_cursor, mret, M_ret. cbn [fst snd].
  destruct (advance 2 _) as [[] c2]; cbn; [|done]. by intros [= _ <-].
Qed.

(** *** Typed access to a well-formed collection *)

Lemma tryGet_as_wf k c : Collection_wf c -> tryGet_as k c = Ok (tryGet (class_Name k) c).
Proof.
  intros Hc. unfold tryGet_as. destruct (tryGet _ c) as [h|] eqn:E; [|done]. unfold cast. by rewrite decide_True by by apply (wf_class c).
Qed.

Lemma class_LowercaseEqual k h : LowercaseEqual (class_Name k) (Header_name h) = bool_decide (class_of h = k).
Proof.
  apply bool_decide_ext. rewrite Header_name_class. split; [|by intros ->]. intros E. symmetry. by apply class_Name_inj.
Qed.

Lemma remove_tryGet j k c :
  tryGet (class_Name k) (remove_as j c).2 = if decide (j = k) then None else tryGet (class_Name k) c.
Proof.
  unfold remove_as, Collection_remove, tryGet. case_decide as Ej.
  - subst. destruct (headers c !! _) eqn:E; cbn [snd headers]; [by rewrite lookup_delete_eq|].
    by destruct (rawHeaders c !! _); cbn [snd headers]; rewrite E.
  - destruct (headers c !! toLowercase (class_Name j)); cbn [snd headers].
    + rewrite lookup_delete_ne; [done|]. by intros E%class_Name_inj.
    + by destruct (rawHeaders c !! _).
Qed.

Lemma setMime_tryGet mime k c :
  tryGet (class_Name k) (Collection_setMime mime c)
  = if decide (k = Class.ContentType) then Some (HContentType mime) else tryGet (class_Name k) c.
Proof.
  unfold Collection_setMime. destruct (tryGet (B "Content-Type") c) as [h|] eqn:E.
  - unfold tryGet in *. cbn [headers]. case_decide as Ek.
    + subst k. cbn [class_Name]. rewrite lookup_alter_eq. by destruct (headers c !! _).
    + rewrite lookup_alter_ne; [done|]. intros E'. apply Ek. symmetry. by apply (class_Name_inj Class.ContentType).
  - rewrite add_tryGet, class_LowercaseEqual. cbn [class_of]. case_decide as Ek.
    + subst k. rewrite bool_decide_eq_true_2 by done. cbn [class_Name]. by rewrite E.
    + by rewrite bool_decide_eq_false_2 by congruence.
Qed.

(** ** Properties *)

(** C40. Typed access to headers is safe, and a collection is a map from the header
    classes.  Whatever history it has (adding, removing, clearing, [setMime], a run of the
    request or the response parser over any bytes), the cast of [tryGet<H>()] and
    [get<H>()] is to the class the header has, for every class; [add] files a header under
    its class unless one is there, [remove<H>()] and [setMime] change their own class, and
    none of them changes what is found of another class. *)
Theorem typed_access_safe c k :
  built c ->
  (exists found, tryGet_as k c = Ok found
    /\ (forall h, found = Some h -> class_of h = k)
    /\ get_as k c = (match found with Some h => Ok h | None => Throw (RuntimeError (B "Could not find header")) end)
    /\ has_as k c = bool_decide (is_Some found)
    /\ (forall h, tryGet_as k (Collection_add h c) = Ok (if decide (class_of h = k) then Some (default h found) else found))
    /\ (forall r, tryGet_as k (Collection_addRaw r c) = Ok found)
    /\ (forall j, tryGet_as k (remove_as j c).2 = Ok (if decide (j = k) then None else found))
    /\ (forall mime, tryGet_as k (Collection_setMime mime c)
         = Ok (if decide (k = Class.ContentType) then Some (HContentType mime) else found)))
  /\ tryGet_as Class.ContentLength c = Ok (HContentLength <$> tryGet_ContentLength c)
  /\ tryGet_as Class.TransferEncoding c = Ok (HTransferEncoding <$> tryGet_TransferEncoding c)
  /\ tryGet_as Class.Connection c = Ok (HConnection <$> tryGet_Connection c)
  /\ tryGet_as Class.AcceptEncoding c = Ok (HAcceptEncoding <$> tryGet_AcceptEncoding c).
Proof.
  intros Hc%built_wf. split.
  - exists (tryGet (class_Name k) c). split_and!.
    + by apply tryGet_as_wf.
    + intros h. by apply wf_class.
    + unfold get_as, Collection_get. destruct (tryGet _ c) as [h|] eqn:E; [|done].
      cbn. unfold cast. by rewrite decide_True by by apply (wf_class c).
    + done.
    + intros h. rewrite tryGet_as_wf by by apply add_wf. rewrite add_tryGet, class_LowercaseEqual.
      by case_decide; [rewrite bool_decide_eq_true_2|rewrite bool_decide_eq_false_2].
    + intros r. by apply (tryGet_as_wf k (Collection_addRaw r c)).
    + intros j. rewrite tryGet_as_wf by by apply remove_wf. by rewrite remove_tryGet.
    + intros mime. rewrite tryGet_as_wf by by apply setMime_wf. by rewrite setMime_tryGet.
  - split_and!; rewrite tryGet_as_wf by done; f_equal.
    all: unfold tryGet_ContentLength, tryGet_TransferEncoding, tryGet_Connection, tryGet_AcceptEncoding; cbn [class_Name].
    all: match goal with |- tryGet ?n _ = _ => destruct (tryGet n c) as [h|] eqn:E; [|done] end.
    all: apply (tryGet_name _ _ _ Hc) in E; destruct h; by try discriminate E.
Qed.

(** C38. What typed access finds of the header lines that were parsed.  Once the headers step
    has read a block of well-formed lines, in a message whose headers have any history, the
    header of each class is the one that was there before, or else what the class's own
    parser makes of the value of the first line with the class's name, in any case of
    letters; other lines with that name are dropped, a class without a line (or one that is
    not registered, as [ETag]) has none.  The raw header of a name is the first line's. *)
Theorem parsed_headers_found hs p rest m c m' :
  Forall header_ok hs -> built (headers_ m) ->
  HeadersStep_apply (Cursor p (headers_text hs ++ crlf ++ rest), m) = ((c, m'), Ok Next) ->
  (forall k, tryGet_as k (headers_ m')
     = Ok (match tryGet (class_Name k) (headers_ m), first_line (class_Name k) hs with
           | Some h, _ => Some h
           | None, Some (n, v) => read_as n v
           | None, None => None
           end))
  /\ (forall k n v, first_line (class_Name k) hs = Some (n, v) ->
        if decide (k = Class.ETag) then read_as n v = None else exists h, read_as n v = Some h /\ class_of h = k)
  /\ (forall name, tryGetRaw name (headers_ m')
        = match tryGetRaw name (headers_ m), first_line name hs with
          | Some r, _ => Some r
          | None, Some (n, v) => Some {| raw_name := n; raw_value := v |}
          | None, None => None
          end).
Proof.
  intros Hok Hm E. pose proof (HeadersStep_retains (Cursor p (headers_text hs ++ crlf ++ rest), m) (built_wf _ Hm)) as Hw. rewrite E in Hw. cbn [fst snd] in Hw.
  apply HeadersStep_Next in E; [|done]. split_and!.
  - intros k. rewrite tryGet_as_wf, (read_headers_tryGet hs m m' _ (class_no_cookie k) E) by done. by destruct (tryGet _ _).
  - intros k n v Ef. apply find_some in Ef as [_ En%LowercaseEqual_true]. cbn [fst] in En.
    unfold read_as, makeHeader. rewrite <- (makeHeader_ci (class_Name k) n) by done. case_decide as Ek; [by subst|].
    assert (exists h0, find_registered (class_Name k) = Some h0 /\ class_of h0 = k) as (h0 & -> & Hk).
    { destruct k; try (by eexists; split; [vm_compute; reflexivity|reflexivity]); done. }
    eexists. split; [done|]. by rewrite parseRaw_class.
  - intros name. rewrite (read_headers_tryGetRaw hs m m' name E). destruct (tryGetRaw _ _); [done|].
    by destruct (first_line name hs) as [[]|].
Qed.
End Histories.

(** ** Witnesses *)

Definition typed_request : bytes :=
  B "GET / HTTP/1.1" ++ crlf ++ B "content-LENGTH: 5" ++ crlf ++ B "Content-Length: 7" ++ crlf ++ B "Host: a" ++ crlf ++ crlf.

(** The headers of that request once it was parsed, with a type set by the handler. *)
Definition typed_headers : Collection :=
  Collection_setMime MediaType_default
    (headers_ (request_message (object
       (ParserBase_parse (H := no_dates) (H0 := no_resolver) (H1 := terabyte)
          (ParserBase_feed typed_request (ParserImpl_new 4096)).2).1))).

Lemma typed_headers_built : built (H := no_dates) (H0 := no_resolver) (H1 := terabyte) typed_headers.
Proof.
  apply built_setMime. eapply (built_request (ParserBase_feed typed_request (ParserImpl_new 4096)).2).
  - apply built_empty.
  - apply surjective_pairing.
Qed.

Lemma typed_access_safe_witness :
  (exists found, tryGet_as Class.ContentLength typed_headers = Ok found /\ found = Some (HContentLength 5)
     /\ tryGet_as Class.ContentLength (remove_as Class.ContentLength typed_headers).2 = Ok None)
  /\ (exists found, tryGet_as Class.ContentType typed_headers = Ok found /\ has_as Class.ContentType typed_headers = true).
Proof.
  destruct (typed_access_safe _ Class.ContentLength typed_headers_built) as [(f & E & _ & _ & _ & _ & _ & Hr & _) _].
  destruct (typed_access_safe _ Class.ContentType typed_headers_built) as [(g & E' & _) _]. split.
  - exists f. split; [done|]. split; [|exact (Hr Class.ContentLength)].
    assert (tryGet_as Class.ContentLength typed_headers = Ok (Some (HContentLength 5))) as E2 by (vm_compute; reflexivity).
    rewrite E2 in E. by injection E as <-.
  - exists g. split; [done|]. vm_compute. reflexivity.
Defined.

Definition three_lines : list (bytes * bytes) :=
  [(B "content-LENGTH", B "5"); (B "Content-Length", B "7"); (B "Allow", B "GET")].

Definition three_read : cursor * Message :=
  (HeadersStep_apply (H := no_dates) (H0 := no_resolver)
     (Cursor [] (headers_text three_lines ++ crlf ++ B "rest"), Message_default)).1.

Lemma parsed_headers_found_witness :
  tryGet_as Class.ContentLength (headers_ three_read.2) = Ok (Some (HContentLength 5))
  /\ tryGet_as Class.Allow (headers_ three_read.2) = Ok (Some (HAllow [])).
Proof.
  assert (HeadersStep_apply (H := no_dates) (H0 := no_resolver)
            (Cursor [] (headers_text three_lines ++ crlf ++ B "rest"), Message_default)
          = ((three_read.1, three_read.2), Ok Next)) as E by (vm_compute; reflexivity).
  destruct (parsed_headers_found (H := no_dates) (H0 := no_resolver) (H1 := terabyte) three_lines [] (B "rest")
              Message_default three_read.1 three_read.2) as (Hf & _ & _).
  - repeat constructor; cbn [fst snd]; first [by apply find_char_None|done].
  - apply built_empty.
  - exact E.
  - rewrite !Hf. split; vm_compute; reflexivity.
Defined.
