(* ===== verification/ChunkedBody.v ===== *)
(** * Chunked bodies

    The decoder of [Transfer-Encoding: chunked] on well-formed chunks, and on a
    chunk whose final CRLF is cut in two. *)

From S2P Require Import Prelude Cxx Stream HttpDefs QValue Mime Cookie Net HttpHeader HttpHeaders HttpMessage HeaderMemory.
From S2P Require Import HttpParser Resume Fragmentation RequestText HttpResponse.

Local Open Scope Z_scope.

Section Chunks.
Context `{StringMemory}.

(** A chunk as [ResponseStream::write] writes it. *)
Definition chunk_text (data : bytes) : bytes := to_hex (Z.of_nat (length data)) ++ crlf ++ data ++ crlf.

Definition chunks_text (l : list bytes) : bytes := mjoin (map chunk_text l).
Definition last_chunk : bytes := B "0" ++ crlf.

(** The decoder after the size line of a chunk of [n] bytes, [k] of them stored. *)
Definition in_chunk (n k : Z) (m : Message) : Message * BodyStep :=
  (m, {| chunk := {| chunk_bytesRead := 0; size := n; alreadyAppendedChunkBytes := k |}; bytesRead := 0 |}).
(** Between chunks. *)
Definition between_chunks (k : Z) (m : Message) : Message * BodyStep := in_chunk (-1) k m.

Lemma string_reserve_ok n : 0 <= n <= memory_limit -> string_reserve (wrapu 64 n) = Ok tt.
Proof.
  intros Hn. pose proof memory_limit_ok. pose proof max_size_ok. unfold string_reserve.
  rewrite wrapu_small by lia. by rewrite !(proj2 (Z.ltb_ge _ _)) by lia.
Qed.

Lemma hex_no_CR n : 0 <= n -> CR ∉ to_hex n.
Proof.
  intros Hn Hin. destruct (to_hex_spec n Hn) as (_ & F & _). rewrite list.Forall_forall in F. by apply F in Hin.
Qed.

(** The size line; the token ends at its CR, so any number of digits is read. *)
Lemma chunk_size_line_eval n p rest k m :
  0 <= n < 2 ^ 63 ->
  chunk_size_line (Cursor p (to_hex n ++ crlf ++ rest), between_chunks k m)
  = ((Cursor (p ++ to_hex n ++ crlf) rest, in_chunk n 0 m), Ok true).
Proof.
  intros Hn. unfold chunk_size_line, Revert. destruct (to_hex_spec n) as (Ev & F & Hne); [lia|].
  rewrite (bind_Ok cursor_ _ _ _ _ eq_refl). cbn [fst]. unfold crlf. cbn [app].
  rewrite (run_scan_to _ _ _ _ (Cursor (p ++ to_hex n) (CR :: LF :: rest)))
    by (apply scan_eol; apply hex_no_CR; lia).
  rewrite (bind_Ok cursor_ _ _ _ _ eq_refl). cbn [fst]. unfold position. cbn [before]. rewrite Token_text_app. cbv zeta.
  pose proof (from_chars_u_app 16 (2 ^ 64 - 1) (to_hex n) [] 0 Hne F I) as Hfc. rewrite app_nil_r, Ev in Hfc.
  rewrite Hfc by lia. unfold number_before. cbn [ec ptr Cxx.value].
  rewrite bool_decide_eq_true_2.
  2: { unfold Token_raw. cbn [before after]. rewrite <- app_assoc, drop_app_length, lookup_app_r by lia.
       by rewrite Nat.sub_diag. }
  cbv iota. cbn [negb]. rewrite run_advance_2. rewrite (bind_Ok (on_object _) _ _ _ _ eq_refl). cbn [fst snd].
  unfold mret, M_ret. cbn. rewrite wraps_small by lia. by rewrite <- app_assoc.
Qed.

Lemma fits_ok z : - 2 ^ 63 <= z < 2 ^ 63 -> fits_ssize z = true.
Proof. intros. unfold fits_ssize. by rewrite (proj2 (Z.leb_le _ _)), (proj2 (Z.ltb_lt _ _)) by lia. Qed.

(** The data of a chunk that is all there: with [k] of its bytes stored before. *)
Lemma chunk_data_complete data p rest k m :
  let n := (Z.of_nat k + Z.of_nat (length data)) in
  0 < n -> n + Z.of_nat (length (body_ m)) <= memory_limit -> n + Z.of_nat (length rest) + 2 < 2 ^ 63 ->
  chunk_data (Cursor p (data ++ crlf ++ rest), in_chunk n (Z.of_nat k) m)
  = ((Cursor (p ++ data ++ crlf) rest, in_chunk n (Z.of_nat k) (set_body (body_ m ++ data) m)), Ok Complete).
Proof.
  intros n Hn Hm Hr. pose proof memory_limit_ok. pose proof max_size_ok. unfold chunk_data.
  rewrite (bind_Ok object_ _ _ _ _ eq_refl). cbn [snd in_chunk chunk size alreadyAppendedChunkBytes]. cbv zeta.
  rewrite (proj2 (Z.eqb_neq _ _)) by lia. rewrite string_reserve_ok by lia.
  rewrite (bind_Ok (lift (Ok tt)) _ _ _ _ eq_refl), (bind_Ok cursor_ _ _ _ _ eq_refl). cbn [fst].
  assert (Z.of_nat (remaining (Cursor p (data ++ crlf ++ rest))) = Z.of_nat (length data) + 2 + Z.of_nat (length rest)) as Ea.
  { unfold remaining, in_avail. cbn [after]. rewrite !length_app. unfold crlf. cbn [length]. lia. }
  rewrite Ea. rewrite !fits_ok by lia. cbn [andb negb].
  rewrite (proj2 (Z.ltb_ge _ _)) by lia. replace (n - Z.of_nat k) with (Z.of_nat (length data)) by lia.
  rewrite wrapu_small by lia.
  assert (advance (Z.of_nat (length data)) (Cursor p (data ++ crlf ++ rest)) = (true, Cursor (p ++ data) (crlf ++ rest))) as E1.
  { rewrite advance_within by lia. unfold sbump. cbn [before after]. by rewrite Nat2Z.id, take_app_length, drop_app_length. }
  rewrite (bind_Ok _ _ _ _ _ (on_cursor_eq _ _ _ _ _ E1)).
  assert (advance 2 (Cursor (p ++ data) (crlf ++ rest)) = (true, Cursor (p ++ data ++ crlf) rest)) as E2.
  { rewrite advance_within by (unfold remaining, in_avail, crlf; cbn; lia). unfold sbump, crlf. cbn. by rewrite <- app_assoc. }
  rewrite (bind_Ok _ _ _ _ _ (on_cursor_eq _ _ _ _ _ E2)), (bind_Ok cursor_ _ _ _ _ eq_refl). cbn [fst].
  unfold append_body, mbind, M_bind, object_, lift, on_object. cbn [fst snd]. unfold Token_raw, position. cbn [before after].
  rewrite string_append_ok.
  - rewrite Nat2Z.id, <- app_assoc, drop_app_length, <- app_assoc, take_app_length. done.
  - rewrite length_drop, !length_app. lia.
  - cbn. lia.
Qed.

Lemma Chunk_parse_eval data p rest k m :
  data <> [] -> Z.of_nat (length (body_ m ++ data)) <= memory_limit ->
  Z.of_nat (length data + length rest) + 2 < 2 ^ 63 ->
  Chunk_parse (Cursor p (chunk_text data ++ rest), between_chunks k m)
  = ((Cursor (p ++ chunk_text data) rest,
      in_chunk (Z.of_nat (length data)) 0 (set_body (body_ m ++ data) m)), Ok Complete).
Proof.
  intros Hd Hm Hr. rewrite length_app in Hm. unfold Chunk_parse.
  rewrite (bind_Ok object_ _ _ _ _ eq_refl). cbn [snd between_chunks in_chunk chunk size].
  change (-1 =? -1) with true. cbv iota. unfold unless, chunk_text. rewrite <- !app_assoc.
  erewrite bind_Ok by (apply chunk_size_line_eval; lia). cbv iota.
  pose proof (chunk_data_complete data (p ++ to_hex (Z.of_nat (length data)) ++ crlf) rest 0 m) as Hc. cbv zeta in Hc.
  change (Z.of_nat 0) with 0 in Hc. rewrite Z.add_0_l in Hc. rewrite Hc; [|destruct data; [done|cbn; lia]|lia|lia].
  by rewrite <- !app_assoc.
Qed.

Lemma last_chunk_eval p rest k m :
  Chunk_parse (Cursor p (last_chunk ++ rest), between_chunks k m)
  = ((Cursor (p ++ last_chunk) rest, in_chunk 0 0 m), Ok Final).
Proof.
  unfold Chunk_parse. rewrite (bind_Ok object_ _ _ _ _ eq_refl). cbn [snd between_chunks in_chunk chunk size].
  change (-1 =? -1) with true. cbv iota. unfold unless. change (last_chunk ++ rest) with (to_hex 0 ++ crlf ++ rest).
  erewrite bind_Ok by (by apply chunk_size_line_eval). done.
Qed.

Lemma chunk_loop_eval l p rest k m n :
  Forall (fun d => d <> []) l -> Z.of_nat (length (body_ m ++ mjoin l)) <= memory_limit ->
  Z.of_nat (length (chunks_text l ++ last_chunk ++ rest)) < 2 ^ 63 -> (length l < n)%nat ->
  exists k', chunk_loop n (Cursor p (chunks_text l ++ last_chunk ++ rest), between_chunks k m)
  = ((Cursor (p ++ chunks_text l ++ last_chunk) rest, between_chunks k' (set_body (body_ m ++ mjoin l) m)), Ok Done).
Proof.
  intros Hl. revert p k m n. induction Hl as [|d l Hd Hl IH]; intros p k m n Hm Hr Hn;
    (destruct n as [|n]; [lia|]); cbn [chunk_loop].
  - exists 0. cbn [chunks_text map mjoin list_join app]. rewrite (bind_Ok _ _ _ _ _ (last_chunk_eval p rest k m)).
    cbv iota. rewrite app_nil_r. unfold between_chunks, in_chunk. destruct m. done.
  - change (chunks_text (d :: l)) with (chunk_text d ++ chunks_text l) in *.
    change (mjoin (d :: l)) with (d ++ mjoin l) in *. rewrite <- !app_assoc in *.
    rewrite !length_app in Hm, Hr. unfold chunk_text in Hr at 1. rewrite !length_app in Hr.
    change (length crlf) with 2%nat in Hr.
    rewrite (bind_Ok _ _ _ _ _ (Chunk_parse_eval d p (chunks_text l ++ last_chunk ++ rest) k m Hd
      ltac:(rewrite length_app; lia) ltac:(rewrite !length_app; lia))).
    cbv iota. rewrite (bind_Ok (on_object _) _ _ _ _ eq_refl), (bind_Ok cursor_ _ _ _ _ eq_refl). cbn [fst].
    replace (eof _) with false.
    2: { symmetry. unfold eof, remaining, in_avail. cbn [after]. rewrite !length_app.
         change (length last_chunk) with 3%nat. apply Nat.eqb_neq. lia. }
    destruct (IH (p ++ chunk_text d) 0 (set_body (body_ m ++ d) m) n) as [k' E].
    + cbn. rewrite !length_app. lia.
    + rewrite !length_app. lia.
    + cbn in Hn. lia.
    + exists k'. change (on_chunk Chunk_reset _) with (between_chunks 0 (set_body (body_ m ++ d) m)). rewrite E.
      cbn [body_ set_body]. by rewrite <- !app_assoc.
Qed.

Lemma chunks_text_length l : (length l <= length (chunks_text l))%nat.
Proof.
  induction l as [|d l IH]; [done|]. change (chunks_text (d :: l)) with (chunk_text d ++ chunks_text l).
  rewrite length_app. unfold chunk_text, crlf. rewrite !length_app. cbn. lia.
Qed.

(** The decoder reads what [ResponseStream::write] and [ends] write: a body sent in
    non-empty chunks is put together, and the decoder is ready for the next. *)
Lemma chunked_decoded l p rest m k :
  Forall (fun d => d <> []) l -> Z.of_nat (length (body_ m ++ mjoin l)) <= memory_limit ->
  Z.of_nat (length (chunks_text l ++ last_chunk ++ rest)) < 2 ^ 63 ->
  exists k', parseTransferEncoding Chunked (Cursor p (chunks_text l ++ last_chunk ++ rest), between_chunks k m)
  = ((Cursor (p ++ chunks_text l ++ last_chunk) rest, between_chunks k' (set_body (body_ m ++ mjoin l) m)), Ok Done).
Proof.
  intros Hl Hm Hr. unfold parseTransferEncoding. rewrite decide_True by done.
  rewrite (bind_Ok cursor_ _ _ _ _ eq_refl). cbn [fst]. unfold catching.
  edestruct (chunk_loop_eval l p rest k m) as [k' E]; [done..| |by exists k'; rewrite E].
  unfold remaining, in_avail. cbn [after]. pose proof (chunks_text_length l). rewrite length_app. lia.
Qed.

Lemma append_body_huge raw s :
  append_body raw (2 ^ 64 - 1) s = (s, Throw (LengthError (B "basic_string::append"))).
Proof.
  pose proof max_size_ok. destruct s as [c x]. unfold append_body. rewrite (bind_Ok object_ _ _ _ _ eq_refl).
  assert (string_append raw (2 ^ 64 - 1) (body_ x.1) = Throw (LengthError (B "basic_string::append"))) as E.
  { unfold string_append. by rewrite (proj2 (Z.ltb_lt _ _)) by lia. }
  cbn [snd]. by rewrite E.
Qed.

(** *** The sender *)

(** A sequence of [write]s. *)
Definition write_all (l : list bytes) (s : ResponseStream) : ResponseStream :=
  fold_left (fun s d => (ResponseStream_write d s).2) l s.

Lemma mjoin_4 (a b c d : bytes) : mjoin [a; b; c; d] = a ++ b ++ c ++ d.
Proof. simpl. by rewrite app_nil_r. Qed.

Lemma write_all_append l s :
  dyn_wf (stream_buf s) ->
  exists ok, appended (chunks_text l) (stream_buf s) ok (stream_buf (write_all l s))
  /\ stream_peer (write_all l s) = stream_peer s /\ stream_timeout (write_all l s) = stream_timeout s.
Proof.
  revert s. induction l as [|d l IH]; intros s Hd; [exists true; split; [by apply appended_nil|done]|].
  pose proof (put_texts_append [to_hex (Z.of_nat (length d)); crlf; d; crlf] _ Hd) as Ha.
  assert (mjoin [to_hex (Z.of_nat (length d)); crlf; d; crlf] = chunk_text d) as Et by apply mjoin_4.
  destruct (IH (ResponseStream_write d s).2) as (ok & Hl & Hp); [apply Ha|]. rewrite Et in Ha.
  eexists. split; [|exact Hp]. eapply appended_app_any; [done|exact Ha|exact Hl].
Qed.

(** What an empty piece leaves of the pieces: its chunk is the last one. *)
Fixpoint before_empty (l : list bytes) : list bytes :=
  match l with
  | [] | [] :: _ => []
  | d :: l' => d :: before_empty l'
  end.

Lemma before_empty_all l : Forall (fun d => d <> []) l -> before_empty l = l.
Proof. induction 1 as [|[|] l Hd _ IH]; [done..|]. cbn. by rewrite IH. Qed.

Lemma before_empty_nonempty l : Forall (fun d => d <> []) (before_empty l).
Proof. induction l as [|[|] l IH]; by constructor. Qed.

Lemma chunks_text_split l :
  chunks_text l ++ last_chunk ++ crlf
  = chunks_text (before_empty l) ++ last_chunk
    ++ drop (length (chunks_text (before_empty l) ++ last_chunk)) (chunks_text l ++ last_chunk ++ crlf).
Proof.
  enough (exists rest, chunks_text l ++ last_chunk ++ crlf = chunks_text (before_empty l) ++ last_chunk ++ rest) as [rest ->].
  { by rewrite (app_assoc _ last_chunk rest), drop_app_length, <- app_assoc. }
  induction l as [|d l [rest E]]; [by exists crlf|].
  change (chunks_text (d :: l)) with (chunk_text d ++ chunks_text l). destruct d as [|c d].
  - exists (crlf ++ chunks_text l ++ last_chunk ++ crlf). change (chunk_text []) with (last_chunk ++ crlf).
    by rewrite <- !app_assoc.
  - exists rest. change (before_empty ((c :: d) :: l)) with ((c :: d) :: before_empty l).
    change (chunks_text ((c :: d) :: before_empty l)) with (chunk_text (c :: d) ++ chunks_text (before_empty l)).
    by rewrite <- !app_assoc, E.
Qed.

Lemma stream_disarm_ok s : stream_timeout s <> TimerGone -> exists t, stream_disarm s = (set_stream_timeout t s, Ok tt).
Proof. unfold stream_disarm, mbind, M_bind, get, lift. destruct (stream_timeout s); [by eexists..|done]. Qed.

(** C4. What a [ResponseStream] sends is what the decoder reads: after a head, any pieces
    written one after the other and [ends] are handed to the transport as one buffer, if
    they fit, the peer is there and disarming the timeout does not throw.  The decoder makes of
    it the body that was written; an empty piece is a last chunk, so that the body ends
    before the first one and what follows is left unread. *)
Theorem stream_roundtrip l s fd p m k :
  dyn_wf (stream_buf s) -> stream_peer s = Some fd -> stream_timeout s <> TimerGone ->
  let text := chunks_text l ++ last_chunk ++ crlf in
  let decoded := chunks_text (before_empty l) ++ last_chunk in
  Z.of_nat (length (content (stream_buf s) ++ text)) <= maxSize_ (stream_buf s) ->
  Z.of_nat (length (body_ m ++ mjoin (before_empty l))) <= memory_limit -> Z.of_nat (length text) < 2 ^ 63 ->
  (exists b, (ResponseStream_ends (write_all l s)).2 = Ok (AsyncWrite fd b)
   /\ raw_data b = content (stream_buf s) ++ text)
  /\ (exists k', parseTransferEncoding Chunked (Cursor p text, between_chunks k m)
       = ((Cursor (p ++ decoded) (drop (length decoded) text),
           between_chunks k' (set_body (body_ m ++ mjoin (before_empty l)) m)), Ok Done))
  /\ (Forall (fun d => d <> []) l -> before_empty l = l /\ drop (length decoded) text = crlf).
Proof.
  intros Hd Hp Htm text decoded Hfit Hm Ht. split; [|split].
  - destruct (write_all_append l s Hd) as (ok & Ha & Hp' & Htm').
    pose proof (put_texts_append [B "0"; crlf; crlf] _ (app_wf _ _ _ _ Ha)) as He.
    change (mjoin [B "0"; crlf; crlf]) with (last_chunk ++ crlf) in He.
    assert (appended text (stream_buf s) (put_texts [B "0"; crlf; crlf] (stream_buf (write_all l s))).1
              (put_texts [B "0"; crlf; crlf] (stream_buf (write_all l s))).2) as Hall.
    { eapply appended_app; [done|exact Ha|exact He|]. intros _. by right. }
    unfold ResponseStream_ends. destruct (put_texts _ _) as [ok' d']. cbn [fst snd] in Hall.
    destruct Hall as [W M' C O]. rewrite length_app in Hfit. rewrite bool_decide_eq_true_2 in O by lia. subst ok'.
    cbn [negb]. unfold ResponseStream_flush.
    destruct (stream_disarm_ok (set_stream_buf d' (write_all l s))) as [t Et]; [cbn; by rewrite Htm'|].
    rewrite (bind_Ok _ _ _ _ _ Et). unfold flush_buffer. cbn. rewrite Hp', Hp. eexists. split; [done|].
    rewrite buffer_content by done. cbn. rewrite C. by rewrite take_ge by lia.
  - destruct (chunked_decoded (before_empty l) p (drop (length decoded) text) m k) as [k' E];
      [apply before_empty_nonempty|done|unfold decoded, text; by rewrite <- chunks_text_split|].
    exists k'. unfold decoded, text in E |- *. by rewrite <- chunks_text_split in E.
  - intros Hl. unfold decoded. rewrite (before_empty_all l Hl). split; [done|].
    unfold text. by rewrite app_assoc, drop_app_length.
Qed.

(** An integer put into a stream is announced with [digitsCount] of it, which
    counts the digits after the last zero digit only: a number that ends in 0 is
    announced as an empty chunk, and that ends the body for the receiver. *)
Theorem stream_integer_ends_body n st p rest m k :
  0 < n < 2 ^ 32 -> n mod 10 = 0 ->
  exists texts, put_int 32 n st = stream_put texts st
  /\ mjoin texts = last_chunk ++ to_hex n ++ crlf
  /\ parseTransferEncoding Chunked (Cursor p (mjoin texts ++ rest), between_chunks k m)
     = ((Cursor (p ++ last_chunk) ((to_hex n ++ crlf) ++ rest), between_chunks 0 m), Ok Done).
Proof.
  intros Hn H10. exists [to_hex 0; crlf; to_hex n; crlf]. split; [|split].
  - unfold put_int. assert (digitsCount n = 0) as ->; [|by rewrite wrapu_small by lia].
    unfold digitsCount. cbn [digitsCount_loop]. rewrite Z.rem_mod_nonneg by lia. by rewrite H10.
  - apply mjoin_4.
  - rewrite mjoin_4. change (to_hex 0 ++ crlf ++ to_hex n ++ crlf) with (last_chunk ++ to_hex n ++ crlf).
    rewrite <- !app_assoc. unfold parseTransferEncoding. rewrite decide_True by done.
    rewrite (bind_Ok cursor_ _ _ _ _ eq_refl). cbn [fst]. unfold catching. cbn [chunk_loop].
    rewrite (bind_Ok _ _ _ _ _ (last_chunk_eval _ _ _ _)). done.
Qed.

(** A chunk whose CRLF arrives in two pieces is not decoded: the CR is stored in
    the body, and the LF makes the decoder advance by (size_t) -1, one byte at a
    time, and then throw from [append]. *)
Theorem chunk_split_crlf data p rest m :
  let n := Z.of_nat (length data) in
  data <> [] -> n + 2 + Z.of_nat (length (body_ m)) + Z.of_nat (length rest) <= memory_limit ->
  let s := ((Cursor (p ++ data ++ [CR]) [], in_chunk n (n + 1) (set_body (body_ m ++ data ++ [CR]) m))) in
  chunk_data (Cursor p (data ++ [CR]), in_chunk n 0 m) = (s, Ok Incomplete)
  /\ (chunk_data (extend (LF :: rest) s.1, s.2)).2 = Throw (LengthError (B "basic_string::append"))
  /\ advance_iterations (wrapu 64 (n - (n + 1))) (extend (LF :: rest) s.1) = 2 ^ 64 - 1.
Proof.
  intros n Hd Hm s. pose proof memory_limit_ok. pose proof max_size_ok.
  assert (0 < n) as Hn by (unfold n; destruct data; [done|cbn; lia]).
  split; [|split].
  - unfold chunk_data. rewrite (bind_Ok object_ _ _ _ _ eq_refl).
    cbn [snd in_chunk chunk size alreadyAppendedChunkBytes]. cbv zeta.
    rewrite (proj2 (Z.eqb_neq _ _)) by lia. rewrite string_reserve_ok by lia.
    rewrite (bind_Ok (lift (Ok tt)) _ _ _ _ eq_refl), (bind_Ok cursor_ _ _ _ _ eq_refl). cbn [fst].
    assert (Z.of_nat (remaining (Cursor p (data ++ [CR]))) = n + 1) as Ea.
    { unfold remaining, in_avail. cbn [after]. rewrite length_app. cbn [length]. lia. }
    rewrite Ea, !fits_ok by lia. cbn [andb negb]. rewrite (proj2 (Z.ltb_lt _ _)) by lia.
    assert (advance (n + 1) (Cursor p (data ++ [CR])) = (true, Cursor (p ++ data ++ [CR]) [])) as E1.
    { rewrite advance_within by lia. unfold sbump. cbn [before after].
      replace (Z.to_nat (n + 1)) with (length (data ++ [CR])) by (rewrite length_app; cbn; lia).
      by rewrite firstn_all, drop_all. }
    rewrite (bind_Ok _ _ _ _ _ (on_cursor_eq _ _ _ _ _ E1)), (bind_Ok cursor_ _ _ _ _ eq_refl). cbn [fst].
    unfold append_body, mbind, M_bind, object_, lift, on_object. cbn [fst snd]. unfold Token_raw, position.
    cbn [before after]. rewrite app_nil_r, drop_app_length, string_append_ok.
    + replace (Z.to_nat (n + 1)) with (length (data ++ [CR])) by (rewrite length_app; cbn; lia).
      by rewrite firstn_all.
    + rewrite length_app. cbn. lia.
    + cbn. lia.
  - unfold chunk_data, s. rewrite (bind_Ok object_ _ _ _ _ eq_refl).
    cbn [snd in_chunk chunk size alreadyAppendedChunkBytes fst]. cbv zeta.
    rewrite (proj2 (Z.eqb_neq _ _)) by lia. rewrite string_reserve_ok by lia.
    rewrite (bind_Ok (lift (Ok tt)) _ _ _ _ eq_refl), (bind_Ok cursor_ _ _ _ _ eq_refl). cbn [fst].
    assert (Z.of_nat (remaining (extend (LF :: rest) (Cursor (p ++ data ++ [CR]) []))) = 1 + Z.of_nat (length rest)) as Ea.
    { unfold remaining, in_avail. cbn. lia. }
    rewrite Ea, !fits_ok by lia. cbn [andb negb]. rewrite (proj2 (Z.ltb_ge _ _)) by lia.
    replace (n - (n + 1)) with (-1) by lia. change (wrapu 64 (-1)) with (2 ^ 64 - 1).
    set (c0 := extend (LF :: rest) _). destruct (advance (2 ^ 64 - 1) c0) as [ok1 c1] eqn:E1.
    rewrite (bind_Ok _ _ _ _ _ (on_cursor_eq _ _ _ _ _ E1)). destruct (advance 2 c1) as [ok2 c2] eqn:E2.
    rewrite (bind_Ok _ _ _ _ _ (on_cursor_eq _ _ _ _ _ E2)), (bind_Ok cursor_ _ _ _ _ eq_refl).
    by rewrite (bind_Throw _ _ _ _ _ (append_body_huge _ _)).
  - replace (n - (n + 1)) with (-1) by lia. unfold advance_iterations.
    change (wraps 64 (wrapu 64 (-1))) with (-1). by rewrite (proj2 (Z.ltb_ge _ _)) by lia.
Qed.
End Chunks.

(** ** Witnesses *)

Definition empty_stream : ResponseStream :=
  {| stream_response := Message_default; stream_peer := Some 7; stream_buf := DynamicStreamBuf_new 16 512;
     stream_timeout := TimerIdle |}.

(** The third piece is empty: the fourth is sent and not read. *)
Lemma stream_roundtrip_witness :
  (exists b, (ResponseStream_ends (write_all [B "Wiki"; B "pedia"; []; B "lost"] empty_stream)).2 = Ok (AsyncWrite 7 b)
   /\ raw_data b = B "4" ++ crlf ++ B "Wiki" ++ crlf ++ B "5" ++ crlf ++ B "pedia" ++ crlf ++ B "0" ++ crlf ++ crlf
        ++ B "4" ++ crlf ++ B "lost" ++ crlf ++ B "0" ++ crlf ++ crlf)
  /\ exists k', parseTransferEncoding (H := terabyte) Chunked
       (Cursor [] (chunks_text [B "Wiki"; B "pedia"; []; B "lost"] ++ last_chunk ++ crlf), between_chunks 0 Message_default)
     = ((Cursor (B "4" ++ crlf ++ B "Wiki" ++ crlf ++ B "5" ++ crlf ++ B "pedia" ++ crlf ++ B "0" ++ crlf)
           (crlf ++ B "4" ++ crlf ++ B "lost" ++ crlf ++ B "0" ++ crlf ++ crlf),
         between_chunks k' (set_body (B "Wikipedia") Message_default)), Ok Done).
Proof.
  destruct (stream_roundtrip (H := terabyte) [B "Wiki"; B "pedia"; []; B "lost"] empty_stream 7 [] Message_default 0)
    as (Hs & Hp & _).
  - apply new_wf. lia.
  - reflexivity.
  - discriminate.
  - vm_compute. discriminate.
  - vm_compute. discriminate.
  - vm_compute. reflexivity.
  - split; [exact Hs|exact Hp].
Defined.

Lemma stream_integer_ends_body_witness :
  exists texts, put_int 32 120 empty_stream = stream_put texts empty_stream
  /\ mjoin texts = last_chunk ++ B "78" ++ crlf
  /\ parseTransferEncoding (H := terabyte) Chunked (Cursor [] (mjoin texts ++ []), between_chunks 0 Message_default)
     = ((Cursor ([] ++ last_chunk) ((B "78" ++ crlf) ++ []), between_chunks 0 Message_default), Ok Done).
Proof. apply (stream_integer_ends_body (H := terabyte) 120); [lia|reflexivity]. Defined.

Lemma chunk_split_crlf_witness :
  chunk_data (H := terabyte) (Cursor (B "5" ++ crlf) (B "hello" ++ [CR]), in_chunk 5 0 Message_default)
  = ((Cursor ((B "5" ++ crlf) ++ B "hello" ++ [CR]) [], in_chunk 5 6 (set_body (B "hello" ++ [CR]) Message_default)),
     Ok Incomplete).
Proof.
  apply (chunk_split_crlf (H := terabyte) (B "hello") (B "5" ++ crlf) (B "0") Message_default); [discriminate|].
  vm_compute. discriminate.
Defined.
