(* ===== verification/HttpHandler.v ===== *)
(** * The HTTP handler: [Handler::onInput] of [src/common/http.cc]

    One parser per connection.  Each input is fed to it and parsed; a complete
    request is dispatched to the application, a [std::exception] is answered with an
    error response, and both leave the parser reset. *)

From S2P Require Import Prelude Cxx Stream HttpDefs QValue Mime Cookie Net HttpHeader HttpHeaders HttpMessage HeaderMemory.
From S2P Require Import HttpParser Termination Resume Fragmentation RequestText HttpResponse.

Local Open Scope Z_scope.

Definition DefaultMaxRequestSize : Z := 4096.
Definition DefaultMaxResponseSize : Z := 2 ^ 32 - 1.

Record Handler : Set := { maxRequestSize_ : Z; maxResponseSize_ : Z }.

Definition Handler_new : Handler :=
  {| maxRequestSize_ := DefaultMaxRequestSize; maxResponseSize_ := DefaultMaxResponseSize |}.
Definition setMaxRequestSize (value : Z) (h : Handler) : Handler :=
  {| maxRequestSize_ := value; maxResponseSize_ := maxResponseSize_ h |}.
Definition setMaxResponseSize (value : Z) (h : Handler) : Handler :=
  {| maxRequestSize_ := maxRequestSize_ h; maxResponseSize_ := value |}.

(** [onConnection]: the parser stored with the peer. *)
Definition onConnection (h : Handler) : RequestParser := ParserImpl_new (Z.to_nat (maxRequestSize_ h)).

(** How the application's function ends; what it throws may be no [std::exception]. *)
Inductive application_end : Type := Returned | Threw (e : exn) | ThrewOther | AppUndefined.

(** What an input makes the handler do. *)
Inductive event : Type :=
  | SetIdle (idle : bool)
  | OnRequest (request : Request) (response : ResponseWriter)
  | Respond (code : Z) (o : outcome).

(** How [onInput] ends: normally, or by an exception of the application that no handler
    catches. *)
Inductive input_end : Type := Handled (events : list event) | Escaped (events : list event).

Section OnInput.
Context `{DateLib, Resolver, StringMemory, Iteration, ContentEncodings, Compressors}.

(** The application; the peer's descriptor and address. *)
Context (onRequest : Request -> ResponseWriter -> application_end) (handler : Handler) (fd : Z) (peer_address : Address).

Definition writer_for (request : Request) : ResponseWriter :=
  ResponseWriter_new (version_ (request_message request)) (Some fd) (maxResponseSize_ handler).

(** The code and the text of the response to an exception. *)
Definition error_code (e : exn) : Z :=
  match e with HttpError code _ => code | _ => Code.value Code.Internal_Server_Error end.

(** The two handlers, of [const HttpError&] and of [const std::exception&]: a new writer, [send],
    [parser->reset()].  [exn] is the exceptions derived from [std::exception]. *)
Definition answer_error (e : exn) (events : list event) (p : RequestParser) : RequestParser * result input_end :=
  match send (error_code e) (what e) MediaType_default (writer_for (object p)) with
  | (_, Ok o) => (ParserImpl_reset p, Ok (Handled (events ++ [SetIdle true; Respond (error_code e) o])))
  | (_, Throw e') => (p, Throw e')
  | (_, UB) => (p, UB)
  | (_, OutOfFuel) => (p, OutOfFuel)
  end.

(** The response the application is given for a request. *)
Definition response_to (request : Request) : ResponseWriter :=
  let control := default Close (tryGet_Connection (headers_ (request_message request))) in
  HttpResponse.on_headers (Collection_add (HConnection control)) (writer_for request).

Definition dispatch (p : RequestParser) : RequestParser * result input_end :=
  let request := copyAddress peer_address (object p) in
  let p := set_object request p in
  let events := [SetIdle false; OnRequest request (response_to request)] in
  match onRequest request (response_to request) with
  | Returned => (ParserImpl_reset p, Ok (Handled events))
  | Threw e => answer_error e events p
  | ThrewOther => (p, Ok (Escaped events))
  | AppUndefined => (p, UB)
  end.

Definition too_large : exn := HttpError_ Code.Request_Entity_Too_Large "Request exceeded maximum buffer size".

Definition onInput (data : bytes) : M RequestParser input_end := fun p =>
  let '(ok, p) := ParserBase_feed data p in
  if negb ok then answer_error too_large [] (ParserImpl_reset p)
  else
    match ParserBase_parse p with
    | (p, Ok Done) => dispatch p
    | (p, Ok _) => (p, Ok (Handled []))
    | (p, Throw e) => answer_error e [] p
    | (p, UB) => (p, UB)
    | (p, OutOfFuel) => (p, OutOfFuel)
    end.

(** ** Lemmas *)

(** A parser that was reset: nothing buffered, nothing parsed. *)
Record fresh (max : nat) (p : RequestParser) : Prop := {
  fresh_buffer : buffer p = ArrayStreamBuf_new max;
  fresh_step : currentStep p = 0%nat;
  fresh_object : object p = Request_default }.

Lemma reset_fresh (p : RequestParser) : fresh (array_maxSize (buffer p)) (ParserImpl_reset p).
Proof. by split. Qed.

(** An error response: no typed header, no cookie. *)
Definition error_text (v : Version) (code : Z) (reason : bytes) : bytes :=
  versionString v ++ B " " ++ to_string code ++ B " " ++ codeString code ++ crlf
  ++ B "Content-Length: " ++ to_string (Z.of_nat (length reason)) ++ crlf ++ crlf ++ reason.

Lemma order_empty {A B} (order : A -> list B) (l : list B) a : order a ≡ₚ l -> l = [] -> order a = [].
Proof. intros Hp ->. by apply Permutation_nil. Qed.

Lemma error_response_text v code reason :
  response_text {| version_ := v; code_ := code; body_ := []; cookies_ := ∅; headers_ := Collection_empty |} reason
  = Some (error_text v code reason).
Proof.
  unfold response_text, cookies_text, Collection_list, CookieJar_list, jar_begin. cbn [headers_ headers Collection_empty cookies_].
  rewrite (order_empty header_order _ _ (header_order_ok _)) by apply map_to_list_empty.
  rewrite (order_empty jar_order _ _ (jar_order_ok _)) by apply map_to_list_empty.
  cbn. unfold status_text, error_text. cbn [version_ code_]. by rewrite <- !app_assoc.
Qed.

(** What becomes of the response to an exception: its text for the peer, or nothing if the
    text is longer than a response may be. *)
Definition error_response (e : exn) (r : Request) : outcome :=
  let text := error_text (version_ (request_message r)) (error_code e) (what e) in
  if bool_decide (Z.of_nat (length text) <= maxResponseSize_ handler)
  then AsyncWrite fd (Stream.Raw text (length text)) else Rejected exceeded.

Lemma send_error e (r : Request) :
  0 <= maxResponseSize_ handler ->
  (send (error_code e) (what e) MediaType_default (writer_for r)).2 = Ok (error_response e r).
Proof.
  intros Hmax. unfold error_response. set (text := error_text _ _ _). unfold send, sendImpl.
  change (MediaType_isValid MediaType_default) with false. cbv iota.
  set (w := on_response (set_code (error_code e)) (writer_for r)).
  change ((putOnWire (what e) w).2 = Ok (if bool_decide (Z.of_nat (length text) <= maxResponseSize_ handler)
        then AsyncWrite fd (Stream.Raw text (length text)) else Rejected exceeded)).
  destruct (new_wf_any DefaultStreamSize (maxResponseSize_ handler)) as [Hd Hc]; [done..|].
  rewrite (putOnWire_eval w (what e) text); [done|done|done|]. apply error_response_text.
Qed.

Lemma parse_steps_keeps n (p q : RequestParser) r :
  parse_steps n p = (q, r) -> array_maxSize (buffer q) = array_maxSize (buffer p) /\ r <> Ok Next.
Proof.
  revert p. induction n as [|n IH]; intros p; cbn [parse_steps]; [by intros [= <- <-]|].
  unfold mbind, M_bind. destruct (apply_step p) as [p1 [s|e| |]] eqn:Es; apply apply_step_conserves in Es as [_ Hm];
    try (by intros [= <- <-]).
  destruct (decide (s = Next)); [|intros [= <- <-]; split; [done|congruence]]. intros [? ?]%IH. by rewrite <- Hm.
Qed.

Lemma feed_maxSize data (p : RequestParser) :
  array_maxSize (buffer (ParserBase_feed data p).2) = array_maxSize (buffer p).
Proof. unfold ParserBase_feed, ArrayStreamBuf_feed. by destruct (_ <? _)%nat. Qed.

(** How an input is dealt with, in every case: what is in the parser afterwards, and what
    was done.  [parsed_by] is the parser's own run on the input. *)
Section Handled.
Context (data : bytes) (p : RequestParser).
Definition parsed_by : RequestParser * result State := ParserBase_parse (ParserBase_feed data p).2.
(** The request a parser has read, as it is dispatched. *)
Definition request_of (q : RequestParser) : Request := copyAddress peer_address (object q).
Definition served_events (q : RequestParser) : list event :=
  [SetIdle false; OnRequest (request_of q) (response_to (request_of q))].
Definition error_events (e : exn) (r : Request) : list event :=
  [SetIdle true; Respond (error_code e) (error_response e r)].

Inductive handled : RequestParser -> input_end -> Prop :=
  | not_complete q :
      (ParserBase_feed data p).1 = true -> parsed_by = (q, Ok Again) -> handled q (Handled [])
  | does_not_fit p' :
      (ParserBase_feed data p).1 = false -> fresh (array_maxSize (buffer p)) p' ->
      handled p' (Handled (error_events too_large Request_default))
  | not_parsed q e p' :
      (ParserBase_feed data p).1 = true -> parsed_by = (q, Throw e) -> fresh (array_maxSize (buffer p)) p' ->
      handled p' (Handled (error_events e (object q)))
  | served q p' :
      (ParserBase_feed data p).1 = true -> parsed_by = (q, Ok Done) ->
      onRequest (request_of q) (response_to (request_of q)) = Returned -> fresh (array_maxSize (buffer p)) p' ->
      handled p' (Handled (served_events q))
  | application_failed q e p' :
      (ParserBase_feed data p).1 = true -> parsed_by = (q, Ok Done) ->
      onRequest (request_of q) (response_to (request_of q)) = Threw e -> fresh (array_maxSize (buffer p)) p' ->
      handled p' (Handled (served_events q ++ error_events e (request_of q)))
  | not_caught q :
      (ParserBase_feed data p).1 = true -> parsed_by = (q, Ok Done) ->
      onRequest (request_of q) (response_to (request_of q)) = ThrewOther ->
      handled (set_object (request_of q) q) (Escaped (served_events q)).
End Handled.

Lemma answer_error_returns e events p :
  0 <= maxResponseSize_ handler ->
  answer_error e events p = (ParserImpl_reset p, Ok (Handled (events ++ error_events e (object p)))).
Proof.
  intros Hmax. pose proof (send_error e (object p) Hmax) as E. unfold answer_error, error_events.
  destruct (send _ _ _ _) as [w r]. cbn [snd] in E. by subst r.
Qed.

Lemma onInput_contained data p :
  0 <= maxResponseSize_ handler ->
  match onInput data p with
  | (p', Ok e) => handled data p p' e
  | (_, UB) =>
      (parsed_by data p).2 = UB
      \/ exists q, parsed_by data p = (q, Ok Done) /\ onRequest (request_of q) (response_to (request_of q)) = AppUndefined
  | _ => False
  end.
Proof.
  intros Hmax. unfold onInput, parsed_by. pose proof (feed_maxSize data p) as Hf.
  destruct (ParserBase_feed data p) as [ok p1] eqn:Efeed. cbn [snd] in *. destruct ok; cbn [negb].
  2: { rewrite answer_error_returns by done. change (object (ParserImpl_reset p1)) with Request_default.
    apply does_not_fit; [by rewrite Efeed|]. rewrite <- Hf. apply (reset_fresh (ParserImpl_reset p1)). }
  assert ((ParserBase_feed data p).1 = true) as Hfed by by rewrite Efeed.
  pose proof (parse_request_fuel p1) as Hfuel.
  destruct (ParserBase_parse p1) as [q r] eqn:E. apply parse_steps_keeps in E as Hk. destruct Hk as [Hm Hn].
  assert (parsed_by data p = (q, r)) as Ep by (unfold parsed_by; by rewrite Efeed).
  assert (forall t, fresh (array_maxSize (buffer p)) (ParserImpl_reset (set_object t q))) as Hfresh.
  { intros t. rewrite <- Hf, <- Hm. apply (reset_fresh (set_object t q)). }
  destruct r as [[]|e| |]; try done.
  - by apply not_complete.
  - unfold dispatch. fold (request_of q). cbv zeta. destruct (onRequest _ _) as [|e| |] eqn:Er.
    + by apply (served _ _ q).
    + rewrite answer_error_returns by done. by apply (application_failed _ _ q).
    + by apply not_caught.
    + right. by exists q.
  - rewrite answer_error_returns by done. apply (not_parsed _ _ q e); [done..|]. specialize (Hfresh (object q)). by destruct q.
  - by left.
Qed.

(** C5. What an input does, in every case.  If the request is not complete, the parser waits and
    nothing is done.  If the input does not fit the buffer, cannot be parsed, or the application
    throws a [std::exception] for the request, one response is made, with the code and the text of
    that exception, and handed to the transport unless it is longer than a response may be; then,
    and when the application returns, the parser was reset, and the application was called
    once at most.  Only an exception of the application that is no [std::exception] leaves
    the handler, and the parser is not reset then. *)
Theorem onInput_contains_errors data p :
  0 <= maxResponseSize_ handler ->
  match onInput data p with
  | (p', Ok e) => handled data p p' e
  | (_, UB) =>
      (parsed_by data p).2 = UB
      \/ exists q, parsed_by data p = (q, Ok Done) /\ onRequest (request_of q) (response_to (request_of q)) = AppUndefined
  | _ => False
  end.
Proof. apply onInput_contained. Qed.

(** Bytes that follow a complete request in the same input are dropped with it:
    the second of two requests sent back to back is never dispatched. *)
Theorem pipelined_request_dropped max m path params v hs body msg rest :
  let r := with_line m path params v Request_default in
  let request := copyAddress peer_address (set_message (set_body body msg) r) in
  path_ok path -> Forall param_ok params -> Forall header_ok hs ->
  read_headers hs (request_message r) = (msg, Ok tt) ->
  tryGet_TransferEncoding (headers_ msg) = None ->
  match tryGet_ContentLength (headers_ msg) with Some n => n = Z.of_nat (length body) | None => body = [] end ->
  Z.of_nat (length body) <= memory_limit ->
  (length (request_text m path params v hs body ++ rest) <= max)%nat ->
  onRequest request (response_to request) = Returned ->
  exists p', onInput (request_text m path params v hs body ++ rest) (ParserImpl_new max)
             = (p', Ok (Handled [SetIdle false; OnRequest request (response_to request)]))
  /\ fresh max p'.
Proof.
  intros r request Hp Hq Hh Er Ht Hc Hm Hl Happ. unfold onInput.
  pose proof (parse_request_text max m path params v hs body rest msg Hp Hq Hh Er Ht Hc Hm Hl) as E. cbv zeta in E.
  rewrite feed_accepts in * by (cbn; lia). cbn [negb snd] in *. rewrite E. unfold dispatch.
  change (object (parsed _ _ _ _)) with (set_message (set_body body msg) r). fold request. rewrite Happ.
  eexists. split; [done|]. apply (reset_fresh (set_object request (parsed max _ rest _))).
Qed.

(** Refusing an input that is too large resets the parser but not the body step's
    count of the bytes read so far.  The body of the next request on the
    connection, whose length is announced, is then cut short by that many bytes. *)
Theorem refused_body_count_kept data p :
  0 <= maxResponseSize_ handler -> (ParserBase_feed data p).1 = false ->
  let k := bytesRead (body_step p) in
  exists p' o, onInput data p = (p', Ok (Handled [SetIdle true; Respond 413 o])) /\ fresh (array_maxSize (buffer p)) p'
  /\ bytesRead (body_step p') = k
  /\ forall pre body rest m,
       tryGet_TransferEncoding (headers_ m) = None ->
       tryGet_ContentLength (headers_ m) = Some (Z.of_nat (length body)) ->
       body_ m = [] -> Z.of_nat (length body) <= memory_limit -> 0 < k <= Z.of_nat (length body) ->
       let short := take (Z.to_nat (Z.of_nat (length body) - k)) body in
       exists c b, BodyStep_apply (Cursor pre (body ++ rest), (m, body_step p')) = ((c, (set_body short m, b)), Ok Done).
Proof.
  intros Hmax Hf k. unfold onInput. pose proof (feed_maxSize data p) as Hs.
  assert ((ParserBase_feed data p).2 = p) as Ep.
  { revert Hf. unfold ParserBase_feed, ArrayStreamBuf_feed. destruct (_ <? _)%nat; [|done]. by destruct p. }
  destruct (ParserBase_feed data p) as [ok p1]. cbn [fst snd] in *. subst ok p1. cbn [negb].
  rewrite (answer_error_returns too_large [] (ParserImpl_reset p) Hmax).
  exists (ParserImpl_reset (ParserImpl_reset p)), (error_response too_large Request_default). split; [done|]. split; [apply (reset_fresh (ParserImpl_reset p))|].
  split; [done|]. intros pre body rest m Ht Hc Hb Hm Hk. cbn [ParserImpl_reset body_step].
  pose proof memory_limit_ok. pose proof max_size_ok.
  unfold BodyStep_apply, mbind at 1, M_bind at 1, object_ at 1. cbn [fst snd]. rewrite Ht, Hc.
  rewrite parseContentLength_read by (left; apply Hk).
  assert (wanted (Z.of_nat (length body)) (body_step p) = Z.of_nat (length body) - k) as ->.
  { unfold wanted. apply wrapu_small. fold k. lia. }
  unfold mbind, M_bind. rewrite readBody_full by (rewrite length_app; lia). cbv zeta.
  rewrite string_append_ok by (cbn; rewrite ?Hb, ?length_app; cbn; lia). cbn [fst]. rewrite Hb, take_app_le by lia.
  by eexists _, _.
Qed.
End OnInput.

(** ** Witnesses *)

Definition plain_build : ContentEncodings := {| use_zstd := false; use_brotli := false; use_deflate := false |}.
Definition no_compression : Compressors := {| compress _ _ := Throw (RuntimeError (B "not built")) |}.

Definition silent (_ : Request) (_ : ResponseWriter) : application_end := Returned.

Definition plain_onInput : bytes -> M RequestParser input_end :=
  onInput (H := no_dates) (H0 := no_resolver) (H1 := terabyte) (H2 := plain_order) (H3 := plain_build)
    (H4 := no_compression) silent Handler_new 7 Address_default.

(** A handler that fails on every request, and one whose exceptions are integers. *)
Definition failing (_ : Request) (_ : ResponseWriter) : application_end := Threw (RuntimeError (B "no database")).
Definition foreign (_ : Request) (_ : ResponseWriter) : application_end := ThrewOther.
Definition onInput_of (app : Request -> ResponseWriter -> application_end) : bytes -> M RequestParser input_end :=
  onInput (H := no_dates) (H0 := no_resolver) (H1 := terabyte) (H2 := plain_order) (H3 := plain_build)
    (H4 := no_compression) app Handler_new 7 Address_default.
Definition handled_of (app : Request -> ResponseWriter -> application_end) :=
  handled (H := no_dates) (H0 := no_resolver) (H1 := terabyte) app Handler_new 7 Address_default.

Definition failed_text : bytes :=
  B "HTTP/1.1 500 Internal Server Error" ++ crlf ++ B "Content-Length: 11" ++ crlf ++ crlf ++ B "no database".
Definition whole_request : bytes := B "GET / HTTP/1.1" ++ crlf ++ crlf.

Lemma onInput_contains_errors_witness :
  let p := onConnection Handler_new in
  match onInput_of failing whole_request p with
  | (p', Ok (Handled [SetIdle false; OnRequest _ _; SetIdle true; Respond 500 (AsyncWrite 7 b)] as e)) =>
      raw_data b = failed_text /\ handled_of failing whole_request p p' e
  | _ => False
  end
  /\ match onInput_of foreign whole_request p with
     | (p', Ok (Escaped [SetIdle false; OnRequest _ _] as e)) => handled_of foreign whole_request p p' e
     | _ => False
     end.
Proof.
  intros p. split.
  - pose proof (onInput_contains_errors (H := no_dates) (H0 := no_resolver) (H1 := terabyte) (H2 := plain_order)
      (H3 := plain_build) (H4 := no_compression) failing Handler_new 7 Address_default whole_request p
      ltac:(vm_compute; discriminate)) as Hc.
    unfold onInput_of. destruct (onInput _ _ _ _ _ _) as [p' r] eqn:E. apply (f_equal snd) in E. vm_compute in E. subst r.
    split; [by vm_compute|exact Hc].
  - pose proof (onInput_contains_errors (H := no_dates) (H0 := no_resolver) (H1 := terabyte) (H2 := plain_order)
      (H3 := plain_build) (H4 := no_compression) foreign Handler_new 7 Address_default whole_request p
      ltac:(vm_compute; discriminate)) as Hc.
    unfold onInput_of. destruct (onInput _ _ _ _ _ _) as [p' r] eqn:E. apply (f_equal snd) in E. vm_compute in E. subst r.
    exact Hc.
Defined.

Definition first_request : bytes := request_text Method.Get (B "/first") [] Http11 [] [].
Definition second_request : bytes := request_text Method.Get (B "/second") [] Http11 [] [].
Definition first_parsed : Request :=
  copyAddress Address_default (set_message (set_body [] Message_default)
    (with_line Method.Get (B "/first") [] Http11 Request_default)).

Lemma pipelined_request_dropped_witness :
  exists p', plain_onInput (first_request ++ second_request) (ParserImpl_new 4096)
             = (p', Ok (Handled [SetIdle false; OnRequest first_parsed (response_to Handler_new 7 first_parsed)]))
  /\ fresh 4096 p'.
Proof.
  apply (pipelined_request_dropped (H := no_dates) (H0 := no_resolver) (H1 := terabyte) (H2 := plain_order)
    (H3 := plain_build) (H4 := no_compression) silent Handler_new 7 Address_default 4096
    Method.Get (B "/first") [] Http11 [] [] Message_default second_request).
  - repeat constructor; set_solver.
  - constructor.
  - constructor.
  - reflexivity.
  - reflexivity.
  - reflexivity.
  - vm_compute. discriminate.
  - vm_compute. lia.
  - reflexivity.
Defined.

(** A parser that read the four bytes of a body of ten, and was then sent too much. *)
Definition half_read : RequestParser :=
  (ParserBase_parse (H := no_dates) (H0 := no_resolver) (H1 := terabyte)
    (ParserBase_feed (B "POST / HTTP/1.1" ++ crlf ++ B "Content-Length: 10" ++ crlf ++ crlf ++ B "four") (ParserImpl_new 50)).2).1.

Lemma refused_body_count_kept_witness :
  let next := set_headers (Collection_add (HContentLength 5) Collection_empty) Message_default in
  exists p' o, plain_onInput (B "and six more") half_read = (p', Ok (Handled [SetIdle true; Respond 413 o]))
  /\ exists c b, BodyStep_apply (H := terabyte) (Cursor [] (B "hello"), (next, body_step p'))
                 = ((c, (set_body (B "h") next, b)), Ok Done).
Proof.
  intros next.
  destruct (refused_body_count_kept (H := no_dates) (H0 := no_resolver) (H1 := terabyte) (H2 := plain_order)
    (H3 := plain_build) (H4 := no_compression) silent Handler_new 7 Address_default (B "and six more") half_read)
    as (p' & o & E & _ & _ & Hb).
  - vm_compute. discriminate.
  - vm_compute. reflexivity.
  - exists p', o. split; [exact E|].
    apply (Hb [] (B "hello") [] next); try reflexivity.
    + vm_compute. discriminate.
    + vm_compute. split; [reflexivity|discriminate].
Defined.
