(* ===== verification/SegmentTree.v ===== *)
(** * The routing tree: [SegmentTreeNode] of [include/pistache/router.h], [src/server/router.cc]

    A node has its children in three maps, by the kind of the segment that leads to
    them, a child for a splat, and the handler of the route that ends at it.  The
    [string_view] keys are their text: the memory behind a key is the child's own
    [resource_ref_], which lives as long as the entry. *)

From S2P Require Import Prelude Cxx.

(** ** Segments *)

Inductive SegmentType : Set := Fixed | Param | Optional | Splat.

Definition question : Ascii.ascii := chr 63.
Definition slash : Ascii.ascii := chr 47.

Definition getSegmentType (fragment : bytes) : result SegmentType :=
  match fragment with
  | [] => Ok Fixed
  | a :: _ =>
      let optpos := find_char question fragment in
      if decide (a = chr 58) then
        match optpos with
        | Some n =>
            if decide (n <> length fragment - 1)%nat
            then Throw (RuntimeError (B "? should be at the end of the string"))
            else Ok Optional
        | None => Ok Param
        end
      else if decide (a = chr 42) then
        if decide (1 < length fragment)%nat then Throw (RuntimeError (B "Invalid splat parameter")) else Ok Splat
      else
        match optpos with
        | Some _ => Throw (RuntimeError (B "Only optional parameters are currently supported"))
        | None => Ok Fixed
        end
  end.

(** [dup]: the path with its runs of slashes made one. *)
Definition push_once (dup : bytes) (c : Ascii.ascii) : bytes :=
  if decide (c <> slash \/ dup = [] \/ list.last dup <> Some slash) then dup ++ [c] else dup.

(** The last character of an empty string is read at index [SIZE_MAX].  For a single
    slash the count of the first [substr] wraps, and what it yields is empty. *)
Definition sanitizeResource (path : bytes) : result bytes :=
  let dup := fold_left push_once path [] in
  match list.last dup with
  | None => UB
  | Some c => if decide (c = slash) then Ok (take (length dup - 2) (drop 1 dup)) else Ok (drop 1 dup)
  end.

(** [path.substr(0, path.find('/'))] and what follows that slash. *)
Definition current_segment (path : bytes) : bytes :=
  match find_char slash path with Some n => take n path | None => path end.
Definition lower_path (path : bytes) : bytes :=
  match find_char slash path with Some n => drop (S n) path | None => [] end.

(** ** The tree *)

Section Tree.
Context {Handler : Type}.

#[warnings="-register-all"]
Inductive node : Type := Node {
  fixed_ : gmap bytes node;
  param_ : gmap bytes node;
  optional_ : gmap bytes node;
  splat_ : option node;
  route_ : option Handler }.

Definition SegmentTreeNode_new : node := Node ∅ ∅ ∅ None None.

(** The map a segment type selects; [Splat] selects none. *)
Definition collection (ty : SegmentType) (t : node) : gmap bytes node :=
  match ty with Fixed => fixed_ t | Param => param_ t | Optional => optional_ t | Splat => ∅ end.
Definition set_collection (ty : SegmentType) (m : gmap bytes node) (t : node) : node :=
  match ty with
  | Fixed => Node m (param_ t) (optional_ t) (splat_ t) (route_ t)
  | Param => Node (fixed_ t) m (optional_ t) (splat_ t) (route_ t)
  | Optional => Node (fixed_ t) (param_ t) m (splat_ t) (route_ t)
  | Splat => t
  end.
Definition set_splat (s : option node) (t : node) : node :=
  Node (fixed_ t) (param_ t) (optional_ t) s (route_ t).
Definition set_route (r : option Handler) (t : node) : node :=
  Node (fixed_ t) (param_ t) (optional_ t) (splat_ t) r.

(** The key in the map: an optional segment without its question mark. *)
Definition segment_key (ty : SegmentType) (segment : bytes) : bytes :=
  match ty with Optional => take (length segment - 1) segment | _ => segment end.

(** Run [m] on the child under a key, a new one if there is none, or on the splat
    child; the child it leaves is stored, whether [m] throws or not. *)
Definition in_child {A} (ty : SegmentType) (key : bytes) (m : M node A) : M node A := fun t =>
  let '(c, r) := m (default SegmentTreeNode_new (collection ty t !! key)) in
  (set_collection ty (<[key := c]> (collection ty t)) t, r).
Definition in_splat {A} (m : M node A) : M node A := fun t =>
  let '(c, r) := m (default SegmentTreeNode_new (splat_ t)) in (set_splat (Some c) t, r).

(** One unit of fuel per segment. *)
Fixpoint addRoute_loop (fuel : nat) (path : bytes) (handler : Handler) : M node unit :=
  match path, fuel with
  | [], _ => fun t =>
      match route_ t with
      | Some _ => (t, Throw (RuntimeError (B "Requested route already exist.")))
      | None => (set_route (Some handler) t, Ok tt)
      end
  | _, O => lift OutOfFuel
  | _, S fuel' =>
      fragmentType ← lift (getSegmentType (current_segment path));
      match fragmentType with
      | Splat => in_splat (addRoute_loop fuel' (lower_path path) handler)
      | ty => in_child ty (segment_key ty (current_segment path)) (addRoute_loop fuel' (lower_path path) handler)
      end
  end.
Definition addRoute (path : bytes) : Handler -> M node unit := addRoute_loop (length path) path.

Definition removable (t : node) : bool :=
  bool_decide (fixed_ t = ∅) && bool_decide (param_ t = ∅) && bool_decide (optional_ t = ∅)
  && negb (bool_decide (is_Some (splat_ t))) && negb (bool_decide (is_Some (route_ t))).

Definition no_route : exn := RuntimeError (B "Requested route does not exist.").

(** [try { if (collection->at(key)->removeRoute(...)) collection->erase(key); }
    catch (const std::out_of_range&) { ... }] *)
Definition remove_child (ty : SegmentType) (key : bytes) (m : M node bool) : M node unit := fun t =>
  match collection ty t !! key with
  | None => (t, Throw no_route)
  | Some c =>
      match m c with
      | (c', Ok true) => (set_collection ty (delete key (collection ty t)) t, Ok tt)
      | (c', Ok false) => (set_collection ty (<[key := c']> (collection ty t)) t, Ok tt)
      | (c', Throw (OutOfRange _)) => (set_collection ty (<[key := c']> (collection ty t)) t, Throw no_route)
      | (c', Throw e) => (set_collection ty (<[key := c']> (collection ty t)) t, Throw e)
      | (c', UB) => (t, UB)
      | (c', OutOfFuel) => (t, OutOfFuel)
      end
  end.

(** The splat's own answer is returned at once. *)
Fixpoint removeRoute_loop (fuel : nat) (path : bytes) : M node bool :=
  match path, fuel with
  | [], _ => _ ← modify (set_route None); t ← get; mret (removable t)
  | _, O => lift OutOfFuel
  | _, S fuel' =>
      fragmentType ← lift (getSegmentType (current_segment path));
      match fragmentType with
      | Splat =>
          t ← get;
          match splat_ t with
          | None => throw no_route
          | Some _ => in_splat (removeRoute_loop fuel' (lower_path path))
          end
      | ty =>
          _ ← remove_child ty (segment_key ty (current_segment path)) (removeRoute_loop fuel' (lower_path path));
          t ← get; mret (removable t)
      end
  end.
Definition removeRoute (path : bytes) : M node bool := removeRoute_loop (length path) path.

(** ** The search

    [order] is the sequence an [unordered_map] of children is iterated in. *)

Context (order : gmap bytes node -> list (bytes * node)).

(** [TypedParam] *)
Record TypedParam : Set := { param_name : bytes; param_value : bytes }.

(** The two vectors the search fills, and what it returns. *)
Record bindings : Set := { params : list TypedParam; splats : list TypedParam }.
Definition set_params (f : list TypedParam -> list TypedParam) (b : bindings) : bindings :=
  {| params := f (params b); splats := splats b |}.
Definition set_splats (f : list TypedParam -> list TypedParam) (b : bindings) : bindings :=
  {| params := params b; splats := f (splats b) |}.
Definition found : Type := option (Handler * bindings).

(** [if (route != nullptr) return result;] *)
Definition or_else (m : M bindings found) (k : M bindings found) : M bindings found :=
  result ← m; match result with Some _ => mret result | None => k end.

(** [params.emplace_back(name, value)], [m], and [params.pop_back()] when it found nothing. *)
Definition with_param (name value : bytes) (m : M bindings found) : M bindings found :=
  _ ← modify (set_params (fun l => l ++ [{| param_name := name; param_value := value |}]));
  or_else m (_ ← modify (set_params (@removelast _)); mret None).
Definition with_splat (value : bytes) (m : M bindings found) : M bindings found :=
  _ ← modify (set_splats (fun l => l ++ [{| param_name := value; param_value := value |}]));
  or_else m (_ ← modify (set_splats (@removelast _)); mret None).

(** [for (const auto& child : map) ...], left at the first result. *)
Fixpoint find_first (f : bytes -> node -> M bindings found) (l : list (bytes * node)) : M bindings found :=
  match l with
  | [] => mret None
  | (name, c) :: l' => or_else (f name c) (find_first f l')
  end.

(** One unit of fuel per level of the tree. *)
Fixpoint findRoute_loop (fuel : nat) (path : bytes) (t : node) : M bindings found :=
  match fuel with
  | O => lift OutOfFuel
  | S fuel' =>
      match path with
      | [] =>
          match order (optional_ t) with
          | (_, o) :: _ => findRoute_loop fuel' path o
          | [] =>
              match route_ t with
              | None => mret None
              | Some r => b ← get; mret (Some (r, b))
              end
          end
      | _ =>
          let value := current_segment path in
          let below := findRoute_loop fuel' (lower_path path) in
          or_else (match fixed_ t !! value with Some c => below c | None => mret None end) (
          or_else (find_first (fun name c => with_param name value (below c)) (order (param_ t))) (
          or_else (find_first (fun name c => or_else (with_param name value (below c)) (below c)) (order (optional_ t))) (
          match splat_ t with Some c => with_splat value (below c) | None => mret None end)))
      end
  end.

(** The number of levels. *)
Fixpoint depth (t : node) : nat :=
  let deepest (m : gmap bytes node) := map_fold (fun _ c n => Nat.max (depth c) n) 0%nat m in
  match t with
  | Node f p o s _ => S (Nat.max (Nat.max (deepest f) (deepest p)) (Nat.max (deepest o) (match s with Some c => depth c | None => 0 end)))
  end%nat.

Definition no_bindings : bindings := {| params := []; splats := [] |}.

Definition findRoute (path : bytes) (t : node) : result found :=
  snd (findRoute_loop (depth t) path t no_bindings).
End Tree.
Arguments node : clear implicits.
