(* ===== verification/RouteTable.v ===== *)
(** * The routing tree as a table of routes

    A registered path is a pattern, a list of fixed, parameter, optional and splat
    segments.  The tree is a finite map from patterns to handlers: [addRoute] and
    [removeRoute] are its insertion and deletion, and the search finds a pattern of
    the map that the requested path matches. *)

From S2P Require Import Prelude Cxx SegmentTree.

(** ** The segments of a path *)

Fixpoint segments_loop (fuel : nat) (path : bytes) : list bytes :=
  match path, fuel with
  | [], _ | _, O => []
  | _, S fuel' => current_segment path :: segments_loop fuel' (lower_path path)
  end.
Definition segments (path : bytes) : list bytes := segments_loop (length path) path.

Lemma lower_path_shorter path : path <> [] -> (length (lower_path path) < length path)%nat.
Proof.
  intros Hp. unfold lower_path. destruct (find_char slash path); [rewrite length_drop|]; destruct path; simpl in *; lia || done.
Qed.

Lemma segments_loop_enough fuel path : (length path <= fuel)%nat -> segments_loop fuel path = segments path.
Proof.
  unfold segments. revert path. enough (forall n m path, (length path <= n)%nat -> (length path <= m)%nat ->
    segments_loop n path = segments_loop m path) as E by (intros; by apply E).
  induction n as [|n IH]; intros m path Hn Hm; (destruct path as [|a path]; [by destruct m|]); [simpl in Hn; lia|].
 destruct m as [|m]; [simpl in *; lia|]. cbn [segments_loop]. f_equal.
  pose proof (lower_path_shorter (a :: path) ltac:(done)). apply IH; lia.
Qed.

Lemma segments_cons path : path <> [] -> segments path = current_segment path :: segments (lower_path path).
Proof.
  intros Hp. pose proof (lower_path_shorter path Hp) as Hl. destruct path as [|a path]; [done|].
  unfold segments at 1. cbn [length segments_loop]. f_equal. apply segments_loop_enough. simpl in *. lia.
Qed.

Lemma segments_nil path : segments path = [] <-> path = [].
Proof. split; [|by intros ->]. intros E. destruct path; [done|]. by rewrite segments_cons in E. Qed.

(** ** Patterns *)

Inductive pseg : Set := Named (ty : SegmentType) (key : bytes) | Star.
Abbreviation pattern := (list pseg).

#[export] Instance SegmentType_eq_dec : EqDecision SegmentType.
Proof. solve_decision. Defined.
#[export] Instance pseg_eq_dec : EqDecision pseg.
Proof. solve_decision. Defined.

Definition pattern_segment (segment : bytes) : result pseg :=
  ty ← getSegmentType segment;
  Ok (match ty with Splat => Star | ty => Named ty (segment_key ty segment) end).

Fixpoint pattern_of (segs : list bytes) : result pattern :=
  match segs with
  | [] => Ok []
  | s :: segs' => p ← pattern_segment s; q ← pattern_of segs'; Ok (p :: q)
  end.

(** A segment that selects one of the maps or the splat. *)
Definition proper (s : pseg) : Prop := match s with Named Splat _ => False | _ => True end.

Lemma pattern_segment_proper segment s : pattern_segment segment = Ok s -> proper s.
Proof. unfold pattern_segment. destruct (getSegmentType segment) as [[]| | |]; intros [= <-]; done. Qed.

Section Table.
Context {Handler : Type}.
Abbreviation node := (node Handler).

Definition child (s : pseg) (t : node) : option node :=
  match s with Named ty key => collection ty t !! key | Star => splat_ t end.

Fixpoint node_at (q : pattern) (t : node) : option node :=
  match q with [] => Some t | s :: q' => c ← child s t; node_at q' c end.

(** The map: the handler registered for a pattern. *)
Definition lookup_route (q : pattern) (t : node) : option Handler := t' ← node_at q t; route_ t'.

Lemma lookup_route_cons s q t : lookup_route (s :: q) t = (c ← child s t; lookup_route q c).
Proof. unfold lookup_route. cbn. by destruct (child s t). Qed.

Definition set_child (s : pseg) (c : option node) (t : node) : node :=
  match s with
  | Named ty key => set_collection ty (partial_alter (fun _ => c) key (collection ty t)) t
  | Star => set_splat c t
  end.

Lemma child_set_child s s' c t :
  proper s -> child s' (set_child s c t) = if decide (s' = s) then c else child s' t.
Proof.
  intros Hs. destruct s as [ty key|], s' as [ty' key'|]; cbn.
  - destruct (decide (ty' = ty)) as [->|Hne].
    + assert (collection ty (set_collection ty (partial_alter (fun _ => c) key (collection ty t)) t)
              = partial_alter (fun _ => c) key (collection ty t)) as -> by by destruct ty.
      destruct (decide (key' = key)) as [->|Hk].
      * rewrite lookup_partial_alter_eq. by rewrite decide_True.
      * rewrite lookup_partial_alter_ne by done. rewrite decide_False by congruence. done.
    + rewrite decide_False by congruence. by destruct ty, ty'.
  - by destruct ty.
  - done.
  - done.
Qed.

Lemma route_set_child s c t : route_ (set_child s c t) = route_ t.
Proof. by destruct s as [[]|]. Qed.

(** The map after a child was replaced. *)
Lemma lookup_set_child s c t q :
  proper s ->
  lookup_route q (set_child s c t)
  = match q with
    | [] => route_ t
    | s' :: q' => if decide (s' = s) then (c' ← c; lookup_route q' c') else lookup_route q t
    end.
Proof.
  intros Hs. destruct q as [|s' q']; [apply route_set_child|].
  rewrite !lookup_route_cons, child_set_child by done. by case_decide.
Qed.

Lemma lookup_new q : lookup_route q (SegmentTreeNode_new (Handler := Handler)) = None.
Proof. destruct q as [|[[]|] q]; unfold lookup_route; cbn; by rewrite ?lookup_empty. Qed.

(** ** Adding *)

Definition exists_already : exn := RuntimeError (B "Requested route already exist.").

Lemma addRoute_step n path h t :
  path <> [] ->
  addRoute_loop (S n) path h t
  = match pattern_segment (current_segment path) with
    | Ok s =>
        let '(c, r) := addRoute_loop n (lower_path path) h (default SegmentTreeNode_new (child s t)) in
        (set_child s (Some c) t, r)
    | Throw e => (t, Throw e)
    | UB => (t, UB)
    | OutOfFuel => (t, OutOfFuel)
    end.
Proof.
  intros Hp. destruct path as [|a path]; [done|]. cbn [addRoute_loop].
  unfold pattern_segment, mbind, M_bind, lift, result_bind. by destruct (getSegmentType _) as [[]| | |].
Qed.

(** What [addRoute] is to do: insert the pattern, if it is one and is new. *)
Definition added (p : result pattern) (h : Handler) (t : node) (out : node * result unit) : Prop :=
  match p with
  | Ok q =>
      match lookup_route q t with
      | None => snd out = Ok tt /\ forall q', lookup_route q' (fst out) = if decide (q' = q) then Some h else lookup_route q' t
      | Some _ => snd out = Throw exists_already /\ forall q', lookup_route q' (fst out) = lookup_route q' t
      end
  | Throw e => snd out = Throw e /\ forall q', lookup_route q' (fst out) = lookup_route q' t
  | _ => False
  end.

Lemma added_below s p h t c r :
  proper s -> added p h (default SegmentTreeNode_new (child s t)) (c, r) ->
  added (q ← p; Ok (s :: q)) h t (set_child s (Some c) t, r).
Proof.
  intros Hs. unfold added. set (c0 := default _ _).
  assert (forall q, lookup_route (s :: q) t = lookup_route q c0) as E.
  { intros q. rewrite lookup_route_cons. unfold c0. destruct (child s t); [done|]. cbn. by rewrite lookup_new. }
  assert (forall f : pattern -> option Handler, (forall q, lookup_route q c = f q) ->
    forall q', lookup_route q' (set_child s (Some c) t) = match q' with [] => route_ t | s' :: q =>
      if decide (s' = s) then f q else lookup_route q' t end) as Hf.
  { intros f Hf q'. rewrite lookup_set_child by done. destruct q' as [|s' q]; [done|]. case_decide; [apply Hf|done]. }
  destruct p as [q|e| |]; cbn [mbind result_bind fst snd]; [|..].
  - rewrite E. destruct (lookup_route q c0); intros [Hr Hq]; (split; [done|]); intros q'; rewrite (Hf _ Hq); destruct q' as [|s' q'']; try done.
    + case_decide; [|done]. subst. by rewrite E.
    + case_decide; [subst|by rewrite decide_False by congruence].
      rewrite E. destruct (decide (q'' = q)); [subst; by rewrite decide_True|by rewrite decide_False by congruence].
  - intros [Hr Hq]. split; [done|]. intros q'. rewrite (Hf _ Hq). destruct q' as [|s' q'']; [done|].
    case_decide; [|done]. subst. by rewrite E.
  - done.
  - done.
Qed.

Lemma getSegmentType_result s : getSegmentType s <> UB /\ getSegmentType s <> OutOfFuel.
Proof. unfold getSegmentType. destruct s; [done|]. cbv zeta. repeat case_match; done. Qed.

Lemma addRoute_loop_spec n path h t :
  (length path <= n)%nat -> added (pattern_of (segments path)) h t (addRoute_loop n path h t).
Proof.
  revert path t. induction n as [|n IH]; intros path t Hn.
  all: destruct (decide (path = [])) as [->|Hp].
  1,3: (assert (addRoute_loop _ [] h t = match route_ t with Some _ => (t, Throw exists_already)
          | None => (set_route (Some h) t, Ok tt) end) as -> by done);
       unfold added; cbn [segments pattern_of length segments_loop];
       change (lookup_route [] t) with (route_ t); destruct (route_ t) eqn:E; (split; [done|]); [done|];
       intros [|s q]; [done|]; by destruct s as [[]|].
  - destruct path; [done|simpl in Hn; lia].
  - rewrite addRoute_step, segments_cons by done. cbn [pattern_of].
    destruct (pattern_segment (current_segment path)) as [s|e| |] eqn:Es; cbn [mbind result_bind].
    + pose proof (lower_path_shorter path Hp). pose proof (pattern_segment_proper _ _ Es) as Hs.
      specialize (IH (lower_path path) (default SegmentTreeNode_new (child s t)) ltac:(lia)).
      destruct (addRoute_loop n _ _ _) as [c r]. by apply added_below.
    + done.
    + unfold pattern_segment in Es. destruct (getSegmentType_result (current_segment path)). by destruct (getSegmentType _).
    + unfold pattern_segment in Es. destruct (getSegmentType_result (current_segment path)). by destruct (getSegmentType _).
Qed.

(** ** Removing *)

Lemma removable_lookup t q : removable t = true -> lookup_route q t = None.
Proof.
  unfold removable. intros Hr. apply andb_true_iff in Hr as [Hr Hroute]. apply andb_true_iff in Hr as [Hr Hs].
  apply andb_true_iff in Hr as [Hr Ho]. apply andb_true_iff in Hr as [Hf Hp].
  apply bool_decide_eq_true in Hf, Hp, Ho. apply negb_true_iff, bool_decide_eq_false in Hs, Hroute.
  destruct t as [f p o sp r]. cbn in *. subst. destruct sp, r; [naive_solver..|].
  destruct q as [|[[]|] q]; unfold lookup_route; cbn; by rewrite ?lookup_empty.
Qed.

(** Deleting a child without routes, or putting back one, does the same to the map. *)
Lemma lookup_keep_or_delete s c b t q :
  proper s -> (b = true -> removable c = true) ->
  lookup_route q (set_child s (if b : bool then None else Some c) t)
  = match q with
    | [] => route_ t
    | s' :: q' => if decide (s' = s) then lookup_route q' c else lookup_route q t
    end.
Proof.
  intros Hs Hb. rewrite lookup_set_child by done. destruct q as [|s' q]; [done|]. case_decide; [|done].
  destruct b; [|done]. cbn. by rewrite removable_lookup by auto.
Qed.

Lemma removeRoute_step n path t ty key :
  path <> [] -> pattern_segment (current_segment path) = Ok (Named ty key) ->
  removeRoute_loop (S n) path t
  = match child (Named ty key) t with
    | None => (t, Throw no_route)
    | Some c =>
        match removeRoute_loop n (lower_path path) c with
        | (c', Ok b) => let t' := set_child (Named ty key) (if b : bool then None else Some c') t in (t', Ok (removable t'))
        | (c', Throw (OutOfRange _)) => (set_child (Named ty key) (Some c') t, Throw no_route)
        | (c', Throw e) => (set_child (Named ty key) (Some c') t, Throw e)
        | (c', UB) => (t, UB)
        | (c', OutOfFuel) => (t, OutOfFuel)
        end
    end.
Proof.
  intros Hp Es. destruct path as [|a path]; [done|]. cbn [removeRoute_loop]. unfold pattern_segment in Es.
  destruct (getSegmentType _) as [ty'| | |]; [|done..]. unfold lift, mbind at 1, M_bind at 1.
  destruct ty'; cbn [mbind result_bind] in Es; [| | |discriminate Es]; injection Es as <- <-;
    unfold mbind, M_bind, remove_child; cbn [child]; (destruct (collection _ t !! _) as [c|]; [|done]);
    (destruct (removeRoute_loop n _ c) as [c' r]); destruct r as [b|e| |]; try destruct b; try destruct e; done.
Qed.

(** What [removeRoute] is to do: delete the pattern, if its node is there. *)
Definition removed (q : pattern) (t : node) (out : node * result bool) : Prop :=
  (forall q', lookup_route q' (fst out) = if decide (q' = q) then None else lookup_route q' t)
  /\ match node_at q t with Some _ => snd out = Ok (removable (fst out)) | None => snd out = Throw no_route end.

Lemma removeRoute_loop_spec n path q t :
  (length path <= n)%nat -> pattern_of (segments path) = Ok q -> Star ∉ q -> removed q t (removeRoute_loop n path t).
Proof.
  revert path q t. induction n as [|n IH]; intros path q t Hn.
  all: destruct (decide (path = [])) as [->|Hp].
  1,3: (intros [= <-] _; split; [|done]; intros q';
        change (fst (removeRoute_loop _ [] t)) with (set_route None t); destruct q' as [|[[]|] q']; done).
  - destruct path; [done|simpl in Hn; lia].
  - rewrite segments_cons by done. cbn [pattern_of].
    destruct (pattern_segment (current_segment path)) as [s|e| |] eqn:Es; cbn [mbind result_bind]; [|done..].
    destruct (pattern_of (segments (lower_path path))) as [q1| | |] eqn:Eq; cbn [mbind result_bind]; [|done..].
    intros [= <-] Hq. apply not_elem_of_cons in Hq as [Hne Hq].
    pose proof (pattern_segment_proper _ _ Es) as Hs. destruct s as [ty key|]; [|done].
    rewrite (removeRoute_step _ _ _ _ _ Hp Es). pose proof (lower_path_shorter path Hp).
    unfold removed. cbn [node_at]. destruct (child (Named ty key) t) as [c|] eqn:Ec; cbn [mbind option_bind].
    + specialize (IH (lower_path path) q1 c ltac:(lia) Eq Hq). unfold removed in IH.
      assert (forall c' b, (forall q', lookup_route q' c' = if decide (q' = q1) then None else lookup_route q' c) ->
        (b = true -> removable c' = true) ->
        forall q', lookup_route q' (set_child (Named ty key) (if b : bool then None else Some c') t)
        = if decide (q' = Named ty key :: q1) then None else lookup_route q' t) as Hl.
      { intros c' b Hc Hb q'. rewrite lookup_keep_or_delete by done. destruct q' as [|s' q']; [done|].
        rewrite lookup_route_cons. destruct (decide (s' = Named ty key)) as [->|].
        - rewrite Ec. cbn. rewrite Hc. destruct (decide (q' = q1)); [by rewrite decide_True by congruence|].
          by rewrite decide_False by congruence.
        - by rewrite decide_False by congruence. }
      destruct (removeRoute_loop n (lower_path path) c) as [c' r]. cbn [fst snd] in IH. destruct IH as [Hc Hr].
      destruct (node_at q1 c); rewrite Hr; cbn [fst snd].
      * split; [|done]. by apply Hl.
      * split; [|done]. by apply (Hl c' false).
    + split; [|done]. intros q'. cbn [fst]. case_decide; [|done]. subst q'. by rewrite lookup_route_cons, Ec.
Qed.
(** ** Depth *)

Lemma depth_in (m : gmap bytes node) k c :
  m !! k = Some c -> (depth c <= map_fold (fun _ c n => Nat.max (depth c) n) 0 m)%nat.
Proof.
  revert k c. apply (map_fold_weak_ind (fun n m => forall k c, m !! k = Some c -> (depth c <= n)%nat)).
  - intros k c. by rewrite lookup_empty.
  - intros i x m' n Hi IH k c. destruct (decide (i = k)) as [->|].
    + rewrite lookup_insert_eq. intros [= ->]. lia.
    + rewrite lookup_insert_ne by done. intros Hk%IH. lia.
Qed.

Lemma child_depth s (t c : node) : child s t = Some c -> (depth c < depth t)%nat.
Proof.
  destruct t as [f p o sp r]. destruct s as [[]|]; cbn; intros Hc; try (apply depth_in in Hc; cbn; lia).
  - by rewrite lookup_empty in Hc.
  - subst sp. lia.
Qed.
End Table.

(** ** Sanitized paths *)

(** What [push_once] keeps of a text, by whether a slash comes before it. *)
Fixpoint squeeze (after_slash : bool) (l : bytes) : bytes :=
  match l with
  | [] => []
  | c :: l' =>
      if decide (c = slash) then (if after_slash then squeeze true l' else c :: squeeze true l')
      else c :: squeeze false l'
  end.

(** The words between the slashes of a text. *)
Fixpoint words (current l : bytes) : list bytes :=
  match l with
  | [] => if decide (current = []) then [] else [current]
  | c :: l' =>
      if decide (c = slash) then (if decide (current = []) then words [] l' else current :: words [] l')
      else words (current ++ [c]) l'
  end.

(** A text without its last slash. *)
Definition strip (l : bytes) : bytes := if decide (list.last l = Some slash) then take (length l - 1) l else l.

Lemma fold_push_once l dup a :
  list.last dup = Some a -> fold_left push_once l dup = dup ++ squeeze (bool_decide (a = slash)) l.
Proof.
  revert dup a. induction l as [|c l IH]; intros dup a Ha; cbn [fold_left squeeze]; [by rewrite app_nil_r|].
  unfold push_once at 2. assert (dup <> []) by (by intros ->). rewrite Ha.
  assert (forall b, list.last (dup ++ [b]) = Some b) as Hl by (intros; apply last_snoc).
  destruct (decide (c = slash)) as [->|Hc]; destruct (decide (a = slash)) as [->|Hs].
  - rewrite decide_False by naive_solver. rewrite bool_decide_eq_true_2 by done. rewrite (IH _ slash Ha). by rewrite bool_decide_eq_true_2.
  - rewrite decide_True by naive_solver. rewrite bool_decide_eq_false_2 by done. rewrite (IH _ _ (Hl slash)).
    rewrite bool_decide_eq_true_2 by done. by rewrite <- app_assoc.
  - rewrite decide_True by naive_solver. rewrite (IH _ _ (Hl c)), bool_decide_eq_false_2 by done. by rewrite <- app_assoc.
  - rewrite decide_True by naive_solver. rewrite (IH _ _ (Hl c)), bool_decide_eq_false_2 by done. by rewrite <- app_assoc.
Qed.

Lemma strip_app a b : b <> [] -> strip (a ++ b) = a ++ strip b.
Proof.
  intros Hb. destruct (exists_last Hb) as (b' & x & ->). unfold strip. rewrite app_assoc, !last_snoc.
  case_decide; [|by rewrite app_assoc].
  rewrite !length_app. cbn [length]. replace (length a + length b' + 1 - 1)%nat with (length (a ++ b')) by (rewrite length_app; lia).
  replace (length b' + 1 - 1)%nat with (length b') by lia. by rewrite !take_app_length.
Qed.

Lemma segments_one s : s <> [] -> slash ∉ s -> segments s = [s].
Proof.
  intros Hs Hn. rewrite segments_cons by done. unfold current_segment, lower_path.
  apply find_char_None in Hn. by rewrite Hn.
Qed.

Lemma segments_slash s l : slash ∉ s -> segments (s ++ slash :: l) = s :: segments l.
Proof.
  intros Hn. rewrite segments_cons by by destruct s. unfold current_segment, lower_path.
  rewrite find_char_app by done. rewrite take_app_length. do 2 f_equal.
  replace (s ++ slash :: l) with ((s ++ [slash]) ++ l) by (by rewrite <- app_assoc).
  apply drop_app_exact. rewrite length_app. simpl. lia.
Qed.

Lemma segments_squeeze l :
  segments (strip (squeeze true l)) = words [] l
  /\ forall cur, cur <> [] -> slash ∉ cur -> segments (strip (cur ++ squeeze false l)) = words cur l.
Proof.
  induction l as [|c l [IH1 IH2]]; cbn [squeeze words].
  - split; [done|]. intros cur Hc Hs. rewrite app_nil_r, decide_False by done.
    unfold strip. rewrite decide_False; [by apply segments_one|]. intros Hl. apply Hs.
    apply last_Some in Hl as [l' ->]. set_solver.
  - destruct (decide (c = slash)) as [->|Hc].
    + split; [done|]. intros cur Hne Hs. rewrite decide_False by done. rewrite <- IH1.
      destruct (decide (squeeze true l = [])) as [->|Hq].
      * unfold strip. rewrite last_snoc, decide_True, length_app by done.
        replace (length cur + length [slash] - 1)%nat with (length cur) by (simpl; lia).
        rewrite take_app_length. by apply segments_one.
      * replace (cur ++ slash :: squeeze true l) with ((cur ++ [slash]) ++ squeeze true l) by (by rewrite <- app_assoc).
        rewrite strip_app, <- app_assoc by done. by apply segments_slash.
    + split.
      * apply (IH2 [c]); [done|]. set_solver.
      * intros cur Hne Hs. rewrite <- IH2; [|by destruct cur|set_solver]. by rewrite <- app_assoc.
Qed.

Lemma sanitize_slash p : sanitizeResource (slash :: p) = Ok (strip (squeeze true p)).
Proof.
  unfold sanitizeResource. cbn [fold_left]. change (push_once [] slash) with [slash].
  rewrite (fold_push_once _ _ slash) by done. rewrite bool_decide_eq_true_2 by done. cbn [app].
  destruct (decide (squeeze true p = [])) as [->|Hq]; [done|].
  destruct (exists_last Hq) as (b & x & ->). unfold strip. rewrite app_comm_cons, !last_snoc.
  cbn [length drop app]. rewrite length_app. cbn [length].
  destruct (decide (x = slash)) as [->|]; [|by rewrite decide_False by congruence]. rewrite decide_True by done.
  by replace (S (length b + 1) - 2)%nat with (length b + 1 - 1)%nat by lia.
Qed.

Lemma words_proper l current : slash ∉ current -> Forall (fun w => w <> [] /\ slash ∉ w) (words current l).
Proof.
  revert current. induction l as [|c l IH]; intros current Hc; cbn [words].
  - case_decide; [done|]. by repeat constructor.
  - repeat case_decide; [apply IH; set_solver|constructor; [done|apply IH; set_solver]|apply IH; set_solver].
Qed.

(** ** Properties *)

(** The segments the tree sees of a path that starts with a slash are the words
    between its slashes: however many slashes there are in a row, at the start or at
    the end, no segment is empty and none holds a slash. *)
Theorem sanitized_segments path :
  exists path', sanitizeResource (slash :: path) = Ok path' /\ segments path' = words [] path
  /\ Forall (fun w => w <> [] /\ slash ∉ w) (segments path').
Proof.
  exists (strip (squeeze true path)). destruct (segments_squeeze path) as [E _].
  split; [apply sanitize_slash|]. split; [done|]. rewrite E. apply words_proper. set_solver.
Qed.

(** C17. [addRoute] is insertion into the finite map from patterns to handlers: a new
    pattern gets the handler and no other pattern changes; a pattern that is there,
    and a path with an invalid segment, is refused and nothing changes. *)
Theorem addRoute_inserts {Handler} path (h : Handler) t :
  match pattern_of (segments path) with
  | Ok q =>
      match lookup_route q t with
      | None => snd (addRoute path h t) = Ok tt
          /\ forall q', lookup_route q' (fst (addRoute path h t)) = if decide (q' = q) then Some h else lookup_route q' t
      | Some _ => snd (addRoute path h t) = Throw exists_already
          /\ forall q', lookup_route q' (fst (addRoute path h t)) = lookup_route q' t
      end
  | Throw e => snd (addRoute path h t) = Throw e
      /\ forall q', lookup_route q' (fst (addRoute path h t)) = lookup_route q' t
  | _ => False
  end.
Proof. exact (addRoute_loop_spec (length path) path h t (le_n _)). Qed.

(** C18. [removeRoute] of a path without a splat is deletion from that map, and it
    answers whether the node is left without a purpose; a path whose node is not
    there is refused. *)
Theorem removeRoute_deletes {Handler} path q (t : node Handler) :
  pattern_of (segments path) = Ok q -> Star ∉ q ->
  (forall q', lookup_route q' (fst (removeRoute path t)) = if decide (q' = q) then None else lookup_route q' t)
  /\ match node_at q t with
     | Some _ => snd (removeRoute path t) = Ok (removable (fst (removeRoute path t)))
     | None => snd (removeRoute path t) = Throw no_route
     end.
Proof. intros Hq Hs. exact (removeRoute_loop_spec (length path) path q t (le_n _) Hq Hs). Qed.

(** Removing a route that ends in a splat answers for the splat's node alone, and the
    node above is erased on that answer: every other route below it is lost. *)
Theorem removed_splat_drops_siblings {Handler} s (t c l : node Handler) :
  s <> [] -> slash ∉ s -> getSegmentType s = Ok Fixed ->
  child (Named Fixed s) t = Some c -> splat_ c = Some l -> removable (set_route None l) = true ->
  forall q, lookup_route (Named Fixed s :: q) (fst (removeRoute (s ++ B "/*") t)) = None.
Proof.
  intros Hs Hn Ht Hc Hl Hr q. assert (find_char slash (s ++ B "/*") = Some (length s)) as E by (by apply find_char_app).
  assert (current_segment (s ++ B "/*") = s /\ lower_path (s ++ B "/*") = B "*") as [E1 E2].
  { unfold current_segment, lower_path. rewrite E, take_app_length. split; [done|].
    change (s ++ B "/*") with (s ++ [slash] ++ B "*"). rewrite app_assoc. apply drop_app_exact. rewrite length_app. simpl. lia. }
  unfold removeRoute. replace (length (s ++ B "/*")) with (S (S (length s))) by (rewrite length_app; change (length (B "/*")) with 2%nat; lia).
  rewrite (removeRoute_step _ _ _ Fixed s); [|by destruct s|unfold pattern_segment; by rewrite E1, Ht].
  rewrite Hc, E2.
  assert (removeRoute_loop (S (length s)) (B "*") c = (set_splat (Some (set_route None l)) c, Ok true)) as ->.
  { change (removeRoute_loop (S (length s)) (B "*") c) with
      ((match splat_ c with None => throw no_route | Some _ => in_splat (removeRoute_loop (length s) []) end) c).
    rewrite Hl. unfold in_splat. rewrite Hl. cbn [default id].
    assert (removeRoute_loop (length s) [] l = (set_route None l, Ok (removable (set_route None l)))) as -> by by destruct (length s).
    by rewrite Hr. }
  cbn [fst]. rewrite lookup_set_child by done. by rewrite decide_True.
Qed.

(** ** Witnesses *)

(** The routes [/a/b] and [/a/*]. *)
Definition two_routes : node nat :=
  fst (addRoute (B "a/*") 2%nat (fst (addRoute (B "a/b") 1%nat SegmentTreeNode_new))).

Lemma removeRoute_deletes_witness :
  lookup_route [Named Fixed (B "a"); Named Fixed (B "b")] (fst (removeRoute (B "a/b") two_routes)) = None
  /\ lookup_route [Named Fixed (B "a"); Star] (fst (removeRoute (B "a/b") two_routes)) = Some 2%nat.
Proof.
  destruct (removeRoute_deletes (B "a/b") [Named Fixed (B "a"); Named Fixed (B "b")] two_routes) as [H _].
  - reflexivity.
  - intros Hin. repeat (apply elem_of_cons in Hin as [Hin|Hin]; [discriminate|]). by apply not_elem_of_nil in Hin.
  - split; rewrite H; reflexivity.
Defined.

Lemma removed_splat_drops_siblings_witness :
  lookup_route [Named Fixed (B "a"); Named Fixed (B "b")] two_routes = Some 1%nat
  /\ lookup_route [Named Fixed (B "a"); Named Fixed (B "b")] (fst (removeRoute (B "a" ++ B "/*") two_routes)) = None.
Proof.
  split; [reflexivity|].
  eapply (removed_splat_drops_siblings (B "a") two_routes).
  - discriminate.
  - apply find_char_None. reflexivity.
  - reflexivity.
  - reflexivity.
  - reflexivity.
  - vm_compute. reflexivity.
Defined.
