(* ===== verification/RouteSearch.v ===== *)
(** * The search in the routing tree

    [findRoute] passes two vectors around and undoes what it pushed when a branch
    fails.  [search] is the same search as a function of the segments alone; it
    finds a registered pattern that the path matches. *)

From S2P Require Import Prelude Cxx SegmentTree RouteTable.

(** ** Matching *)

Definition app_bindings (b c : bindings) : bindings :=
  {| params := params b ++ params c; splats := splats b ++ splats c |}.
Definition add_param (name value : bytes) (b : bindings) : bindings :=
  set_params (fun l => {| param_name := name; param_value := value |} :: l) b.
Definition add_splat (value : bytes) (b : bindings) : bindings :=
  set_splats (fun l => {| param_name := value; param_value := value |} :: l) b.

(** What a path must be for a pattern, and what it binds: an optional segment is
    there, or it and all that follows is left out. *)
Fixpoint matches (q : pattern) (segs : list bytes) : option bindings :=
  match q, segs with
  | [], [] => Some no_bindings
  | Named Fixed k :: q', s :: segs' => if decide (k = s) then matches q' segs' else None
  | Named Param k :: q', s :: segs' => add_param k s <$> matches q' segs'
  | Named Optional k :: q', s :: segs' => add_param k s <$> matches q' segs'
  | Named Optional _ :: q', [] => matches q' []
  | Star :: q', s :: segs' => add_splat s <$> matches q' segs'
  | _, _ => None
  end.

Section Search.
Context {Handler : Type}.
Abbreviation node := (node Handler).
Abbreviation found := (found (Handler := Handler)).
Context (order : gmap bytes node -> list (bytes * node)).

Definition otherwise (a b : found) : found := match a with Some _ => a | None => b end.

Fixpoint first_of (f : bytes -> node -> found) (l : list (bytes * node)) : found :=
  match l with [] => None | (name, c) :: l' => otherwise (f name c) (first_of f l') end.

Definition with_ (f : bindings -> bindings) (r : found) : found := match r with Some (h, b) => Some (h, f b) | None => None end.

Fixpoint search (fuel : nat) (segs : list bytes) (t : node) : found :=
  match fuel with
  | O => None
  | S fuel' =>
      match segs with
      | [] =>
          match order (optional_ t) with
          | (_, o) :: _ => search fuel' [] o
          | [] => match route_ t with Some h => Some (h, no_bindings) | None => None end
          end
      | s :: segs' =>
          otherwise (match fixed_ t !! s with Some c => search fuel' segs' c | None => None end) (
          otherwise (first_of (fun name c => with_ (add_param name s) (search fuel' segs' c)) (order (param_ t))) (
          otherwise (first_of (fun name c => with_ (add_param name s) (search fuel' segs' c)) (order (optional_ t)))
            (match splat_ t with Some c => with_ (add_splat s) (search fuel' segs' c) | None => None end)))
      end
  end.

(** ** The vectors *)

(** [m] adds its bindings to the vectors when it finds something, and leaves them
    as they were when it does not; which of the two does not depend on them. *)
Definition yields (m : M bindings found) (o : found) : Prop := forall b,
  match o with
  | None => m b = (b, Ok None)
  | Some (h, c) => exists b', m b = (b', Ok (Some (h, app_bindings b c)))
  end.

Lemma app_no_bindings b : app_bindings b no_bindings = b.
Proof. destruct b. unfold app_bindings. cbn. by rewrite !app_nil_r. Qed.

Lemma yields_none : yields (mret None) None.
Proof. done. Qed.

Lemma yields_or_else m k o o' : yields m o -> yields k o' -> yields (or_else m k) (otherwise o o').
Proof.
  intros Hm Hk b. unfold or_else. specialize (Hm b). destruct o as [[h c]|]; cbn.
  - destruct Hm as [b' E]. exists b'. by rewrite (bind_Ok _ _ _ _ _ E).
  - rewrite (bind_Ok _ _ _ _ _ Hm). apply Hk.
Qed.

Lemma yields_push f m o (undo : bindings -> bindings) :
  (forall b, undo (app_bindings b (f no_bindings)) = b) ->
  (forall b c, app_bindings (app_bindings b (f no_bindings)) c = app_bindings b (f c)) ->
  yields m o ->
  yields (_ ← modify (fun b => app_bindings b (f no_bindings)); or_else m (_ ← modify undo; mret None)) (with_ f o).
Proof.
  intros Hu Ha Hm b. unfold mbind, M_bind, modify at 1, or_else. specialize (Hm (app_bindings b (f no_bindings))).
  destruct o as [[h c]|]; cbn.
  - destruct Hm as [b' E]. exists b'. rewrite (bind_Ok _ _ _ _ _ E). by rewrite Ha.
  - rewrite (bind_Ok _ _ _ _ _ Hm). unfold mbind, M_bind, modify. by rewrite Hu.
Qed.

Lemma yields_with_param name value m o : yields m o -> yields (with_param name value m) (with_ (add_param name value) o).
Proof.
  intros Hm b. pose proof (yields_push (add_param name value) m o (set_params (@removelast _))) as Hy.
  replace (with_param name value m b) with
    ((_ ← modify (fun b => app_bindings b (add_param name value no_bindings));
      or_else m (_ ← modify (set_params (@removelast _)); mret None)) b).
  - apply Hy; [..|done].
    + intros []. unfold set_params, app_bindings. cbn. by rewrite removelast_last, app_nil_r.
    + intros [] []. unfold app_bindings, add_param, set_params. cbn. by rewrite <- !app_assoc.
  - unfold with_param, mbind, M_bind, modify. destruct b. unfold app_bindings, set_params. cbn. by rewrite app_nil_r.
Qed.

Lemma yields_with_splat value m o : yields m o -> yields (with_splat value m) (with_ (add_splat value) o).
Proof.
  intros Hm b. pose proof (yields_push (add_splat value) m o (set_splats (@removelast _))) as Hy.
  replace (with_splat value m b) with
    ((_ ← modify (fun b => app_bindings b (add_splat value no_bindings));
      or_else m (_ ← modify (set_splats (@removelast _)); mret None)) b).
  - apply Hy; [..|done].
    + intros []. unfold set_splats, app_bindings. cbn. by rewrite removelast_last, app_nil_r.
    + intros [] []. unfold app_bindings, add_splat, set_splats. cbn. by rewrite <- !app_assoc.
  - unfold with_splat, mbind, M_bind, modify. destruct b. unfold app_bindings, set_splats. cbn. by rewrite app_nil_r.
Qed.

Lemma yields_find_first f g l :
  (forall name c, In (name, c) l -> yields (f name c) (g name c)) -> yields (find_first f l) (first_of g l).
Proof.
  induction l as [|[name c] l IH]; intros Hf; [apply yields_none|]. cbn [find_first first_of].
  apply yields_or_else; [apply Hf; by left|]. apply IH. intros n' c' Hin. apply Hf. by right.
Qed.

(** The second attempt on an optional segment repeats one that failed. *)
Lemma yields_retry m k o f : yields m (with_ f o) -> yields k o -> yields (or_else m k) (with_ f o).
Proof.
  intros Hm Hk. replace (with_ f o) with (otherwise (with_ f o) o) by (by destruct o as [[]|]). by apply yields_or_else.
Qed.


Hypothesis order_ok : forall m, order m ≡ₚ map_to_list m.

Lemma in_order m name c : In (name, c) (order m) <-> m !! name = Some c.
Proof. rewrite <- list_elem_of_In, order_ok. apply elem_of_map_to_list. Qed.

Lemma order_nil m : order m = [] <-> m = ∅.
Proof.
  split; [|intros ->; apply Permutation_nil; by rewrite order_ok, map_to_list_empty].
  intros E. apply map_to_list_empty_iff. apply Permutation_nil. by rewrite <- order_ok, E.
Qed.

(** ** The search with vectors is the search *)

Lemma findRoute_loop_search fuel path t :
  (depth t <= fuel)%nat -> yields (findRoute_loop order fuel path t) (search fuel (segments path) t).
Proof.
  revert path t. induction fuel as [|fuel IH]; intros path t Hd; [destruct t; cbn in Hd; lia|].
  assert (forall ty name c path', In (name, c) (order (collection ty t)) ->
    yields (findRoute_loop order fuel path' c) (search fuel (segments path') c)) as Hc.
  { intros ty name c path' Hin%in_order. apply IH. pose proof (child_depth (Named ty name) t c Hin). lia. }
  destruct (decide (path = [])) as [->|Hp].
  - cbn [findRoute_loop search segments length segments_loop]. destruct (order (optional_ t)) as [|[name o] l] eqn:Eo.
    + destruct (route_ t) as [h|]; [|apply yields_none]. intros b. exists b. by rewrite app_no_bindings.
    + apply (Hc Optional name o []). cbn. rewrite Eo. by left.
  - rewrite segments_cons by done. destruct path as [|a path]; [done|]. cbn [findRoute_loop search].
    set (p := a :: path). set (s := current_segment p). apply yields_or_else.
    { destruct (fixed_ t !! s) as [c|] eqn:E; [|apply yields_none]. by apply (Hc Fixed s), in_order. }
    apply yields_or_else.
    { apply yields_find_first. intros name c Hin. by apply yields_with_param, (Hc Param name). }
    apply yields_or_else.
    { apply yields_find_first. intros name c Hin.
      apply yields_retry; [apply yields_with_param|]; by apply (Hc Optional name). }
    destruct (splat_ t) as [c|] eqn:E; [|apply yields_none]. apply yields_with_splat, IH.
    pose proof (child_depth Star t c E). lia.
Qed.

Lemma findRoute_search path t : findRoute order path t = Ok (search (depth t) (segments path) t).
Proof.
  unfold findRoute. pose proof (findRoute_loop_search (depth t) path t (le_n _) no_bindings) as Hy.
  destruct (search _ _ _) as [[h c]|]; [destruct Hy as [b' ->]|by rewrite Hy]. cbn. by destruct c.
Qed.

(** ** What is found *)

Lemma otherwise_Some a b x : otherwise a b = Some x -> a = Some x \/ b = Some x.
Proof. destruct a; [by left|by right]. Qed.

Lemma first_of_Some f l x : first_of f l = Some x -> exists name c, In (name, c) l /\ f name c = Some x.
Proof.
  induction l as [|[name c] l IH]; [done|]. cbn. intros [E|E]%otherwise_Some.
  - exists name, c. split; [by left|done].
  - destruct (IH E) as (n & c' & Hin & E'). exists n, c'. split; [by right|done].
Qed.

Lemma with_Some f r h b : with_ f r = Some (h, b) -> exists b', r = Some (h, b') /\ b = f b'.
Proof. destruct r as [[h' b']|]; [|done]. intros [= <- <-]. eauto. Qed.

Lemma lookup_child s q (t c : node) h : child s t = Some c -> lookup_route q c = Some h -> lookup_route (s :: q) t = Some h.
Proof. intros E Hq. by rewrite lookup_route_cons, E. Qed.

Lemma search_sound fuel segs t h b :
  search fuel segs t = Some (h, b) -> exists q, lookup_route q t = Some h /\ matches q segs = Some b.
Proof.
  revert segs t b. induction fuel as [|fuel IH]; intros segs t b; [done|]. cbn [search]. destruct segs as [|s segs].
  - destruct (order (optional_ t)) as [|[name o] l] eqn:Eo.
    + destruct (route_ t) as [h'|] eqn:Er; [|done]. intros [= <- <-]. by exists [].
    + intros (q & Hq & Hm)%IH. exists (Named Optional name :: q). split; [|done].
      apply (lookup_child _ _ _ o); [|done]. apply in_order. cbn [collection]. rewrite Eo. by left.
  - intros [E|[E|[E|E]%otherwise_Some]%otherwise_Some]%otherwise_Some.
    + destruct (fixed_ t !! s) as [c|] eqn:Ec; [|done]. apply IH in E as (q & Hq & Hm).
      exists (Named Fixed s :: q). split; [by apply (lookup_child (Named Fixed s) _ _ c)|]. cbn. by rewrite decide_True.
    + apply first_of_Some in E as (name & c & Hin%in_order & (b' & (q & Hq & Hm)%IH & ->)%with_Some).
      exists (Named Param name :: q). split; [by apply (lookup_child (Named Param name) _ _ c)|]. cbn. by rewrite Hm.
    + apply first_of_Some in E as (name & c & Hin%in_order & (b' & (q & Hq & Hm)%IH & ->)%with_Some).
      exists (Named Optional name :: q). split; [by apply (lookup_child (Named Optional name) _ _ c)|]. cbn. by rewrite Hm.
    + destruct (splat_ t) as [c|] eqn:Ec; [|done]. apply with_Some in E as (b' & (q & Hq & Hm)%IH & ->).
      exists (Star :: q). split; [by apply (lookup_child Star _ _ c)|]. cbn. by rewrite Hm.
Qed.

(** No node of the tree has an optional child. *)
Definition no_optionals (t : node) : Prop := forall q c, node_at q t = Some c -> optional_ c = ∅.

Lemma no_optionals_child s t c : no_optionals t -> child s t = Some c -> no_optionals c.
Proof. intros Ht Hc q c' Hq. apply (Ht (s :: q)). cbn. by rewrite Hc. Qed.

Lemma otherwise_is_Some a b : is_Some a \/ is_Some b -> is_Some (otherwise a b).
Proof. destruct a; [intros; by eexists|intros [[]|]; done]. Qed.

Lemma first_of_is_Some f l name c : In (name, c) l -> is_Some (f name c) -> is_Some (first_of f l).
Proof.
  induction l as [|[n c'] l IH]; [done|]. intros [[= -> ->]|Hin] Hf; cbn; apply otherwise_is_Some; auto.
Qed.

Lemma with_is_Some f r : is_Some r -> is_Some (with_ f r).
Proof. intros [[h b] ->]. by eexists. Qed.

Lemma search_complete fuel q segs t h :
  (depth t <= fuel)%nat -> no_optionals t -> lookup_route q t = Some h -> is_Some (matches q segs) ->
  is_Some (search fuel segs t).
Proof.
  revert q segs t. induction fuel as [|fuel IH]; intros q segs t Hd Hn Hq [b Hb]; [destruct t; cbn in Hd; lia|].
  assert (forall s q', q = s :: q' -> exists c, child s t = Some c /\ forall segs', is_Some (matches q' segs') ->
    is_Some (search fuel segs' c)) as Hc.
  { intros s q' ->. rewrite lookup_route_cons in Hq. destruct (child s t) as [c|] eqn:Ec; [|done]. exists c.
    split; [done|]. intros segs' Hm. apply (IH q'); [|by eapply no_optionals_child|done|done].
    apply child_depth in Ec. lia. }
  pose proof (Hn [] t eq_refl) as Ho. cbn [search]. destruct q as [|[[] k|] q], segs as [|s segs]; try done.
  - apply order_nil in Ho. rewrite Ho. unfold lookup_route in Hq. cbn in Hq. rewrite Hq. by eexists.
  - destruct (Hc _ _ eq_refl) as (c & Ec & Hs). cbn in Ec, Hb. case_decide; [|done]. subst k. rewrite Ec.
    apply otherwise_is_Some. left. apply Hs. by eexists.
  - destruct (Hc _ _ eq_refl) as (c & Ec & Hs). cbn in Ec, Hb. apply otherwise_is_Some. right.
    apply otherwise_is_Some. left. apply (first_of_is_Some _ _ k c); [by apply in_order|]. apply with_is_Some, Hs.
    destruct (matches q segs); [by eexists|done].
  - destruct (Hc _ _ eq_refl) as (c & Ec & _). cbn in Ec. by rewrite Ho, lookup_empty in Ec.
  - destruct (Hc _ _ eq_refl) as (c & Ec & _). cbn in Ec. by rewrite Ho, lookup_empty in Ec.
  - destruct (Hc _ _ eq_refl) as (c & Ec & Hs). cbn in Ec, Hb. rewrite Ec. do 3 (apply otherwise_is_Some; right).
    apply with_is_Some, Hs. destruct (matches q segs); [by eexists|done].
Qed.

(** The fixed segments are tried first. *)
Lemma search_fixed fuel segs t c h :
  (depth t <= fuel)%nat -> node_at (map (Named Fixed) segs) t = Some c -> optional_ c = ∅ -> route_ c = Some h ->
  search fuel segs t = Some (h, no_bindings).
Proof.
  revert segs t. induction fuel as [|fuel IH]; intros segs t Hd Hc Ho Hr; [destruct t; cbn in Hd; lia|].
  cbn [search]. destruct segs as [|s segs].
  - cbn in Hc. injection Hc as ->. apply order_nil in Ho. by rewrite Ho, Hr.
  - cbn [map node_at] in Hc. destruct (child (Named Fixed s) t) as [c'|] eqn:Ec; [|done].
    pose proof (child_depth _ _ _ Ec). cbn in Ec, Hc. rewrite Ec, (IH segs c'); [done|lia|done..].
Qed.
End Search.

(** ** Properties *)

Section Properties.
Context {Handler : Type}.
Abbreviation node := (node Handler).
Context (order : gmap bytes node -> list (bytes * node)).
Hypothesis order_ok : forall m, order m ≡ₚ map_to_list m.

(** C16. [findRoute] returns on every path and tree, and what it returns is the handler of
    a registered pattern that the path matches, with the parameters and splats this
    match binds, in order; nothing of a branch that failed is left in them. *)
Theorem findRoute_sound path t :
  exists r, findRoute order path t = Ok r
  /\ match r with
     | Some (h, b) => exists q, lookup_route q t = Some h /\ matches q (segments path) = Some b
     | None => True
     end.
Proof.
  eexists. split; [by apply findRoute_search|]. destruct (search _ _ _ _) as [[h b]|] eqn:E; [|done].
  by eapply search_sound.
Qed.

(** C15. In a tree without optional parameters the search backtracks enough: it finds
    nothing exactly when the path matches no registered pattern. *)
Theorem findRoute_complete path t :
  no_optionals t ->
  findRoute order path t = Ok None
  <-> forall q h, lookup_route q t = Some h -> matches q (segments path) = None.
Proof.
  intros Hn. rewrite findRoute_search by done. split.
  - intros [= E] q h Hq. destruct (matches q (segments path)) eqn:Em; [|done].
    destruct (search_complete order order_ok (depth t) q (segments path) t h) as [x Ex]; [done..|by eexists|congruence].
  - intros Hm. destruct (search _ _ _ _) as [[h b]|] eqn:E; [|done].
    apply search_sound in E as (q & Hq & Eb); [|done]. by rewrite (Hm q h Hq) in Eb.
Qed.

(** A route registered for exactly the segments of the path is the one found,
    whatever parameters and splats match too, unless an optional parameter can
    follow it. *)
Theorem fixed_route_first path t c h :
  node_at (map (Named Fixed) (segments path)) t = Some c -> optional_ c = ∅ -> route_ c = Some h ->
  findRoute order path t = Ok (Some (h, no_bindings)).
Proof. intros Hc Ho Hr. rewrite findRoute_search by done. f_equal. by eapply search_fixed. Qed.

(** If one can, and no route ends after it, the route is never found: an optional
    child of its node is searched instead of the node. *)
Theorem optional_hides_route t h :
  lookup_route [] t = Some h -> optional_ t <> ∅ ->
  (forall name o, optional_ t !! name = Some o -> route_ o = None /\ optional_ o = ∅) ->
  findRoute order [] t = Ok None.
Proof.
  intros _ Hne Ho. rewrite findRoute_search by done. f_equal. change (segments []) with (@nil bytes).
  assert (order (optional_ t) <> []) as Hn by (by rewrite order_nil).
  pose proof (in_order order order_ok (optional_ t)) as Hin.
  destruct (depth t) as [|n] eqn:Ed; [by destruct t|]. cbn [search].
  destruct (order (optional_ t)) as [|[name o] l]; [done|].
  assert (optional_ t !! name = Some o) as Hc by (apply Hin; by left).
  destruct (Ho name o Hc) as [Hr He]. apply (order_nil order order_ok) in He.
  pose proof (child_depth (Named Optional name) t o Hc). destruct n as [|n]; [by destruct o|]. cbn [search]. by rewrite He, Hr.
Qed.
End Properties.

(** ** Witnesses *)

(** [/users/:id] and [/users/me]. *)
Definition user_routes : node nat :=
  fst (addRoute (B "users/me") 2%nat (fst (addRoute (B "users/:id") 1%nat SegmentTreeNode_new))).
(** [/] and [/:page?/edit]. *)
Definition page_routes : node nat :=
  fst (addRoute (B ":page?/edit") 2%nat (fst (addRoute [] 1%nat SegmentTreeNode_new))).

Lemma map_to_list_ok (m : gmap bytes (node nat)) : map_to_list m ≡ₚ map_to_list m.
Proof. done. Qed.

Lemma no_optionals_node {Handler} (f p : gmap bytes (node Handler)) s r :
  map_Forall (fun _ => no_optionals) f -> map_Forall (fun _ => no_optionals) p ->
  (forall c, s = Some c -> no_optionals c) -> no_optionals (Node f p ∅ s r).
Proof.
  intros Hf Hp Hs [|[[] k|] q] c; [by intros [= <-]|..]; cbn; [destruct (f !! k) as [c'|] eqn:E
    |destruct (p !! k) as [c'|] eqn:E|by rewrite lookup_empty|by rewrite lookup_empty|destruct s as [c'|] eqn:E]; try done; intros Hq.
  - by eapply Hf.
  - by eapply Hp.
  - by eapply Hs.
Qed.

Lemma user_routes_no_optionals : no_optionals user_routes.
Proof.
  change (no_optionals (Node {[ B "users" := Node {[ B "me" := Node ∅ ∅ ∅ None (Some 2%nat) ]}
    {[ B ":id" := Node ∅ ∅ ∅ None (Some 1%nat) ]} ∅ None None ]} ∅ ∅ None None)).
  repeat (apply no_optionals_node || apply map_Forall_singleton || apply map_Forall_empty || done).
Qed.

Lemma findRoute_complete_witness :
  findRoute map_to_list (B "users/7/posts") user_routes = Ok None
  <-> forall q h, lookup_route q user_routes = Some h -> matches q (segments (B "users/7/posts")) = None.
Proof. apply (findRoute_complete map_to_list map_to_list_ok), user_routes_no_optionals. Defined.

Lemma findRoute_sound_witness :
  exists r, findRoute map_to_list (B "users/7") user_routes = Ok r
  /\ match r with
     | Some (h, b) => exists q, lookup_route q user_routes = Some h /\ matches q (segments (B "users/7")) = Some b
     | None => True
     end.
Proof. apply (findRoute_sound map_to_list map_to_list_ok). Defined.

Lemma fixed_route_first_witness : findRoute map_to_list (B "users/me") user_routes = Ok (Some (2%nat, no_bindings)).
Proof. eapply (fixed_route_first map_to_list map_to_list_ok); vm_compute; reflexivity. Defined.

Lemma optional_hides_route_witness :
  lookup_route [] page_routes = Some 1%nat /\ findRoute map_to_list [] page_routes = Ok None.
Proof.
  split; [reflexivity|]. apply (optional_hides_route map_to_list map_to_list_ok page_routes 1%nat).
  - reflexivity.
  - vm_compute. discriminate.
  - intros name o Ho. assert (optional_ page_routes = {[ B ":page" := Node {[ B "edit" := Node ∅ ∅ ∅ None (Some 2%nat) ]} ∅ ∅ None None ]}) as E by reflexivity.
    rewrite E in Ho. apply lookup_singleton_Some in Ho as [_ <-]. done.
Defined.
