(* ===== verification/Router.v ===== *)
(** * The router: [Rest::Router] and [Rest::Request] of [router.h], [src/server/router.cc]

    Handlers and middleware belong to the application: each is a state transformer
    over [World], which is also where the responses the router sends itself go. *)

From S2P Require Import Prelude Cxx Stream HttpDefs QValue Mime Cookie Net HttpHeader HttpHeaders HttpMessage HttpResponse.
From S2P Require Import SegmentTree RouteTable RouteSearch.

Local Open Scope Z_scope.

(** ** [Rest::Request] *)

Record RestRequest : Type := { http_request : Request; params_ : list TypedParam; splats_ : list TypedParam }.

Definition hasParam (name : bytes) (r : RestRequest) : bool :=
  existsb (fun p => bool_decide (param_name p = name)) (params_ r).

Definition param (name : bytes) (r : RestRequest) : result TypedParam :=
  match List.find (fun p => bool_decide (param_name p = name)) (params_ r) with
  | Some p => Ok p
  | None => Throw (RuntimeError (B "Unknown parameter"))
  end.

Definition splatAt (index : nat) (r : RestRequest) : result TypedParam :=
  match splats_ r !! index with
  | Some p => Ok p
  | None => Throw (OutOfRange (B "Request splat index out of range"))
  end.

Inductive Route_Result : Set := RouteOk | RouteFailure.
Inductive Status : Set := Match | NotFound | NotAllowed.

Section Router.
Context {World : Type}.

Definition Handler : Type := RestRequest -> ResponseWriter -> M World Route_Result.

(** A middleware may change the request and the response it is given. *)
Definition Middleware : Type := Request -> ResponseWriter -> M World (Request * ResponseWriter * bool).

(** A disconnection handler is given the peer. *)
Definition DisconnectHandler : Type := Z -> M World unit.

Record Router : Type := {
  routes : gmap Method.t (node Handler);
  customHandlers : list Handler;
  middlewares : list Middleware;
  disconnectHandlers : list DisconnectHandler;
  notFoundHandler : option Handler }.

Definition Router_new : Router :=
  {| routes := ∅; customHandlers := []; middlewares := []; disconnectHandlers := []; notFoundHandler := None |}.

Definition set_routes (m : gmap Method.t (node Handler)) (r : Router) : Router :=
  {| routes := m; customHandlers := customHandlers r; middlewares := middlewares r;
     disconnectHandlers := disconnectHandlers r; notFoundHandler := notFoundHandler r |}.

Definition addCustomHandler (h : Handler) (r : Router) : Router :=
  {| routes := routes r; customHandlers := customHandlers r ++ [h]; middlewares := middlewares r;
     disconnectHandlers := disconnectHandlers r; notFoundHandler := notFoundHandler r |}.
Definition addMiddleware (m : Middleware) (r : Router) : Router :=
  {| routes := routes r; customHandlers := customHandlers r; middlewares := middlewares r ++ [m];
     disconnectHandlers := disconnectHandlers r; notFoundHandler := notFoundHandler r |}.
Definition addDisconnectHandler (h : DisconnectHandler) (r : Router) : Router :=
  {| routes := routes r; customHandlers := customHandlers r; middlewares := middlewares r;
     disconnectHandlers := disconnectHandlers r ++ [h]; notFoundHandler := notFoundHandler r |}.
Definition addNotFoundHandler (h : Handler) (r : Router) : Router :=
  {| routes := routes r; customHandlers := customHandlers r; middlewares := middlewares r;
     disconnectHandlers := disconnectHandlers r; notFoundHandler := Some h |}.

Definition zero_length : exn := RuntimeError (B "Invalid zero-length URL.").

(** [auto& r = routes[method]; ...] on the sanitized resource: the entry is made, and
    what [m] leaves of the tree stored, whether it throws or not. *)
Definition on_tree {A} (method : Method.t) (resource : bytes) (m : bytes -> M (node Handler) A) : M Router A := fun r =>
  match resource with
  | [] => (r, Throw zero_length)
  | _ =>
      let t := default SegmentTreeNode_new (routes r !! method) in
      match sanitizeResource resource with
      | Ok path => let '(t', res) := m path t in (set_routes (<[method := t']> (routes r)) r, res)
      | Throw e => (set_routes (<[method := t]> (routes r)) r, Throw e)
      | UB => (r, UB)
      | OutOfFuel => (r, OutOfFuel)
      end
  end.

Definition Router_addRoute (method : Method.t) (resource : bytes) (handler : Handler) : M Router unit :=
  on_tree method resource (fun path => addRoute path handler).

Definition Router_removeRoute (method : Method.t) (resource : bytes) : M Router unit :=
  _ ← on_tree method resource removeRoute; mret tt.

(** [Router::get] and the rest, also as [Routes::Get] ... *)
Definition Router_get : bytes -> Handler -> M Router unit := Router_addRoute Method.Get.
Definition Router_post : bytes -> Handler -> M Router unit := Router_addRoute Method.Post.
Definition Router_put : bytes -> Handler -> M Router unit := Router_addRoute Method.Put.
Definition Router_patch : bytes -> Handler -> M Router unit := Router_addRoute Method.Patch.
Definition Router_del : bytes -> Handler -> M Router unit := Router_addRoute Method.Delete.
Definition Router_options : bytes -> Handler -> M Router unit := Router_addRoute Method.Options.
Definition Router_head : bytes -> Handler -> M Router unit := Router_addRoute Method.Head.

Fixpoint disconnectPeer_loop (handlers : list DisconnectHandler) (peer : Z) : M World unit :=
  match handlers with [] => mret tt | h :: hs => _ ← h peer; disconnectPeer_loop hs peer end.
Definition disconnectPeer (r : Router) (peer : Z) : M World unit := disconnectPeer_loop (disconnectHandlers r) peer.

(** ** [route]

    [order] and [method_order] are the sequences the maps are iterated in; [sent] and
    [setIdle] are what the transport and the peer make of a response. *)

Context `{DateLib, Iteration, ContentEncodings, Compressors}.
Context (order : gmap bytes (node Handler) -> list (bytes * node Handler)).
Context (method_order : gmap Method.t (node Handler) -> list (Method.t * node Handler)).
Context (sent : outcome -> M World unit) (setIdle : Z -> bool -> M World unit).

(** [sendImpl] first marks a peer that is there as idle; [sendMethodNotAllowed] does not. *)
Definition send_response (code : Z) (body : bytes) (response : ResponseWriter) : M World unit :=
  _ ← (match peer_ response with Some fd => setIdle fd true | None => mret tt end);
  o ← lift (snd (send code body MediaType_default response));
  sent o.
Definition send_not_allowed (supportedMethods : list Method.t) (response : ResponseWriter) : M World unit :=
  o ← lift (snd (sendMethodNotAllowed supportedMethods response)); sent o.

(** [for (const auto& middleware : middlewares)]; [None] is [return Match]. *)
Fixpoint run_middlewares (ms : list Middleware) (req : Request) (resp : ResponseWriter)
  : M World (option (Request * ResponseWriter)) :=
  match ms with
  | [] => mret (Some (req, resp))
  | m :: ms' =>
      r ← m req resp;
      if snd r : bool then run_middlewares ms' (fst (fst r)) (snd (fst r)) else mret None
  end.

(** [for (const auto& handler : customHandlers)]: [true] is [return Match].  Each is
    given a clone of the response [route] was called with. *)
Fixpoint run_custom (hs : list Handler) (req : Request) (response : ResponseWriter) : M World bool :=
  match hs with
  | [] => mret false
  | h :: hs' =>
      handler1 ← h {| http_request := req; params_ := []; splats_ := [] |} (ResponseWriter_clone response);
      match handler1 with RouteOk => mret true | RouteFailure => run_custom hs' req response end
  end.

(** The methods other than the request's whose tree has the path. *)
Fixpoint supported (path : bytes) (method : Method.t) (l : list (Method.t * node Handler)) : result (list Method.t) :=
  match l with
  | [] => Ok []
  | (m, t) :: l' =>
      if decide (m = method) then supported path method l'
      else
        rte ← findRoute order path t;
        ms ← supported path method l';
        Ok (match rte with Some _ => m :: ms | None => ms end)
  end.

Definition invokeNotFoundHandler (h : Handler) (req : Request) (resp : ResponseWriter) : M World unit :=
  _ ← h {| http_request := req; params_ := []; splats_ := [] |} resp; mret tt.

Definition route (r : Router) (request : Request) (response : ResponseWriter) : M World Status :=
  match resource_ request with
  | [] => throw zero_length
  | _ =>
      piped ← run_middlewares (middlewares r) request (ResponseWriter_clone response);
      match piped with
      | None => mret Match
      | Some (req, resp) =>
          path ← lift (sanitizeResource (resource_ request));
          found ← lift (match routes r !! method_ req with
                        | Some t => findRoute order path t
                        | None => Ok None
                        end);
          match found with
          | Some (handler, b) =>
              _ ← handler {| http_request := req; params_ := params b; splats_ := splats b |} resp;
              mret Match
          | None =>
              custom ← run_custom (customHandlers r) req response;
              if custom : bool then mret Match
              else
                supportedMethods ← lift (supported path (method_ req) (method_order (routes r)));
                match supportedMethods with
                | _ :: _ => _ ← send_not_allowed supportedMethods response; mret NotAllowed
                | [] =>
                    _ ← (match notFoundHandler r with
                         | Some h => invokeNotFoundHandler h req response
                         | None => send_response 404 (B "Could not find a matching route") response
                         end);
                    mret NotFound
                end
          end
      end
  end.

(** ** Lemmas *)

Hypothesis order_ok : forall m, order m ≡ₚ map_to_list m.
Hypothesis method_order_ok : forall m, method_order m ≡ₚ map_to_list m.

Lemma on_tree_slash {A} method p (m : bytes -> M (node Handler) A) r :
  exists path, sanitizeResource (slash :: p) = Ok path /\ segments path = words [] p
  /\ on_tree method (slash :: p) m r
     = let '(t, res) := m path (default SegmentTreeNode_new (routes r !! method)) in
       (set_routes (<[method := t]> (routes r)) r, res).
Proof.
  destruct (segments_squeeze p) as [E _]. exists (strip (squeeze true p)).
  split; [apply sanitize_slash|]. split; [done|]. unfold on_tree. by rewrite sanitize_slash.
Qed.

Lemma findRoute_returns path t : exists x, findRoute order path t = Ok x.
Proof. eexists. by apply findRoute_search. Qed.

Lemma supported_spec path method l :
  exists ms, supported path method l = Ok ms
  /\ (NoDup (map fst l) -> NoDup ms)
  /\ forall m, m ∈ ms <-> m <> method /\ exists t x, (m, t) ∈ l /\ findRoute order path t = Ok (Some x).
Proof.
  induction l as [|[m0 t0] l (ms & E & Hd & Hin)]; cbn [supported].
  { exists []. split; [done|]. split; [by constructor|]. set_solver. }
  assert (forall m, m ∈ ms -> m ∈ map fst l) as Hsub.
  { intros m (_ & t & _ & Ht & _)%Hin. apply list_elem_of_fmap. by exists (m, t). }
  destruct (decide (m0 = method)) as [->|Hm].
  - exists ms. split; [done|]. split; [intros [_ ?]%list.NoDup_cons; auto|]. set_solver.
  - destruct (findRoute_returns path t0) as [x Ex]. rewrite Ex, E. cbn.
    eexists. split; [done|]. split.
    + intros [Hn Hl]%list.NoDup_cons. destruct x; [|auto]. apply list.NoDup_cons. split; [|auto]. intros Hi. by apply Hn, Hsub.
    + intros m. destruct x as [y|].
      * rewrite elem_of_cons, Hin. split.
        -- intros [->|(? & t & x & ? & ?)]; (split; [done|]); [exists t0, y|exists t, x]; set_solver.
        -- intros (? & t & x & [[= -> ->]|?]%elem_of_cons & ?); [by left|right]. split; [done|]. by exists t, x.
      * rewrite Hin. split.
        -- intros (? & t & x & ? & ?). split; [done|]. exists t, x. set_solver.
        -- intros (? & t & x & [[= -> ->]|?]%elem_of_cons & ?); [congruence|]. split; [done|]. by exists t, x.
Qed.

Lemma pattern_of_fixed ws : Forall (fun w => getSegmentType w = Ok Fixed) ws -> pattern_of ws = Ok (map (Named Fixed) ws).
Proof.
  induction 1 as [|w ws Hw _ IH]; [done|]. cbn [pattern_of map]. unfold pattern_segment. rewrite Hw. cbn. by rewrite IH.
Qed.

(** ** Properties *)

(** C19. A route added for a path of fixed segments is the one a request for that path is
    given to, where the router has no middleware and no other route goes on from that path
    with an optional parameter (the search takes it and does not come back): whatever the
    slashes in the two and whatever the other routes, the handler is called once, with a
    clone of the response and no parameters. *)
Theorem added_route_dispatched method p p' handler r r' request response w :
  Router_addRoute method (slash :: p) handler r = (r', Ok tt) ->
  Forall (fun s => getSegmentType s = Ok Fixed) (words [] p) ->
  (forall t c, routes r' !! method = Some t -> node_at (map (Named Fixed) (words [] p)) t = Some c -> optional_ c = ∅) ->
  middlewares r = [] -> method_ request = method -> resource_ request = slash :: p' -> words [] p' = words [] p ->
  route r' request response w
  = (_ ← handler {| http_request := request; params_ := []; splats_ := [] |} (ResponseWriter_clone response);
     mret Match) w.
Proof.
  intros Ha Hf Ho Hmid <- Hr Hw. unfold Router_addRoute in Ha.
  destruct (on_tree_slash (method_ request) p (fun path => addRoute path handler) r) as (path & _ & Es & E). rewrite E in Ha. clear E.
  set (t0 := default _ _) in Ha. pose proof (addRoute_loop_spec (length path) path handler t0 (le_n _)) as Hadd.
  change (addRoute_loop (length path) path handler t0) with (addRoute path handler t0) in Hadd.
  rewrite Es, pattern_of_fixed in Hadd by done. unfold added in Hadd.
  destruct (addRoute path handler t0) as [t res] eqn:Et. cbn [fst snd] in Hadd. injection Ha as <- ->.
  destruct (lookup_route _ t0); [by destruct Hadd|]. destruct Hadd as [_ Hl].
  specialize (Hl (map (Named Fixed) (words [] p))). rewrite decide_True in Hl by done.
  assert (routes (set_routes (<[method_ request := t]> (routes r)) r) !! method_ request = Some t) as Ht by apply lookup_insert_eq.
  unfold lookup_route in Hl. destruct (node_at (map (Named Fixed) (words [] p)) t) as [c|] eqn:Ec; [|done]. cbn in Hl.
  pose proof (Ho t c Ht Ec) as Hc.
  unfold route. rewrite Hr. cbn [middlewares set_routes]. rewrite Hmid. cbn [run_middlewares].
  rewrite sanitize_slash. destruct (segments_squeeze p') as [Es' _].
  do 2 (rewrite (bind_Ok _ _ w w _ eq_refl); cbv beta iota). rewrite Ht.
  rewrite (findRoute_search order order_ok), Es', Hw. rewrite (search_fixed order order_ok _ _ _ c handler) by done.
  done.
Qed.

(** Without a route of its own, middleware or custom handlers a request gets a 405 with
    exactly the other methods that have the resource, or, if none has it, the
    application's or the router's own 404. *)
Theorem not_allowed_lists_methods p r request response :
  resource_ request = slash :: p -> middlewares r = [] -> customHandlers r = [] ->
  (forall t, routes r !! method_ request = Some t -> findRoute order (strip (squeeze true p)) t = Ok None) ->
  exists ms, NoDup ms
  /\ (forall m, m ∈ ms <-> m <> method_ request /\ exists t x, routes r !! m = Some t
        /\ findRoute order (strip (squeeze true p)) t = Ok (Some x))
  /\ forall w, route r request response w
     = (if decide (ms = [])
        then _ ← (match notFoundHandler r with
                  | Some h => invokeNotFoundHandler h request response
                  | None => send_response 404 (B "Could not find a matching route") response
                  end);
             mret NotFound
        else _ ← send_not_allowed ms response; mret NotAllowed) w.
Proof.
  intros Hr Hmid Hc Hno. set (path := strip (squeeze true p)) in *.
  destruct (supported_spec path (method_ request) (method_order (routes r))) as (ms & E & Hd & Hin).
  exists ms. split; [|split].
  - apply Hd. rewrite (fmap_Permutation fst _ _ (method_order_ok _)). apply NoDup_fst_map_to_list.
  - intros m. rewrite Hin. setoid_rewrite method_order_ok. by setoid_rewrite elem_of_map_to_list.
  - intros w. unfold route. rewrite Hr, Hmid. cbn [run_middlewares]. rewrite sanitize_slash. fold path.
    assert (match routes r !! method_ request with Some t => findRoute order path t | None => Ok None end = Ok None) as En.
    { destruct (routes r !! method_ request) eqn:Et; [by apply Hno|done]. }
    do 2 (rewrite (bind_Ok _ _ w w _ eq_refl); cbv beta iota). rewrite En, Hc.
    do 2 (rewrite (bind_Ok _ _ w w _ eq_refl); cbv beta iota). rewrite E.
    rewrite (bind_Ok _ _ w w _ eq_refl). cbv beta iota. by destruct ms.
Qed.
End Router.
Arguments Router : clear implicits.
Arguments Handler : clear implicits.

(** ** Witnesses *)

Definition no_encodings : ContentEncodings := {| use_zstd := false; use_brotli := false; use_deflate := false |}.
Definition no_compressors : Compressors := {| compress _ _ := Throw (RuntimeError (B "not built")) |}.

(** A world that records what happens in it. *)
Definition logging (name : bytes) : Handler (list bytes) := fun _ _ w => (w ++ [name], Ok RouteOk).
Definition logged_route (r : Router (list bytes)) (request : Request) (response : ResponseWriter) : M (list bytes) Status :=
  route (H := no_dates) (H0 := plain_order) (H1 := no_encodings) (H2 := no_compressors) map_to_list map_to_list
    (fun _ w => (w ++ [B "sent"], Ok tt)) (fun _ _ w => (w ++ [B "idle"], Ok tt)) r request response.

Definition me_router : Router (list bytes) :=
  fst (Router_addRoute Method.Get (B "/users/me/") (logging (B "me"))
    (fst (Router_addRoute Method.Get (B "/users/:id") (logging (B "id")) Router_new))).
Definition get_request (resource : bytes) : Request := set_resource resource (set_method Method.Get Request_default).
Definition fresh_response : ResponseWriter := ResponseWriter_new Http11 (Some 7) 4096.

Lemma added_route_dispatched_witness :
  logged_route me_router (get_request (B "//users///me")) fresh_response []
  = (_ ← logging (B "me") {| http_request := get_request (B "//users///me"); params_ := []; splats_ := [] |}
           (ResponseWriter_clone fresh_response); mret Match) [].
Proof.
  apply (added_route_dispatched (H := no_dates) (H0 := plain_order) (H1 := no_encodings) (H2 := no_compressors)
    map_to_list map_to_list _ _ (fun m => reflexivity _) Method.Get (B "users/me/") (B "/users///me")
    (logging (B "me")) (fst (Router_addRoute Method.Get (B "/users/:id") (logging (B "id")) Router_new)) me_router).
  - reflexivity.
  - repeat constructor.
  - intros t c Ht Hc.
    assert ((t' ← routes me_router !! Method.Get; node_at (map (Named Fixed) (words [] (B "users/me/"))) t')
            = Some (Node ∅ ∅ ∅ None (Some (logging (B "me"))))) as E by reflexivity.
    rewrite Ht in E. cbn [mbind option_bind] in E. rewrite Hc in E. by injection E as ->.
  - reflexivity.
  - reflexivity.
  - reflexivity.
  - reflexivity.
Defined.

Definition post_router : Router (list bytes) :=
  fst (Router_addRoute Method.Post (B "/users") (logging (B "post")) Router_new).

Lemma not_allowed_lists_methods_witness :
  exists ms, NoDup ms
  /\ (forall m, m ∈ ms <-> m <> Method.Get /\ exists t x, routes post_router !! m = Some t
        /\ findRoute map_to_list (strip (squeeze true (B "users"))) t = Ok (Some x))
  /\ forall w, logged_route post_router (get_request (B "/users")) fresh_response w
     = (if decide (ms = [])
        then _ ← (match notFoundHandler post_router with
                  | Some h => invokeNotFoundHandler h (get_request (B "/users")) fresh_response
                  | None => send_response (H := no_dates) (H0 := plain_order) (H1 := no_encodings) (H2 := no_compressors)
                      (fun _ w => (w ++ [B "sent"], Ok tt)) (fun _ _ w => (w ++ [B "idle"], Ok tt))
                      404 (B "Could not find a matching route") fresh_response
                  end);
             mret NotFound
        else _ ← send_not_allowed (H := no_dates) (H0 := plain_order) (fun _ w => (w ++ [B "sent"], Ok tt)) ms fresh_response;
             mret NotAllowed) w.
Proof.
  apply (not_allowed_lists_methods (H := no_dates) (H0 := plain_order) (H1 := no_encodings) (H2 := no_compressors)
    map_to_list map_to_list _ _ (fun m => reflexivity _) (fun m => reflexivity _) (B "users") post_router
    (get_request (B "/users")) fresh_response).
  - reflexivity.
  - reflexivity.
  - reflexivity.
  - intros t Ht. assert (routes post_router !! Method.Get = None) as E by reflexivity.
    change (routes post_router !! Method.Get = Some t) in Ht. congruence.
Defined.
