(* ===== verification/MessageQueue.v ===== *)
(** * The message queues between threads: [Queue] and [PollableQueue] of [mailbox.h]

    The multi-producer single-consumer queue is a linked list.  A producer exchanges
    the head for its new entry and then links the old head to it; in between the list
    is cut.  Each access to what threads share is one step of the model, and the steps
    of different threads come in any order.  Memory order is sequential consistency:
    the stores and the exchange are the atomics' default, the load acquires. *)

From S2P Require Import Prelude.

(** ** [Queue] *)

Section Queue.
Context {T : Type}.

(** An address; an entry's [storage] holds an object or not. *)
Abbreviation loc := nat.
Record Entry : Type := { storage : option T; next : option loc }.

Record Queue : Type := { heap : gmap loc Entry; head : loc; tail : loc }.

Definition Queue_new (sentinel : loc) : Queue :=
  {| heap := {[ sentinel := {| storage := None; next := None |} ]}; head := sentinel; tail := sentinel |}.

(** [new Entry(u)] at the address [entry], and [head.exchange(entry)]; what a producer
    has still to do is known by [prev] and [entry]. *)
Definition push_exchange (u : T) (entry : loc) (q : Queue) : Queue * (loc * loc) :=
  ({| heap := <[entry := {| storage := Some u; next := None |}]> (heap q); head := entry; tail := tail q |},
   (head q, entry)).

(** [prev->next = entry]; writing to an entry that was freed is undefined. *)
Definition push_link (prev entry : loc) (q : Queue) : result Queue :=
  match heap q !! prev with
  | None => UB
  | Some e => Ok {| heap := <[prev := {| storage := storage e; next := Some entry |}]> (heap q);
                    head := head q; tail := tail q |}
  end.

(** [pop]: [res] gets the data of the entry after it, which becomes the sentinel. *)
Definition pop (q : Queue) : result (Queue * option loc) :=
  match heap q !! tail q with
  | None => UB
  | Some res =>
      match next res with
      | None => Ok (q, None)
      | Some n =>
          match heap q !! n with
          | Some {| storage := Some x; next := nn |} =>
              Ok ({| heap := <[tail q := {| storage := Some x; next := next res |}]>
                               (<[n := {| storage := None; next := nn |}]> (heap q));
                     head := head q; tail := n |}, Some (tail q))
          | _ => UB
          end
      end
  end.

(** [popSafe]: the object is moved out and the entry deleted. *)
Definition popSafe (q : Queue) : result (Queue * option T) :=
  popped ← pop q;
  match popped with
  | (q', None) => Ok (q', None)
  | (q', Some entry) =>
      match heap q' !! entry with
      | Some {| storage := Some x |} =>
          Ok ({| heap := delete entry (heap q'); head := head q'; tail := tail q' |}, Some x)
      | _ => UB
      end
  end.

Definition empty (q : Queue) : bool := bool_decide (head q = tail q).

(** ** Producers and the consumer *)

(** The queue, and the producers between their two steps. *)
Record system : Type := { queue : Queue; linking : list (loc * loc) }.

Definition start (sentinel : loc) : system := {| queue := Queue_new sentinel; linking := [] |}.

(** What the consumer or a producer is seen to do. *)
Inductive event : Type := Pushed (u : T) | Popped (x : option T).

(** A new entry lies where no entry is. *)
Inductive step : system -> option event -> system -> Prop :=
  | step_exchange u entry s :
      heap (queue s) !! entry = None ->
      step s (Some (Pushed u))
        {| queue := fst (push_exchange u entry (queue s));
           linking := snd (push_exchange u entry (queue s)) :: linking s |}
  | step_link prev entry l1 l2 q q' :
      push_link prev entry q = Ok q' ->
      step {| queue := q; linking := l1 ++ (prev, entry) :: l2 |} None {| queue := q'; linking := l1 ++ l2 |}
  | step_pop x s q' :
      popSafe (queue s) = Ok (q', x) ->
      step s (Some (Popped x)) {| queue := q'; linking := linking s |}.

Inductive steps (s : system) : list event -> system -> Prop :=
  | steps_refl : steps s [] s
  | steps_event tr s1 e s2 : steps s tr s1 -> step s1 (Some e) s2 -> steps s (tr ++ [e]) s2
  | steps_silent tr s1 s2 : steps s tr s1 -> step s1 None s2 -> steps s tr s2.

Definition pushed (tr : list event) : list T := omap (fun e => match e with Pushed u => Some u | _ => None end) tr.
Definition popped (tr : list event) : list T := omap (fun e => match e with Popped x => x | _ => None end) tr.

(** ** The invariant *)

(** From [t] on the entries [ls] hold the items; a link that is missing is one that a
    producer is about to make. *)
Fixpoint chain (h : gmap loc Entry) (pend : list (loc * loc)) (t : loc) (ls : list loc) (items : list T) : Prop :=
  match ls, items with
  | [], [] => next <$> h !! t = Some None
  | n :: ls', x :: items' =>
      (next <$> h !! t = Some (Some n) \/ next <$> h !! t = Some None /\ (t, n) ∈ pend)
      /\ storage <$> h !! n = Some (Some x) /\ chain h pend n ls' items'
  | _, _ => False
  end.

(** A pending link is between neighbours that are not linked yet. *)
Fixpoint neighbours (t : loc) (ls : list loc) : list (loc * loc) :=
  match ls with [] => [] | n :: ls' => (t, n) :: neighbours n ls' end.

Record represents (s : system) (items : list T) (ls : list loc) : Prop := {
  rep_chain : chain (heap (queue s)) (linking s) (tail (queue s)) ls items;
  rep_head : head (queue s) = default (tail (queue s)) (list.last ls);
  rep_distinct : NoDup (tail (queue s) :: ls);
  rep_pending : Forall (fun p => p ∈ neighbours (tail (queue s)) ls
                  /\ next <$> heap (queue s) !! fst p = Some None) (linking s);
  rep_once : NoDup (linking s) }.

Implicit Types (h : gmap loc Entry) (pend : list (loc * loc)).

Lemma present {A C} (f : A -> C) (o : option A) c : f <$> o = Some c -> is_Some o.
Proof. destruct o; [by eexists|done]. Qed.

Lemma chain_in_heap h pend t ls items l : chain h pend t ls items -> l ∈ t :: ls -> is_Some (h !! l).
Proof.
  revert t items. induction ls as [|n ls IH]; intros t [|x items]; cbn [chain]; try done.
  - intros E%present ->%list_elem_of_singleton. done.
  - intros (Hl & _ & Hc) [->|Hin]%elem_of_cons; [|by eapply IH]. by destruct Hl as [E%present|[E%present _]].
Qed.

Lemma chain_end h pend t ls items : chain h pend t ls items -> next <$> h !! default t (list.last ls) = Some None.
Proof.
  revert t items. induction ls as [|n ls IH]; intros t [|x items]; cbn [chain]; try done.
  intros (_ & _ & Hc). apply IH in Hc. rewrite last_cons. by destruct (list.last ls).
Qed.

(** The chain only depends on its own entries. *)
Lemma chain_ext h h' pend pend' t ls items :
  (forall l, l ∈ t :: ls -> next <$> h' !! l = next <$> h !! l) ->
  (forall l, l ∈ ls -> storage <$> h' !! l = storage <$> h !! l) ->
  (forall p, p ∈ neighbours t ls -> p ∈ pend -> p ∈ pend') ->
  chain h pend t ls items -> chain h' pend' t ls items.
Proof.
  revert t items. induction ls as [|n ls IH]; intros t [|x items] Hn Hs Hp; cbn [chain]; try done.
  - intros E. rewrite Hn; [done|by left].
  - intros (Hl & Hx & Hc). rewrite Hn, Hs by by left. split; [|split; [done|]].
    + destruct Hl as [?|[? ?]]; [by left|right]. split; [done|]. apply Hp; [by left|done].
    + apply IH; [..|done]; intros; [apply Hn|apply Hs|apply Hp; [|done]]; by right.
Qed.

Lemma neighbours_in t ls p : p ∈ neighbours t ls -> fst p ∈ t :: ls /\ snd p ∈ ls.
Proof.
  revert t. induction ls as [|n ls IH]; intros t; cbn [neighbours]; [by intros ?%not_elem_of_nil|].
  intros [->|Hp]%elem_of_cons; cbn; [set_solver|]. apply IH in Hp. set_solver.
Qed.

Lemma neighbours_snoc t ls n : neighbours t (ls ++ [n]) = neighbours t ls ++ [(default t (list.last ls), n)].
Proof.
  revert t. induction ls as [|m ls IH]; intros t; [done|]. cbn [app neighbours]. rewrite IH, last_cons.
  by destruct (list.last ls).
Qed.

Lemma neighbours_unique t ls p e e' :
  NoDup (t :: ls) -> (p, e) ∈ neighbours t ls -> (p, e') ∈ neighbours t ls -> e = e'.
Proof.
  revert t. induction ls as [|n ls IH]; intros t Hd; cbn [neighbours]; [by intros ?%not_elem_of_nil|].
  apply list.NoDup_cons in Hd as [Ht Hd].
  assert (forall x, (t, x) ∉ neighbours n ls) as Hx by (intros x [? _]%neighbours_in; done).
  intros [[= -> ->]|H1]%elem_of_cons [[= ->]|H2]%elem_of_cons; [done|by apply Hx in H2|subst; by apply Hx in H1|by eapply IH].
Qed.

Lemma chain_exchange h pend t ls items entry u :
  h !! entry = None -> chain h pend t ls items ->
  chain (<[entry := {| storage := Some u; next := None |}]> h) ((default t (list.last ls), entry) :: pend)
    t (ls ++ [entry]) (items ++ [u]).
Proof.
  intros He. revert t items. induction ls as [|n ls IH]; intros t [|x items]; cbn [chain app]; try done.
  - intros E. assert (entry <> t) by (intros ->; by rewrite He in E). rewrite lookup_insert_ne, !lookup_insert_eq by done.
    split; [right; split; [done|by left]|]. done.
  - intros (Hl & Hx & Hc). specialize (IH n items Hc).
    assert (entry <> t) by (intros ->; destruct Hl as [E|[E _]]; by rewrite He in E).
    assert (entry <> n) by (intros ->; by rewrite He in Hx).
    rewrite !lookup_insert_ne by done. split; [|split; [done|]].
    + destruct Hl as [?|[? ?]]; [by left|right]. split; [done|by right].
    + rewrite last_cons. by destruct (list.last ls).
Qed.

Lemma represents_exchange u entry s items ls :
  heap (queue s) !! entry = None -> represents s items ls ->
  represents {| queue := fst (push_exchange u entry (queue s));
                linking := snd (push_exchange u entry (queue s)) :: linking s |} (items ++ [u]) (ls ++ [entry]).
Proof.
  intros He [Hc Hh Hd Hp Ho].
  assert (entry ∉ tail (queue s) :: ls) as Hf by (intros Hin; apply (chain_in_heap _ _ _ _ _ _ Hc) in Hin as [? ?]; congruence).
  split; cbn [queue linking push_exchange fst snd heap head tail].
  - rewrite Hh. by apply chain_exchange.
  - by rewrite last_snoc.
  - rewrite app_comm_cons. apply list.NoDup_app. split; [done|]. split; [|apply list.NoDup_singleton]. set_solver.
  - rewrite neighbours_snoc. constructor.
    + split; [rewrite <- Hh; set_solver|]. cbn. pose proof (chain_end _ _ _ _ _ Hc) as E. rewrite <- Hh in E.
      rewrite lookup_insert_ne; [done|]. intros ->. by rewrite He in E.
    + eapply Forall_impl; [|exact Hp]. cbv beta. intros p [Hin Hn]. split; [set_solver|].
      rewrite lookup_insert_ne; [done|]. intros ->. by rewrite He in Hn.
  - apply list.NoDup_cons. split; [|done]. intros Hin. rewrite list.Forall_forall in Hp.
    apply Hp in Hin as [Hin _]. apply neighbours_in in Hin as [_ Hin]. cbn in Hin. apply Hf. by right.
Qed.

Lemma chain_link h pend pend' t ls items p e en :
  NoDup (t :: ls) -> (p, e) ∈ neighbours t ls -> h !! p = Some en ->
  (forall x, x ∈ pend -> x = (p, e) \/ x ∈ pend') ->
  chain h pend t ls items -> chain (<[p := {| storage := storage en; next := Some e |}]> h) pend' t ls items.
Proof.
  intros Hd Hin Hp Hpend. set (h' := <[p := _]> h).
  assert (forall l, storage <$> h' !! l = storage <$> h !! l) as Hs.
  { intros l. unfold h'. destruct (decide (l = p)) as [->|]; [by rewrite lookup_insert_eq, Hp|by rewrite lookup_insert_ne]. }
  assert (forall l, l <> p -> next <$> h' !! l = next <$> h !! l) as Hn.
  { intros l Hl. unfold h'. by rewrite lookup_insert_ne. }
  assert (next <$> h' !! p = Some (Some e)) as He by (unfold h'; by rewrite lookup_insert_eq).
  clearbody h'. revert t items Hd Hin. induction ls as [|n ls IH]; intros t items Hd Hin; [by apply not_elem_of_nil in Hin|].
  destruct items as [|x items]; [done|]. cbn [chain neighbours] in *. intros (Hl & Hx & Hc).
  apply list.NoDup_cons in Hd as [Ht Hd]. rewrite Hs. apply elem_of_cons in Hin as [[= -> ->]|Hin].
  - split; [by left|]. split; [done|]. eapply chain_ext; [..|exact Hc]; [intros l Hl'; apply Hn; by intros ->|done|].
    intros q Hq Hq'. destruct (Hpend q Hq') as [->|]; [|done]. apply neighbours_in in Hq as [Hq _]. by destruct Ht.
  - assert (t <> p) by (intros ->; apply neighbours_in in Hin as [? _]; done).
    rewrite Hn by done. split; [|split; [done|by apply IH]].
    destruct Hl as [?|[? Hq]]; [by left|right]. split; [done|]. destruct (Hpend _ Hq) as [[= -> ->]|]; done.
Qed.

Lemma represents_link p e l1 l2 q items ls :
  represents {| queue := q; linking := l1 ++ (p, e) :: l2 |} items ls ->
  exists q', push_link p e q = Ok q' /\ represents {| queue := q'; linking := l1 ++ l2 |} items ls.
Proof.
  intros [Hc Hh Hd Hp Ho]. cbn [queue linking] in *.
  assert ((p, e) ∈ neighbours (tail q) ls /\ next <$> heap q !! p = Some None) as [Hin Hn].
  { rewrite list.Forall_forall in Hp. apply (Hp (p, e)). set_solver. }
  destruct (heap q !! p) as [en|] eqn:Ep; [|done]. unfold push_link. rewrite Ep. eexists. split; [done|].
  assert (forall x, x ∈ l1 ++ (p, e) :: l2 -> x = (p, e) \/ x ∈ l1 ++ l2) as Hpend by set_solver.
  split; cbn [queue linking heap head tail]; [by eapply chain_link|done|done| |].
  - rewrite list.Forall_forall in *. intros [p' e'] Hx. assert ((p', e') ∈ l1 ++ (p, e) :: l2) as Hx' by set_solver.
    destruct (Hp _ Hx') as [Hin' Hn']. split; [done|]. cbn in *. destruct (decide (p' = p)) as [->|]; [|by rewrite lookup_insert_ne].
    pose proof (neighbours_unique _ _ _ _ _ Hd Hin Hin') as <-. exfalso.
    apply list.NoDup_app in Ho as (_ & Ha & Hb). apply list.NoDup_cons in Hb as [Hb _].
    apply elem_of_app in Hx as [Hx|Hx]; [|done]. apply (Ha _ Hx). by left.
  - apply list.NoDup_app in Ho as (Ha & Hx & Hb). apply list.NoDup_cons in Hb as [_ Hb].
    apply list.NoDup_app. split; [done|]. split; [|done]. intros y Hy Hy'. apply (Hx y Hy). by right.
Qed.

(** [popSafe] answers the first item, if its link is there, and nothing if not. *)
Lemma represents_pop s items ls :
  represents s items ls ->
  exists q' x, popSafe (queue s) = Ok (q', x)
  /\ match x with
     | Some y => exists items' ls', items = y :: items' /\ represents {| queue := q'; linking := linking s |} items' ls'
     | None => q' = queue s /\ (items = [] \/ linking s <> [])
     end.
Proof.
  intros [Hc Hh Hd Hp Ho]. destruct s as [q pend]. cbn [queue linking] in *.
  unfold popSafe, pop. destruct ls as [|n ls], items as [|x items]; try done; cbn [chain] in Hc.
  - destruct (heap q !! tail q) as [en|]; [|done]. injection Hc as ->. eexists _, None. split; [done|]. split; [done|by left].
  - destruct Hc as (Hl & Hx & Hc). destruct (heap q !! tail q) as [en|] eqn:Et; [|by destruct Hl as [?|[? _]]].
    destruct Hl as [[= E]|[[= E] Hin]]; rewrite E.
    2:{ eexists _, None. split; [done|]. split; [done|right]. intros ->. by apply not_elem_of_nil in Hin. }
    apply list.NoDup_cons in Hd as [Ht Hd]. assert (n <> tail q) by set_solver.
    destruct (heap q !! n) as [[st nn]|] eqn:En; [|done]. injection Hx as ->. cbn [mbind result_bind heap head tail].
    rewrite lookup_insert_eq. eexists _, (Some x). split; [done|]. exists items, ls. split; [done|].
    rewrite delete_insert_eq. apply list.NoDup_cons in Hd as Hd'. destruct Hd' as [Hn' _].
    assert (forall l, l <> tail q -> next <$> delete (tail q) (<[n := {| storage := None; next := nn |}]> (heap q)) !! l
              = next <$> heap q !! l) as Hnext.
    { intros l Hl. rewrite lookup_delete_ne by done. destruct (decide (l = n)) as [->|]; [by rewrite lookup_insert_eq, En|by rewrite lookup_insert_ne]. }
    split; cbn [queue linking heap head tail].
    + eapply chain_ext; [..|exact Hc]; [intros l Hl; apply Hnext; by intros ->| |done].
      intros l Hl. rewrite lookup_delete_ne, lookup_insert_ne by set_solver. done.
    + rewrite Hh, last_cons. by destruct (list.last ls).
    + done.
    + eapply Forall_impl; [|exact Hp]. cbv beta. intros p [Hin Hnp]. cbn [neighbours] in Hin. apply elem_of_cons in Hin as [->|Hin].
      { cbn in Hnp. rewrite Et in Hnp. cbn in Hnp. congruence. }
      split; [done|]. apply neighbours_in in Hin as [Hin _]. rewrite Hnext; [done|]. intros E'. apply Ht. by rewrite <- E'.
    + done.
Qed.

Lemma represents_start sentinel : represents (start sentinel) [] [].
Proof.
  split; cbn; [by rewrite lookup_singleton_eq|done|apply list.NoDup_singleton|constructor|constructor].
Qed.

(** One step, as seen by the list of items. *)
Definition effect (ev : option event) (items items' : list T) : Prop :=
  match ev with
  | Some (Pushed u) => items' = items ++ [u]
  | Some (Popped (Some y)) => items = y :: items'
  | _ => items' = items
  end.

Lemma represents_step s ev s' items ls :
  represents s items ls -> step s ev s' -> exists items' ls', represents s' items' ls' /\ effect ev items items'.
Proof.
  intros Hr Hs. destruct Hs as [u entry s He|p e l1 l2 q q' Hq|x s q' Hq].
  - eexists _, _. split; [by apply represents_exchange|done].
  - destruct (represents_link _ _ _ _ _ _ _ Hr) as (q1 & E & Hr'). assert (q1 = q') as -> by congruence. by eexists _, _.
  - destruct (represents_pop _ _ _ Hr) as (q1 & y & E & Hy). rewrite Hq in E. injection E as -> ->.
    destruct y as [y|]; [destruct Hy as (items' & ls' & -> & Hr'); by eexists _, _|].
    destruct Hy as [-> _]. exists items, ls. destruct s. by split.
Qed.

Lemma represents_steps sentinel tr s :
  steps (start sentinel) tr s -> exists items ls, represents s items ls /\ pushed tr = popped tr ++ items.
Proof.
  induction 1 as [|tr s1 e s2 _ (items & ls & Hr & E) Hs|tr s1 s2 _ (items & ls & Hr & E) Hs].
  - exists [], []. split; [apply represents_start|done].
  - destruct (represents_step _ _ _ _ _ Hr Hs) as (items' & ls' & Hr' & He). exists items', ls'. split; [done|].
    unfold pushed, popped in *. rewrite !omap_app, E. destruct e as [u|[y|]]; cbn in *; subst; by rewrite ?app_nil_r, <- ?app_assoc.
  - destruct (represents_step _ _ _ _ _ Hr Hs) as (items' & ls' & Hr' & He). exists items', ls'. cbn in He. by subst.
Qed.

(** ** [PollableQueue] *)

(** What the consumer is doing: waiting to be polled, or in the parts of [pop]: the
    first attempt, the read of the event descriptor, the second attempt. *)
Inductive consumer_state : Type := Waiting | Popping | Reading (ret : option T) | Retrying.

(** [counter] is the event descriptor's, [writers] the producers that have linked
    their entry and are about to write to it. *)
Record pollable : Type := { inner : system; counter : Z; writers : nat; consumer : consumer_state }.

Definition pollable_start (sentinel : loc) : pollable :=
  {| inner := start sentinel; counter := 0; writers := 0; consumer := Waiting |}.

(** A write of 1 to an eventfd.  A counter at its maximum of 2^64 - 2 stays there; the
    write then fails with [EAGAIN] and [push], whose item is already in the queue, throws. *)
Definition event_write (c : Z) : Z := Z.min (c + 1) (2 ^ 64 - 2).

(** The consumer takes what it gets and calls [pop] again until it gets nothing. *)
Definition after_pop (ret : option T) : consumer_state := match ret with Some _ => Popping | None => Waiting end.

Inductive pollable_step : pollable -> option event -> pollable -> Prop :=
  | pollable_exchange u s s' c w k :
      step s (Some (Pushed u)) s' ->
      pollable_step {| inner := s; counter := c; writers := w; consumer := k |} (Some (Pushed u))
                    {| inner := s'; counter := c; writers := w; consumer := k |}
  | pollable_link s s' c w k :
      step s None s' ->
      pollable_step {| inner := s; counter := c; writers := w; consumer := k |} None
                    {| inner := s'; counter := c; writers := S w; consumer := k |}
  | pollable_write s c w k :
      pollable_step {| inner := s; counter := c; writers := S w; consumer := k |} None
                    {| inner := s; counter := event_write c; writers := w; consumer := k |}
  | pollable_wake s c w :
      (0 < c)%Z ->
      pollable_step {| inner := s; counter := c; writers := w; consumer := Waiting |} None
                    {| inner := s; counter := c; writers := w; consumer := Popping |}
  | pollable_pop x s s' c w :
      step s (Some (Popped x)) s' ->
      pollable_step {| inner := s; counter := c; writers := w; consumer := Popping |} (Some (Popped x))
                    {| inner := s'; counter := c; writers := w; consumer := Reading x |}
  | pollable_read s c w ret :
      (0 < c)%Z ->
      pollable_step {| inner := s; counter := c; writers := w; consumer := Reading ret |} None
                    {| inner := s; counter := 0; writers := w;
                       consumer := match ret with Some _ => after_pop ret | None => Retrying end |}
  | pollable_again s w ret :
      pollable_step {| inner := s; counter := 0; writers := w; consumer := Reading ret |} None
                    {| inner := s; counter := 0; writers := w; consumer := after_pop ret |}
  | pollable_retry x s s' c w :
      step s (Some (Popped x)) s' ->
      pollable_step {| inner := s; counter := c; writers := w; consumer := Retrying |} (Some (Popped x))
                    {| inner := s'; counter := c; writers := w; consumer := after_pop x |}.

Inductive pollable_steps (s : pollable) : list event -> pollable -> Prop :=
  | pollable_refl : pollable_steps s [] s
  | pollable_more tr s1 ev s2 :
      pollable_steps s tr s1 -> pollable_step s1 ev s2 -> pollable_steps s (tr ++ option_list ev) s2.

(** The next [pop] finds something. *)
Definition ready (q : Queue) : Prop := exists n, next <$> heap q !! tail q = Some (Some n).

(** What is ready while the consumer waits, or is about to, has been or will be
    announced. *)
Record announced (s : pollable) : Prop := {
  ann_inner : exists items ls, represents (inner s) items ls;
  ann_counter : (0 <= counter s)%Z;
  ann_ready : consumer s = Waiting \/ consumer s = Reading None -> ready (queue (inner s)) ->
              (0 < counter s)%Z \/ (0 < writers s)%nat }.

Lemma pop_none_not_ready s x s' items ls :
  represents s items ls -> step s (Some (Popped x)) s' -> x = None -> ~ ready (queue s').
Proof.
  intros Hr Hs ->. remember (Some (Popped None)) as ev eqn:Eev. destruct Hs as [| |x s q' Hq]; [done..|]. injection Eev as ->.
  unfold popSafe, pop in Hq. intros [n Hn]. cbn [queue] in Hn.
  destruct (heap (queue s) !! tail (queue s)) as [en|] eqn:Et; [|done].
  destruct (next en) as [n'|] eqn:En.
  - destruct (heap (queue s) !! n') as [[[y|] nn]|]; [|done..]. cbn [mbind result_bind heap head tail] in Hq.
    by rewrite lookup_insert_eq in Hq.
  - cbn in Hq. injection Hq as <-. rewrite Et in Hn. cbn in Hn. congruence.
Qed.

Lemma exchange_ready s u s' items ls :
  represents s items ls -> step s (Some (Pushed u)) s' -> ready (queue s') -> ready (queue s).
Proof.
  intros Hr Hs. remember (Some (Pushed u)) as ev eqn:Eev. destruct Hs as [u' entry s He| |]; [|done..].
  intros [n Hn]. cbn [queue push_exchange fst heap tail] in Hn. exists n. rewrite lookup_insert_ne in Hn; [done|].
  intros ->. destruct (chain_in_heap _ _ _ _ _ (tail (queue s)) (rep_chain _ _ _ Hr)) as [? E]; [by left|congruence].
Qed.

Lemma announced_start sentinel : announced (pollable_start sentinel).
Proof.
  split; cbn; [eexists _, _; apply represents_start|done|]. intros _ [n Hn]. cbn in Hn. by rewrite lookup_singleton_eq in Hn.
Qed.

Lemma announced_step s ev s' : announced s -> pollable_step s ev s' -> announced s'.
Proof.
  intros [(items & ls & Hr) Hc Ha] Hs.
  assert (forall s1 ev, step (inner s) ev s1 -> exists items ls, represents s1 items ls) as Hin.
  { intros s1 ev' H1. destruct (represents_step _ _ _ _ _ Hr H1) as (items' & ls' & ? & _). by exists items', ls'. }
  destruct Hs as [u t t' c w k Ht|t t' c w k Ht|t c w k|t c w Hw|x t t' c w Ht|t c w ret Hw|t w ret|x t t' c w Ht];
    cbn [inner counter writers consumer] in *; split; cbn [inner counter writers consumer]; unfold event_write; eauto; try lia.
  - intros Hk Hy. apply Ha; [done|]. by eapply exchange_ready.
  - intros [|[= ->]]; [done|]. intros Hy. by destruct (pop_none_not_ready _ _ _ _ _ Hr Ht eq_refl).
  - by destruct ret; intros [?|?].
  - destruct ret; intros [Hk|Hk]; try done. intros Hy. apply Ha; [by right|done].
  - destruct x; intros [Hk|Hk]; try done. intros Hy. by destruct (pop_none_not_ready _ _ _ _ _ Hr Ht eq_refl).
Qed.

Lemma pollable_steps_inner sentinel tr s :
  pollable_steps (pollable_start sentinel) tr s -> announced s /\ steps (start sentinel) tr (inner s).
Proof.
  induction 1 as [|tr s1 ev s2 _ [Ha Hi] Hs]; [split; [apply announced_start|constructor]|].
  split; [by eapply announced_step|]. destruct Hs; cbn [inner option_list] in *; rewrite ?app_nil_r; try done;
    (by eapply steps_event) || (by eapply steps_silent).
Qed.
End Queue.

(** ** Properties *)

Section Properties.
Context {T : Type}.

(** C21. The queue is first in, first out for every interleaving of its producers' and its
    consumer's steps: what was popped so far, followed by what is still in it, is what
    was pushed, in the order of the exchanges.  No step touches an entry that was
    freed, and an item is missed only while some producer has not linked its entry. *)
Theorem queue_fifo sentinel (tr : list (event (T := T))) s :
  steps (start sentinel) tr s ->
  exists items, pushed tr = popped tr ++ items
  /\ (forall prev entry, (prev, entry) ∈ linking s -> exists q', push_link prev entry (queue s) = Ok q')
  /\ exists q' x, popSafe (queue s) = Ok (q', x)
     /\ match x with Some y => list.head items = Some y | None => items = [] \/ linking s <> [] end.
Proof.
  intros (items & ls & Hr & E)%represents_steps. exists items. split; [done|]. split.
  - intros p e Hin. apply elem_of_Permutation in Hin as Hin'. apply list_elem_of_split in Hin as (l1 & l2 & El).
    destruct s as [q pend]. cbn in *. subst pend. destruct (represents_link _ _ _ _ _ _ _ Hr) as (q' & Eq & _). eauto.
  - destruct (represents_pop _ _ _ Hr) as (q' & x & Ep & Hx). exists q', x. split; [done|].
    destruct x; [by destruct Hx as (? & ? & -> & _)|by destruct Hx].
Qed.

(** C34. No wakeup is lost: when every push has run to its end and the consumer waits with
    nothing to read from the event descriptor, everything that was pushed was popped. *)
Theorem pollable_queue_wakes sentinel (tr : list (event (T := T))) s :
  pollable_steps (pollable_start sentinel) tr s ->
  consumer s = Waiting -> linking (inner s) = [] -> writers s = 0%nat -> counter s = 0%Z ->
  pushed tr = popped tr.
Proof.
  intros [[_ _ Ha] Hi]%pollable_steps_inner Hk Hl Hw Hc. apply represents_steps in Hi as (items & ls & Hr & E).
  destruct items as [|x items]; [by rewrite app_nil_r in E|]. exfalso. destruct Hr as [Hch _ _ _ _].
  destruct ls as [|n ls]; [done|]. cbn [chain] in Hch. destruct Hch as ([En|[_ Hin]] & _).
  - destruct Ha; [by left|by exists n|lia|lia].
  - rewrite Hl in Hin. by apply not_elem_of_nil in Hin.
Qed.
End Properties.

(** ** Witnesses *)

Definition do_push (u : nat) (entry : nat) (s : system) : system :=
  {| queue := fst (push_exchange u entry (queue s)); linking := snd (push_exchange u entry (queue s)) :: linking s |}.
Definition do_link (prev entry : nat) (l : list (nat * nat)) (s : system (T := nat)) : system :=
  {| queue := match push_link prev entry (queue s) with Ok q => q | _ => queue s end; linking := l |}.
Definition do_pop (s : system (T := nat)) : system :=
  {| queue := match popSafe (queue s) with Ok (q, _) => q | _ => queue s end; linking := linking s |}.

(** Two producers exchange, and the first links its entry after the consumer found nothing. *)
Definition interleaved : system := do_pop (do_link 0 1 [(1, 2)] (do_push 20 2 (do_push 10 1 (start 0)))).
Definition interleaved_trace : list event := [Pushed 10; Pushed 20; Popped None; Popped (Some 10)].

Lemma queue_fifo_witness :
  steps (start 0) interleaved_trace interleaved
  /\ exists items, pushed interleaved_trace = popped interleaved_trace ++ items
  /\ (forall prev entry, (prev, entry) ∈ linking interleaved -> exists q', push_link prev entry (queue interleaved) = Ok q')
  /\ exists q' x, popSafe (queue interleaved) = Ok (q', x)
     /\ match x with Some y => list.head items = Some y | None => items = [] \/ linking interleaved <> [] end.
Proof.
  assert (steps (start 0) interleaved_trace interleaved) as Hs.
  { apply (steps_event _ [Pushed 10; Pushed 20; Popped None] (do_link 0 1 [(1, 2)] (do_push 20 2 (do_push 10 1 (start 0))))).
    - apply (steps_silent _ _ (do_push 20 2 (do_push 10 1 (start 0)))).
      + apply (steps_event _ [Pushed 10; Pushed 20] (do_push 20 2 (do_push 10 1 (start 0)))).
        * apply (steps_event _ [Pushed 10] (do_push 10 1 (start 0))).
          -- apply (steps_event _ [] (start 0)); [constructor|]. apply (step_exchange 10 1 (start 0)). reflexivity.
          -- apply (step_exchange 20 2 (do_push 10 1 (start 0))). reflexivity.
        * apply (step_pop None (do_push 20 2 (do_push 10 1 (start 0)))). reflexivity.
      + apply (step_link 0 1 [(1, 2)] []). reflexivity.
    - apply (step_pop (Some 10) (do_link 0 1 [(1, 2)] (do_push 20 2 (do_push 10 1 (start 0))))). reflexivity. }
  split; [exact Hs|]. exact (queue_fifo 0 interleaved_trace interleaved Hs).
Defined.

(** A push that is announced after the consumer looked, and is popped after the wakeup. *)
Definition pushed_one : system := do_link 0 1 [] (do_push 10 1 (start 0)).
Definition drained : pollable :=
  {| inner := do_pop (do_pop pushed_one); counter := 0; writers := 0; consumer := Waiting |}.

Lemma pollable_queue_wakes_witness :
  pollable_steps (pollable_start 0) [Pushed 10; Popped (Some 10); Popped None] drained
  /\ pushed [Pushed 10; Popped (Some 10); Popped None] = popped [Pushed 10; Popped (Some 10); Popped None].
Proof.
  set (P (s : system (T := nat)) c w k := {| inner := s; counter := c; writers := w; consumer := k |}).
  assert (pollable_steps (pollable_start 0) [Pushed 10; Popped (Some 10); Popped None] drained) as Hs.
  { change [Pushed 10; Popped (Some 10); Popped None] with
      ([Pushed 10; Popped (Some 10); Popped None] ++ option_list (@None (event (T := nat)))).
    apply (pollable_more _ _ (P (do_pop (do_pop pushed_one)) 0%Z 0 (Reading None))); [|apply (pollable_again _ _ None)].
    apply (pollable_more _ [Pushed 10; Popped (Some 10)] (P (do_pop pushed_one) 0%Z 0 Popping) (Some (Popped None)));
      [|apply pollable_pop, (step_pop None (do_pop pushed_one)); reflexivity].
    change [Pushed 10; Popped (Some 10)] with ([Pushed 10; Popped (Some 10)] ++ option_list (@None (event (T := nat)))).
    apply (pollable_more _ _ (P (do_pop pushed_one) 1%Z 0 (Reading (Some 10)))); [|apply (pollable_read _ 1%Z 0 (Some 10)); reflexivity].
    apply (pollable_more _ [Pushed 10] (P pushed_one 1%Z 0 Popping) (Some (Popped (Some 10))));
      [|apply pollable_pop, (step_pop (Some 10) pushed_one); reflexivity].
    change [Pushed 10] with (([Pushed 10] ++ option_list (@None (event (T := nat)))) ++ option_list (@None (event (T := nat)))).
    apply (pollable_more _ _ (P pushed_one 1%Z 0 Waiting)); [|apply pollable_wake; reflexivity].
    apply (pollable_more _ _ (P pushed_one 0%Z 1 Waiting)); [|apply (pollable_write pushed_one 0%Z 0 Waiting)].
    change [Pushed 10] with ([Pushed 10] ++ option_list (@None (event (T := nat)))).
    apply (pollable_more _ _ (P (do_push 10 1 (start 0)) 0%Z 0 Waiting)); [|apply pollable_link, (step_link 0 1 [] []); reflexivity].
    apply (pollable_more _ [] (pollable_start 0) (Some (Pushed 10))); [constructor|].
    apply pollable_exchange, (step_exchange 10 1 (start 0)). reflexivity. }
  split; [exact Hs|]. apply (pollable_queue_wakes 0 _ drained Hs); reflexivity.
Defined.
