(* ===== verification/MPMC.v ===== *)
(** * The bounded queue of the client: [MPMCQueue] of [mailbox.h]

    Each cell has a sequence number that says which of the indexes it is ready for.
    An operation claims an index with a compare-and-swap, works on the cell and then
    gives the cell away by storing its next sequence number.  Each access to the
    atomics and to the data is one step of a thread; threads are interleaved freely. *)

From S2P Require Import Prelude.

Local Open Scope Z_scope.

Section MPMC.
Context {T : Type} (bits : Z).

Definition Size : Z := 2 ^ bits.
Definition Mask : Z := Size - 1.

Record Cell : Type := { sequence : Z; data : T }.
Record MPMCQueue : Type := { cells_ : list Cell; enqueueIndex : Z; dequeueIndex : Z }.

(** [value] is what the cells hold at first. *)
Definition MPMCQueue_new (value : T) : MPMCQueue :=
  {| cells_ := map (fun i => {| sequence := i; data := value |}) (seqZ 0 Size); enqueueIndex := 0; dequeueIndex := 0 |}.

(** [*this = std::move(other)], which leaves [other]'s cells as they are: both
    indexes are set to [other.enqueueIndex]. *)
Definition MPMCQueue_move (other : MPMCQueue) : MPMCQueue :=
  {| cells_ := cells_ other; enqueueIndex := enqueueIndex other; dequeueIndex := enqueueIndex other |}.

Definition cellIndex (index : Z) : nat := Z.to_nat (Z.land index Mask).

Definition set_enqueueIndex (n : Z) (q : MPMCQueue) : MPMCQueue :=
  {| cells_ := cells_ q; enqueueIndex := n; dequeueIndex := dequeueIndex q |}.
Definition set_dequeueIndex (n : Z) (q : MPMCQueue) : MPMCQueue :=
  {| cells_ := cells_ q; enqueueIndex := enqueueIndex q; dequeueIndex := n |}.
Definition on_cell (index : Z) (f : Cell -> Cell) (q : MPMCQueue) : MPMCQueue :=
  {| cells_ := alter f (cellIndex index) (cells_ q); enqueueIndex := enqueueIndex q; dequeueIndex := dequeueIndex q |}.
Definition set_sequence (n : Z) (c : Cell) : Cell := {| sequence := n; data := data c |}.
Definition set_data (x : T) (c : Cell) : Cell := {| sequence := sequence c; data := x |}.

(** [static_cast<std::intptr_t>(seq) - static_cast<std::intptr_t>(index)]; it overflows
    only for numbers that are 2^63 apart. *)
Definition diff (seq index : Z) : Z := wraps 64 seq - wraps 64 index.

(** ** Threads *)

(** Where a thread is: outside, or before the access named, with the local variables
    it has read. *)
Inductive thread : Type :=
  | Idle
  | EnqLoad (x : T)
  | EnqCell (x : T) (index : Z)
  | EnqCas (x : T) (index : Z)
  | EnqData (x : T) (index : Z)
  | EnqPublish (index : Z)
  | DeqLoad
  | DeqCell (index : Z)
  | DeqCas (index : Z)
  | DeqData (index : Z)
  | DeqRelease (index : Z) (x : T).

(** What is seen of an operation: a successful claim of an index, the end. *)
Inductive event : Type := Enqueued (x : T) | Dequeuing | Dequeued (x : T) | Full | Empty.

(** [compare_exchange_weak] may fail although the values are equal; a failure loads
    the current value into [index]. *)
Inductive thread_step (q : MPMCQueue) : thread -> option event -> thread -> MPMCQueue -> Prop :=
  | enq_begin x : thread_step q Idle None (EnqLoad x) q
  | enq_load x : thread_step q (EnqLoad x) None (EnqCell x (enqueueIndex q)) q
  | enq_ready x i c :
      cells_ q !! cellIndex i = Some c -> diff (sequence c) i = 0 -> thread_step q (EnqCell x i) None (EnqCas x i) q
  | enq_full x i c :
      cells_ q !! cellIndex i = Some c -> diff (sequence c) i < 0 -> thread_step q (EnqCell x i) (Some Full) Idle q
  | enq_behind x i c :
      cells_ q !! cellIndex i = Some c -> 0 < diff (sequence c) i -> thread_step q (EnqCell x i) None (EnqLoad x) q
  | enq_claim x i :
      enqueueIndex q = i ->
      thread_step q (EnqCas x i) (Some (Enqueued x)) (EnqData x i) (set_enqueueIndex (wrapu 64 (i + 1)) q)
  | enq_retry x i : thread_step q (EnqCas x i) None (EnqCell x (enqueueIndex q)) q
  | enq_data x i : thread_step q (EnqData x i) None (EnqPublish i) (on_cell i (set_data x) q)
  | enq_publish i : thread_step q (EnqPublish i) None Idle (on_cell i (set_sequence (wrapu 64 (i + 1))) q)
  | deq_begin : thread_step q Idle None DeqLoad q
  | deq_load : thread_step q DeqLoad None (DeqCell (dequeueIndex q)) q
  | deq_ready i c :
      cells_ q !! cellIndex i = Some c -> diff (sequence c) (wrapu 64 (i + 1)) = 0 ->
      thread_step q (DeqCell i) None (DeqCas i) q
  | deq_empty i c :
      cells_ q !! cellIndex i = Some c -> diff (sequence c) (wrapu 64 (i + 1)) < 0 ->
      thread_step q (DeqCell i) (Some Empty) Idle q
  | deq_behind i c :
      cells_ q !! cellIndex i = Some c -> 0 < diff (sequence c) (wrapu 64 (i + 1)) ->
      thread_step q (DeqCell i) None DeqLoad q
  | deq_claim i :
      dequeueIndex q = i ->
      thread_step q (DeqCas i) (Some Dequeuing) (DeqData i) (set_dequeueIndex (wrapu 64 (i + 1)) q)
  | deq_retry i : thread_step q (DeqCas i) None (DeqCell (dequeueIndex q)) q
  | deq_data i c :
      cells_ q !! cellIndex i = Some c -> thread_step q (DeqData i) None (DeqRelease i (data c)) q
  | deq_release i x :
      thread_step q (DeqRelease i x) (Some (Dequeued x)) Idle
        (on_cell i (set_sequence (wrapu 64 (i + Mask + 1))) q).

Record state : Type := { shared : MPMCQueue; threads : list thread }.

Inductive run (s : state) : list event -> state -> Prop :=
  | run_refl : run s [] s
  | run_step tr q ts k t ev t' q' :
      run s tr {| shared := q; threads := ts |} -> ts !! k = Some t -> thread_step q t ev t' q' ->
      run s (tr ++ option_list ev) {| shared := q'; threads := <[k := t']> ts |}.

Definition start (value : T) (n : nat) : state := {| shared := MPMCQueue_new value; threads := replicate n Idle |}.

(** The items in the order their indexes were claimed, how many were claimed back, and
    the items handed out. *)
Definition enqueued (tr : list event) : list T := omap (fun e => match e with Enqueued x => Some x | _ => None end) tr.
Definition dequeuing (tr : list event) : nat := length (omap (fun e => match e with Dequeuing => Some () | _ => None end) tr).
Definition dequeued (tr : list event) : list T := omap (fun e => match e with Dequeued x => Some x | _ => None end) tr.

(** The item a thread has claimed and not handed out yet. *)
Definition in_hand (log : list T) (t : thread) : option T :=
  match t with DeqData i => log !! Z.to_nat i | DeqRelease _ x => Some x | _ => None end.

(** ** Cells *)

Context (bits_ok : 1 <= bits <= 62).

Lemma Size_2 : 2 <= Size <= 2 ^ 62.
Proof.
  unfold Size. pose proof (Z.pow_le_mono_r 2 1 bits ltac:(lia) ltac:(lia)).
  pose proof (Z.pow_le_mono_r 2 bits 62 ltac:(lia) ltac:(lia)). lia.
Qed.

Lemma cellIndex_mod i : 0 <= i -> Z.of_nat (cellIndex i) = i mod Size.
Proof.
  intros Hi. pose proof Size_2. unfold cellIndex, Mask. replace (Size - 1) with (Z.ones bits) by (rewrite Z.ones_equiv; unfold Size; lia).
  rewrite Z.land_ones by lia. fold Size. rewrite Z2Nat.id; [done|]. apply Z.mod_pos_bound. lia.
Qed.

(** Numbers of the same cell are equal or [Size] apart. *)
Lemma same_cell i j : 0 <= i -> 0 <= j -> cellIndex i = cellIndex j -> exists k, j = i + k * Size.
Proof.
  intros Hi Hj E. pose proof Size_2. apply (f_equal Z.of_nat) in E. rewrite !cellIndex_mod in E by done.
  exists (j / Size - i / Size). pose proof (Z.div_mod i Size). pose proof (Z.div_mod j Size). lia.
Qed.

Lemma not_next i j : 0 <= i -> 0 <= j -> cellIndex i = cellIndex j -> i <> j + 1 /\ j <> i + 1.
Proof. intros Hi Hj E. destruct (same_cell i j Hi Hj E) as [k ->]. pose proof Size_2. destruct (Z.lt_trichotomy k 0) as [|[->|]]; nia. Qed.

Lemma same_cell_add i : 0 <= i -> cellIndex (i + Size) = cellIndex i.
Proof.
  intros Hi. pose proof Size_2. apply Nat2Z.inj. rewrite !cellIndex_mod by lia.
  rewrite <- (Z.mul_1_l Size) at 1. apply Z_mod_plus_full.
Qed.

Lemma diff_small a b : 0 <= a < 2 ^ 63 -> 0 <= b < 2 ^ 63 -> diff a b = a - b.
Proof. intros. unfold diff. rewrite !wraps_small by lia. done. Qed.

(** ** The invariant *)

Section Invariant.
Context (log : list T) (q : MPMCQueue).
Abbreviation e := (enqueueIndex q).
Abbreviation d := (dequeueIndex q).

Definition item (i : Z) (x : T) : Prop := log !! Z.to_nat i = Some x.

(** A cell is open for one index, or holds the item of one. *)
Definition cell_ok (n : nat) (c : Cell) : Prop := exists i, 0 <= i /\ cellIndex i = n /\
  (sequence c = i /\ d <= i < d + Size \/ sequence c = i + 1 /\ i < e <= i + Size /\ item i (data c)).

Definition cell_at (i : Z) (P : Cell -> Prop) : Prop := exists c, cells_ q !! cellIndex i = Some c /\ P c.

(** What a thread knows of its index; one it has only read may be out of date. *)
Definition in_range (t : thread) : Prop :=
  match t with
  | Idle | EnqLoad _ | DeqLoad => True
  | EnqCell _ i | EnqCas _ i => 0 <= i <= e
  | EnqData x i => d <= i < e /\ item i x
  | EnqPublish i => d <= i < e
  | DeqCell i | DeqCas i => 0 <= i <= d
  | DeqData i => 0 <= i < d /\ e <= i + Size
  | DeqRelease i x => (0 <= i < d /\ e <= i + Size) /\ item i x
  end.

(** What it knows of the index's cell. *)
Definition knows (t : thread) : option (Z * (Cell -> Prop)) :=
  match t with
  | Idle | EnqLoad _ | EnqCell _ _ | DeqLoad | DeqCell _ => None
  | EnqCas _ i => Some (i, fun c => e <= i -> sequence c = i)
  | EnqData _ i => Some (i, fun c => sequence c = i)
  | EnqPublish i => Some (i, fun c => sequence c = i /\ item i (data c))
  | DeqCas i => Some (i, fun c => d <= i -> sequence c = i + 1)
  | DeqData i => Some (i, fun c => sequence c = i + 1 /\ item i (data c))
  | DeqRelease i _ => Some (i, fun c => sequence c = i + 1)
  end.

Definition thread_ok (t : thread) : Prop := in_range t /\ forall i P, knows t = Some (i, P) -> cell_at i P.
End Invariant.

(** The index a thread has claimed and not given away. *)
Definition claims (t : thread) : option (bool * Z) :=
  match t with
  | EnqData _ i | EnqPublish i => Some (true, i)
  | DeqData i | DeqRelease i _ => Some (false, i)
  | _ => None
  end.

Definition apart (t1 t2 : thread) : Prop := forall c, claims t1 = Some c -> claims t2 <> Some c.

(** All threads but the one that moves know what they know. *)
Definition others_ok (log : list T) (q : MPMCQueue) (k : nat) (ts : list thread) : Prop :=
  forall k' t', k' <> k -> ts !! k' = Some t' -> thread_ok log q t'.

Record invariant (log : list T) (q : MPMCQueue) (ts : list thread) : Prop := {
  inv_size : Z.of_nat (length (cells_ q)) = Size;
  inv_order : 0 <= dequeueIndex q <= enqueueIndex q /\ enqueueIndex q <= dequeueIndex q + Size;
  inv_log : Z.of_nat (length log) = enqueueIndex q;
  inv_cells : forall n c, cells_ q !! n = Some c -> cell_ok log q n c;
  inv_threads : forall k t, ts !! k = Some t -> thread_ok log q t;
  inv_apart : forall k1 k2 t1 t2, k1 <> k2 -> ts !! k1 = Some t1 -> ts !! k2 = Some t2 -> apart t1 t2 }.

Section Steps.
Context (log : list T) (q : MPMCQueue) (ts : list thread) (k : nat) (t : thread).
Context (HI : invariant log q ts) (Hk : ts !! k = Some t) (Hsmall : enqueueIndex q + Size < 2 ^ 63).

(** A thread that claims nothing new. *)
Lemma apart_insert t' :
  (forall c, claims t' = Some c -> claims t = Some c) ->
  forall k1 k2 t1 t2, k1 <> k2 -> <[k := t']> ts !! k1 = Some t1 -> <[k := t']> ts !! k2 = Some t2 -> apart t1 t2.
Proof.
  intros Hc k1 k2 t1 t2 Hne H1 H2 c Hc1 Hc2. pose proof (inv_apart _ _ _ HI) as Ha.
  apply list_lookup_insert_Some in H1 as [(<- & <- & _)|[Hn1 H1]], H2 as [(<- & <- & _)|[Hn2 H2]]; try done.
  - apply (Ha _ _ _ _ Hne Hk H2 c); [by apply Hc|done].
  - apply (Ha _ _ _ _ Hne H1 Hk c); [done|by apply Hc].
  - by apply (Ha _ _ _ _ Hne H1 H2 c).
Qed.

(** A thread that claims what nobody has. *)
Lemma apart_claim t' c' :
  claims t' = Some c' -> (forall k' u, ts !! k' = Some u -> claims u <> Some c') ->
  forall k1 k2 t1 t2, k1 <> k2 -> <[k := t']> ts !! k1 = Some t1 -> <[k := t']> ts !! k2 = Some t2 -> apart t1 t2.
Proof.
  intros Hc Hf k1 k2 t1 t2 Hne H1 H2 c Hc1 Hc2. pose proof (inv_apart _ _ _ HI) as Ha.
  apply list_lookup_insert_Some in H1 as [(<- & <- & _)|[Hn1 H1]], H2 as [(<- & <- & _)|[Hn2 H2]]; try done.
  - assert (c = c') as -> by congruence. by apply (Hf _ _ H2).
  - assert (c = c') as -> by congruence. by apply (Hf _ _ H1).
  - by apply (Ha _ _ _ _ Hne H1 H2 c).
Qed.

Lemma threads_insert log' q' t' :
  thread_ok log' q' t' -> others_ok log' q' k ts -> forall k1 t1, <[k := t']> ts !! k1 = Some t1 -> thread_ok log' q' t1.
Proof.
  intros Ht Ho k1 t1 H1. apply list_lookup_insert_Some in H1 as [(<- & <- & _)|[Hn1 H1]]; [done|]. apply (Ho k1); [done..].
Qed.

Lemma invariant_local t' :
  thread_ok log q t' -> claims t' = claims t \/ claims t' = None -> invariant log q (<[k := t']> ts).
Proof.
  intros Ht Hc. pose proof HI as [Hs Ho Hl Hce Hth _]. split; try done.
  - apply threads_insert; [done|]. intros k' u _ Hu. by eapply Hth.
  - apply apart_insert. intros c. destruct Hc as [->| ->]; done.
Qed.

(** The phase of a cell follows from its number. *)
Lemma cell_phase i c : 0 <= i -> cells_ q !! cellIndex i = Some c -> exists j, 0 <= j /\ cellIndex j = cellIndex i /\
  (sequence c = j /\ dequeueIndex q <= j < dequeueIndex q + Size
   \/ sequence c = j + 1 /\ j < enqueueIndex q <= j + Size /\ item log j (data c)).
Proof. intros Hi E. by apply (inv_cells _ _ _ HI) in E. Qed.

Lemma cell_open i c : 0 <= i -> cells_ q !! cellIndex i = Some c -> sequence c = i -> dequeueIndex q <= i < dequeueIndex q + Size.
Proof.
  intros Hi E Hs. destruct (cell_phase i c Hi E) as (j & Hj & Ej & [[Hsj ?]|(Hsj & ? & ?)]); [lia|].
  destruct (not_next j i Hj Hi Ej). lia.
Qed.

Lemma cell_full i c :
  0 <= i -> cells_ q !! cellIndex i = Some c -> sequence c = i + 1 -> i < enqueueIndex q <= i + Size /\ item log i (data c).
Proof.
  intros Hi E Hs. destruct (cell_phase i c Hi E) as (j & Hj & Ej & [[Hsj ?]|(Hsj & ? & ?)]).
  - destruct (not_next j i Hj Hi Ej). lia.
  - assert (j = i) as -> by lia. done.
Qed.

Lemma sequence_small i c : 0 <= i -> cells_ q !! cellIndex i = Some c -> 0 <= sequence c < 2 ^ 63.
Proof.
  intros Hi E. pose proof (inv_order _ _ _ HI). pose proof Size_2.
  destruct (cell_phase i c Hi E) as (j & Hj & Ej & [[Hsj ?]|(Hsj & ? & ?)]); lia.
Qed.

Lemma mine : thread_ok log q t.
Proof. by apply (inv_threads _ _ _ HI k). Qed.

(** What a thread knows of a cell lasts while the cell does. *)
Lemma cell_at_on i f j (P : Cell -> Prop) :
  (forall c, cellIndex j = cellIndex i -> cells_ q !! cellIndex i = Some c -> P c -> P (f c)) ->
  cell_at q j P -> cell_at (on_cell i f q) j P.
Proof.
  intros Hf (c & E & HP). unfold cell_at, on_cell. cbn [cells_].
  destruct (decide (cellIndex j = cellIndex i)) as [En|Hn].
  - exists (f c). rewrite En in E. rewrite En, list_lookup_alter_eq, E. split; [done|]. by apply Hf.
  - exists c. by rewrite list_lookup_alter_ne.
Qed.

(** A thread that changes a cell. *)
Lemma invariant_cell i f t' :
  (forall c, cells_ q !! cellIndex i = Some c -> cell_ok log q (cellIndex i) (f c)) ->
  (forall u j P c, knows log q u = Some (j, P) -> in_range log q u -> apart t u ->
     cellIndex j = cellIndex i -> cells_ q !! cellIndex i = Some c -> P c -> P (f c)) ->
  thread_ok log (on_cell i f q) t' -> claims t' = claims t \/ claims t' = None ->
  invariant log (on_cell i f q) (<[k := t']> ts).
Proof.
  intros Hc Hu Ht Hcl. pose proof HI as [Hs Ho Hl Hce Hth Ha]. split; cbn [on_cell cells_ enqueueIndex dequeueIndex]; try done.
  - by rewrite length_alter.
  - intros n c E. destruct (decide (n = cellIndex i)) as [->|Hn].
    + rewrite list_lookup_alter_eq in E. destruct (cells_ q !! cellIndex i) as [c0|] eqn:E0; [|done]. injection E as <-. by apply Hc.
    + rewrite list_lookup_alter_ne in E by done. by apply Hce.
  - apply threads_insert; [done|]. intros k' u Hne Hku. destruct (Hth _ _ Hku) as [Hr Hkn]. split; [by destruct u|].
    intros j P E. assert (knows log q u = Some (j, P)) as E' by by destruct u. apply cell_at_on; [|by apply Hkn].
    intros c Ej Ec. apply (Hu u j P c E' Hr); [|done..]. by apply (Ha k k').
  - apply apart_insert. intros c. destruct Hcl as [->| ->]; done.
Qed.

Lemma item_app (l : list T) i x : item log i x -> item (log ++ l) i x.
Proof. apply lookup_app_l_Some. Qed.

(** An index is claimed for a new item: its cell is open, so no item is overwritten. *)
Lemma invariant_enq_claim x :
  t = EnqCas x (enqueueIndex q) ->
  invariant (log ++ [x]) (set_enqueueIndex (enqueueIndex q + 1) q) (<[k := EnqData x (enqueueIndex q)]> ts).
Proof.
  intros Et. pose proof mine as Hm. rewrite Et in Hm. destruct Hm as [Hr Hkn]. pose proof HI as [Hs Ho Hl Hce Hth Ha]. pose proof Size_2. cbn [in_range] in Hr.
  destruct (Hkn _ _ eq_refl) as (c & Ec & Hsc). cbv beta in Hsc. specialize (Hsc ltac:(lia)).
  pose proof (cell_open _ _ (proj1 Hr) Ec Hsc) as Hopen.
  assert (forall j c', 0 <= j -> cells_ q !! cellIndex j = Some c' -> sequence c' = j + 1 ->
            enqueueIndex q <= j + Size -> enqueueIndex q + 1 <= j + Size) as Hroom.
  { intros j c' Hj Ec' Hsc' Hle. destruct (decide (enqueueIndex q = j + Size)) as [E|]; [|lia].
    rewrite E, same_cell_add in Ec by done. assert (c' = c) as -> by congruence. lia. }
  split; cbn [set_enqueueIndex cells_ enqueueIndex dequeueIndex]; try done; [lia|rewrite length_app; cbn; lia| | |].
  - intros n c' E. destruct (Hce _ _ E) as (j & Hj & En & HP). subst n. exists j. split; [done|]. split; [done|].
    destruct HP as [?|(Hsj & ? & ?)]; [by left|right]. pose proof (Hroom j c' Hj E Hsj). split; [done|].
    split; [cbn; lia|by apply item_app].
  - apply threads_insert.
    + split.
      * split; [cbn; lia|]. unfold item. rewrite <- Hl, Nat2Z.id. by apply list_lookup_middle.
      * intros i P [= <- <-]. by exists c.
    + intros k' u Hne Hu. destruct (Hth _ _ Hu) as [Hru Hku]. split.
      * destruct u; cbn [in_range set_enqueueIndex enqueueIndex dequeueIndex] in *; try lia;
          try (destruct Hru as [? ?]; split; [lia|by apply item_app]).
        -- destruct (Hku _ _ eq_refl) as (c' & Ec' & Hc' & _). pose proof (Hroom index c' ltac:(lia) Ec' Hc'). lia.
        -- destruct (Hku _ _ eq_refl) as (c' & Ec' & Hc'). pose proof (Hroom index c' ltac:(lia) Ec' Hc').
           split; [lia|apply item_app; tauto].
      * intros j P E. destruct u; try done; injection E as <- <-; destruct (Hku _ _ eq_refl) as (c' & Ec' & Hc');
          exists c'; (split; [done|]); cbn [set_enqueueIndex enqueueIndex dequeueIndex] in *; try done; try lia;
          (split; [tauto|apply item_app; tauto]).
  - eapply apart_claim; [done|]. intros k' u Hu Hc. destruct (Hth _ _ Hu) as [Hru _].
    destruct u; try done; injection Hc as ->; cbn in Hru; lia.
Qed.

(** An index is claimed for an item that is there. *)
Lemma invariant_deq_claim :
  t = DeqCas (dequeueIndex q) ->
  invariant log (set_dequeueIndex (dequeueIndex q + 1) q) (<[k := DeqData (dequeueIndex q)]> ts)
  /\ dequeueIndex q < enqueueIndex q.
Proof.
  intros Et. pose proof mine as Hm. rewrite Et in Hm. destruct Hm as [Hr Hkn]. pose proof HI as [Hs Ho Hl Hce Hth Ha]. pose proof Size_2. cbn [in_range] in Hr.
  destruct (Hkn _ _ eq_refl) as (c & Ec & Hsc). cbv beta in Hsc. specialize (Hsc ltac:(lia)).
  destruct (cell_full _ _ (proj1 Hr) Ec Hsc) as [Hfull Hitem]. split; [|lia].
  assert (forall j c', cells_ q !! cellIndex j = Some c' -> sequence c' = j -> dequeueIndex q <= j -> dequeueIndex q + 1 <= j) as Hlater.
  { intros j c' Ec' Hsc' Hle. destruct (decide (j = dequeueIndex q)) as [->|]; [|lia]. assert (c' = c) as -> by congruence. lia. }
  split; cbn [set_dequeueIndex cells_ enqueueIndex dequeueIndex]; try done; [lia| | |].
  - intros n c' E. destruct (Hce _ _ E) as (j & Hj & En & HP). subst n. exists j. split; [done|]. split; [done|].
    destruct HP as [[Hsj ?]|?]; [left|by right]. pose proof (Hlater j c' E Hsj). cbn. lia.
  - apply threads_insert.
    + split; [cbn; lia|]. intros i P [= <- <-]. by exists c.
    + intros k' u Hne Hu. destruct (Hth _ _ Hu) as [Hru Hku]. split.
      * destruct u; cbn [in_range set_dequeueIndex enqueueIndex dequeueIndex] in *; try lia; try (split; [lia|tauto]).
        -- destruct (Hku _ _ eq_refl) as (c' & Ec' & Hc'). pose proof (Hlater index c' Ec' Hc'). split; [lia|tauto].
        -- destruct (Hku _ _ eq_refl) as (c' & Ec' & Hc' & _). pose proof (Hlater index c' Ec' Hc'). lia.
      * intros j P E. destruct u; try done; injection E as <- <-; destruct (Hku _ _ eq_refl) as (c' & Ec' & Hc');
          exists c'; (split; [done|]); cbn [set_dequeueIndex enqueueIndex dequeueIndex] in *; try done; lia.
  - eapply apart_claim; [done|]. intros k' u Hu Hc. destruct (Hth _ _ Hu) as [Hru _].
    destruct u; try done; injection Hc as ->; cbn in Hru; lia.
Qed.
End Steps.

Section Run.
Context (log : list T) (q : MPMCQueue) (ts : list thread) (k : nat).
Context (HI : invariant log q ts) (Hsmall : enqueueIndex q + Size < 2 ^ 63).

Lemma invariant_enq_data x i :
  ts !! k = Some (EnqData x i) -> invariant log (on_cell i (set_data x) q) (<[k := EnqPublish i]> ts).
Proof.
  intros Hk. destruct (mine _ _ _ _ _ HI Hk) as [Hr Hkn]. pose proof (inv_order _ _ _ HI) as Ho. cbn [in_range] in Hr.
  destruct (Hkn _ _ eq_refl) as (c & Ec & Hsc). apply (invariant_cell _ _ _ _ _ HI Hk); [| | |by left].
  - intros c' E. assert (c' = c) as -> by congruence. exists i. split; [lia|]. split; [done|]. left.
    pose proof (cell_open _ _ _ HI i c ltac:(lia) Ec Hsc). cbn. lia.
  - intros u j P c' E Hu Hap Ej Ec' HP. assert (c' = c) as -> by congruence. pose proof (Hap _ eq_refl) as Hne.
    destruct u; try done; injection E as <- <-; cbn [set_data sequence data in_range claims] in *; try done.
    + destruct HP as [HP _]. assert (index = i) as -> by congruence. by destruct Hne.
    + destruct HP as [HP _]. pose proof (not_next index i ltac:(lia) ltac:(lia) Ej); lia.
  - split; [cbn; lia|]. intros j P [= <- <-]. exists (set_data x c). cbn. rewrite list_lookup_alter_eq, Ec. split; [done|].
    split; [done|]. tauto.
Qed.

Lemma invariant_enq_publish i :
  ts !! k = Some (EnqPublish i) -> invariant log (on_cell i (set_sequence (i + 1)) q) (<[k := Idle]> ts).
Proof.
  intros Hk. destruct (mine _ _ _ _ _ HI Hk) as [Hr Hkn]. pose proof (inv_order _ _ _ HI) as Ho. cbn [in_range] in Hr.
  destruct (Hkn _ _ eq_refl) as (c & Ec & Hsc & Hit). apply (invariant_cell _ _ _ _ _ HI Hk); [| |by split|by right].
  - intros c' E. assert (c' = c) as -> by congruence. exists i. split; [lia|]. split; [done|]. right. cbn. split; [lia|]. split; [lia|done].
  - intros u j P c' E Hu Hap Ej Ec' HP. assert (c' = c) as -> by congruence. pose proof (Hap _ eq_refl) as Hne.
    destruct u; try done; injection E as <- <-; cbn [set_sequence sequence data in_range claims] in *.
    + lia.
    + destruct (decide (index = i)) as [->|]; [done|lia].
    + destruct (decide (index = i)) as [->|]; [done|lia].
    + pose proof (not_next index i ltac:(lia) ltac:(lia) Ej); lia.
    + pose proof (not_next index i ltac:(lia) ltac:(lia) Ej); lia.
    + pose proof (not_next index i ltac:(lia) ltac:(lia) Ej); lia.
Qed.

Lemma invariant_deq_data i c :
  ts !! k = Some (DeqData i) -> cells_ q !! cellIndex i = Some c ->
  invariant log q (<[k := DeqRelease i (data c)]> ts) /\ item log i (data c).
Proof.
  intros Hk Ec. destruct (mine _ _ _ _ _ HI Hk) as [Hr Hkn]. destruct (Hkn _ _ eq_refl) as (c' & Ec' & Hsc & Hit).
  assert (c' = c) as -> by congruence. split; [|done]. apply (invariant_local _ _ _ _ _ HI Hk); [|by left].
  split; [by split|]. intros j P [= <- <-]. by exists c.
Qed.

Lemma invariant_deq_release i x :
  ts !! k = Some (DeqRelease i x) -> invariant log (on_cell i (set_sequence (i + Size)) q) (<[k := Idle]> ts).
Proof.
  intros Hk. destruct (mine _ _ _ _ _ HI Hk) as [Hr Hkn]. pose proof (inv_order _ _ _ HI) as Ho. cbn [in_range] in Hr.
  destruct (Hkn _ _ eq_refl) as (c & Ec & Hsc). apply (invariant_cell _ _ _ _ _ HI Hk); [| |by split|by right].
  - intros c' E. pose proof Size_2. exists (i + Size). split; [lia|]. split; [apply same_cell_add; lia|]. left. cbn. lia.
  - intros u j P c' E Hu Hap Ej Ec' HP. assert (c' = c) as -> by congruence. pose proof (Hap _ eq_refl) as Hne.
    destruct u; try done; injection E as <- <-; cbn [set_sequence sequence data in_range claims] in *.
    + pose proof (not_next index i ltac:(lia) ltac:(lia) Ej); lia.
    + pose proof (not_next index i ltac:(lia) ltac:(lia) Ej); lia.
    + pose proof (not_next index i ltac:(lia) ltac:(lia) Ej); lia.
    + lia.
    + destruct (decide (index = i)) as [->|]; [done|lia].
    + destruct (decide (index = i)) as [->|]; [done|lia].
Qed.

Lemma wrapu_index i : 0 <= i -> i < 2 ^ 63 + 1 -> wrapu 64 i = i.
Proof. intros. apply wrapu_small. lia. Qed.

(** What a step makes of the log of items and of the claimed ones in hand. *)
Definition moves (ev : option event) (t t' : thread) (log' : list T) (q' : MPMCQueue) : Prop :=
  dequeueIndex q' = dequeueIndex q + Z.of_nat (dequeuing (option_list ev)) /\
  exists claimed, take (Z.to_nat (dequeueIndex q')) log' = take (Z.to_nat (dequeueIndex q)) log ++ claimed
    /\ option_list (in_hand log t) ++ claimed = dequeued (option_list ev) ++ option_list (in_hand log' t').

(** A step that claims no index and hands nothing out. *)
Lemma moves_local ev t t' q' :
  dequeueIndex q' = dequeueIndex q -> dequeuing (option_list ev) = 0%nat -> dequeued (option_list ev) = [] ->
  in_hand log t = in_hand log t' -> moves ev t t' log q'.
Proof.
  intros Ed E0 E1 E2. split; [rewrite Ed, E0; lia|]. exists []. by rewrite Ed, E1, E2, !app_nil_r.
Qed.

Lemma knows_nothing t : in_range log q t -> knows log q t = None -> thread_ok log q t.
Proof. intros Hr E. split; [done|]. intros i P E'. congruence. Qed.

Lemma invariant_step t ev t' q' :
  ts !! k = Some t -> thread_step q t ev t' q' ->
  invariant (log ++ enqueued (option_list ev)) q' (<[k := t']> ts)
  /\ moves ev t t' (log ++ enqueued (option_list ev)) q'.
Proof.
  intros Hk Hs. pose proof (inv_order _ _ _ HI) as Ho. pose proof Size_2 as H2. destruct (mine _ _ _ _ _ HI Hk) as [Hr Hkn].
  assert (forall u, in_range log q u -> knows log q u = None -> claims u = None -> invariant log q (<[k := u]> ts)) as Hquiet.
  { intros u Hu Eu Ec. apply (invariant_local _ _ _ _ _ HI Hk); [by apply knows_nothing|by right]. }
  destruct Hs as [x|x|x i c Ec Hd|x i c Ec Hd|x i c Ec Hd|x i E|x i|x i|i| | |i c Ec Hd|i c Ec Hd|i c Ec Hd|i E|i|i c Ec|i x];
    cbn [option_list enqueued omap list_omap in_range] in *; rewrite ?app_nil_r;
    try (split; [by apply Hquiet; cbn; try lia|by apply moves_local]).
  - assert (sequence c = i) as Hi.
    { rewrite diff_small in Hd; [lia| |lia]. by apply (sequence_small _ _ _ HI Hsmall i c); [lia|]. }
    split; [|by apply moves_local]. apply (invariant_local _ _ _ _ _ HI Hk); [|by right].
    split; [done|]. intros j P [= <- <-]. by exists c.
  - subst i. rewrite wrapu_index by lia. split; [by apply (invariant_enq_claim _ _ _ _ _ HI Hk)|].
    split; [cbn; lia|]. exists []. cbn [set_enqueueIndex dequeueIndex dequeued option_list]. split; [|done].
    rewrite app_nil_r. apply take_app_le. pose proof (inv_log _ _ _ HI). lia.
  - split; [by eapply invariant_enq_data|by apply moves_local].
  - rewrite wrapu_index by lia. split; [by apply invariant_enq_publish|by apply moves_local].
  - rewrite (wrapu_index (i + 1)) in Hd by lia. assert (sequence c = i + 1) as Hi.
    { rewrite diff_small in Hd; [lia| |lia]. by apply (sequence_small _ _ _ HI Hsmall i c); [lia|]. }
    split; [|by apply moves_local]. apply (invariant_local _ _ _ _ _ HI Hk); [|by right].
    split; [done|]. intros j P [= <- <-]. by exists c.
  - subst i. rewrite wrapu_index by lia. destruct (invariant_deq_claim _ _ _ _ _ HI Hk eq_refl) as [HI' Hlt]. split; [done|].
    split; [cbn; lia|]. cbn [set_dequeueIndex dequeueIndex in_hand].
    destruct (lookup_lt_is_Some_2 log (Z.to_nat (dequeueIndex q))) as [x Ex]; [pose proof (inv_log _ _ _ HI); lia|].
    exists [x]. rewrite Ex. split; [|done]. rewrite Z2Nat.inj_add by lia. rewrite Nat.add_1_r. by apply take_S_r.
  - destruct (invariant_deq_data i c Hk Ec) as [HI' Hit]. split; [done|by apply moves_local].
  - replace (i + Mask + 1) with (i + Size) by (unfold Mask; lia). rewrite wrapu_small by lia.
    split; [by eapply invariant_deq_release|]. split; [cbn; lia|]. exists []. by rewrite !app_nil_r.
Qed.
End Run.

(** ** Runs *)

Definition in_hands (log : list T) (ts : list thread) : list T := omap (in_hand log) ts.

Lemma omap_middle {A B} (f : A -> option B) l1 x l2 :
  omap f (l1 ++ x :: l2) ≡ₚ option_list (f x) ++ omap f (l1 ++ l2).
Proof.
  rewrite !omap_app. cbn [omap list_omap]. destruct (f x) as [y|]; cbn; [|done]. by rewrite <- Permutation_middle.
Qed.

Lemma in_hands_step log log' ts k t t' :
  ts !! k = Some t -> (forall u, u ∈ ts -> in_hand log' u = in_hand log u) ->
  exists rest, in_hands log ts ≡ₚ option_list (in_hand log t) ++ rest
    /\ in_hands log' (<[k := t']> ts) ≡ₚ option_list (in_hand log' t') ++ rest.
Proof.
  intros Hk Hu. destruct (list_elem_of_split_length _ _ _ Hk) as (l1 & l2 & -> & ->).
  exists (omap (in_hand log) (l1 ++ l2)). unfold in_hands. rewrite insert_app_r_alt by lia.
  replace (length l1 - length l1)%nat with 0%nat by lia. cbn [insert list_insert]. rewrite !omap_middle. split; [done|].
  f_equiv. apply reflexive_eq. apply list_omap_ext. apply Forall_Forall2_diag. rewrite list.Forall_forall. set_solver.
Qed.

Definition conserved (tr : list event) (s : state) : Prop :=
  dequeueIndex (shared s) = Z.of_nat (dequeuing tr) /\
  take (Z.to_nat (dequeueIndex (shared s))) (enqueued tr) ≡ₚ dequeued tr ++ in_hands (enqueued tr) (threads s).

Lemma dequeuing_app tr1 tr2 : dequeuing (tr1 ++ tr2) = (dequeuing tr1 + dequeuing tr2)%nat.
Proof. unfold dequeuing. by rewrite omap_app, length_app. Qed.

Lemma invariant_start value n : invariant [] (MPMCQueue_new value) (replicate n Idle).
Proof.
  pose proof Size_2. split; cbn [MPMCQueue_new cells_ enqueueIndex dequeueIndex].
  - rewrite length_map, length_seqZ. lia.
  - lia.
  - done.
  - intros m c E. rewrite list_lookup_fmap in E. destruct (seqZ 0 Size !! m) as [i|] eqn:Ei; [|done]. injection E as <-.
    apply lookup_seqZ in Ei as [-> Hm]. exists (0 + Z.of_nat m). split; [lia|]. split; [|left; cbn; lia].
    apply Nat2Z.inj. rewrite cellIndex_mod by lia. rewrite Z.mod_small; lia.
  - intros k t [-> _]%lookup_replicate. by split.
  - intros k1 k2 t1 t2 _ [-> _]%lookup_replicate _. by intros c.
Qed.

Lemma run_invariant value n tr s :
  run (start value n) tr s -> Z.of_nat (length (enqueued tr)) + Size < 2 ^ 63 ->
  invariant (enqueued tr) (shared s) (threads s) /\ conserved tr s.
Proof.
  induction 1 as [|tr q ts k t ev t' q' _ IH Hk Hs]; intros Hlen.
  { split; [apply invariant_start|]. split; [done|]. cbn. induction n; [done|]. cbn in *. done. }
  assert (enqueued (tr ++ option_list ev) = enqueued tr ++ enqueued (option_list ev)) as Ee by apply omap_app.
  rewrite Ee in *. rewrite length_app in Hlen. destruct IH as [HI [Hd Hp]]; [lia|]. cbn [shared threads] in *.
  destruct (invariant_step _ _ _ _ HI ltac:(pose proof (inv_log _ _ _ HI); lia) _ _ _ _ Hk Hs) as [HI' [Ed (claimed & Et & Eh)]].
  split; [done|]. split; cbn [shared threads]; [rewrite Ed, dequeuing_app; lia|]. rewrite Ee, Et, Hp.
  destruct (in_hands_step (enqueued tr) (enqueued tr ++ enqueued (option_list ev)) ts k t t' Hk) as (rest & -> & ->).
  - intros u (k' & Hu)%list_elem_of_lookup. destruct (inv_threads _ _ _ HI _ _ Hu) as [Hr Hkn]. destruct u; try done. cbn.
    destruct (Hkn _ _ eq_refl) as (c & _ & _ & Hit). unfold item in Hit. rewrite Hit. by apply lookup_app_l_Some.
  - unfold dequeued in *. rewrite omap_app, <- !app_assoc. f_equiv. rewrite (Permutation_app_comm rest claimed), !app_assoc. by rewrite Eh.
Qed.

(** C22. However the threads are scheduled, and as long as fewer than 2^63 items have been
    enqueued: there are never more items than cells; indexes are claimed back in the order
    they were claimed, so the items taken are the first ones enqueued; each of them has
    been handed out exactly once or is in the hands of exactly one thread.  No item is
    lost, duplicated or overwritten. *)
Theorem mpmc_conserves value n tr s :
  run (start value n) tr s -> Z.of_nat (length (enqueued tr)) + Size < 2 ^ 63 ->
  let taken := dequeuing tr in
  enqueueIndex (shared s) = Z.of_nat (length (enqueued tr)) /\ dequeueIndex (shared s) = Z.of_nat taken
  /\ (taken <= length (enqueued tr))%nat /\ Z.of_nat (length (enqueued tr)) <= Z.of_nat taken + Size
  /\ take taken (enqueued tr) ≡ₚ dequeued tr ++ in_hands (enqueued tr) (threads s)
  /\ (forall k i x, threads s !! k = Some (DeqRelease i x) -> enqueued tr !! Z.to_nat i = Some x).
Proof.
  intros Hrun Hlen taken. destruct (run_invariant _ _ _ _ Hrun Hlen) as [HI [Hd Hp]]. fold taken in Hd.
  pose proof (inv_log _ _ _ HI). pose proof (inv_order _ _ _ HI). rewrite Hd, Nat2Z.id in Hp.
  repeat (split; [done || lia|]). intros k i x Hk. by destruct (inv_threads _ _ _ HI _ _ Hk) as [[_ Hit] _].
Qed.
End MPMC.

(** One more step of the first thread. *)
Ltac first_thread R c :=
  eapply (run_step 1 _ _ _ _ 0%nat) in R; [|reflexivity|eapply c; try (simpl; reflexivity)]; simpl in R.

Lemma mpmc_conserves_witness : exists s,
  let tr := [Enqueued 7; Dequeuing; Dequeued 7; Enqueued 8; Dequeuing] in
  run 1 (start 1 0 2) tr s /\
  (enqueueIndex (shared s) = 2 /\ dequeueIndex (shared s) = 2 /\ (2 <= 2)%nat /\ 2 <= 2 + Size 1
   /\ [7; 8] ≡ₚ [7] ++ in_hands (enqueued tr) (threads s)
   /\ forall k i x, threads s !! k = Some (DeqRelease i x) -> enqueued tr !! Z.to_nat i = Some x).
Proof.
  assert (exists s, run 1 (start 1 0 2) [Enqueued 7; Dequeuing; Dequeued 7; Enqueued 8; Dequeuing] s) as [s Hs].
  { assert (run 1 (start 1 0 2) [] {| shared := {|
        cells_ := [{| sequence := 0; data := 0 |}; {| sequence := 1; data := 0 |}]; enqueueIndex := 0; dequeueIndex := 0 |};
        threads := [Idle; Idle] |}) as R by apply run_refl.
    first_thread R (fun q => enq_begin (T := Z) 1 q 7); first_thread R (enq_load (T := Z) 1); first_thread R (enq_ready (T := Z) 1).
    first_thread R (enq_claim (T := Z) 1); first_thread R (enq_data (T := Z) 1); first_thread R (enq_publish (T := Z) 1).
    first_thread R (deq_begin (T := Z) 1).
    first_thread R (deq_load (T := Z) 1); first_thread R (deq_ready (T := Z) 1); first_thread R (deq_claim (T := Z) 1).
    first_thread R (deq_data (T := Z) 1); first_thread R (deq_release (T := Z) 1).
    first_thread R (fun q => enq_begin (T := Z) 1 q 8); first_thread R (enq_load (T := Z) 1); first_thread R (enq_ready (T := Z) 1).
    first_thread R (enq_claim (T := Z) 1); first_thread R (enq_data (T := Z) 1); first_thread R (enq_publish (T := Z) 1).
    first_thread R (deq_begin (T := Z) 1).
    first_thread R (deq_load (T := Z) 1); first_thread R (deq_ready (T := Z) 1); first_thread R (deq_claim (T := Z) 1).
    eexists. exact R. }
  exists s. split; [exact Hs|].
  exact (mpmc_conserves 1 ltac:(lia) 0 2 _ s Hs ltac:(vm_compute; reflexivity)).
Defined.
