(* ===== verification/Async.v ===== *)
(** * Promises: [include/pistache/async.h]

    A promise is a shared [Core]; [then] attaches a request to it, whose chain is the
    core of the promise [then] returns.  Settling a core runs its requests, which may
    settle their chains, and so on.  Closures are data: the library's own ones are
    constructors, the application's functions are names whose code is a parameter. *)

From S2P Require Import Prelude.

(** ** Data *)

Inductive State : Set := Pending | Fulfilled | Rejected.
#[export] Instance State_eq_dec : EqDecision State.
Proof. solve_decision. Defined.

(** [std::exception_ptr]: null, an exception, or (an exception that is) a pointer. *)
Inductive exception_ptr : Type := Null | Exn (e : exn) | Pointer (p : exception_ptr).

(** An address. *)
Abbreviation loc := nat.

(** The types of values: the application's, the results of [whenAll], [Any]. *)
Inductive TypeId : Set := Plain_type (n : nat) | Results_type | Any_type.
#[export] Instance TypeId_eq_dec : EqDecision TypeId.
Proof. solve_decision. Defined.

Section Async.
Context {Base App Fn : Type}.

(** An element of the results is [None] while it is the default-constructed one. *)
#[warnings="-register-all"]
Inductive value : Type := Plain (type : nat) (x : Base) | Results (vs : list (option value)) | Any (core : loc).
Definition TypeId_of (v : value) : TypeId :=
  match v with Plain n _ => Plain_type n | Results _ => Results_type | Any _ => Any_type end.

(** [storage] is what [memory()] holds if [allocated]; [id] is [None] for [void]. *)
Record Core : Type := {
  state : State; exc : exception_ptr; storage : option value; requests : list loc; id : option TypeId;
  mtx : bool }.

Definition CoreT_new (type : option TypeId) : Core :=
  {| state := Pending; exc := Null; storage := None; requests := []; id := type; mtx := false |}.

(** The functions given to [then].  [MoveFunction] is one of [T&&] ([IsMoveCallable]). *)
Inductive Resolve : Type :=
  | Function (f : Fn)
  | MoveFunction (f : Fn)
  | Chainer (chainCore : loc)
  | AllResolve (data : loc) (index : nat)
  | AnyResolve (data : loc)
  | RangeContinuation (data : loc) (index : nat).
Inductive Reject : Type :=
  | Handler (f : Fn)
  | ThrowException
  | IgnoreException
  | RejectChain (core : loc)
  | AllReject (data : loc)
  | AnyReject (data : loc)
  | RangeReject (data : loc).

(** What a continuation's function returns. *)
Inductive Shape : Set := ReturnsValue | ReturnsVoid | ReturnsPromise.

(** A [Continuation] of a core; [of_void]: of a [CoreT<void>]. *)
Record Request : Type := {
  of_void : bool; shape : Shape; resolve_ : Resolve; reject_ : Reject;
  resolveCount_ : nat; rejectCount_ : nat; chain_ : loc }.

(** The data of [whenAll] and [whenAny]; [done] is [rejected] of the former.  A
    [Resolver] or [Rejection] is the core it has, if any. *)
Record Data : Type := {
  total : nat; resolved : nat; done : bool; results : list (option value); data_mtx : bool;
  resolve : option loc; reject : option loc }.

Record World : Type := { cores : gmap loc Core; conts : gmap loc Request; datas : gmap loc Data; brk : loc; app : App }.

(** What a call of the application's function returns. *)
Inductive Ret : Type := RetValue (v : value) | RetVoid | RetPromise (core : loc).

(** What an application's function is called with: nothing for [void], the value (a copy, or a
    reference it cannot change), or the core whose value it may move out ([tryMove]). *)
Inductive argument : Type := NoArgument | ByValue (v : value) | ByRvalue (core : loc).
Definition by_value (arg : option value) : argument := match arg with Some v => ByValue v | None => NoArgument end.

(** The application's functions, and those of an exception, where [Some p] is
    [throw InternalRethrow(p)]. *)
Context (code : Fn -> argument -> M World Ret).
Context (handler_code : Fn -> exception_ptr -> M World (option exception_ptr)).

(** ** Access to the world *)

Definition set_cores (f : gmap loc Core -> gmap loc Core) (w : World) : World :=
  {| cores := f (cores w); conts := conts w; datas := datas w; brk := brk w; app := app w |}.
Definition set_conts (f : gmap loc Request -> gmap loc Request) (w : World) : World :=
  {| cores := cores w; conts := f (conts w); datas := datas w; brk := brk w; app := app w |}.
Definition set_datas (f : gmap loc Data -> gmap loc Data) (w : World) : World :=
  {| cores := cores w; conts := conts w; datas := f (datas w); brk := brk w; app := app w |}.
Definition set_brk (n : loc) (w : World) : World :=
  {| cores := cores w; conts := conts w; datas := datas w; brk := n; app := app w |}.

Definition of_option {A} (o : option A) : M World A := lift (match o with Some x => Ok x | None => UB end).
Definition core_at (c : loc) : M World Core := w ← get; of_option (cores w !! c).
Definition cont_at (r : loc) : M World Request := w ← get; of_option (conts w !! r).
Definition data_at (d : loc) : M World Data := w ← get; of_option (datas w !! d).
Definition on_core (c : loc) (f : Core -> Core) : M World unit := modify (set_cores (alter f c)).
Definition on_cont (r : loc) (f : Request -> Request) : M World unit := modify (set_conts (alter f r)).
Definition on_data (d : loc) (f : Data -> Data) : M World unit := modify (set_datas (alter f d)).

(** [std::make_shared] *)
Definition alloc : M World loc := w ← get; _ ← put (set_brk (S (brk w)) w); mret (brk w).
Definition make_core (type : option TypeId) : M World loc :=
  c ← alloc; _ ← modify (set_cores <[c := CoreT_new type]>); mret c.
Definition make_cont (r : Request) : M World loc := l ← alloc; _ ← modify (set_conts <[l := r]>); mret l.
Definition make_data (d : Data) : M World loc := l ← alloc; _ ← modify (set_datas <[l := d]>); mret l.

Definition set_state (s : State) (k : Core) : Core :=
  {| state := s; exc := exc k; storage := storage k; requests := requests k; id := id k; mtx := mtx k |}.
Definition set_exc (p : exception_ptr) (k : Core) : Core :=
  {| state := state k; exc := p; storage := storage k; requests := requests k; id := id k; mtx := mtx k |}.
Definition set_storage (v : value) (k : Core) : Core :=
  {| state := state k; exc := exc k; storage := Some v; requests := requests k; id := id k; mtx := mtx k |}.
Definition push_request (r : loc) (k : Core) : Core :=
  {| state := state k; exc := exc k; storage := storage k; requests := requests k ++ [r]; id := id k; mtx := mtx k |}.
Definition set_mtx (b : bool) (k : Core) : Core :=
  {| state := state k; exc := exc k; storage := storage k; requests := requests k; id := id k; mtx := b |}.

(** A guard's destructor runs however [m] ends. *)
Definition finally {A} (m : M World A) (fin : World -> World) : M World A := fun w => let '(w', r) := m w in (fin w', r).

(** [std::unique_lock guard(core->mtx)]; to lock a mutex one holds is undefined. *)
Definition with_core_lock {A} (c : loc) (m : M World A) : M World A :=
  k ← core_at c;
  if mtx k then lift UB
  else _ ← on_core c (set_mtx true); finally m (set_cores (alter (set_mtx false) c)).

Definition set_data_mtx (b : bool) (d : Data) : Data :=
  {| total := total d; resolved := resolved d; done := done d; results := results d; data_mtx := b;
     resolve := resolve d; reject := reject d |}.
Definition with_data_lock {A} (d : loc) (m : M World A) : M World A :=
  k ← data_at d;
  if data_mtx k then lift UB
  else _ ← on_data d (set_data_mtx true); finally m (set_datas (alter (set_data_mtx false) d)).

(** [Core::construct] *)
Definition Error (text : string) : exn := RuntimeError (B text).
Definition BadType : exn := Error "Argument type can not be used to resolve the promise  (TypeId does not match)".
Definition construct (c : loc) (v : value) : M World unit :=
  k ← core_at c;
  match id k with
  | None => throw (Error "Can not construct a void core")
  | Some type =>
      if decide (type = TypeId_of v) then on_core c (fun k => set_state Fulfilled (set_storage v k))
      else throw BadType
  end.

(** [CoreT::value] *)
Definition core_value (c : loc) : M World value :=
  k ← core_at c;
  if decide (state k = Fulfilled) then of_option (storage k)
  else throw (Error "Attempted to take the value of a not fulfilled promise").

Definition isPending (c : loc) : M World bool := k ← core_at c; mret (bool_decide (state k = Pending)).
Definition isFulfilled (c : loc) : M World bool := k ← core_at c; mret (bool_decide (state k = Fulfilled)).
Definition isRejected (c : loc) : M World bool := k ← core_at c; mret (bool_decide (state k = Rejected)).

(** ** Settling

    [run true r c] is [req->resolve(core)], [run false r c] is [req->reject(core)]. *)

Section Settling.
Context (run : bool -> loc -> loc -> M World unit).

(** [for (const auto& req : core->requests)]: a request that is attached meanwhile
    invalidates the iterators. *)
Fixpoint notify_loop (how : bool) (c : loc) (rs : list loc) : M World unit :=
  match rs with
  | [] => mret tt
  | r :: rs' =>
      before ← core_at c;
      _ ← run how r c;
      after ← core_at c;
      if decide (requests after = requests before) then notify_loop how c rs' else lift UB
  end.
Definition notify (how : bool) (c : loc) : M World unit := k ← core_at c; notify_loop how c (requests k).

(** [Resolver::operator()], with or without argument. *)
Definition Resolver_call (core_ : option loc) (arg : option value) : M World bool :=
  match core_ with
  | None => mret false
  | Some c =>
      k ← core_at c;
      if negb (bool_decide (state k = Pending)) then throw (Error "Attempt to resolve a fulfilled promise")
      else
        match arg, id k with
        | Some _, None => throw (Error "Attempt to resolve a void promise with arguments")
        | None, Some _ => throw (Error "Attempt ro resolve a non-void promise with no argument")
        | _, _ =>
            _ ← with_core_lock c (
                  _ ← (match arg with Some v => construct c v | None => on_core c (set_state Fulfilled) end);
                  notify true c);
            mret true
        end
  end.

Definition settle_rejected (c : loc) (p : exception_ptr) : M World unit :=
  _ ← on_core c (fun k => set_state Rejected (set_exc p k)); notify false c.

(** [Rejection::operator()]: [p] is [make_exception_ptr(exc)]. *)
Definition Rejection_call (core_ : option loc) (p : exception_ptr) : M World bool :=
  match core_ with
  | None => mret false
  | Some c =>
      k ← core_at c;
      if negb (bool_decide (state k = Pending)) then throw (Error "Attempt to reject a fulfilled promise")
      else _ ← with_core_lock c (settle_rejected c p); mret true
  end.

(** [Promise::then]; [type] is the returned promise's. *)
Definition then_ (c : loc) (s : Shape) (type : option TypeId) (f : Resolve) (g : Reject) : M World loc :=
  k ← core_at c;
  promise ← make_core type;
  req ← make_cont {| of_void := bool_decide (id k = None); shape := s; resolve_ := f; reject_ := g;
                     resolveCount_ := 0; rejectCount_ := 0; chain_ := promise |};
  _ ← with_core_lock c (
        k ← core_at c;
        _ ← (match state k with
             | Fulfilled => run true req c
             | Rejected => run false req c
             | Pending => mret tt
             end);
        on_core c (push_request req));
  mret promise.

(** *** [whenAll] and [whenAny] *)

Definition count_result (slot : option (nat * value)) (d : Data) : Data :=
  {| total := total d; resolved := S (resolved d); done := done d;
     results := match slot with Some (i, v) => <[i := Some v]> (results d) | None => results d end;
     data_mtx := data_mtx d; resolve := resolve d; reject := reject d |}.
Definition set_done (d : Data) : Data :=
  {| total := total d; resolved := resolved d; done := true; results := results d; data_mtx := data_mtx d;
     resolve := resolve d; reject := reject d |}.

(** One more result; [last] resolves when it is the last. *)
Definition add_result (d : loc) (slot : option (nat * value)) (last : Data -> option value) : M World unit :=
  with_data_lock d (
    k ← data_at d;
    if done k then mret tt
    else
      _ ← on_data d (count_result slot);
      k ← data_at d;
      if decide (resolved k = total k) then _ ← Resolver_call (resolve k) (last k); mret tt else mret tt).

(** [All::resolveT], [All::resolveVoid] and [All::reject], which does not look at [rejected]. *)
Definition All_resolve (d : loc) (index : nat) (arg : option value) : M World unit :=
  add_result d (v ← arg; Some (index, v)) (fun k => Some (Results (results k))).
Definition All_reject (d : loc) (p : exception_ptr) : M World unit :=
  with_data_lock d (_ ← on_data d set_done; k ← data_at d; _ ← Rejection_call (reject k) (Pointer p); mret tt).

(** [Any::resolveT] and [Any::resolveVoid]: the value is copied to a core of its own. *)
Definition Any_resolve (d : loc) (arg : option value) : M World unit :=
  with_data_lock d (
    k ← data_at d;
    if done k then mret tt
    else
      c ← make_core (TypeId_of <$> arg);
      _ ← (match arg with Some v => construct c v | None => mret tt end);
      _ ← Resolver_call (resolve k) (Some (Any c));
      on_data d set_done).
Definition Any_reject : loc -> exception_ptr -> M World unit := All_reject.

(** [WhenAllRange::WhenContinuation] and the function for rejections. *)
Definition Range_resolve (d : loc) (index : nat) (arg : option value) : M World unit :=
  add_result d (v ← arg; Some (index, v)) (fun k => match arg with Some _ => Some (Results (results k)) | None => None end).
Definition Range_reject (d : loc) (p : exception_ptr) : M World unit :=
  with_data_lock d (
    k ← data_at d;
    if done k then mret tt
    else _ ← on_data d set_done; _ ← Rejection_call (reject k) (Pointer p); mret tt).

(** *** [Continuable] *)

(** [from] is the core that has [arg]. *)
Definition call_resolve (f : Resolve) (from : loc) (arg : option value) : M World Ret :=
  match f with
  | Function f => code f (by_value arg)
  | MoveFunction f => code f (match arg with Some _ => ByRvalue from | None => NoArgument end)
  | Chainer c =>
      _ ← (match arg with Some v => construct c v | None => on_core c (set_state Fulfilled) end);
      _ ← notify true c; mret RetVoid
  | AllResolve d i => _ ← All_resolve d i arg; mret RetVoid
  | AnyResolve d => _ ← Any_resolve d arg; mret RetVoid
  | RangeContinuation d i => _ ← Range_resolve d i arg; mret RetVoid
  end.

(** [Some p]: ended by [InternalRethrow(p)]. *)
Definition call_reject (g : Reject) (p : exception_ptr) : M World (option exception_ptr) :=
  match g with
  | Handler f => handler_code f p
  | ThrowException => mret (Some p)
  | IgnoreException => mret None
  | RejectChain c => _ ← settle_rejected c p; mret None
  | AllReject d => _ ← All_reject d p; mret None
  | AnyReject d => _ ← Any_reject d p; mret None
  | RangeReject d => _ ← Range_reject d p; mret None
  end.

(** A function whose result is ignored gets [core->value()] itself, which [T&&] does not bind to. *)
Definition doResolve (req : Request) (c : loc) : M World unit :=
  arg ← (if of_void req then mret None else v ← core_value c; mret (Some v));
  ret ← call_resolve (resolve_ req) c arg;
  match shape req, ret with
  | ReturnsValue, RetValue v => _ ← construct (chain_ req) v; notify true (chain_ req)
  | ReturnsVoid, _ => mret tt
  | ReturnsPromise, RetPromise p => _ ← then_ p ReturnsVoid None (Chainer (chain_ req)) (RejectChain (chain_ req)); mret tt
  | _, _ => lift UB
  end.

(** A [void] promise's continuation goes on when its function returns. *)
Definition doReject (req : Request) (c : loc) : M World (option exception_ptr) :=
  k ← core_at c;
  thrown ← call_reject (reject_ req) (exc k);
  match thrown with
  | Some p => mret (Some p)
  | None =>
      _ ← (match of_void req, shape req with
           | true, ReturnsValue => notify false (chain_ req)
           | true, ReturnsPromise => notify false c
           | _, _ => mret tt
           end);
      mret None
  end.

Definition count_resolve (r : Request) : Request :=
  {| of_void := of_void r; shape := shape r; resolve_ := resolve_ r; reject_ := reject_ r;
     resolveCount_ := S (resolveCount_ r); rejectCount_ := rejectCount_ r; chain_ := chain_ r |}.
Definition count_reject (r : Request) : Request :=
  {| of_void := of_void r; shape := shape r; resolve_ := resolve_ r; reject_ := reject_ r;
     resolveCount_ := resolveCount_ r; rejectCount_ := S (rejectCount_ r); chain_ := chain_ r |}.

Definition Continuable_resolve (r c : loc) : M World unit :=
  req ← cont_at r;
  if (1 <=? resolveCount_ req)%nat then mret tt else _ ← on_cont r count_resolve; doResolve req c.

Definition Continuable_reject (r c : loc) : M World unit :=
  req ← cont_at r;
  if (1 <=? rejectCount_ req)%nat then mret tt
  else
    _ ← on_cont r count_reject;
    thrown ← doReject req c;
    match thrown with Some p => settle_rejected (chain_ req) p | None => mret tt end.
End Settling.

(** The requests of a settled core settle other cores: one unit of fuel per level. *)
Fixpoint run (n : nat) (how : bool) (r c : loc) : M World unit :=
  match n with
  | O => lift OutOfFuel
  | S n' => if how then Continuable_resolve (run n') r c else Continuable_reject (run n') r c
  end.

(** ** What the application calls *)

(** [Promise<T>([](Resolver&, Rejection&) { ... })]: the core, for both. *)
Definition Promise_new (type : option TypeId) : M World loc := make_core type.

Definition Promise_resolved (v : value) : M World loc := c ← make_core (Some (TypeId_of v)); _ ← construct c v; mret c.
Definition Promise_resolved_void : M World loc := c ← make_core None; _ ← on_core c (set_state Fulfilled); mret c.
Definition Promise_rejected (type : option TypeId) (e : exn) : M World loc :=
  c ← make_core type; _ ← on_core c (fun k => set_state Rejected (set_exc (Exn e) k)); mret c.

Definition Data_new (total : nat) (target : loc) : Data :=
  {| total := total; resolved := 0; done := false; results := replicate total None; data_mtx := false;
     resolve := Some target; reject := Some target |}.

(** An argument that is not a promise is made one. *)
Definition when_arg (arg : loc + value) : M World loc := match arg with inl c => mret c | inr v => Promise_resolved v end.

Fixpoint whenArgs (n : nat) (f : nat -> Resolve) (g : Reject) (index : nat) (args : list (loc + value)) : M World unit :=
  match args with
  | [] => mret tt
  | a :: args' => c ← when_arg a; _ ← then_ (run n) c ReturnsVoid None (f index) g; whenArgs n f g (S index) args'
  end.

Definition whenAll (n : nat) (args : list (loc + value)) : M World loc :=
  target ← make_core (Some Results_type);
  d ← make_data (Data_new (length args) target);
  _ ← whenArgs n (AllResolve d) (AllReject d) 0 args;
  mret target.

Definition whenAny (n : nat) (args : list (loc + value)) : M World loc :=
  target ← make_core (Some Any_type);
  d ← make_data (Data_new (length args) target);
  _ ← whenArgs n (fun _ => AnyResolve d) (AnyReject d) 0 args;
  mret target.

(** [whenAll(first, last)]; the promise of [void] promises is [void]. *)
Definition whenAll_range (n : nat) (void : bool) (promises : list loc) : M World loc :=
  target ← make_core (if void then None else Some Results_type);
  d ← make_data (Data_new (length promises) target);
  _ ← whenArgs n (RangeContinuation d) (RangeReject d) 0 (map inl promises);
  mret target.
End Async.
