(* ===== verification/Settlement.v ===== *)
(** * What settling a promise does: theorems about [Async]

    A promise and the promises [then] made of it form a tree; settling the root
    settles the whole tree. *)

From S2P Require Import Prelude Async.

Section Trees.
Context {Base App Fn : Type}.
Abbreviation value := (value (Base := Base)).
Abbreviation World := (World (Base := Base) (App := App) (Fn := Fn)).
Abbreviation Core := (Core (Base := Base)).
Context (code : Fn -> argument (Base := Base) -> M World (Ret (Base := Base))).
Context (handler_code : Fn -> exception_ptr -> M World (option exception_ptr)).
Abbreviation run := (run code handler_code).

(** What a promise is settled with. *)
Definition settlement : Type := value + exception_ptr.
Definition resolved_with (o : settlement) : bool := match o with inl _ => true | inr _ => false end.
Definition settle_core (o : settlement) (k : Core) : Core :=
  match o with
  | inl v => set_state Fulfilled (set_storage v k)
  | inr p => set_state Rejected (set_exc p k)
  end.
Definition count (o : settlement) : Request (Fn := Fn) -> Request := match o with inl _ => count_resolve | inr _ => count_reject end.

(** The promise at [c]; each branch is the request at [r], which calls [f] and throws
    rejections on, and the tree of its chain. *)
#[warnings="-register-all"]
Inductive tree : Type := Tree (c : loc) (type : TypeId) (branches : list (loc * Fn * tree)).

Definition root (t : tree) : loc := match t with Tree c _ _ => c end.
Definition branches (t : tree) : list (loc * Fn * tree) := match t with Tree _ _ bs => bs end.
Definition type_of (t : tree) : TypeId := match t with Tree _ type _ => type end.

(** Induction with the hypothesis for every branch. *)
Lemma tree_ind' (P : tree -> Prop) :
  (forall c type bs, Forall (fun b => P (snd b)) bs -> P (Tree c type bs)) -> forall t, P t.
Proof.
  intros H. fix IH 1. intros [c type bs]. apply H. induction bs as [|[[r f] t] bs IHbs]; constructor; [apply IH|exact IHbs].
Qed.

Fixpoint height (t : tree) : nat :=
  match t with Tree _ _ bs => S (fold_right (fun b n => Nat.max (height (snd b)) n) 0%nat bs) end.
Fixpoint cores_of (t : tree) : list loc :=
  match t with Tree c _ bs => c :: concat (map (fun b => cores_of (snd b)) bs) end.
Fixpoint conts_of (t : tree) : list loc :=
  match t with Tree _ _ bs => concat (map (fun b => fst (fst b) :: conts_of (snd b)) bs) end.

(** [f] computes [fun_of f]; a rejection is not its business. *)
Context (fun_of : Fn -> value -> value).
Definition next (f : Fn) (o : settlement) : settlement := match o with inl v => inl (fun_of f v) | inr p => inr p end.

(** What each promise of the tree is settled with, the root with [o]. *)
Fixpoint outcomes (o : settlement) (t : tree) : list (loc * settlement) :=
  match t with Tree c _ bs => (c, o) :: concat (map (fun b => outcomes (next (snd (fst b)) o) (snd b)) bs) end.

(** Something about every branch. *)
Definition each {A} (P : A -> Prop) (l : list A) : Prop := fold_right (fun x Q => P x /\ Q) True l.

Definition well_typed (o : settlement) (type : TypeId) : Prop := match o with inl v => TypeId_of v = type | inr _ => True end.
Fixpoint typed (o : settlement) (t : tree) : Prop :=
  match t with Tree _ type bs => well_typed o type /\ each (fun b => typed (next (snd (fst b)) o) (snd b)) bs end.

(** The tree is in the world, and nothing of it is settled. *)
Definition request (f : Fn) (chain : loc) : Request :=
  {| of_void := false; shape := ReturnsValue; resolve_ := Function f; reject_ := ThrowException;
     resolveCount_ := 0; rejectCount_ := 0; chain_ := chain |}.
Definition core_ok (w : World) (c : loc) (type : TypeId) (rs : list loc) : Prop := exists k,
  cores w !! c = Some k /\ state k = Pending /\ requests k = rs /\ id k = Some type.
Fixpoint held (w : World) (t : tree) : Prop :=
  match t with
  | Tree c type bs =>
      core_ok w c type (map (fun b => fst (fst b)) bs)
      /\ each (fun b => conts w !! fst (fst b) = Some (request (snd (fst b)) (root (snd b))) /\ held w (snd b)) bs
  end.

(** The functions do nothing but this to the application's state. *)
Context (effect : Fn -> value -> App -> App).
Definition set_app (f : App -> App) (w : World) : World :=
  {| cores := cores w; conts := conts w; datas := datas w; brk := brk w; app := f (app w) |}.
Hypothesis code_fun : forall f v w, code f (ByValue v) w = (set_app (effect f v) w, Ok (RetValue (fun_of f v))).

(** The calls, in order. *)
Fixpoint calls (o : settlement) (t : tree) : list (Fn * value) :=
  match t with
  | Tree _ _ bs => concat (map (fun b =>
      match o with inl v => [(snd (fst b), v)] | inr _ => [] end ++ calls (next (snd (fst b)) o) (snd b)) bs)
  end.
Definition call (c : Fn * value) : App -> App := effect (fst c) (snd c).

(** The world afterwards. *)
Definition settle_at (o : settlement) (c : loc) (w : World) : World := set_cores (alter (settle_core o) c) w.
Definition run_branch (o : settlement) (b : loc * Fn * tree) (w : World) : World :=
  let w := set_conts (alter (count o) (fst (fst b))) w in
  match o with inl v => set_app (effect (snd (fst b)) v) w | inr _ => w end.
Fixpoint settled (o : settlement) (t : tree) (w : World) : World :=
  match t with
  | Tree c _ bs =>
      fold_left (fun w b => settled (next (snd (fst b)) o) (snd b) (run_branch o b w)) bs (settle_at o c w)
  end.

(** ** What is left alone *)

Lemma each_Forall {A} (P : A -> Prop) l : each P l <-> Forall P l.
Proof.
  induction l as [|x l IH]; [by split|]. rewrite list.Forall_cons. split; intros [Hx Hl]; (split; [done|by apply IH]).
Qed.

Definition same_outside (t : tree) (w w' : World) : Prop :=
  (forall x, x ∉ cores_of t -> cores w' !! x = cores w !! x)
  /\ (forall r, r ∉ conts_of t -> conts w' !! r = conts w !! r)
  /\ datas w' = datas w /\ brk w' = brk w.

Lemma elem_of_concat_map {A C} (g : A -> list C) l b y : b ∈ l -> y ∈ g b -> y ∈ concat (map g l).
Proof.
  intros Hb Hy. apply list_elem_of_In, in_concat. exists (g b).
  split; [by apply in_map, list_elem_of_In|by apply list_elem_of_In].
Qed.

Lemma settled_outside t : forall o w, same_outside t w (settled o t w).
Proof.
  induction t as [c type bs IH] using tree_ind'. intros o w. cbn [settled].
  set (w0 := settle_at o c w).
  assert (forall bs w0, Forall (fun b => forall o w, same_outside (snd b) w (settled o (snd b) w)) bs ->
    let w1 := fold_left (fun w b => settled (next (snd (fst b)) o) (snd b) (run_branch o b w)) bs w0 in
    (forall x, x ∉ concat (map (fun b => cores_of (snd b)) bs) -> cores w1 !! x = cores w0 !! x)
    /\ (forall r, r ∉ concat (map (fun b => fst (fst b) :: conts_of (snd b)) bs) -> conts w1 !! r = conts w0 !! r)
    /\ datas w1 = datas w0 /\ brk w1 = brk w0) as Hfold.
  { clear. induction bs as [|b bs IHbs]; intros w0 Hb; [done|]. apply list.Forall_cons in Hb as [Hb Hbs]. cbn [fold_left map concat].
    destruct (IHbs (settled (next (snd (fst b)) o) (snd b) (run_branch o b w0)) Hbs) as (Hc & Hr & Hd & Hk).
    destruct (Hb (next (snd (fst b)) o) (run_branch o b w0)) as (Hc' & Hr' & Hd' & Hk').
    split_and!; [| |by rewrite Hd, Hd'; destruct o|by rewrite Hk, Hk'; destruct o].
    - intros x [Hx1 Hx2]%not_elem_of_app. rewrite Hc, Hc' by done. by destruct o.
    - intros r [Hr1 Hr2]%not_elem_of_app. apply not_elem_of_cons in Hr1 as [Hn Hr1]. rewrite Hr, Hr' by done.
      destruct o; cbn; by rewrite lookup_alter_ne. }
  destruct (Hfold bs w0 IH) as (Hc & Hr & Hd & Hk). split_and!; [|exact Hr|exact Hd|exact Hk].
  intros x [Hn Hx]%not_elem_of_cons. rewrite Hc by done. unfold w0, settle_at. cbn. by rewrite lookup_alter_ne.
Qed.

(** The mutexes do not matter. *)
Lemma held_ext t : forall w w',
  (forall x, x ∈ cores_of t -> set_mtx false <$> cores w' !! x = set_mtx false <$> cores w !! x) ->
  (forall r, r ∈ conts_of t -> conts w' !! r = conts w !! r) ->
  held w t -> held w' t.
Proof.
  induction t as [c type bs IH] using tree_ind'. intros w w' Hc Hr. cbn [held cores_of conts_of] in *.
  rewrite !each_Forall. intros [(k & E & Hs & Hq & Hi) Hb]. split.
  { pose proof (Hc c ltac:(by left)) as E'. rewrite E in E'. destruct (cores w' !! c) as [k'|] eqn:Ek'; [|done].
    exists k'. split; [done|]. destruct k, k'. by injection E' as -> -> -> -> ->. }
  rewrite list.Forall_forall in *. intros b Hin. destruct (Hb b Hin) as [Eb Hheld].
  pose proof (fun (g : loc * Fn * tree -> list loc) y => elem_of_concat_map g bs b y Hin) as Hcat.
  split.
  - rewrite Hr; [done|]. apply (Hcat (fun b => fst (fst b) :: conts_of (snd b))). by left.
  - apply (IH b Hin w); [| |done].
    + intros x Hx. apply Hc. right. by apply (Hcat (fun b => cores_of (snd b))).
    + intros r Hx. apply Hr. apply (Hcat (fun b => fst (fst b) :: conts_of (snd b))). by right.
Qed.

Lemma held_in t : forall w x, held w t -> x ∈ cores_of t -> is_Some (cores w !! x).
Proof.
  induction t as [c type bs IH] using tree_ind'. intros w x [(k & E & _) Hb]. rewrite each_Forall in Hb. cbn [cores_of].
  intros [->|Hx]%elem_of_cons; [by eexists|]. apply list_elem_of_In, in_concat in Hx as (l & (b & <- & Hb')%in_map_iff & Hx).
  rewrite list.Forall_forall in *. apply list_elem_of_In in Hb'. destruct (Hb b Hb') as [_ Hheld].
  by apply (IH b Hb' w x Hheld), list_elem_of_In.
Qed.

(** ** Running *)

Lemma core_at_eval c (w : World) k : cores w !! c = Some k -> core_at c w = (w, Ok k).
Proof. intros E. unfold core_at, mbind, M_bind, get, of_option, lift. by rewrite E. Qed.

Lemma cont_at_eval r (w : World) q : conts w !! r = Some q -> cont_at r w = (w, Ok q).
Proof. intros E. unfold cont_at, mbind, M_bind, get, of_option, lift. by rewrite E. Qed.

(** A core that is settled with [o]. *)
Definition settled_core (o : settlement) (k : Core) : Prop :=
  match o with
  | inl v => state k = Fulfilled /\ storage k = Some v
  | inr p => state k = Rejected /\ exc k = p
  end.

Lemma settle_core_settled o k : settled_core o (settle_core o k).
Proof. by destruct o. Qed.

Lemma notify_cons step how c r rs (w w' : World) k k' :
  cores w !! c = Some k -> step how r c w = (w', Ok tt) -> cores w' !! c = Some k' -> requests k' = requests k ->
  notify_loop step how c (r :: rs) w = notify_loop step how c rs w'.
Proof.
  intros E Es E' Eq. cbn [notify_loop]. rewrite (bind_Ok _ _ w w k (core_at_eval c w k E)).
  rewrite (bind_Ok _ _ w w' tt Es), (bind_Ok _ _ w' w' k' (core_at_eval c w' k' E')). by rewrite decide_True.
Qed.

(** A continuation's own step: its function is called, or throws the rejection on, and
    the chain is settled. *)
Lemma run_continuation n o r c f chain type rs (w : World) k :
  cores w !! c = Some k -> settled_core o k -> conts w !! r = Some (request f chain) ->
  core_ok w chain type rs -> well_typed (next f o) type ->
  run (S n) (resolved_with o) r c w
  = notify (run n) (resolved_with o) chain (settle_at (next f o) chain
      (match o with inl v => set_app (effect f v) | inr _ => fun w => w end (set_conts (alter (count o) r) w))).
Proof.
  intros E Hk Er (kc & Ec & _ & _ & Ei) Ht. destruct o as [v|p]; destruct Hk as [Hs Hv]; cbn [resolved_with Async.run].
  - unfold Continuable_resolve. rewrite (bind_Ok _ _ w w _ (cont_at_eval r w _ Er)). cbn [resolveCount_ request Nat.leb].
    set (w1 := set_conts (alter (count (inl v)) r) w). unfold mbind at 1, M_bind at 1. cbn [on_cont modify].
    change (modify (set_conts (alter count_resolve r)) w) with (w1, @Ok unit tt). cbv iota.
    unfold doResolve. cbn [of_void request resolve_ shape chain_].
    assert ((v ← core_value c; mret (Some v)) w1 = (w1, Ok (Some v))) as Ev.
    { unfold core_value. unfold mbind, M_bind. rewrite (core_at_eval c w1 k E). rewrite decide_True by done. cbn.
      unfold of_option, lift. by rewrite Hv. }
    rewrite (bind_Ok _ _ _ _ _ Ev). cbn [call_resolve by_value]. rewrite (bind_Ok _ _ _ _ _ (code_fun f v w1)).
    assert (construct chain (fun_of f v) (set_app (effect f v) w1)
      = (settle_at (inl (fun_of f v)) chain (set_app (effect f v) w1), Ok tt)) as Ek.
    { unfold construct. rewrite (bind_Ok _ _ _ _ kc (core_at_eval chain (set_app (effect f v) w1) kc Ec)). rewrite Ei.
      by rewrite decide_True by done. }
    by rewrite (bind_Ok _ _ _ _ _ Ek).
  - unfold Continuable_reject. rewrite (bind_Ok _ _ w w _ (cont_at_eval r w _ Er)). cbn [rejectCount_ request Nat.leb].
    set (w1 := set_conts (alter (count (inr p)) r) w). unfold mbind at 1, M_bind at 1.
    change (on_cont r count_reject w) with (w1, @Ok unit tt). cbv iota.
    assert (doReject handler_code (Async.run code handler_code n) (request f chain) c w1 = (w1, Ok (Some p))) as Ed.
    { unfold doReject, mbind, M_bind. rewrite (core_at_eval c w1 k E). cbn. by rewrite Hv. }
    by rewrite (bind_Ok _ _ _ _ _ Ed).
Qed.

Lemma held_root (w : World) t : held w t -> core_ok w (root t) (type_of t) (map (fun b => fst (fst b)) (branches t)).
Proof. destruct t. by intros [? _]. Qed.

Lemma typed_root o t : typed o t -> well_typed o (type_of t).
Proof. destruct t. by intros [? _]. Qed.

Lemma notify_settled t : forall n o (w : World),
  (height t <= S n)%nat -> NoDup (cores_of t) -> NoDup (conts_of t) -> typed o t -> held w t ->
  notify (run n) (resolved_with o) (root t) (settle_at o (root t) w) = (settled o t w, Ok tt).
Proof.
  induction t as [c type bs IH] using tree_ind'. intros n o w Hh Hc Hr Ht [(k & Ek & Hp & Hreq & Hid) Hb].
  cbn [root settled] in *. set (w0 := settle_at o c w). set (k0 := settle_core o k).
  assert (cores w0 !! c = Some k0) as E0 by (unfold w0, settle_at; cbn; by rewrite lookup_alter_eq, Ek).
  unfold notify. rewrite (bind_Ok _ _ _ _ _ (core_at_eval c w0 k0 E0)).
  assert (requests k0 = map (fun b => fst (fst b)) bs) as -> by (rewrite <- Hreq; by destruct o).
  cbn [height cores_of conts_of] in *. apply list.NoDup_cons in Hc as [Hcn Hc]. destruct Ht as [_ Ht].
  rewrite each_Forall in Hb, Ht.
  assert (Forall (fun b => conts w0 !! fst (fst b) = Some (request (snd (fst b)) (root (snd b))) /\ held w0 (snd b)) bs) as Hb0.
  { rewrite list.Forall_forall in *. intros b Hin. destruct (Hb b Hin) as [Eb Hheld]. split; [done|].
    apply (held_ext _ w); [|done|done]. intros x Hx. unfold w0, settle_at. cbn. rewrite lookup_alter_ne; [done|].
    intros ->. apply Hcn. by apply (elem_of_concat_map (fun b => cores_of (snd b)) bs b). }
  assert (settled_core o k0) as Hk0 by apply settle_core_settled. clearbody w0 k0. clear Hb Ek Hp Hreq Hid k w type.
  revert w0 k0 E0 Hk0 Hb0. induction bs as [|[[r f] t] bs IHbs]; intros w0 k0 E0 Hk0 Hb0; [done|].
  cbn [map concat fold_left fold_right fst snd] in *.
  apply list.Forall_cons in IH as [IHt IH], Ht as [Ht1 Ht], Hb0 as [[Er Hheld] Hb0]. cbn [fst snd] in *.
  apply list.NoDup_app in Hc as (Hct & Hdc & Hc). apply list.NoDup_cons in Hr as [Hrn Hr].
  apply list.NoDup_app in Hr as (Hrt & Hdr & Hr). apply not_elem_of_app in Hcn as [Hcn1 Hcn2], Hrn as [Hrn1 Hrn2].
  destruct n as [|n]; [destruct t; cbn in Hh; lia|].
  set (w1 := run_branch o (r, f, t) w0). set (w2 := settled (next f o) t w1).
  assert (held w1 t) as Hheld1.
  { apply (held_ext _ w0); [by destruct o| |done]. intros x Hx. assert (x <> r) by (by intros ->).
    unfold w1, run_branch. destruct o; cbn; by rewrite lookup_alter_ne. }
  destruct (settled_outside t (next f o) w1) as (Hsc & Hsr & _). fold w2 in Hsc, Hsr.
  assert (run (S n) (resolved_with o) r c w0 = (w2, Ok tt)) as Erun.
  { rewrite (run_continuation n o r c f _ _ _ w0 k0 E0 Hk0 Er (held_root _ _ Hheld) (typed_root _ _ Ht1)).
    assert (resolved_with (next f o) = resolved_with o) as <- by by destruct o.
    assert (match o with inl v => set_app (effect f v) | inr _ => fun w => w end (set_conts (alter (count o) r) w0) = w1) as ->.
    { by destruct o. }
    apply IHt; [lia|done..]. }
  assert (cores w2 !! c = Some k0) as E2 by (rewrite Hsc by done; by destruct o).
  rewrite (notify_cons _ _ _ _ _ w0 w2 k0 k0) by done.
  refine (IHbs IH _ Hcn2 Hc Hr Ht w2 k0 E2 Hk0 _); [lia|].
  rewrite list.Forall_forall in *. intros b Hin. destruct (Hb0 b Hin) as [Eb Hb].
  pose proof (fun (g : loc * Fn * tree -> list loc) y => elem_of_concat_map g bs b y Hin) as Hcat.
  assert (forall y, y ∈ fst (fst b) :: conts_of (snd b) -> y <> r /\ y ∉ conts_of t) as Hother.
  { intros y Hy%(Hcat (fun b => fst (fst b) :: conts_of (snd b))). split; [by intros ->|]. intros Hyt. by apply (Hdr y). }
  assert (forall y, y ∈ fst (fst b) :: conts_of (snd b) -> conts w2 !! y = conts w0 !! y) as Hsame.
  { intros y [Hyr Hyt]%Hother. rewrite Hsr by done. unfold w1, run_branch. destruct o; cbn; by rewrite lookup_alter_ne. }
  split; [rewrite Hsame; [done|by left]|]. apply (held_ext _ w0); [| |done].
  - intros x Hx%(Hcat (fun b => cores_of (snd b))). rewrite Hsc; [by destruct o|]. intros Hxt. by apply (Hdc x).
  - intros y Hy. apply Hsame. by right.
Qed.

(** ** What becomes of the tree *)

Lemma outcomes_cores t : forall o, map fst (outcomes o t) = cores_of t.
Proof.
  induction t as [c type bs IH] using tree_ind'. intros o. cbn [outcomes cores_of map fst]. f_equal.
  rewrite concat_map, map_map. f_equal. apply map_ext_in. intros b Hb%list_elem_of_In. rewrite list.Forall_forall in IH. by apply IH.
Qed.

Lemma outcome_in t o x o' : (x, o') ∈ outcomes o t -> x ∈ cores_of t.
Proof. intros Hx. rewrite <- (outcomes_cores t o). apply list_elem_of_fmap. by exists (x, o'). Qed.

Lemma run_branch_cores o b (w : World) : cores (run_branch o b w) = cores w.
Proof. by destruct o. Qed.

Lemma settled_cores t : forall o w x o', NoDup (cores_of t) -> (x, o') ∈ outcomes o t ->
  cores (settled o t w) !! x = settle_core o' <$> cores w !! x.
Proof.
  induction t as [c type bs IH] using tree_ind'. intros o w x o' Hd Hx. cbn [outcomes cores_of settled] in *.
  apply list.NoDup_cons in Hd as [Hcn Hd]. set (w0 := settle_at o c w).
  assert (forall bs w0, Forall (fun b => forall o w x o', NoDup (cores_of (snd b)) -> (x, o') ∈ outcomes o (snd b) ->
                         cores (settled o (snd b) w) !! x = settle_core o' <$> cores w !! x) bs ->
    NoDup (concat (map (fun b => cores_of (snd b)) bs)) ->
    let w1 := fold_left (fun w b => settled (next (snd (fst b)) o) (snd b) (run_branch o b w)) bs w0 in
    (forall y, y ∉ concat (map (fun b => cores_of (snd b)) bs) -> cores w1 !! y = cores w0 !! y)
    /\ ((x, o') ∈ concat (map (fun b => outcomes (next (snd (fst b)) o) (snd b)) bs) ->
        cores w1 !! x = settle_core o' <$> cores w0 !! x)) as Hfold.
  { clear. induction bs as [|b bs IHbs]; intros w0 Hb Hd; [split; [done|by intros ?%not_elem_of_nil]|].
    apply list.Forall_cons in Hb as [Hb Hbs]. cbn [fold_left map concat] in *.
    apply list.NoDup_app in Hd as (Hd1 & Hdisj & Hd2).
    destruct (IHbs (settled (next (snd (fst b)) o) (snd b) (run_branch o b w0)) Hbs Hd2) as [Hsame Hset].
    destruct (settled_outside (snd b) (next (snd (fst b)) o) (run_branch o b w0)) as (Hout & _).
    split.
    - intros y [Hy1 Hy2]%not_elem_of_app. by rewrite Hsame, Hout, run_branch_cores by done.
    - intros [Hx|Hx]%elem_of_app.
      + rewrite Hsame by (by eapply Hdisj, outcome_in). rewrite (Hb _ _ _ _ Hd1 Hx). by rewrite run_branch_cores.
      + rewrite (Hset Hx), Hout, run_branch_cores; [done|]. intros Hxb. apply (Hdisj x Hxb).
        apply list_elem_of_In, in_concat in Hx as (l & (b' & <- & Hb')%in_map_iff & Hx).
        apply (elem_of_concat_map (fun b => cores_of (snd b)) bs b'); [by apply list_elem_of_In|].
        by eapply outcome_in, list_elem_of_In. }
  destruct (Hfold bs w0 IH Hd) as [Hsame Hset]. apply elem_of_cons in Hx as [[= -> ->]|Hx].
  - rewrite Hsame by done. unfold w0, settle_at. cbn. by rewrite lookup_alter_eq.
  - rewrite Hset by done. unfold w0, settle_at. cbn. rewrite lookup_alter_ne; [done|]. intros ->. apply Hcn.
    apply list_elem_of_In, in_concat in Hx as (l & (b' & <- & Hb')%in_map_iff & Hx).
    apply (elem_of_concat_map (fun b => cores_of (snd b)) bs b'); [by apply list_elem_of_In|].
    by eapply outcome_in, list_elem_of_In.
Qed.

Lemma settled_app t : forall o w, app (settled o t w) = fold_left (fun a c => call c a) (calls o t) (app w).
Proof.
  induction t as [c type bs IH] using tree_ind'. intros o w. cbn [settled calls].
  assert (app (settle_at o c w) = app w) as <- by done. generalize (settle_at o c w). clear w.
  induction bs as [|b bs IHbs]; intros w; [done|]. apply list.Forall_cons in IH as [Hb IH]. cbn [fold_left map concat].
  rewrite (IHbs IH), Hb, !fold_left_app. f_equal. f_equal. by destruct o.
Qed.

(** ** Resolvers and rejections *)

Definition settle (n : nat) (o : settlement) (c : loc) : M World bool :=
  match o with
  | inl v => Resolver_call (run n) (Some c) (Some v)
  | inr p => Rejection_call (run n) (Some c) p
  end.
Definition settled_already (o : settlement) : exn :=
  match o with
  | inl _ => Error "Attempt to resolve a fulfilled promise"
  | inr _ => Error "Attempt to reject a fulfilled promise"
  end.

Lemma settle_not_pending n o c (w : World) k :
  cores w !! c = Some k -> state k <> Pending -> settle n o c w = (w, Throw (settled_already o)).
Proof.
  intros E Hk. destruct o; cbn [settle Resolver_call Rejection_call];
    by rewrite (bind_Ok _ _ _ _ _ (core_at_eval c w k E)), bool_decide_eq_false_2.
Qed.

(** A pending promise is locked, settled, its requests run, and unlocked. *)
Lemma settle_pending n o c type (w w' : World) k :
  cores w !! c = Some k -> state k = Pending -> mtx k = false -> id k = Some type -> well_typed o type ->
  notify (run n) (resolved_with o) c (settle_at o c (set_cores (alter (set_mtx true) c) w)) = (w', Ok tt) ->
  settle n o c w = (set_cores (alter (set_mtx false) c) w', Ok true).
Proof.
  intros E Hs Hm Hi Ht Hn. set (w0 := set_cores (alter (set_mtx true) c) w) in *.
  assert (cores w0 !! c = Some (set_mtx true k)) as E0 by (unfold w0; cbn; by rewrite lookup_alter_eq, E).
  assert (forall m, m w0 = (w', Ok tt) -> with_core_lock c m w = (set_cores (alter (set_mtx false) c) w', Ok tt)) as Hlock.
  { intros m Em. unfold with_core_lock. rewrite (bind_Ok _ _ _ _ _ (core_at_eval c w k E)), Hm.
    unfold mbind, M_bind. change (on_core c (set_mtx true) w) with (w0, @Ok unit tt). cbv iota. unfold finally. by rewrite Em. }
  destruct o as [v|p]; cbn [settle Resolver_call Rejection_call];
    rewrite (bind_Ok _ _ _ _ _ (core_at_eval c w k E)), bool_decide_eq_true_2 by done; cbn [negb]; rewrite ?Hi.
  - erewrite bind_Ok; [done|]. apply Hlock. erewrite bind_Ok; [exact Hn|]. unfold construct.
    rewrite (bind_Ok _ _ _ _ _ (core_at_eval c w0 _ E0)). cbn [id set_mtx]. rewrite Hi. by rewrite decide_True.
  - erewrite bind_Ok; [done|]. apply Hlock. exact Hn.
Qed.

Lemma settle_tree t n o (w : World) :
  held w t -> mtx <$> cores w !! root t = Some false -> typed o t ->
  NoDup (cores_of t) -> NoDup (conts_of t) -> (height t <= S n)%nat ->
  exists w', settle n o (root t) w = (w', Ok true)
  /\ (forall x o', (x, o') ∈ outcomes o t -> cores w' !! x = settle_core o' <$> cores w !! x)
  /\ (forall x, x ∉ cores_of t -> cores w' !! x = cores w !! x)
  /\ app w' = fold_left (fun a c => call c a) (calls o t) (app w)
  /\ (forall x o', x ∈ cores_of t -> settle n o' x w' = (w', Throw (settled_already o'))).
Proof.
  intros Hh Hm Ht Hc Hr Hn. destruct (held_root _ _ Hh) as (k & E & Hs & Hreq & Hi). rewrite E in Hm. injection Hm as Hm.
  set (w0 := set_cores (alter (set_mtx true) (root t)) w).
  assert (held w0 t) as Hh0.
  { apply (held_ext t w); [|done|done]. intros x _. cbn. destruct (decide (x = root t)) as [->|]; [|by rewrite lookup_alter_ne].
    by rewrite lookup_alter_eq, E. }
  exists (set_cores (alter (set_mtx false) (root t)) (settled o t w0)).
  assert (forall x o', (x, o') ∈ outcomes o t ->
    cores (set_cores (alter (set_mtx false) (root t)) (settled o t w0)) !! x = settle_core o' <$> cores w !! x) as Hset.
  { intros x o' Hx. pose proof (settled_cores t o w0 x o' Hc Hx) as Ex. cbn. destruct (decide (x = root t)) as [->|Hne].
    - rewrite lookup_alter_eq, Ex. cbn. rewrite lookup_alter_eq, E. cbn. destruct k as [s p st rs i m]. cbn in Hm. subst m.
      by destruct o'.
    - rewrite lookup_alter_ne, Ex by done. cbn. by rewrite lookup_alter_ne. }
  split_and!; [|exact Hset| |exact (settled_app t o w0)|].
  - apply (settle_pending n o _ (type_of t) w _ k E Hs Hm Hi); [by apply typed_root|]. by apply notify_settled.
  - intros x Hx. assert (x <> root t) by (intros ->; apply Hx; destruct t; by left). cbn. rewrite lookup_alter_ne by done.
    destruct (settled_outside t o w0) as (Ho & _). rewrite Ho by done. cbn. by rewrite lookup_alter_ne.
  - intros x o' Hx. destruct (held_in t w x Hh Hx) as [kx Ex]. rewrite <- (outcomes_cores t o) in Hx.
    apply list_elem_of_fmap in Hx as ([x' ox] & -> & Hx). cbn [fst] in *. specialize (Hset _ _ Hx). rewrite Ex in Hset.
    eapply settle_not_pending; [exact Hset|]. by destruct ox.
Qed.

(** A promise without requests. *)
Lemma settle_leaf n o c type (w : World) k :
  cores w !! c = Some k -> state k = Pending -> mtx k = false -> id k = Some type -> well_typed o type -> requests k = [] ->
  exists w', settle n o c w = (w', Ok true) /\ cores w' = <[c := settle_core o k]> (cores w)
  /\ conts w' = conts w /\ datas w' = datas w /\ brk w' = brk w /\ app w' = app w.
Proof.
  intros E Hs Hm Hi Ht Hq. eexists. split.
  { eapply settle_pending; [done..|]. unfold notify. erewrite bind_Ok; cycle 1.
    { apply core_at_eval. cbn. by rewrite lookup_alter_eq, lookup_alter_eq, E. }
    assert (requests (settle_core o (set_mtx true k)) = []) as -> by (rewrite <- Hq; by destruct o). done. }
  split; [|done]. cbn. apply map_eq. intros x. destruct (decide (x = c)) as [->|]; [|by rewrite !lookup_alter_ne, lookup_insert_ne].
  rewrite !lookup_alter_eq, lookup_insert_eq, E. cbn. destruct k. cbn in Hm. subst. by destruct o.
Qed.

(** ** [then] before and after *)

Lemma then_pending step c sh type f g k (w : World) :
  cores w !! c = Some k -> state k = Pending -> mtx k = false -> (c < brk w)%nat ->
  exists w', then_ step c sh type f g w = (w', Ok (brk w))
  /\ cores w' = <[c := push_request (S (brk w)) k]> (<[brk w := CoreT_new type]> (cores w))
  /\ conts w' = <[S (brk w) := {| of_void := bool_decide (id k = None); shape := sh; resolve_ := f; reject_ := g;
                                  resolveCount_ := 0; rejectCount_ := 0; chain_ := brk w |}]> (conts w)
  /\ datas w' = datas w /\ brk w' = S (S (brk w)) /\ app w' = app w.
Proof.
  intros E Hs Hm Hc. unfold then_. rewrite (bind_Ok _ _ _ _ _ (core_at_eval c w k E)).
  erewrite bind_Ok; [|reflexivity]. erewrite bind_Ok; [|reflexivity]. cbn [brk set_cores set_brk].
  match goal with |- exists w', (_ ≫= _) ?w1 = _ /\ _ => set (w0 := w1) end.
  assert (cores w0 !! c = Some k) as E0 by (unfold w0; cbn; rewrite lookup_insert_ne by lia; done).
  set (w1 := set_cores (alter (set_mtx true) c) w0).
  assert (cores w1 !! c = Some (set_mtx true k)) as E1 by (unfold w1; cbn [set_cores cores]; by rewrite lookup_alter_eq, E0).
  assert (forall m w2, m w1 = (w2, Ok tt) ->
    with_core_lock c m w0 = (set_cores (alter (set_mtx false) c) w2, Ok tt)) as Hlock.
  { intros m w2 Em. unfold with_core_lock. rewrite (bind_Ok _ _ _ _ _ (core_at_eval c w0 k E0)), Hm.
    erewrite bind_Ok; [|reflexivity]. unfold finally. fold w1. by rewrite Em. }
  erewrite bind_Ok; cycle 1.
  { apply Hlock. rewrite (bind_Ok _ _ _ _ _ (core_at_eval c w1 _ E1)). change (state (set_mtx true k)) with (state k). rewrite Hs.
    erewrite bind_Ok; [|reflexivity]. reflexivity. }
  eexists. split; [reflexivity|]. split_and!; [|done..]. unfold w1. cbn. apply map_eq. intros x.
  destruct (decide (x = c)) as [->|].
  - rewrite !lookup_alter_eq, lookup_insert_eq. rewrite lookup_insert_ne by lia. rewrite E. cbn. f_equal.
    destruct k. cbn in *. by subst.
  - rewrite !lookup_alter_ne, (lookup_insert_ne _ c) by done. done.
Qed.


Lemma then_settled n c f type tyc o k (w : World) :
  cores w !! c = Some k -> settled_core o k -> mtx k = false -> id k = Some tyc -> (c < brk w)%nat ->
  well_typed (next f o) type ->
  exists w', then_ (run (S n)) c ReturnsValue (Some type) (Function f) ThrowException w = (w', Ok (brk w))
  /\ cores w' = <[c := push_request (S (brk w)) k]> (<[brk w := settle_core (next f o) (CoreT_new (Some type))]> (cores w))
  /\ app w' = match o with inl v => effect f v (app w) | inr _ => app w end.
Proof.
  intros E Hk Hm Hi Hc Ht. unfold then_. rewrite (bind_Ok _ _ _ _ _ (core_at_eval c w k E)).
  erewrite bind_Ok; [|reflexivity]. erewrite bind_Ok; [|reflexivity]. cbn [brk set_cores set_brk].
  match goal with |- exists w', (_ ≫= _) ?w1 = _ /\ _ => set (w0 := w1) end.
  assert (cores w0 !! c = Some k) as E0 by (unfold w0; cbn; rewrite lookup_insert_ne by lia; done).
  set (w1 := set_cores (alter (set_mtx true) c) w0). set (k1 := set_mtx true k).
  assert (cores w1 !! c = Some k1) as E1 by (unfold w1; cbn [set_cores cores]; by rewrite lookup_alter_eq, E0).
  assert (cores w1 !! brk w = Some (CoreT_new (Some type))) as Eq1.
  { unfold w1, w0. cbn. rewrite lookup_alter_ne by lia. by rewrite lookup_insert_eq. }
  assert (conts w1 !! S (brk w) = Some (request f (brk w))) as Er1.
  { unfold w1, w0. cbn. rewrite lookup_insert_eq, Hi. by rewrite bool_decide_eq_false_2. }
  pose proof (run_continuation n o (S (brk w)) c f (brk w) type [] w1 k1 E1) as Hrun.
  set (w2 := settle_at (next f o) (brk w)
      (match o with inl v => set_app (effect f v) | inr _ => fun w => w end (set_conts (alter (count o) (S (brk w))) w1))) in *.
  assert (cores w2 = alter (settle_core (next f o)) (brk w) (cores w1)) as Ew2 by (by destruct o).
  assert (run (S n) (resolved_with o) (S (brk w)) c w1 = (w2, Ok tt)) as Erun.
  { rewrite Hrun; [|by destruct o|done|by eexists|done]. unfold notify. erewrite bind_Ok; cycle 1.
    { apply core_at_eval. rewrite Ew2, lookup_alter_eq, Eq1. reflexivity. }
    assert (requests (settle_core (next f o) (CoreT_new (Some type))) = []) as -> by (by destruct o). done. }
  assert (forall m w3, m w1 = (w3, Ok tt) ->
    with_core_lock c m w0 = (set_cores (alter (set_mtx false) c) w3, Ok tt)) as Hlock.
  { intros m w3 Em. unfold with_core_lock. rewrite (bind_Ok _ _ _ _ _ (core_at_eval c w0 k E0)), Hm.
    erewrite bind_Ok; [|reflexivity]. unfold finally. fold w1. by rewrite Em. }
  erewrite bind_Ok; cycle 1.
  { apply Hlock. rewrite (bind_Ok _ _ _ _ _ (core_at_eval c w1 _ E1)). change (state k1) with (state k).
    destruct o as [v|p]; destruct Hk as [-> Hv]; (erewrite bind_Ok; [|exact Erun]); reflexivity. }
  eexists. split; [reflexivity|]. split.
  - cbn [set_cores cores]. rewrite Ew2. apply map_eq. intros x. destruct (decide (x = c)) as [->|].
    + rewrite !lookup_alter_eq, lookup_insert_eq. rewrite lookup_alter_ne by lia. rewrite E1. cbn. f_equal.
      destruct k. cbn in *. by subst.
    + rewrite !(lookup_alter_ne _ _ c), (lookup_insert_ne _ c) by done. destruct (decide (x = brk w)) as [->|].
      * by rewrite lookup_alter_eq, lookup_insert_eq, Eq1.
      * rewrite lookup_alter_ne, lookup_insert_ne by done. unfold w1, w0. cbn.
        by rewrite lookup_alter_ne, lookup_insert_ne.
  - unfold w2. by destruct o.
Qed.

(** C14. Settling a promise settles the tree of the promises made of it by [then] with functions
    that return a value and do not take their argument by [T&&], and with [Async::Throw]
    for rejections; and nothing else: with a value, each promise gets its function's result
    on its parent's value, and every function is called once, parents first and in the
    order they were attached; a rejection reaches every promise and no function is called.
    Nothing of the tree can be settled again. *)
Theorem promise_tree_settled t n o (w : World) :
  held w t -> mtx <$> cores w !! root t = Some false -> typed o t ->
  NoDup (cores_of t) -> NoDup (conts_of t) -> (height t <= S n)%nat ->
  exists w', settle n o (root t) w = (w', Ok true)
  /\ (forall x o', (x, o') ∈ outcomes o t -> cores w' !! x = settle_core o' <$> cores w !! x)
  /\ (forall x, x ∉ cores_of t -> cores w' !! x = cores w !! x)
  /\ app w' = fold_left (fun a c => call c a) (calls o t) (app w)
  /\ (forall x o', x ∈ cores_of t -> settle n o' x w' = (w', Throw (settled_already o'))).
Proof. apply settle_tree. Qed.

(** It does not matter whether a continuation is attached to a promise before or
    after it is settled: the function is called once either way, with the same value,
    and the promises end up the same. *)
Theorem then_either_order n c f type tyc o k (w : World) :
  cores w !! c = Some k -> state k = Pending -> requests k = [] -> mtx k = false -> id k = Some tyc ->
  well_typed o tyc -> well_typed (next f o) type -> (c < brk w)%nat ->
  let attach := then_ (run (S n)) c ReturnsValue (Some type) (Function f) ThrowException in
  exists w1 w2,
    (promise ← attach; _ ← settle (S n) o c; mret promise) w = (w1, Ok (brk w))
    /\ (_ ← settle (S n) o c; attach) w = (w2, Ok (brk w))
    /\ cores w1 = cores w2 /\ app w1 = app w2
    /\ cores w1 !! brk w = Some (settle_core (next f o) (CoreT_new (Some type))).
Proof.
  intros E Hs Hq Hm Hi Ho Hf Hc attach.
  destruct (then_pending (run (S n)) c ReturnsValue (Some type) (Function f) ThrowException k w E Hs Hm Hc)
    as (wa & Ea & Hca & Hna & _ & _ & Haa).
  destruct (settle_leaf (S n) o c tyc w k) as (wb & Eb & Hcb & _ & _ & Hbb & Hab); [done..|].
  destruct (then_settled n c f type tyc o (settle_core o k) wb) as (w2 & E2 & Hc2 & Ha2);
    [by rewrite Hcb, lookup_insert_eq|apply settle_core_settled|by destruct o|by destruct o|by rewrite Hbb|done|].
  set (t := Tree c tyc [(S (brk w), f, Tree (brk w) type [])]).
  destruct (settle_tree t (S n) o wa) as (w1 & E1 & Hset & Hout & Ha1 & _).
  { split; [|split; [split|done]].
    - exists (push_request (S (brk w)) k). rewrite Hca, lookup_insert_eq. split_and!; try done. cbn. by rewrite Hq.
    - cbn. rewrite Hna, lookup_insert_eq, Hi. by rewrite bool_decide_eq_false_2.
    - split; [|done]. exists (CoreT_new (Some type)). cbn. rewrite Hca, lookup_insert_ne, lookup_insert_eq by lia. done. }
  { cbn. by rewrite Hca, lookup_insert_eq, <- Hm. }
  { done. }
  { cbn. apply list.NoDup_cons. split; [|apply list.NoDup_singleton]. intros ->%list_elem_of_singleton. lia. }
  { cbn. apply list.NoDup_singleton. }
  { cbn. lia. }
  assert (cores w1 !! c = Some (settle_core o (push_request (S (brk w)) k))) as E1c.
  { rewrite (Hset c o); [by rewrite Hca, lookup_insert_eq|]. cbn. by left. }
  assert (cores w1 !! brk w = Some (settle_core (next f o) (CoreT_new (Some type)))) as E1q.
  { rewrite (Hset (brk w) (next f o)); [by rewrite Hca, lookup_insert_ne, lookup_insert_eq by lia|]. cbn. right. by left. }
  exists w1, w2. split; [|split; [|split; [|split; [|done]]]].
  - unfold attach. rewrite (bind_Ok _ _ _ _ _ Ea). change c with (root t) at 1. by rewrite (bind_Ok _ _ _ _ _ E1).
  - rewrite (bind_Ok _ _ _ _ _ Eb). unfold attach. by rewrite E2, Hbb.
  - apply map_eq. intros x. rewrite Hc2, Hbb. destruct (decide (x = c)) as [->|Hxc].
    { rewrite E1c, lookup_insert_eq. f_equal. by destruct o. }
    rewrite lookup_insert_ne by done. destruct (decide (x = brk w)) as [->|Hxq]; [by rewrite E1q, lookup_insert_eq|].
    rewrite lookup_insert_ne, Hout by (done || (cbn; set_solver)). rewrite Hca, Hcb. by rewrite !lookup_insert_ne.
  - rewrite Ha1, Ha2, Haa, Hab. by destruct o.
Qed.

(** The promise [then] returns for a function that returns nothing is never settled:
    the function is called, and what was or will be attached to that promise is not. *)
Theorem void_function_ends_chain n c f g v type k (w : World) :
  cores w !! c = Some k -> state k = Pending -> requests k = [] -> mtx k = false -> id k = Some type ->
  TypeId_of v = type -> (c < brk w)%nat ->
  exists w', (promise ← then_ (run (S n)) c ReturnsVoid None (Function f) g; _ ← settle (S n) (inl v) c; mret promise) w
    = (w', Ok (brk w))
  /\ cores w' !! brk w = Some (CoreT_new None) /\ app w' = effect f v (app w).
Proof.
  intros E Hs Hq Hm Hi Ht Hc.
  destruct (then_pending (run (S n)) c ReturnsVoid None (Function f) g k w E Hs Hm Hc) as (wa & Ea & Hca & Hna & _ & _ & Haa).
  set (ka := push_request (S (brk w)) k) in *. assert (cores wa !! c = Some ka) as E1 by (by rewrite Hca, lookup_insert_eq).
  set (o := inl v : settlement). set (w1 := settle_at o c (set_cores (alter (set_mtx true) c) wa)).
  set (k1 := settle_core o (set_mtx true ka)).
  assert (cores w1 !! c = Some k1) as Ek1 by (unfold w1; cbn [settle_at set_cores cores]; by rewrite !lookup_alter_eq, E1).
  set (w2 := set_app (effect f v) (set_conts (alter count_resolve (S (brk w))) w1)).
  assert (run (S n) true (S (brk w)) c w1 = (w2, Ok tt)) as Erun.
  { cbn [Async.run]. unfold Continuable_resolve. erewrite bind_Ok; [|apply cont_at_eval; unfold w1; cbn; rewrite Hna; apply lookup_insert_eq].
    cbn [resolveCount_ Nat.leb]. erewrite bind_Ok; [|reflexivity]. unfold doResolve. cbn [of_void shape resolve_ chain_].
    rewrite Hi, bool_decide_eq_false_2 by done. set (w3 := set_conts _ w1).
    assert ((v ← core_value c; mret (Some v)) w3 = (w3, Ok (Some v))) as Ev.
    { unfold core_value. unfold mbind, M_bind. by rewrite (core_at_eval c w3 k1 Ek1). }
    rewrite (bind_Ok _ _ _ _ _ Ev). cbn [call_resolve by_value]. by rewrite (bind_Ok _ _ _ _ _ (code_fun f v w3)). }
  rewrite (bind_Ok _ _ _ _ _ Ea). erewrite bind_Ok; cycle 1.
  { apply (settle_pending (S n) o c type wa w2 ka E1); [done..|]. fold w1. unfold notify.
    rewrite (bind_Ok _ _ _ _ _ (core_at_eval c w1 k1 Ek1)).
    assert (requests k1 = [S (brk w)]) as -> by (unfold k1, ka; cbn; by rewrite Hq).
    by rewrite (notify_cons _ _ _ _ _ w1 w2 k1 k1). }
  eexists. split; [reflexivity|]. split; [|unfold w2, w1; cbn; by rewrite Haa].
  unfold w2, w1. cbn. rewrite !lookup_alter_ne by lia. by rewrite Hca, lookup_insert_ne, lookup_insert_eq by lia.
Qed.
End Trees.

(** ** Witnesses *)

Section Witnesses.
(** Functions that add a number, and log their arguments. *)
Definition add_value (f : nat) (v : value (Base := nat)) : value := match v with Plain ty x => Plain ty (x + f) | _ => v end.
Definition log_value (f : nat) (v : value (Base := nat)) (l : list (value (Base := nat))) : list value := l ++ [v].
Abbreviation DemoWorld := (World (Base := nat) (App := list (value (Base := nat))) (Fn := nat)).
Definition demo_code (f : nat) (arg : argument (Base := nat)) : M DemoWorld (Ret (Base := nat)) := fun w =>
  match arg with
  | ByValue v => (set_app (log_value f v) w, Ok (RetValue (add_value f v)))
  | ByRvalue c => (v ← core_value c; _ ← on_core c (set_storage (Plain 0 0)); mret (RetValue (add_value f v))) w
  | NoArgument => (w, Ok RetVoid)
  end.
Definition demo_handler (f : nat) (p : exception_ptr) : M DemoWorld (option exception_ptr) := mret None.

Definition empty_world : DemoWorld := {| cores := ∅; conts := ∅; datas := ∅; brk := 0; app := [] |}.
Definition demo_core (rs : list loc) : Core (Base := nat) :=
  {| state := Pending; exc := Null; storage := None; requests := rs; id := Some (Plain_type 0); mtx := false |}.

(** Two functions on one promise, and a third after the first. *)
Definition demo_world : DemoWorld :=
  {| cores := {[ 0 := demo_core [2; 4]; 1 := demo_core [6]; 3 := demo_core []; 5 := demo_core [] ]};
     conts := {[ 2 := request 1 1; 4 := request 2 3; 6 := request 3 5 ]}; datas := ∅; brk := 7; app := [] |}.
Definition demo_tree : tree :=
  Tree 0 (Plain_type 0) [(2, 1, Tree 1 (Plain_type 0) [(6, 3, Tree 5 (Plain_type 0) [])]); (4, 2, Tree 3 (Plain_type 0) [])].

Lemma promise_tree_settled_witness : exists w',
  settle demo_code demo_handler 3 (inl (Plain 0 10)) 0 demo_world = (w', Ok true)
  /\ (forall x o', (x, o') ∈ [(0, inl (Plain 0 10)); (1, inl (Plain 0 11)); (5, inl (Plain 0 14)); (3, inl (Plain 0 12))] ->
        cores w' !! x = settle_core o' <$> cores demo_world !! x)
  /\ (forall x, x ∉ cores_of demo_tree -> cores w' !! x = cores demo_world !! x)
  /\ app w' = [Plain 0 10; Plain 0 11; Plain 0 10]
  /\ (forall x o', x ∈ cores_of demo_tree -> settle demo_code demo_handler 3 o' x w' = (w', Throw (settled_already o'))).
Proof.
  apply (promise_tree_settled demo_code demo_handler add_value log_value (fun f v w => eq_refl) demo_tree 3 (inl (Plain 0 10)) demo_world).
  - repeat (split || (eexists; split; [reflexivity|])); reflexivity.
  - reflexivity.
  - repeat split.
  - apply (bool_decide_unpack _). reflexivity.
  - apply (bool_decide_unpack _). reflexivity.
  - cbn. lia.
Defined.

(** The first of two functions takes [T&&]: it has the value, the second what is left of it. *)
Definition moving_world : DemoWorld :=
  {| cores := {[ 0 := demo_core [2; 4]; 1 := demo_core []; 3 := demo_core [] ]};
     conts := {[ 2 := {| of_void := false; shape := ReturnsValue; resolve_ := MoveFunction 1; reject_ := ThrowException;
                         resolveCount_ := 0; rejectCount_ := 0; chain_ := 1 |};
                 4 := request 2 3 ]}; datas := ∅; brk := 7; app := [] |}.
Lemma moved_value_is_gone :
  let '(w', r) := settle demo_code demo_handler 3 (inl (Plain 0 10)) 0 moving_world in
  r = Ok true /\ storage <$> cores w' !! 1 = Some (Some (Plain 0 11)) /\ storage <$> cores w' !! 3 = Some (Some (Plain 0 2))
  /\ storage <$> cores w' !! 0 = Some (Some (Plain 0 0)).
Proof. vm_compute. by split_and!. Qed.

Lemma then_either_order_witness :
  let w : DemoWorld := {| cores := {[ 0 := demo_core [] ]}; conts := ∅; datas := ∅; brk := 1; app := [] |} in
  let attach := then_ (run demo_code demo_handler 3) 0 ReturnsValue (Some (Plain_type 0)) (Function 1) ThrowException in
  exists w1 w2,
    (promise ← attach; _ ← settle demo_code demo_handler 3 (inl (Plain 0 10)) 0; mret promise) w = (w1, Ok 1)
    /\ (_ ← settle demo_code demo_handler 3 (inl (Plain 0 10)) 0; attach) w = (w2, Ok 1)
    /\ cores w1 = cores w2 /\ app w1 = app w2
    /\ cores w1 !! 1 = Some (settle_core (inl (Plain 0 11)) (CoreT_new (Some (Plain_type 0)))).
Proof.
  intros w. apply (then_either_order demo_code demo_handler add_value log_value (fun f v w => eq_refl) 2 0 1
    (Plain_type 0) (Plain_type 0) (inl (Plain 0 10)) (demo_core []) w); try reflexivity. cbn. lia.
Defined.

Lemma void_function_ends_chain_witness :
  let w : DemoWorld := {| cores := {[ 0 := demo_core [] ]}; conts := ∅; datas := ∅; brk := 1; app := [] |} in
  exists w', (promise ← then_ (run demo_code demo_handler 3) 0 ReturnsVoid None (Function 1) ThrowException;
              _ ← settle demo_code demo_handler 3 (inl (Plain 0 10)) 0; mret promise) w = (w', Ok 1)
  /\ cores w' !! 1 = Some (CoreT_new None) /\ app w' = [Plain 0 10].
Proof.
  intros w. apply (void_function_ends_chain demo_code demo_handler add_value log_value (fun f v w => eq_refl) 2 0 1
    ThrowException (Plain 0 10) (Plain_type 0) (demo_core []) w); try reflexivity. cbn. lia.
Defined.
End Witnesses.
