(* ===== verification/WhenAll.v ===== *)
(** * The promise of several promises: [whenAll] of [async.h]

    The range form is settled by its inputs in any order; of the other form, and of
    [whenAny], a rejection that comes too late throws. *)

From S2P Require Import Prelude Async Settlement.

Section WhenAll.
Context {Base App Fn : Type}.
Abbreviation value := (value (Base := Base)).
Abbreviation World := (World (Base := Base) (App := App) (Fn := Fn)).
Abbreviation Core := (Core (Base := Base)).
Abbreviation Data := (Data (Base := Base)).
Context (code : Fn -> argument (Base := Base) -> M World (Ret (Base := Base))).
Context (handler_code : Fn -> exception_ptr -> M World (option exception_ptr)).
Abbreviation run := (run code handler_code).
Abbreviation settle := (settle code handler_code).

Lemma data_at_eval d (w : World) D : datas w !! d = Some D -> data_at d w = (w, Ok D).
Proof. intros E. unfold data_at, mbind, M_bind, get, of_option, lift. by rewrite E. Qed.

(** What a guarded block leaves is what it makes of the data, unlocked. *)
Lemma with_data_lock_eval {A} d (m : M World A) D D' (w w' : World) r :
  datas w !! d = Some D -> data_mtx D = false -> m (set_datas (alter (set_data_mtx true) d) w) = (w', r) ->
  datas w' = <[d := D']> (datas w) ->
  exists w'', with_data_lock d m w = (w'', r) /\ cores w'' = cores w' /\ conts w'' = conts w' /\ app w'' = app w'
  /\ datas w'' = <[d := set_data_mtx false D']> (datas w).
Proof.
  intros E Hm Em Ed. unfold with_data_lock. rewrite (bind_Ok _ _ _ _ _ (data_at_eval d w D E)), Hm.
  erewrite bind_Ok; [|reflexivity]. unfold finally. rewrite Em. eexists. split; [done|]. split_and!; [done..|].
  cbn. by rewrite Ed, alter_insert_eq.
Qed.

(** The target of [whenAll], while it is pending. *)
Definition target_ok (k : Core) : Prop := requests k = [] /\ mtx k = false /\ id k = Some Results_type.

Lemma Range_resolve_eval n d i v D t k (w : World) :
  datas w !! d = Some D -> data_mtx D = false -> resolve D = Some t -> cores w !! t = Some k -> target_ok k ->
  (done D = false -> state k = Pending) ->
  let D' := if done D then D else count_result (Some (i, v)) D in
  let last := negb (done D) && bool_decide (S (resolved D) = total D) in
  exists w', Range_resolve (run n) d i (Some v) w = (w', Ok tt)
  /\ cores w' = (if last then <[t := settle_core (inl (Results (results D'))) k]> (cores w) else cores w)
  /\ conts w' = conts w /\ app w' = app w /\ datas w' = <[d := D']> (datas w).
Proof.
  intros E Hm Hr Ek (Hq & Hkm & Hi) Hp. cbv zeta.
  set (w0 := set_datas (alter (set_data_mtx true) d) w). set (D0 := set_data_mtx true D).
  assert (datas w0 !! d = Some D0) as E0 by (unfold w0; cbn; by rewrite lookup_alter_eq, E).
  assert (set_data_mtx false D0 = D) as ED by (destruct D; cbn in *; by subst).
  unfold Range_resolve, add_result. match goal with |- context [with_data_lock d ?m] => set (body := m) end.
  destruct (done D) eqn:Hd; cbn [negb andb].
  - destruct (with_data_lock_eval d body D D0 w w0 (Ok tt) E Hm) as (w' & Ew & Hc & Hn & Ha & Hda).
    { fold w0. unfold body. rewrite (bind_Ok _ _ _ _ _ (data_at_eval d w0 D0 E0)). change (done D0) with (done D). by rewrite Hd. }
    { unfold w0, D0. cbn. apply map_eq. intros x. destruct (decide (x = d)) as [->|]; [by rewrite lookup_alter_eq, E, lookup_insert_eq|].
      by rewrite lookup_alter_ne, lookup_insert_ne. }
    rewrite ED in Hda. by exists w'.
  - set (D1 := count_result (Some (i, v)) D0). set (w1 := set_datas (alter (count_result (Some (i, v))) d) w0).
    assert (datas w1 !! d = Some D1) as E1 by (unfold w1; cbn; by rewrite lookup_alter_eq, lookup_alter_eq, E).
    assert (datas w1 = <[d := D1]> (datas w)) as Ed1.
    { unfold w1, w0. cbn. apply map_eq. intros x. destruct (decide (x = d)) as [->|].
      - by rewrite !lookup_alter_eq, E, lookup_insert_eq.
      - by rewrite !lookup_alter_ne, lookup_insert_ne. }
    assert (set_data_mtx false D1 = count_result (Some (i, v)) D) as ED1 by (unfold D1, D0; clear - Hm; destruct D; cbn in *; by subst).
    assert (exists w2, body w0 = (w2, Ok tt)
      /\ cores w2 = (if bool_decide (S (resolved D) = total D) then
           <[t := settle_core (inl (Results (results (count_result (Some (i, v)) D)))) k]> (cores w) else cores w)
      /\ conts w2 = conts w /\ app w2 = app w /\ datas w2 = <[d := D1]> (datas w)) as (w2 & Ew2 & Hc2 & Hn2 & Ha2 & Hd2).
    { unfold body. rewrite (bind_Ok _ _ _ _ _ (data_at_eval d w0 D0 E0)). change (done D0) with (done D). rewrite Hd.
      erewrite bind_Ok; [|reflexivity]. fold w1. rewrite (bind_Ok _ _ _ _ _ (data_at_eval d w1 D1 E1)).
      change (resolved D1) with (S (resolved D)). change (total D1) with (total D).
      destruct (decide (S (resolved D) = total D)) as [Hl|Hl]; [rewrite bool_decide_eq_true_2|rewrite bool_decide_eq_false_2];
        try done; [|by exists w1].
      change (resolve D1) with (resolve D). rewrite Hr. change (results D1) with (results (count_result (Some (i, v)) D)).
      destruct (settle_leaf code handler_code n (inl (Results (results (count_result (Some (i, v)) D)))) t Results_type w1 k)
        as (w2 & Es & Hc2 & Hn2 & Hd2 & _ & Ha2); try done; [by apply Hp|].
      exists w2. split; [by erewrite bind_Ok|]. by rewrite Hd2. }
    destruct (with_data_lock_eval d _ D D1 w w2 (Ok tt) E Hm Ew2 Hd2) as (w' & Ew & Hc & Hn & Ha & Hda).
    exists w'. split; [exact Ew|]. rewrite Hc, Hn, Ha, Hda, ED1. done.
Qed.

Lemma Range_reject_eval n d p D t k (w : World) :
  datas w !! d = Some D -> data_mtx D = false -> reject D = Some t -> cores w !! t = Some k -> target_ok k ->
  (done D = false -> state k = Pending) ->
  exists w', Range_reject (run n) d p w = (w', Ok tt)
  /\ cores w' = (if done D then cores w else <[t := settle_core (inr (Pointer p)) k]> (cores w))
  /\ conts w' = conts w /\ app w' = app w /\ datas w' = <[d := set_done D]> (datas w).
Proof.
  intros E Hm Hr Ek (Hq & Hkm & Hi) Hp.
  set (w0 := set_datas (alter (set_data_mtx true) d) w). set (D0 := set_data_mtx true D).
  assert (datas w0 !! d = Some D0) as E0 by (unfold w0; cbn; by rewrite lookup_alter_eq, E).
  unfold Range_reject. match goal with |- context [with_data_lock d ?m] => set (body := m) end.
  destruct (done D) eqn:Hd.
  - destruct (with_data_lock_eval d body D D0 w w0 (Ok tt) E Hm) as (w' & Ew & Hc & Hn & Ha & Hda).
    { fold w0. unfold body. rewrite (bind_Ok _ _ _ _ _ (data_at_eval d w0 D0 E0)). change (done D0) with (done D). by rewrite Hd. }
    { unfold w0, D0. cbn. apply map_eq. intros x. destruct (decide (x = d)) as [->|]; [by rewrite lookup_alter_eq, E, lookup_insert_eq|].
      by rewrite lookup_alter_ne, lookup_insert_ne. }
    exists w'. rewrite Hda. split_and!; try done. f_equal. destruct D. cbn in *. by subst.
  - set (D1 := set_done D0). set (w1 := set_datas (alter set_done d) w0).
    assert (datas w1 !! d = Some D1) as E1 by (unfold w1; cbn; by rewrite lookup_alter_eq, lookup_alter_eq, E).
    assert (datas w1 = <[d := D1]> (datas w)) as Ed1.
    { unfold w1, w0. cbn. apply map_eq. intros x. destruct (decide (x = d)) as [->|].
      - by rewrite !lookup_alter_eq, E, lookup_insert_eq.
      - by rewrite !lookup_alter_ne, lookup_insert_ne. }
    destruct (settle_leaf code handler_code n (inr (Pointer p)) t Results_type w1 k)
        as (w2 & Es & Hc2 & Hn2 & Hd2 & _ & Ha2); try done; [by apply Hp|].
    destruct (with_data_lock_eval d body D D1 w w2 (Ok tt) E Hm) as (w' & Ew & Hc & Hn & Ha & Hda).
    { fold w0. unfold body. rewrite (bind_Ok _ _ _ _ _ (data_at_eval d w0 D0 E0)). change (done D0) with (done D). rewrite Hd.
      erewrite bind_Ok; [|reflexivity]. fold w1. change (reject D0) with (reject D). rewrite Hr. by erewrite bind_Ok. }
    { by rewrite Hd2. }
    exists w'. split; [exact Ew|]. rewrite Hc, Hn, Ha, Hda, Hc2, Hn2, Ha2. split_and!; try done. f_equal. destruct D. cbn in *. by subst.
Qed.

(** *** One input *)

(** What an input that is settled makes of the data, and what it settles the target with. *)
Definition data_after (o : settlement) (i : nat) (D : Data) : Data :=
  match o with
  | inl v => if done D then D else count_result (Some (i, v)) D
  | inr _ => set_done D
  end.
Definition target_after (o : settlement) (i : nat) (D : Data) : option (settlement (Base := Base)) :=
  if done D then None
  else match o with
       | inl v => if bool_decide (S (resolved D) = total D) then Some (inl (Results (results (data_after o i D)))) else None
       | inr p => Some (inr (Pointer p))
       end.

Definition range_request (d : loc) (i : nat) (chain : loc) : Request (Fn := Fn) :=
  {| of_void := false; shape := ReturnsVoid; resolve_ := RangeContinuation d i; reject_ := RangeReject d;
     resolveCount_ := 0; rejectCount_ := 0; chain_ := chain |}.

Definition with_target (t : loc) (k : Core) (o : option (settlement (Base := Base))) (m : gmap loc Core) : gmap loc Core :=
  match o with Some o => <[t := settle_core o k]> m | None => m end.

Record data_ok (D : Data) (t : loc) : Prop := {
  data_unlocked : data_mtx D = false; data_resolve : resolve D = Some t; data_reject : reject D = Some t }.

Lemma run_range n o d i r c chain D t kt k (w : World) :
  cores w !! c = Some k -> settled_core o k -> conts w !! r = Some (range_request d i chain) ->
  datas w !! d = Some D -> data_ok D t -> cores w !! t = Some kt -> target_ok kt -> (done D = false -> state kt = Pending) ->
  exists w', run (S n) (resolved_with o) r c w = (w', Ok tt)
  /\ cores w' = with_target t kt (target_after o i D) (cores w)
  /\ conts w' = alter (count o) r (conts w) /\ app w' = app w /\ datas w' = <[d := data_after o i D]> (datas w).
Proof.
  intros E Hk Er Ed [Hm Hr Hj] Et Ht Hp. set (w1 := set_conts (alter (count o) r) w).
  destruct o as [v|p]; destruct Hk as [Hs Hv]; cbn [resolved_with Async.run].
  - destruct (Range_resolve_eval n d i v D t kt w1) as (w' & Ew & Hc & Hn & Ha & Hd); [done..|].
    exists w'. split.
    + unfold Continuable_resolve. rewrite (bind_Ok _ _ w w _ (cont_at_eval r w _ Er)). cbn [resolveCount_ range_request Nat.leb].
      erewrite bind_Ok; [|reflexivity]. change (set_conts (alter count_resolve r) w) with w1.
      unfold doResolve. cbn [of_void range_request resolve_ shape chain_].
      assert ((v ← core_value c; mret (Some v)) w1 = (w1, Ok (Some v))) as Ev.
      { unfold core_value. unfold mbind, M_bind. rewrite (core_at_eval c w1 k E). rewrite decide_True by done. cbn.
        unfold of_option, lift. by rewrite Hv. }
      rewrite (bind_Ok _ _ _ _ _ Ev). cbn [call_resolve by_value]. erewrite bind_Ok; [|erewrite bind_Ok; [reflexivity|exact Ew]]. done.
    + split_and!; [|done..]. rewrite Hc. unfold target_after. cbn [data_after].
      destruct (done D); cbn [negb andb]; [done|]. by destruct (bool_decide _).
  - destruct (Range_reject_eval n d p D t kt w1) as (w' & Ew & Hc & Hn & Ha & Hd); [done..|].
    exists w'. split.
    + unfold Continuable_reject. rewrite (bind_Ok _ _ w w _ (cont_at_eval r w _ Er)). cbn [rejectCount_ range_request Nat.leb].
      erewrite bind_Ok; [|reflexivity]. change (set_conts (alter count_reject r) w) with w1.
      assert (doReject handler_code (Async.run code handler_code n) (range_request d i chain) c w1 = (w', Ok None)) as Ej.
      { unfold doReject. rewrite (bind_Ok _ _ _ _ _ (core_at_eval c w1 k E)). rewrite Hv.
        erewrite bind_Ok; [|cbn [call_reject range_request reject_]; erewrite bind_Ok; [reflexivity|exact Ew]]. done. }
      by rewrite (bind_Ok _ _ _ _ _ Ej).
    + split_and!; [|done..]. rewrite Hc. unfold target_after. by destruct (done D).
Qed.

Lemma settle_input n o d i r c chain type D t kt k (w : World) :
  cores w !! c = Some k -> state k = Pending -> requests k = [r] -> mtx k = false -> id k = Some type -> well_typed o type ->
  conts w !! r = Some (range_request d i chain) -> c <> t ->
  datas w !! d = Some D -> data_ok D t -> cores w !! t = Some kt -> target_ok kt -> (done D = false -> state kt = Pending) ->
  exists w', settle (S n) o c w = (w', Ok true)
  /\ cores w' = with_target t kt (target_after o i D) (<[c := settle_core o k]> (cores w))
  /\ conts w' = alter (count o) r (conts w) /\ app w' = app w /\ datas w' = <[d := data_after o i D]> (datas w).
Proof.
  intros E Hs Hq Hm Hi Hw Er Hne Ed Hd Et Ht Hp. set (w1 := settle_at o c (set_cores (alter (set_mtx true) c) w)).
  set (k1 := settle_core o (set_mtx true k)).
  assert (cores w1 = <[c := k1]> (cores w)) as Ec1.
  { unfold w1. cbn. apply map_eq. intros x. destruct (decide (x = c)) as [->|].
    - by rewrite !lookup_alter_eq, E, lookup_insert_eq.
    - by rewrite !lookup_alter_ne, lookup_insert_ne. }
  assert (cores w1 !! c = Some k1) as E1 by (by rewrite Ec1, lookup_insert_eq).
  destruct (run_range n o d i r c chain D t kt k1 w1) as (w2 & Ew2 & Hc2 & Hn2 & Ha2 & Hd2); [done|by destruct o|done|done|done| |done|done|].
  { by rewrite Ec1, lookup_insert_ne. }
  assert (cores w2 !! c = Some k1) as E2.
  { rewrite Hc2. unfold with_target. destruct (target_after o i D); [by rewrite lookup_insert_ne|done]. }
  exists (set_cores (alter (set_mtx false) c) w2). split.
  { apply (settle_pending code handler_code (S n) o c type w w2 k E Hs Hm Hi Hw). fold w1. unfold notify.
    rewrite (bind_Ok _ _ _ _ _ (core_at_eval c w1 k1 E1)). assert (requests k1 = [r]) as -> by (rewrite <- Hq; by destruct o).
    by rewrite (notify_cons _ _ _ _ _ w1 w2 k1 k1). }
  split_and!; [|done..]. cbn. rewrite Hc2, Ec1. assert (set_mtx false k1 = settle_core o k) as Ek.
  { unfold k1. clear - Hm. destruct k. cbn in Hm. subst. by destruct o. }
  apply map_eq. intros x. unfold with_target. destruct (target_after o i D) as [o'|].
  - destruct (decide (x = c)) as [->|]; [rewrite lookup_alter_eq, !(lookup_insert_ne _ t), !lookup_insert_eq by done; cbn; by rewrite Ek|].
    rewrite lookup_alter_ne by done. destruct (decide (x = t)) as [->|]; [by rewrite !lookup_insert_eq|].
    by rewrite !lookup_insert_ne.
  - destruct (decide (x = c)) as [->|]; [rewrite lookup_alter_eq, !lookup_insert_eq; cbn; by rewrite Ek|].
    by rewrite lookup_alter_ne, !lookup_insert_ne.
Qed.

(** *** All inputs, in any order *)

Record input : Set := { in_core : loc; in_cont : loc; in_chain : loc; in_type : TypeId }.

Definition input_pending (w : World) (d : loc) (i : nat) (x : input) : Prop := exists k,
  cores w !! in_core x = Some k /\ state k = Pending /\ requests k = [in_cont x] /\ mtx k = false /\ id k = Some (in_type x)
  /\ conts w !! in_cont x = Some (range_request d i (in_chain x)).

Fixpoint first_rejection (ss : list (nat * settlement (Base := Base))) : option exception_ptr :=
  match ss with [] => None | (_, inr p) :: _ => Some p | _ :: ss' => first_rejection ss' end.

Lemma first_rejection_snoc ss i o :
  first_rejection (ss ++ [(i, o)])
  = match first_rejection ss with Some p => Some p | None => match o with inr p => Some p | inl _ => None end end.
Proof. induction ss as [|[j [v|p]] ss IH]; cbn; [by destruct o|done|done]. Qed.

(** What the inputs settled so far say of the target [kt]. *)
Definition target_state (m : nat) (ss : list (nat * settlement (Base := Base))) (rs : list (option value)) (kt : Core) : Prop :=
  match first_rejection ss with
  | Some p => state kt = Rejected /\ exc kt = Pointer p
  | None =>
      (forall i v, (i, inl v) ∈ ss -> rs !! i = Some (Some v))
      /\ if bool_decide (length ss = m /\ m <> 0%nat) then state kt = Fulfilled /\ storage kt = Some (Results rs)
         else state kt = Pending
  end.

Definition progress (m : nat) (ins : list input) (ss : list (nat * settlement)) (d t : loc) (w : World) : Prop := exists D kt,
  (datas w !! d = Some D /\ data_ok D t /\ total D = m /\ length (results D) = m)
  /\ (cores w !! t = Some kt /\ target_ok kt)
  /\ (forall i x, ins !! i = Some x -> i ∉ map fst ss -> input_pending w d i x)
  /\ (match first_rejection ss with Some _ => done D = true | None => done D = false /\ resolved D = length ss end)
  /\ target_state m ss (results D) kt.

Definition inputs_apart (ins : list input) (t : loc) : Prop :=
  NoDup (map in_core ins) /\ NoDup (map in_cont ins) /\ t ∉ map in_core ins.

(** Inputs that are not settled are left. *)
Lemma unsettled_left (m : nat) (ss : list (nat * settlement (Base := Base))) i :
  (i < m)%nat -> NoDup (map fst ss) -> Forall (fun j => j < m)%nat (map fst ss) -> i ∉ map fst ss -> (length ss < m)%nat.
Proof.
  intros Hi Hn Hf Hx. rewrite <- (length_map fst ss). enough (length (i :: map fst ss) <= m)%nat by (cbn in *; lia).
  rewrite <- (length_seq m 0). apply submseteq_length, list.NoDup_submseteq; [by apply list.NoDup_cons|].
  intros j [->|Hj]%elem_of_cons; apply elem_of_seq; [lia|]. rewrite list.Forall_forall in Hf. specialize (Hf j Hj). cbn in Hf. lia.
Qed.

Lemma progress_step n m ins ss d t (w : World) i o x :
  progress m ins ss d t w -> inputs_apart ins t -> length ins = m ->
  NoDup (map fst ss) -> Forall (fun j => j < m)%nat (map fst ss) ->
  ins !! i = Some x -> i ∉ map fst ss -> well_typed o (in_type x) ->
  exists w', settle (S n) o (in_core x) w = (w', Ok true) /\ progress m ins (ss ++ [(i, o)]) d t w'.
Proof.
  intros (D & kt & (Ed & Hd & Hm & Hl) & (Et & Ht) & Hin & Hdone & Hts) (Hcd & Hrd & Htn) Hlen Hn Hf Ex Hi Hw.
  assert (i < m)%nat as Him by (rewrite <- Hlen; by eapply lookup_lt_Some).
  pose proof (unsettled_left m ss i Him Hn Hf Hi) as Hleft.
  destruct (Hin i x Ex Hi) as (k & Ek & Hs & Hq & Hmk & Hik & Er).
  assert (in_core x <> t) as Hct by (intros <-; apply Htn; apply list_elem_of_fmap; exists x; split; [done|by eapply list_elem_of_lookup_2]).
  assert (done D = false -> state kt = Pending) as Hp.
  { intros Hfalse. unfold target_state in Hts. destruct (first_rejection ss); [congruence|].
    rewrite bool_decide_eq_false_2 in Hts by lia. by destruct Hts. }
  destruct (settle_input n o d i (in_cont x) (in_core x) (in_chain x) (in_type x) D t kt k w)
    as (w' & Ew & Hc' & Hn' & _ & Hd'); [done..|].
  exists w'. split; [done|].
  exists (data_after o i D), (match target_after o i D with Some o' => settle_core o' kt | None => kt end).
  split_and!.
  - by rewrite Hd', lookup_insert_eq.
  - destruct Hd as [H1 H2 H3]. destruct o; cbn; [destruct (done D)|]; by split.
  - destruct o; cbn; [destruct (done D)|]; done.
  - destruct o; cbn; [destruct (done D)|]; cbn; rewrite ?length_insert; done.
  - rewrite Hc'. unfold with_target. destruct (target_after o i D); [by rewrite lookup_insert_eq|by rewrite lookup_insert_ne].
  - destruct Ht as (H1 & H2 & H3). destruct (target_after o i D) as [[]|]; by split_and!.
  - intros j y Ey Hj. rewrite map_app in Hj. cbn [map fst] in Hj. apply not_elem_of_app in Hj as [Hj Hji].
    apply not_elem_of_cons in Hji as [Hji _]. destruct (Hin j y Ey Hj) as (k' & Ek' & Hrest & Hr').
    assert (in_core y <> in_core x) as Hne1.
    { intros E. apply Hji. eapply (NoDup_lookup (map in_core ins)); [done| |]; rewrite list_lookup_fmap; [by rewrite Ey|rewrite Ex; cbn; by rewrite E]. }
    assert (in_cont y <> in_cont x) as Hne2.
    { intros E. apply Hji. eapply (NoDup_lookup (map in_cont ins)); [done| |]; rewrite list_lookup_fmap; [by rewrite Ey|rewrite Ex; cbn; by rewrite E]. }
    assert (in_core y <> t) by (intros <-; apply Htn; apply list_elem_of_fmap; exists y; split; [done|by eapply list_elem_of_lookup_2]).
    exists k'. rewrite Hc', Hn', lookup_alter_ne by done. unfold with_target.
    split; [destruct (target_after o i D); by rewrite ?(lookup_insert_ne _ t), lookup_insert_ne|]. tauto.
  - rewrite first_rejection_snoc, length_app. cbn [length]. destruct (first_rejection ss) as [p|].
    + destruct o; cbn; [by rewrite Hdone|done].
    + destruct Hdone as [Hdone Hres]. destruct o; cbn; [rewrite Hdone; cbn; split; [done|lia]|done].
  - unfold target_state in *. rewrite first_rejection_snoc, length_app. cbn [length]. unfold target_after.
    destruct (first_rejection ss) as [p|]; [by rewrite Hdone|]. destruct Hdone as [Hdone Hres]. rewrite Hdone.
    destruct Hts as [Hvs Hpend]. destruct o as [v|p]; [|done]. cbn [data_after]. rewrite Hdone. split.
    + intros j u [Hj|[= -> ->]%list_elem_of_singleton]%elem_of_app.
      * cbn. rewrite list_lookup_insert_ne; [by apply Hvs|]. intros ->. apply Hi. apply list_elem_of_fmap. by exists (j, inl u).
      * cbn. apply list_lookup_insert_eq. lia.
    + rewrite Hres, Hm. destruct (decide (S (length ss) = m)) as [E|E].
      * rewrite !bool_decide_eq_true_2 by lia. by split.
      * rewrite !bool_decide_eq_false_2 by lia. by apply Hp.
Qed.

(** *** Attaching to the inputs *)

(** A promise nothing was attached to. *)
Definition untouched (w : World) (c : loc) (type : TypeId) : Prop := exists k,
  cores w !! c = Some k /\ state k = Pending /\ requests k = [] /\ mtx k = false /\ id k = Some type /\ (c < brk w)%nat.

Record attached (m : nat) (ins : list input) (d t : loc) (w : World) : Prop := {
  att_progress : progress m ins [] d t w;
  att_apart : inputs_apart ins t;
  att_old : Forall (fun x => in_core x < brk w /\ in_cont x < brk w)%nat ins;
  att_target : (t < brk w)%nat }.

Lemma attach_step step m ins d t c type (w : World) :
  attached m ins d t w -> untouched w c type -> c ∉ map in_core ins -> c <> t ->
  exists w', then_ step c ReturnsVoid None (RangeContinuation d (length ins)) (RangeReject d) w = (w', Ok (brk w))
  /\ attached m (ins ++ [{| in_core := c; in_cont := S (brk w); in_chain := brk w; in_type := type |}]) d t w'
  /\ (forall c' type', c' <> c -> untouched w c' type' -> untouched w' c' type').
Proof.
  intros [(D & kt & HD & (Et & Ht) & Hin & Hdone & Hts) (Hcd & Hrd & Htn) Hold Htb] (k & E & Hs & Hq & Hm & Hi & Hlt) Hc Hct.
  destruct (then_pending step c ReturnsVoid None (RangeContinuation d (length ins)) (RangeReject d) k w E Hs Hm Hlt)
    as (w' & Ew & Hcores & Hconts & Hdatas & Hbrk & _).
  rewrite list.Forall_forall in Hold.
  exists w'. split; [done|]. split; [split|].
  - exists D, kt. rewrite Hdatas. split; [done|]. split; [|split; [|done]].
    + rewrite Hcores, !lookup_insert_ne by (done || lia). done.
    + intros i x Hx _. apply lookup_snoc_Some in Hx as [[Hlen Hx]|[-> <-]].
      * assert (x ∈ ins) as Hxin by (by eapply list_elem_of_lookup_2). destruct (Hold x Hxin) as [H1 H2].
        destruct (Hin i x Hx ltac:(by intros ?%not_elem_of_nil)) as (k' & Ek' & Hrest & Hr').
        assert (in_core x <> c) by (intros E'; apply Hc; rewrite <- E'; apply list_elem_of_fmap; by exists x).
        exists k'. rewrite Hcores, Hconts, !lookup_insert_ne by (done || lia). tauto.
      * exists (push_request (S (brk w)) k). cbn [in_core in_cont in_type in_chain]. rewrite Hcores, Hconts, !lookup_insert_eq.
        split_and!; try done; [cbn; by rewrite Hq|]. by rewrite Hi.
  - split_and!; rewrite ?map_app; cbn [map in_core in_cont].
    + apply list.NoDup_app. split; [done|]. split; [|apply list.NoDup_singleton]. intros y Hy Hyc%list_elem_of_singleton. by subst.
    + apply list.NoDup_app. split; [done|]. split; [|apply list.NoDup_singleton].
      intros y (x & -> & Hx)%list_elem_of_fmap Hy%list_elem_of_singleton. destruct (Hold x Hx). lia.
    + intros [Hx|Hx%list_elem_of_singleton]%elem_of_app; [done|by subst].
  - rewrite list.Forall_app, list.Forall_singleton. rewrite Hbrk. split; [|cbn; lia]. rewrite list.Forall_forall. intros x Hx. destruct (Hold x Hx). lia.
  - rewrite Hbrk. lia.
  - intros c' type' Hne (k' & E' & Hrest & Hi' & Hq' & Hm' & Hlt'). exists k'. rewrite Hcores, Hbrk, !lookup_insert_ne by (done || lia).
    split_and!; try done. lia.
Qed.

Lemma attach_all n m d t inputs : forall ins (w : World),
  attached m ins d t w -> Forall (fun x => untouched w (fst x) (snd x)) inputs ->
  NoDup (map in_core ins ++ map fst inputs) -> t ∉ map fst inputs ->
  exists w' ins', whenArgs code handler_code n (RangeContinuation d) (RangeReject d) (length ins) (map inl (map fst inputs)) w = (w', Ok tt)
  /\ attached m (ins ++ ins') d t w' /\ map (fun x => (in_core x, in_type x)) ins' = inputs.
Proof.
  induction inputs as [|[c type] inputs IH]; intros ins w Ha Hu Hn Ht; cbn [map whenArgs fst] in *.
  { exists w, []. by rewrite app_nil_r. }
  apply list.Forall_cons in Hu as [Huc Hu]. cbn [fst snd] in Huc.
  apply list.NoDup_app in Hn as (Hn1 & Hdisj & Hn2). apply list.NoDup_cons in Hn2 as [Hcn Hn2].
  destruct (attach_step (run n) m ins d t c type w Ha Huc) as (w1 & Ew & Ha1 & Hkeep).
  { intros Hc. apply (Hdisj c Hc). by left. }
  { intros ->. apply Ht. by left. }
  destruct (IH _ w1 Ha1) as (w' & ins' & Ew' & Ha' & Hmap).
  - rewrite list.Forall_forall in *. intros [c' type'] Hx. apply Hkeep; [|by apply (Hu (c', type'))].
    intros E. cbn in E. subst c'. apply Hcn, list_elem_of_fmap. by exists (c, type').
  - rewrite map_app. cbn [map in_core]. rewrite <- app_assoc. apply list.NoDup_app. split; [done|].
    split; [done|]. by apply list.NoDup_cons.
  - set_solver.
  - rewrite length_app, Nat.add_1_r in Ew'. eexists w', (_ :: ins'). split; [|split; [by rewrite <- app_assoc in Ha'|by rewrite <- Hmap]].
    erewrite bind_Ok; [|reflexivity]. by rewrite (bind_Ok _ _ _ _ _ Ew).
Qed.

(** The inputs are settled one after the other. *)
Fixpoint settle_all (n : nat) (cs : list loc) (ss : list (nat * settlement)) : M World unit :=
  match ss with
  | [] => mret tt
  | (i, o) :: ss' =>
      match cs !! i with
      | Some c => _ ← settle n o c; settle_all n cs ss'
      | None => lift UB
      end
  end.

Lemma settle_all_progress n m ins d t ss2 : forall ss1 (w : World),
  progress m ins ss1 d t w -> inputs_apart ins t -> length ins = m ->
  NoDup (map fst (ss1 ++ ss2)) -> Forall (fun j => j < m)%nat (map fst ss1) ->
  Forall (fun s => exists x, ins !! fst s = Some x /\ well_typed (snd s) (in_type x)) ss2 ->
  exists w', settle_all (S n) (map in_core ins) ss2 w = (w', Ok tt) /\ progress m ins (ss1 ++ ss2) d t w'.
Proof.
  induction ss2 as [|[i o] ss2 IH]; intros ss1 w Hp Ha Hl Hn Hf Ht.
  { exists w. by rewrite app_nil_r. }
  apply list.Forall_cons in Ht as [(x & Ex & Hx) Ht]. cbn [fst snd] in *.
  rewrite map_app in Hn. apply list.NoDup_app in Hn as (Hn1 & Hdisj & Hn2). cbn [map fst] in Hn2.
  destruct (progress_step n m ins ss1 d t w i o x Hp Ha Hl Hn1 Hf Ex) as (w1 & Ew & Hp1); [|done|].
  { intros Hi. apply (Hdisj i Hi). by left. }
  destruct (IH (ss1 ++ [(i, o)]) w1 Hp1 Ha Hl) as (w' & Ew' & Hp'); [|..|done|].
  - rewrite <- app_assoc. cbn [app]. rewrite map_app. apply list.NoDup_app. done.
  - rewrite map_app. apply list.Forall_app. split; [done|]. apply list.Forall_singleton. cbn. rewrite <- Hl. by eapply lookup_lt_Some.
  - exists w'. rewrite <- app_assoc in Hp'. split; [|done]. cbn [settle_all]. rewrite list_lookup_fmap, Ex. cbn.
    by rewrite (bind_Ok _ _ _ _ _ Ew).
Qed.

(** Nothing is allocated beyond [brk]. *)
Definition bounded (w : World) : Prop := forall x, (brk w <= x)%nat -> cores w !! x = None.

(** C35. The promise [whenAll(first, last)] makes of pending promises is settled by the
    settlements of these, in whatever order they come: with all the values, each at
    its promise's position, once the last one is there; with the first rejection, if
    there is one (wrapped in another [exception_ptr]), and later settlements do not
    matter; and it stays pending otherwise, for ever if there are no promises.  No
    settlement throws. *)
Theorem when_all_collects n inputs ss (w : World) :
  bounded w -> NoDup (map fst inputs) -> Forall (fun x => untouched w (fst x) (snd x)) inputs ->
  NoDup (map fst ss) -> Forall (fun s => exists x, inputs !! fst s = Some x /\ well_typed (snd s) (snd x)) ss ->
  exists w' t kt rs,
    (t ← whenAll_range code handler_code (S n) false (map fst inputs); _ ← settle_all (S n) (map fst inputs) ss; mret t) w
    = (w', Ok t)
    /\ cores w' !! t = Some kt /\ length rs = length inputs /\ target_state (length inputs) ss rs kt.
Proof.
  intros Hb Hn Hu Hns Hss. set (m := length inputs). set (t := brk w). set (d := S (brk w)).
  set (w1 := set_datas <[d := Data_new m t]> (set_brk (S d) (set_cores <[t := CoreT_new (Some Results_type)]> (set_brk (S t) w)))).
  assert (forall c, c ∈ map fst inputs -> (c < brk w)%nat) as Hold.
  { intros c (x & -> & Hx)%list_elem_of_fmap. rewrite list.Forall_forall in Hu. destruct (Hu x Hx) as (k & _ & _ & _ & _ & _ & ?). done. }
  assert (attached m [] d t w1) as Ha.
  { split; [|split_and!; [by apply list.NoDup_nil|by apply list.NoDup_nil|by apply not_elem_of_nil]|by constructor|cbn; unfold d, t; lia].
    exists (Data_new m t), (CoreT_new (Some Results_type)). unfold w1. cbn [set_datas set_brk set_cores datas cores].
    rewrite !lookup_insert_eq. split_and!; try done; [cbn; by rewrite length_replicate|].
    split; [by intros i v ?%not_elem_of_nil|]. rewrite bool_decide_eq_false_2; [done|]. cbn. lia. }
  destruct (attach_all (S n) m d t inputs [] w1 Ha) as (w2 & ins & Ew2 & Ha2 & Hmap).
  { rewrite list.Forall_forall in *. intros x Hx. destruct (Hu x Hx) as (k & E & Hs & Hq & Hm & Hi & Hlt).
    exists k. unfold w1. cbn [set_datas set_brk set_cores cores brk]. rewrite lookup_insert_ne by (unfold t; lia).
    split_and!; try done. unfold d. lia. }
  { done. }
  { intros Ht%Hold. unfold t in Ht. lia. }
  cbn [app] in Ha2. assert (map fst inputs = map in_core ins) as Ecs by (by rewrite <- Hmap, map_map).
  assert (length ins = m) as Hl by (unfold m; by rewrite <- Hmap, length_map).
  destruct Ha2 as [Hp Hap _ _].
  destruct (settle_all_progress n m ins d t ss [] w2 Hp Hap Hl) as (w' & Ew' & Hp'); [done|by constructor| |].
  { rewrite list.Forall_forall in *. intros s Hs. destruct (Hss s Hs) as (x & Ex & Hx). rewrite <- Hmap, list_lookup_fmap in Ex.
    destruct (ins !! s.1) as [y|]; [|done]. injection Ex as <-. by exists y. }
  destruct Hp' as (D & kt & (_ & _ & _ & HlD) & (Et & _) & _ & _ & Hts).
  exists w', t, kt, (results D). split; [|done]. rewrite Ecs in *. unfold whenAll_range.
  assert ((target ← make_core (Some Results_type); d0 ← make_data (Data_new (length (map in_core ins)) target);
           _ ← whenArgs code handler_code (S n) (RangeContinuation d0) (RangeReject d0) 0 (map inl (map in_core ins)); mret target) w
          = (w2, Ok t)) as Ew.
  { erewrite bind_Ok; [|reflexivity]. erewrite bind_Ok; [|reflexivity]. rewrite length_map, Hl. fold w1. cbn [length] in Ew2.
    by rewrite (bind_Ok _ _ _ _ _ Ew2). }
  rewrite (bind_Ok _ _ _ _ _ Ew). cbn [app] in *. by rewrite (bind_Ok _ _ _ _ _ Ew').
Qed.

(** [All::reject] and [Any::reject] do not look whether their promise is settled.  A
    promise given to [whenAll] that is rejected after another was, and one given to
    [whenAny] that is rejected after another was settled, throws at whoever rejects
    it. *)
Theorem late_rejection_throws n c r d D t k kt req p (w : World) :
  cores w !! c = Some k -> state k = Pending -> requests k = [r] -> mtx k = false ->
  conts w !! r = Some req -> reject_ req = AllReject d \/ reject_ req = AnyReject d -> rejectCount_ req = 0%nat ->
  datas w !! d = Some D -> data_mtx D = false -> reject D = Some t ->
  cores w !! t = Some kt -> state kt <> Pending -> t <> c ->
  exists w', settle (S n) (inr p) c w = (w', Throw (Error "Attempt to reject a fulfilled promise"))
  /\ cores w' !! c = Some (settle_core (inr p) k).
Proof.
  intros E Hs Hq Hm Er Hr Hz Ed Hdm Hdr Et Ht Hne.
  set (o := inr p : settlement (Base := Base)). set (w1 := settle_at o c (set_cores (alter (set_mtx true) c) w)).
  set (k1 := settle_core o (set_mtx true k)).
  assert (cores w1 !! c = Some k1) as E1 by (unfold w1; cbn [settle_at set_cores cores]; by rewrite !lookup_alter_eq, E).
  assert (cores w1 !! t = Some kt) as Et1 by (unfold w1; cbn [settle_at set_cores cores]; by rewrite !lookup_alter_ne).
  set (w2 := set_conts (alter count_reject r) w1). set (late := Error "Attempt to reject a fulfilled promise").
  assert (exists w3, All_reject (run n) d p w2 = (w3, Throw late) /\ cores w3 = cores w2) as (w3 & E3 & Hc3).
  { unfold All_reject, with_data_lock. rewrite (bind_Ok _ _ _ _ _ (data_at_eval d w2 D Ed)), Hdm.
    erewrite bind_Ok; [|reflexivity]. unfold finally. set (w4 := set_datas _ w2).
    erewrite bind_Ok; [|reflexivity]. set (w5 := set_datas _ w4).
    assert (datas w5 !! d = Some (set_done (set_data_mtx true D))) as E5.
    { unfold w5, w4. cbn [set_datas datas]. rewrite !lookup_alter_eq. unfold w2, w1. cbn [set_conts datas settle_at set_cores]. by rewrite Ed. }
    rewrite (bind_Ok _ _ _ _ _ (data_at_eval d w5 _ E5)). change (reject (set_done (set_data_mtx true D))) with (reject D). rewrite Hdr.
    assert (Rejection_call (run n) (Some t) (Pointer p) w5 = (w5, Throw late)) as Ej.
    { exact (settle_not_pending code handler_code n (inr (Pointer p)) t w5 kt Et1 Ht). }
    rewrite (bind_Throw _ _ _ _ _ Ej). by eexists. }
  assert (run (S n) false r c w1 = (w3, Throw late)) as Erun.
  { cbn [Async.run]. unfold Continuable_reject. rewrite (bind_Ok _ _ _ _ _ (cont_at_eval r w1 req Er)), Hz. cbn [Nat.leb].
    erewrite bind_Ok; [|reflexivity]. fold w2. apply bind_Throw. unfold doReject.
    rewrite (bind_Ok _ _ _ _ _ (core_at_eval c w2 k1 E1)). apply bind_Throw.
    destruct Hr as [-> | ->]; cbn [call_reject]; by apply bind_Throw. }
  assert (settle_rejected (run (S n)) c p (set_cores (alter (set_mtx true) c) w) = (w3, Throw late)) as Es.
  { unfold settle_rejected. erewrite bind_Ok; [|reflexivity]. change (notify (run (S n)) false c w1 = (w3, Throw late)).
    unfold notify. rewrite (bind_Ok _ _ _ _ _ (core_at_eval c w1 k1 E1)).
    assert (requests k1 = [r]) as -> by (unfold k1; by rewrite <- Hq). cbn [notify_loop].
    rewrite (bind_Ok _ _ _ _ _ (core_at_eval c w1 k1 E1)). by apply bind_Throw. }
  assert (settle (S n) o c w = (set_cores (alter (set_mtx false) c) w3, Throw late)) as Eset.
  { cbn [Settlement.settle Rejection_call o].
    rewrite (bind_Ok _ _ _ _ _ (core_at_eval c w k E)), bool_decide_eq_true_2 by done. cbn [negb]. apply bind_Throw.
    unfold with_core_lock. rewrite (bind_Ok _ _ _ _ _ (core_at_eval c w k E)), Hm. erewrite bind_Ok; [|reflexivity].
    unfold finally. by rewrite Es. }
  eexists. split; [exact Eset|]. cbn [set_cores cores]. rewrite lookup_alter_eq, Hc3. unfold w2. cbn [set_conts cores]. rewrite E1.
  unfold k1. clear - Hm. destruct k. cbn in Hm. by subst.
Qed.
End WhenAll.

(** ** Witnesses *)

Section Witnesses.
Abbreviation DemoWorld := (World (Base := nat) (App := list (value (Base := nat))) (Fn := nat)).
Definition rejected_core : Core (Base := nat) :=
  {| state := Rejected; exc := Pointer Null; storage := None; requests := []; id := Some Results_type; mtx := false |}.

(** Three promises; the second is resolved before the others. *)
Lemma when_all_collects_witness :
  let w : DemoWorld := {| cores := {[ 0 := demo_core []; 1 := demo_core []; 2 := demo_core [] ]}; conts := ∅; datas := ∅; brk := 3; app := [] |} in
  let ss := [(1%nat, inl (Plain 0 11)); (2%nat, inl (Plain 0 12)); (0%nat, inl (Plain 0 10))] in
  exists w' t kt rs,
    (t ← whenAll_range demo_code demo_handler 1 false [0; 1; 2]; _ ← settle_all demo_code demo_handler 1 [0; 1; 2] ss; mret t) w
    = (w', Ok t)
    /\ cores w' !! t = Some kt /\ length rs = 3%nat /\ target_state 3 ss rs kt.
Proof.
  intros w ss. apply (when_all_collects demo_code demo_handler 0 [(0, Plain_type 0); (1, Plain_type 0); (2, Plain_type 0)] ss w).
  - intros x Hx. cbn in *. rewrite !lookup_insert_ne by lia. by rewrite lookup_singleton_ne by lia.
  - apply (bool_decide_unpack _). reflexivity.
  - repeat constructor; exists (demo_core []); (split; [reflexivity|]); cbn; repeat split; lia.
  - apply (bool_decide_unpack _). reflexivity.
  - repeat constructor; (eexists; split; [reflexivity|]); reflexivity.
Defined.

Lemma late_rejection_throws_witness :
  let w : DemoWorld :=
    {| cores := {[ 0 := demo_core [2]; 1 := rejected_core ]};
       conts := {[ 2 := {| of_void := false; shape := ReturnsVoid; resolve_ := AllResolve 4 0; reject_ := AllReject 4;
                           resolveCount_ := 0; rejectCount_ := 0; chain_ := 3 |} ]};
       datas := {[ 4 := Data_new 2 1 ]}; brk := 5; app := [] |} in
  exists w', settle demo_code demo_handler 1 (inr Null) 0 w = (w', Throw (Error "Attempt to reject a fulfilled promise"))
  /\ cores w' !! 0 = Some (settle_core (inr Null) (demo_core [2])).
Proof.
  intros w. eapply (late_rejection_throws demo_code demo_handler 0 0 2 4 (Data_new 2 1) 1 (demo_core [2]) rejected_core);
    try reflexivity; [by left|done|lia].
Defined.
End Witnesses.
