(* ===== verification/Transport.v ===== *)
(** * The transport: [src/common/transport.cc], [transport.h]

    Writes are queued for their descriptor and sent as the descriptor takes them: a
    write that is interrupted goes back to the front of its queue.  Timers and peers
    are tables keyed by descriptors.  The kernel answers each system call; what the
    transport does to the outside is a list of events.  The theorems are in
    [WriteQueue]. *)

From S2P Require Import Prelude Stream.

(** ** Buffers *)

Abbreviation Fd := nat.

(** [BufferHolder]: a raw buffer, or a regular file's descriptor. *)
Inductive BufferKind : Set := RawKind (raw : RawBuffer) | FileKind (fd : nat).
Record BufferHolder : Set := { kind : BufferKind; holder_size : nat; holder_offset : nat }.

Definition BufferHolder_raw (b : RawBuffer) : BufferHolder :=
  {| kind := RawKind b; holder_size := raw_length b; holder_offset := 0 |}.
Definition BufferHolder_file (fd size offset : nat) : BufferHolder :=
  {| kind := FileKind fd; holder_size := size; holder_offset := offset |}.

(** A raw buffer is cut, a file's offset is kept. *)
Definition detach (offset : nat) (b : BufferHolder) : result BufferHolder :=
  match kind b with
  | FileKind fd => Ok (BufferHolder_file fd (holder_size b) offset)
  | RawKind raw => detached ← RawBuffer_copy offset raw; Ok (BufferHolder_raw detached)
  end.

(** [deferred] is the promise's name. *)
Record WriteEntry : Set := { deferred : nat; buffer : BufferHolder; flags : Z; peerFd : option Fd }.

(** ** System calls *)

(** [EAGAIN] is [EWOULDBLOCK] too; [EGONE] is [EBADF], [EPIPE] or [ECONNRESET]. *)
Inductive errno : Set := EAGAIN | EGONE | EOTHER.
Inductive sent : Set := Sent (n : nat) | Failed (e : errno).

(** A timer's entry, and what a read of its descriptor gives. *)
Record TimerEntry : Set := { timer_fd : Fd; timer_value : Z; timer_deferred : nat; active : bool }.
Inductive timer_read : Set := Wakeups (n : Z) | ShortRead | ReadFailed (e : errno).

(** What the transport does. *)
Inductive event : Set :=
  | Wrote (fd : Fd) (b : bytes)
  | ModifyFd (fd : Fd) (write : bool)
  | RegisterFd (fd : Fd)
  | RegisterTimer (fd : Fd)
  | RemoveFd (fd : Fd)
  | CloseFd (fd : Fd)
  | CloseFile (fd : nat)
  | SetTime (fd : Fd) (seconds nanoseconds : Z)
  | ResolveWrite (fd : Fd) (deferred : nat) (n : nat)
  | RejectWrite (fd : Fd) (deferred : nat)
  | ResolveTimer (deferred : nat) (wakeups : Z)
  | RejectTimer (deferred : nat) (what : bytes)
  | OnConnection (fd : Fd)
  | OnDisconnection (fd : Fd)
  | OnInput (fd : Fd) (b : bytes).

(** [peers_] has the peers' descriptors; [calls] counts the system calls. *)
Record Transport : Type := {
  writesQueue : list WriteEntry; toWrite : gmap Fd (list WriteEntry);
  timersQueue : list TimerEntry; timers : gmap Fd TimerEntry;
  peersQueue : list (option Fd); peers_ : gset Fd;
  calls : nat; events : list event }.

Definition Transport_new : Transport :=
  {| writesQueue := []; toWrite := ∅; timersQueue := []; timers := ∅; peersQueue := []; peers_ := ∅; calls := 0; events := [] |}.

Definition set_writesQueue (l : list WriteEntry) (t : Transport) : Transport :=
  {| writesQueue := l; toWrite := toWrite t; timersQueue := timersQueue t; timers := timers t;
     peersQueue := peersQueue t; peers_ := peers_ t; calls := calls t; events := events t |}.
Definition set_toWrite (f : gmap Fd (list WriteEntry) -> gmap Fd (list WriteEntry)) (t : Transport) : Transport :=
  {| writesQueue := writesQueue t; toWrite := f (toWrite t); timersQueue := timersQueue t; timers := timers t;
     peersQueue := peersQueue t; peers_ := peers_ t; calls := calls t; events := events t |}.
Definition set_timersQueue (l : list TimerEntry) (t : Transport) : Transport :=
  {| writesQueue := writesQueue t; toWrite := toWrite t; timersQueue := l; timers := timers t;
     peersQueue := peersQueue t; peers_ := peers_ t; calls := calls t; events := events t |}.
Definition set_timers (f : gmap Fd TimerEntry -> gmap Fd TimerEntry) (t : Transport) : Transport :=
  {| writesQueue := writesQueue t; toWrite := toWrite t; timersQueue := timersQueue t; timers := f (timers t);
     peersQueue := peersQueue t; peers_ := peers_ t; calls := calls t; events := events t |}.
Definition set_peersQueue (l : list (option Fd)) (t : Transport) : Transport :=
  {| writesQueue := writesQueue t; toWrite := toWrite t; timersQueue := timersQueue t; timers := timers t;
     peersQueue := l; peers_ := peers_ t; calls := calls t; events := events t |}.
Definition set_peers (f : gset Fd -> gset Fd) (t : Transport) : Transport :=
  {| writesQueue := writesQueue t; toWrite := toWrite t; timersQueue := timersQueue t; timers := timers t;
     peersQueue := peersQueue t; peers_ := f (peers_ t); calls := calls t; events := events t |}.
Definition set_calls (n : nat) (t : Transport) : Transport :=
  {| writesQueue := writesQueue t; toWrite := toWrite t; timersQueue := timersQueue t; timers := timers t;
     peersQueue := peersQueue t; peers_ := peers_ t; calls := n; events := events t |}.
Definition add_event (e : event) (t : Transport) : Transport :=
  {| writesQueue := writesQueue t; toWrite := toWrite t; timersQueue := timersQueue t; timers := timers t;
     peersQueue := peersQueue t; peers_ := peers_ t; calls := calls t; events := events t ++ [e] |}.
Definition emit (e : event) : M Transport unit := modify (add_event e).

(** What the kernel answers to the [n]-th call: how much of so many bytes it takes for a
    descriptor, what a timer's descriptor has, whether it can be set, what a connection
    has; and what a file holds from the start on. *)
Class Kernel := {
  kernel_send : nat -> Fd -> nat -> sent;
  kernel_timer : nat -> Fd -> timer_read;
  kernel_settime : nat -> Fd -> bool;
  kernel_recv : nat -> Fd -> bytes + errno;
  file_contents : nat -> bytes;
  kernel_ok : forall n fd avail k, kernel_send n fd avail = Sent k -> (k <= avail)%nat }.

Section Operations.
Context `{Kernel}.

Definition call : M Transport nat := t ← get; _ ← put (set_calls (S (calls t)) t); mret (calls t).

(** ** Writing *)

(** [sendRawBuffer] and [sendFile]: one system call, which takes some of [len] bytes, and
    of a file no more than it has. *)
Definition send_bytes (fd : Fd) (offered : bytes) (len : nat) : M Transport sent :=
  n ← call;
  match kernel_send n fd (len `min` length offered) with
  | Sent k => _ ← emit (Wrote fd (take k offered)); mret (Sent k)
  | Failed e => mret (Failed e)
  end.

(** A raw buffer's memory has to be as long as the buffer says. *)
Definition send_some (fd : Fd) (b : BufferHolder) (totalWritten : nat) : M Transport sent :=
  let len := (holder_size b - totalWritten)%nat in
  match kind b with
  | RawKind raw =>
      if (length (raw_data raw) <? holder_size b)%nat then lift UB
      else send_bytes fd (drop totalWritten (raw_data raw)) len
  | FileKind file => send_bytes fd (drop totalWritten (file_contents file)) len
  end.

(** How the writing of one entry ends. *)
Inductive write_end : Set := Interrupted (totalWritten : nat) | Lost | NotWritten | Completed (totalWritten : nat).

(** The inner loop; one unit of fuel per system call. *)
Fixpoint write_loop (fuel : nat) (fd : Fd) (b : BufferHolder) (totalWritten : nat) : M Transport write_end :=
  match fuel with
  | O => lift OutOfFuel
  | S fuel' =>
      bytesWritten ← send_some fd b totalWritten;
      match bytesWritten with
      | Failed EAGAIN => mret (Interrupted totalWritten)
      | Failed EGONE => mret Lost
      | Failed EOTHER => mret NotWritten
      | Sent n =>
          let totalWritten := (totalWritten + n)%nat in
          if (holder_size b <=? totalWritten)%nat then mret (Completed totalWritten)
          else write_loop fuel' fd b totalWritten
      end
  end.

(** [cleanUp]: [true] is [stop = true]. *)
Definition cleanUp (fd : Fd) (rest : list WriteEntry) : M Transport bool :=
  match rest with
  | [] => _ ← modify (set_toWrite (delete fd)); _ ← emit (ModifyFd fd false); mret true
  | _ => _ ← modify (set_toWrite <[fd := rest]>); mret false
  end.

(** An error other than those below, and the end of a write: a file is closed. *)
Definition reject_entry (fd : Fd) (entry : WriteEntry) (rest : list WriteEntry) : M Transport bool :=
  stop ← cleanUp fd rest; _ ← emit (RejectWrite fd (deferred entry)); mret stop.
Definition complete_entry (fd : Fd) (entry : WriteEntry) (rest : list WriteEntry) (totalWritten : nat) : M Transport bool :=
  _ ← (match kind (buffer entry) with FileKind file => emit (CloseFile file) | RawKind _ => mret tt end);
  stop ← cleanUp fd rest;
  _ ← emit (ResolveWrite fd (deferred entry) totalWritten);
  mret stop.

(** [EAGAIN]: what is left of the entry goes back to the front of the queue. *)
Definition requeue_entry (fd : Fd) (entry : WriteEntry) (rest : list WriteEntry) (totalWritten : nat) : M Transport unit :=
  bufferHolder ← lift (detach totalWritten (buffer entry));
  _ ← modify (set_toWrite <[fd := {| deferred := deferred entry; buffer := bufferHolder; flags := flags entry;
                                    peerFd := Some fd |} :: rest]>);
  emit (ModifyFd fd true).

(** The outer loop; one unit of fuel per entry. *)
Fixpoint asyncWrite_loop (fuel : nat) (sends : nat) (fd : Fd) : M Transport unit :=
  match fuel with
  | O => lift OutOfFuel
  | S fuel' =>
      t ← get;
      match toWrite t !! fd with
      | None | Some [] => mret tt
      | Some (entry :: rest) =>
          ended ← write_loop sends fd (buffer entry) (holder_offset (buffer entry));
          match ended with
          | Interrupted totalWritten => requeue_entry fd entry rest totalWritten
          | Lost => modify (set_toWrite (delete fd))
          | NotWritten =>
              stop ← reject_entry fd entry rest;
              if stop : bool then mret tt else asyncWrite_loop fuel' sends fd
          | Completed totalWritten =>
              stop ← complete_entry fd entry rest totalWritten;
              if stop : bool then mret tt else asyncWrite_loop fuel' sends fd
          end
      end
  end.
Definition asyncWriteImpl (fuel : nat) (fd : Fd) : M Transport unit := asyncWrite_loop fuel fuel fd.

(** [asyncWrite]: the entry is always queued. *)
Definition asyncWrite (fd : option Fd) (deferred : nat) (buffer : BufferHolder) (flags : Z) : M Transport unit :=
  t ← get;
  put (set_writesQueue (writesQueue t ++ [{| deferred := deferred; buffer := buffer; flags := flags; peerFd := fd |}]) t).

Definition isPeerFd (fd : Fd) : M Transport bool := t ← get; mret (bool_decide (fd ∈ peers_ t)).
Definition isTimerFd (fd : Fd) : M Transport bool := t ← get; mret (bool_decide (is_Some (timers t !! fd))).

(** The body of the loop of [handleWriteQueue]. *)
Definition handleWrite (flush : bool) (fuel : nat) (write : WriteEntry) : M Transport unit :=
  match peerFd write with
  | None => mret tt
  | Some fd =>
      known ← isPeerFd fd;
      if negb known then mret tt
      else
        _ ← modify (set_toWrite (fun m => <[fd := default [] (m !! fd) ++ [write]]> m));
        if flush then asyncWriteImpl fuel fd else emit (ModifyFd fd true)
  end.
Fixpoint handleWrites (flush : bool) (fuel : nat) (writes : list WriteEntry) : M Transport unit :=
  match writes with
  | [] => mret tt
  | write :: writes' =>
      _ ← modify (set_writesQueue writes'); _ ← handleWrite flush fuel write; handleWrites flush fuel writes'
  end.
Definition handleWriteQueue (flush : bool) (fuel : nat) : M Transport unit :=
  t ← get; handleWrites flush fuel (writesQueue t).
Definition flush : nat -> M Transport unit := handleWriteQueue true.

(** The branch of [onReady] for a descriptor that can be written. *)
Definition onWritable (fuel : nat) (fd : Fd) : M Transport unit := _ ← emit (ModifyFd fd false); asyncWriteImpl fuel fd.

(** ** Peers *)

Definition closeFd (fd : option Fd) : M Transport unit :=
  match fd with
  | None => mret tt
  | Some fd => _ ← modify (set_toWrite (delete fd)); emit (CloseFd fd)
  end.

(** [Peer::closeFd] calls [Transport::closeFd] with the peer's descriptor. *)
Definition removePeer (fd : option Fd) : M Transport unit :=
  match fd with
  | None => mret tt
  | Some fd => _ ← modify (set_peers (fun s => s ∖ {[ fd ]})); _ ← emit (RemoveFd fd); closeFd (Some fd)
  end.
Definition handlePeerDisconnection (fd : Fd) : M Transport unit := _ ← emit (OnDisconnection fd); removePeer (Some fd).

Definition handlePeer (fd : option Fd) : M Transport unit :=
  match fd with
  | None => mret tt
  | Some fd => _ ← modify (set_peers (fun s => {[ fd ]} ∪ s)); _ ← emit (OnConnection fd); emit (RegisterFd fd)
  end.
Definition handleNewPeer (isInRightThread : bool) (fd : option Fd) : M Transport unit :=
  _ ← (if isInRightThread then handlePeer fd else t ← get; put (set_peersQueue (peersQueue t ++ [fd]) t));
  match fd with
  | None => mret tt
  | Some fd => modify (set_toWrite (fun m => match m !! fd with Some _ => m | None => <[fd := []]> m end))
  end.
Fixpoint handlePeers (peers : list (option Fd)) : M Transport unit :=
  match peers with
  | [] => mret tt
  | fd :: peers' => _ ← modify (set_peersQueue peers'); _ ← handlePeer fd; handlePeers peers'
  end.
Definition handlePeerQueue : M Transport unit := t ← get; handlePeers (peersQueue t).

(** [handleIncoming]: everything there is to read is handed over, chunk by chunk. *)
Fixpoint handleIncoming (fuel : nat) (fd : Fd) : M Transport unit :=
  match fuel with
  | O => lift OutOfFuel
  | S fuel' =>
      n ← call;
      match kernel_recv n fd with
      | inr EAGAIN => mret tt
      | inr _ | inl [] => handlePeerDisconnection fd
      | inl b => _ ← emit (OnInput fd b); handleIncoming fuel' fd
      end
  end.

(** ** Timers *)

Definition Already : bytes := B "Timer is already armed".

(** Milliseconds below a thousand are kept, from there on only the seconds are. *)
Definition timer_spec (value : Z) : Z * Z := if (value <? 1000)%Z then (0, value * 1000000)%Z else (Z.quot value 1000, 0)%Z.

Definition armTimerMsImpl (entry : TimerEntry) : M Transport unit :=
  armed ← isTimerFd (timer_fd entry);
  if armed : bool then emit (RejectTimer (timer_deferred entry) Already)
  else
    n ← call;
    let '(seconds, nanoseconds) := timer_spec (timer_value entry) in
    _ ← emit (SetTime (timer_fd entry) seconds nanoseconds);
    if negb (kernel_settime n (timer_fd entry)) then emit (RejectTimer (timer_deferred entry) (B "Could not set timer time"))
    else _ ← emit (RegisterTimer (timer_fd entry)); modify (set_timers <[timer_fd entry := entry]>).
Definition armTimerMs (isInRightThread : bool) (fd : Fd) (value : Z) (deferred : nat) : M Transport unit :=
  let entry := {| timer_fd := fd; timer_value := value; timer_deferred := deferred; active := true |} in
  if isInRightThread then armTimerMsImpl entry else t ← get; put (set_timersQueue (timersQueue t ++ [entry]) t).
Fixpoint handleTimers (entries : list TimerEntry) : M Transport unit :=
  match entries with
  | [] => mret tt
  | e :: entries' => _ ← modify (set_timersQueue entries'); _ ← armTimerMsImpl e; handleTimers entries'
  end.
Definition handleTimerQueue : M Transport unit := t ← get; handleTimers (timersQueue t).

Definition disable (e : TimerEntry) : TimerEntry :=
  {| timer_fd := timer_fd e; timer_value := timer_value e; timer_deferred := timer_deferred e; active := false |}.
Definition disarmTimer (fd : Fd) : M Transport unit :=
  armed ← isTimerFd fd;
  if armed : bool then modify (set_timers (alter disable fd)) else throw (RuntimeError (B "Timer has not been armed")).

Definition handleTimer (entry : TimerEntry) : M Transport unit :=
  if active entry then
    n ← call;
    match kernel_timer n (timer_fd entry) with
    | ReadFailed EAGAIN => mret tt
    | ReadFailed _ => emit (RejectTimer (timer_deferred entry) (B "Could not read timerfd"))
    | ShortRead => emit (RejectTimer (timer_deferred entry) (B "Read invalid number of bytes for timer fd: "))
    | Wakeups w => emit (ResolveTimer (timer_deferred entry) w)
    end
  else mret tt.

(** The branches of [onReady] for a descriptor that can be read. *)
Definition onReadable (fuel : nat) (fd : Fd) : M Transport unit :=
  peer ← isPeerFd fd;
  if peer : bool then handleIncoming fuel fd
  else
    t ← get;
    match timers t !! fd with
    | Some entry => _ ← handleTimer entry; modify (set_timers (delete fd))
    | None => mret tt
    end.

(** ** [onReady]: what was polled *)

Inductive Tag : Set := WritesTag | TimersTag | PeersTag | FdTag (fd : Fd) (readable writable : bool).

Definition onReady_entry (fuel : nat) (entry : Tag) : M Transport unit :=
  match entry with
  | WritesTag => handleWriteQueue false fuel
  | TimersTag => handleTimerQueue
  | PeersTag => handlePeerQueue
  | FdTag fd readable writable =>
      if readable then onReadable fuel fd else if writable then onWritable fuel fd else mret tt
  end.
Fixpoint onReady (fuel : nat) (fds : list Tag) : M Transport unit :=
  match fds with [] => mret tt | entry :: fds' => _ ← onReady_entry fuel entry; onReady fuel fds' end.
End Operations.
