(* ===== verification/WriteQueue.v ===== *)
(** * The write queues: theorems about [Transport]

    What reaches a descriptor is what was written to it, in order; draining ends; and
    what happens to writes that are interrupted, too late, or for a peer that is
    gone. *)

From S2P Require Import Prelude Stream Transport.

Section Writes.
Context `{Kernel}.

(** ** What is written and what waits *)

Definition contents (b : BufferHolder) : bytes :=
  match kind b with RawKind raw => raw_data raw | FileKind file => file_contents file end.
Definition pending (b : BufferHolder) : bytes := drop (holder_offset b) (take (holder_size b) (contents b)).

(** A buffer has as many bytes as it says. *)
Definition holder_ok (b : BufferHolder) : Prop :=
  (holder_offset b <= holder_size b <= length (contents b))%nat
  /\ match kind b with RawKind raw => holder_size b = raw_length raw | FileKind _ => True end.

Definition wire (fd : Fd) (l : list event) : bytes :=
  concat (omap (fun e => match e with Wrote fd' b => if decide (fd' = fd) then Some b else None | _ => None end) l).
Definition resolved (fd : Fd) (l : list event) : list nat :=
  omap (fun e => match e with ResolveWrite fd' d _ => if decide (fd' = fd) then Some d else None | _ => None end) l.

Definition for_fd (fd : Fd) (l : list WriteEntry) : list WriteEntry :=
  List.filter (fun e => bool_decide (peerFd e = Some fd)) l.
(** The entries for a descriptor, in the order they will be written. *)
Definition waiting (fd : Fd) (t : Transport) : list WriteEntry :=
  default [] (toWrite t !! fd) ++ for_fd fd (writesQueue t).
Definition bytes_of (l : list WriteEntry) : bytes := concat (map (fun e => pending (buffer e)) l).

(** Everything that was ever to be written to a descriptor: the bytes and the promises. *)
Definition accounted (fd : Fd) (t : Transport) : bytes * list nat :=
  (wire fd (events t) ++ bytes_of (waiting fd t), resolved fd (events t) ++ map deferred (waiting fd t)).

Definition entries_ok (t : Transport) : Prop :=
  (forall fd l, toWrite t !! fd = Some l -> Forall (fun e => holder_ok (buffer e)) l)
  /\ Forall (fun e => holder_ok (buffer e)) (writesQueue t).

Lemma wire_app fd l1 l2 : wire fd (l1 ++ l2) = wire fd l1 ++ wire fd l2.
Proof. unfold wire. by rewrite omap_app, concat_app. Qed.
Lemma resolved_app fd l1 l2 : resolved fd (l1 ++ l2) = resolved fd l1 ++ resolved fd l2.
Proof. apply omap_app. Qed.
Lemma bytes_of_app l1 l2 : bytes_of (l1 ++ l2) = bytes_of l1 ++ bytes_of l2.
Proof. unfold bytes_of. by rewrite map_app, concat_app. Qed.

(** ** Sending *)

(** [w] was written to [fd], nothing else was done. *)
Definition wrote (fd : Fd) (w : bytes) (t t' : Transport) : Prop :=
  toWrite t' = toWrite t /\ writesQueue t' = writesQueue t /\ peers_ t' = peers_ t
  /\ exists evs, events t' = events t ++ evs /\ resolved fd evs = [] /\ wire fd evs = w
     /\ forall fd', fd' <> fd -> wire fd' evs = [] /\ resolved fd' evs = [].

Lemma wrote_refl fd t : wrote fd [] t t.
Proof. split_and!; try done. exists []. by rewrite app_nil_r. Qed.

Lemma wrote_trans fd w1 w2 t1 t2 t3 : wrote fd w1 t1 t2 -> wrote fd w2 t2 t3 -> wrote fd (w1 ++ w2) t1 t3.
Proof.
  intros (Ha & Hb & Hc & e1 & He1 & Hr1 & Hw1 & Ho1) (Ha' & Hb' & Hc' & e2 & He2 & Hr2 & Hw2 & Ho2).
  split_and!; [congruence..|]. exists (e1 ++ e2). rewrite He2, He1, app_assoc, resolved_app, wire_app, Hr1, Hr2, Hw1, Hw2.
  split_and!; try done. intros fd' Hne. destruct (Ho1 fd' Hne) as [Hx Hy], (Ho2 fd' Hne) as [Hx' Hy'].
  by rewrite wire_app, resolved_app, Hx, Hy, Hx', Hy'.
Qed.

Lemma wrote_calls fd w t t' n : wrote fd w (set_calls n t) t' -> wrote fd w t t'.
Proof. done. Qed.

Lemma send_some_wrote fd b tot t t' r :
  holder_ok b -> (tot <= holder_size b)%nat -> send_some fd b tot t = (t', r) ->
  exists k, r = Ok k /\ match k with
    | Sent n => (n <= holder_size b - tot)%nat /\ wrote fd (take n (drop tot (contents b))) t t'
    | Failed _ => wrote fd [] t t'
    end.
Proof.
  intros [[Ho Hs] _] Ht E.
  assert (send_bytes fd (drop tot (contents b)) (holder_size b - tot) t = (t', r)) as Esend.
  { unfold send_some, contents in *. destruct (kind b); [|done]. by rewrite (proj2 (Nat.ltb_ge _ _) Hs) in E. }
  unfold send_bytes, call, mbind, M_bind in Esend. cbn in Esend.
  destruct (kernel_send (calls t) fd _) as [k|e] eqn:Ek in Esend; cbn in Esend; injection Esend as <- <-.
  - apply kernel_ok in Ek. rewrite length_drop in Ek. exists (Sent k). split; [done|]. split; [lia|].
    split_and!; try done. cbn [events add_event set_calls]. eexists. split; [done|]. unfold resolved, wire. cbn.
    rewrite decide_True by done. cbn. rewrite app_nil_r. split_and!; try done. intros fd' Hne. by rewrite decide_False.
  - exists (Failed e). split; [done|]. apply (wrote_calls _ _ _ _ (S (calls t))). apply wrote_refl.
Qed.

(** What the inner loop wrote is what comes next of the entry. *)
Lemma write_loop_wrote fuel fd b : forall tot t t' r,
  holder_ok b -> (tot <= holder_size b)%nat -> write_loop fuel fd b tot t = (t', Ok r) ->
  exists tot', (tot <= tot' <= holder_size b)%nat
  /\ wrote fd (take (tot' - tot) (drop tot (contents b))) t t'
  /\ match r with
     | Interrupted n => n = tot'
     | Completed n => n = tot' /\ tot' = holder_size b
     | _ => True
     end.
Proof.
  induction fuel as [|fuel IH]; intros tot t t' r Hb Ht E; [done|]. cbn [write_loop] in E. unfold mbind, M_bind in E.
  destruct (send_some fd b tot t) as [t1 r1] eqn:Es. destruct (send_some_wrote _ _ _ _ _ _ Hb Ht Es) as (k & -> & Hk).
  destruct k as [n|e].
  - destruct Hk as [Hn Hw]. destruct (Nat.leb_spec (holder_size b) (tot + n)).
    + injection E as <- <-. exists (tot + n)%nat. replace (tot + n - tot)%nat with n by lia. split; [lia|]. split; [done|lia].
    + destruct (IH (tot + n)%nat _ _ _ Hb ltac:(lia) E) as (tot' & Hle & Hw' & Hr). exists tot'. split; [lia|]. split; [|done].
      replace (tot' - tot)%nat with (n + (tot' - (tot + n)))%nat by lia.
      rewrite <- (take_take_drop _ n). apply (wrote_trans fd _ _ t t1 t'); [done|]. by rewrite drop_drop.
  - assert (t1 = t' /\ (r = Interrupted tot \/ r = Lost \/ r = NotWritten)) as [-> Hr].
    { destruct e; injection E as <- <-; split; auto. }
    exists tot. rewrite Nat.sub_diag. split; [lia|]. split; [done|]. by destruct Hr as [-> |[-> | ->]].
Qed.

(** Nothing is lost by cutting a buffer where it was interrupted. *)
Lemma detach_pending n b :
  holder_ok b -> (holder_offset b <= n <= holder_size b)%nat ->
  exists b', detach n b = Ok b' /\ holder_ok b'
  /\ pending b = take (n - holder_offset b) (drop (holder_offset b) (contents b)) ++ pending b'.
Proof.
  intros [[Ho Hs] Hl] Hn. unfold pending.
  assert (drop (holder_offset b) (take (holder_size b) (contents b))
    = take (n - holder_offset b) (drop (holder_offset b) (contents b)) ++ take (holder_size b - n) (drop n (contents b))) as ->.
  { rewrite skipn_firstn_comm. replace (drop n (contents b)) with (drop (n - holder_offset b) (drop (holder_offset b) (contents b)))
      by (rewrite drop_drop; f_equal; lia).
    rewrite take_take_drop. f_equal. lia. }
  unfold detach, contents in *. destruct (kind b) as [raw|file] eqn:Ek.
  - unfold RawBuffer_copy. case_bool_decide as He.
    + rewrite He in *. cbn in Hs. eexists. split; [done|]. split; [split; cbn; [lia|done]|]. cbn. by rewrite !drop_nil, !take_nil.
    + rewrite Hl in *. rewrite (proj2 (Nat.ltb_ge _ _)), (proj2 (Nat.ltb_ge _ _)) by lia. eexists. split; [done|].
      split; [split; cbn; [rewrite length_take, length_drop; lia|done]|]. cbn. by rewrite drop_0, take_take, Nat.min_id.
  - eexists. split; [done|]. split; [split; cbn; [lia|done]|]. cbn. by rewrite skipn_firstn_comm.
Qed.

(** ** Accounting *)

Lemma accounted_change fd t t' evs l l' :
  toWrite t !! fd = Some l -> default [] (toWrite t' !! fd) = l' ->
  (forall fd', fd' <> fd -> toWrite t' !! fd' = toWrite t !! fd') -> writesQueue t' = writesQueue t ->
  events t' = events t ++ evs -> (forall fd', fd' <> fd -> wire fd' evs = [] /\ resolved fd' evs = []) ->
  wire fd evs ++ bytes_of l' = bytes_of l -> resolved fd evs ++ map deferred l' = map deferred l ->
  forall fd', accounted fd' t' = accounted fd' t.
Proof.
  intros El El' Ho Hq He Hoe Hb Hd fd'. unfold accounted, waiting. rewrite Hq, He, wire_app, resolved_app.
  destruct (decide (fd' = fd)) as [->|Hne].
  - rewrite El', El. cbn [default from_option id]. by rewrite !bytes_of_app, !map_app, <- Hb, <- Hd, <- !app_assoc.
  - rewrite Ho by done. destruct (Hoe fd' Hne) as [-> ->]. by rewrite !app_nil_r.
Qed.

Lemma accounted_quiet fd e t : wire fd [e] = [] -> resolved fd [e] = [] -> accounted fd (add_event e t) = accounted fd t.
Proof.
  intros Hw Hr. unfold accounted, waiting. cbn [add_event events toWrite writesQueue]. by rewrite wire_app, resolved_app, Hw, Hr, !app_nil_r.
Qed.

(** A kernel that fails only for now. *)
Definition patient : Prop := forall n fd avail e, kernel_send n fd avail = Failed e -> e = EAGAIN.

Lemma write_loop_patient fuel fd b : patient -> forall tot t t' r,
  write_loop fuel fd b tot t = (t', Ok r) -> r <> Lost /\ r <> NotWritten.
Proof.
  intros Hp. induction fuel as [|fuel IH]; intros tot t t' r E; [done|]. cbn [write_loop] in E. unfold mbind, M_bind in E.
  destruct (send_some fd b tot t) as [t1 [[n|e]|x| |]] eqn:Es; try done.
  - destruct (_ <=? _)%nat; [by injection E as <- <-|by eapply IH].
  - assert (e = EAGAIN) as ->; [|by injection E as <- <-].
    assert (exists off, send_bytes fd off (holder_size b - tot) t = (t1, Ok (Failed e))) as [off E'].
    { unfold send_some in Es. destruct (kind b) as [raw|f]; [|by eexists]. destruct (_ <? _)%nat; [done|by eexists]. }
    unfold send_bytes, call, mbind, M_bind in E'. cbn in E'.
    destruct (kernel_send (calls t) fd _) as [k|e'] eqn:Ek in E'; cbn in E'; [done|]. injection E' as _ <-. by eapply Hp.
Qed.

Lemma entries_ok_insert fd l t : entries_ok t -> Forall (fun e => holder_ok (buffer e)) l -> entries_ok (set_toWrite <[fd := l]> t).
Proof.
  intros [Ht Hq] Hl. split; [|done]. cbn. intros fd' l' [[<- <-]|[_ E]]%lookup_insert_Some; [done|by eapply Ht].
Qed.
Lemma entries_ok_delete fd t : entries_ok t -> entries_ok (set_toWrite (delete fd) t).
Proof. intros [Ht Hq]. split; [|done]. cbn. intros fd' l' [_ E]%lookup_delete_Some. by eapply Ht. Qed.

(** [cleanUp] and the resolution of the entry at the front. *)
Lemma cleanUp_eval fd rest t :
  exists t', cleanUp fd rest t = (t', Ok (bool_decide (rest = [])))
  /\ default [] (toWrite t' !! fd) = rest /\ (forall fd', fd' <> fd -> toWrite t' !! fd' = toWrite t !! fd')
  /\ writesQueue t' = writesQueue t /\ peers_ t' = peers_ t /\ calls t' = calls t
  /\ (exists evs, events t' = events t ++ evs /\ forall fd', wire fd' evs = [] /\ resolved fd' evs = [])
  /\ (entries_ok t -> Forall (fun e => holder_ok (buffer e)) rest -> entries_ok t').
Proof.
  destruct rest as [|e rest]; cbn [cleanUp].
  - eexists. split; [done|]. cbn. rewrite lookup_delete_eq. split_and!; try done.
    + intros fd' Hne. by rewrite lookup_delete_ne.
    + eexists. split; [done|]. done.
    + intros Hok _. destruct (entries_ok_delete fd t Hok) as [Ha Hb]. by split.
  - eexists. split; [done|]. cbn. rewrite lookup_insert_eq. split_and!; try done.
    + intros fd' Hne. by rewrite lookup_insert_ne.
    + exists []. by rewrite app_nil_r.
    + intros Hok Hf. by apply entries_ok_insert.
Qed.

(** What every part of a write keeps. *)
Definition kept (t t' : Transport) : Prop :=
  (forall fd', accounted fd' t' = accounted fd' t) /\ entries_ok t' /\ peers_ t' = peers_ t /\ writesQueue t' = writesQueue t.

Lemma kept_trans t1 t2 t3 : kept t1 t2 -> kept t2 t3 -> kept t1 t3.
Proof. intros (H1 & _ & H3 & H4) (H1' & H2' & H3' & H4'). split_and!; [|done|congruence..]. intros fd'. by rewrite H1', H1. Qed.

Lemma entries_ok_wrote fd w t t' : wrote fd w t t' -> entries_ok t -> entries_ok t'.
Proof. intros (Ht & Hq & _) [Ha Hb]. by split; [rewrite Ht|rewrite Hq]. Qed.

Lemma requeue_accounts fd entry rest tot t t1 :
  entries_ok t -> toWrite t !! fd = Some (entry :: rest) ->
  (holder_offset (buffer entry) <= tot <= holder_size (buffer entry))%nat ->
  wrote fd (take (tot - holder_offset (buffer entry)) (drop (holder_offset (buffer entry)) (contents (buffer entry)))) t t1 ->
  exists t', requeue_entry fd entry rest tot t1 = (t', Ok tt) /\ kept t t'.
Proof.
  intros Hok El Htot Hw. pose proof (entries_ok_wrote _ _ _ _ Hw Hok) as Hok1. destruct Hw as (Ht1 & Hq1 & Hp1 & evs & He1 & Hr1 & Hw1 & Ho1).
  pose proof (proj1 Hok fd _ El) as Hl. apply list.Forall_cons in Hl as [Hb Hrest].
  destruct (detach_pending tot (buffer entry) Hb Htot) as (b' & Ed & Hb' & Hpend).
  unfold requeue_entry. rewrite Ed. eexists. split; [reflexivity|].
  set (entry' := {| deferred := deferred entry; buffer := b'; flags := flags entry; peerFd := Some fd |}).
  split; [|split_and!; [|done|done]].
  - apply (accounted_change fd t _ (evs ++ [ModifyFd fd true]) (entry :: rest) (entry' :: rest)); try done.
    + cbn. by rewrite lookup_insert_eq.
    + intros fd' Hne. cbn. by rewrite lookup_insert_ne, Ht1.
    + cbn. by rewrite He1, <- app_assoc.
    + intros fd' Hne. destruct (Ho1 fd' Hne) as [Hx Hy]. rewrite wire_app, resolved_app, Hx, Hy. done.
    + rewrite wire_app, Hw1. cbn. rewrite app_nil_r. unfold bytes_of. cbn. by rewrite app_assoc, <- Hpend.
    + rewrite resolved_app, Hr1. done.
  - destruct (entries_ok_insert fd (entry' :: rest) t1 Hok1) as [Ha Hc]; [by constructor|by split].
Qed.

Lemma complete_accounts fd entry rest tot t t1 :
  entries_ok t -> toWrite t !! fd = Some (entry :: rest) -> wrote fd (pending (buffer entry)) t t1 ->
  exists t', complete_entry fd entry rest tot t1 = (t', Ok (bool_decide (rest = []))) /\ kept t t'.
Proof.
  intros Hok El Hw. pose proof (entries_ok_wrote _ _ _ _ Hw Hok) as Hok1. destruct Hw as (Ht1 & Hq1 & Hp1 & evs & He1 & Hr1 & Hw1 & Ho1).
  pose proof (proj1 Hok fd _ El) as Hl. apply list.Forall_cons in Hl as [_ Hrest].
  set (t2 := match kind (buffer entry) with FileKind f => add_event (CloseFile f) t1 | RawKind _ => t1 end).
  assert ((match kind (buffer entry) with FileKind file => emit (CloseFile file) | RawKind _ => mret tt end) t1 = (t2, Ok tt)) as E2.
  { unfold t2. by destruct (kind (buffer entry)). }
  assert (toWrite t2 = toWrite t1 /\ writesQueue t2 = writesQueue t1 /\ peers_ t2 = peers_ t1) as (Ht2 & Hq2 & Hp2).
  { unfold t2. by destruct (kind (buffer entry)). }
  assert (exists evs2, events t2 = events t1 ++ evs2 /\ forall fd', wire fd' evs2 = [] /\ resolved fd' evs2 = []) as (evs2 & He2 & Ho2).
  { unfold t2. destruct (kind (buffer entry)); [exists []; by rewrite app_nil_r|]. eexists. split; [done|]. done. }
  destruct (cleanUp_eval fd rest t2) as (t3 & Ec & Hd3 & Hoth3 & Hq3 & Hp3 & _ & (evs3 & He3 & Ho3) & Hok3).
  set (ev := ResolveWrite fd (deferred entry) tot). exists (add_event ev t3). split.
  { unfold complete_entry. rewrite (bind_Ok _ _ _ _ _ E2). rewrite (bind_Ok _ _ _ _ _ Ec). done. }
  split; [|split_and!; [apply Hok3; [by split; [rewrite Ht2; apply Hok1|rewrite Hq2; apply Hok1]|done]|cbn; congruence|cbn; congruence]].
  apply (accounted_change fd t _ (evs ++ evs2 ++ evs3 ++ [ev]) (entry :: rest) rest); try done.
  - intros fd' Hne. cbn. by rewrite Hoth3, Ht2, Ht1.
  - cbn. congruence.
  - cbn. by rewrite He3, He2, He1, <- !app_assoc.
  - intros fd' Hne. destruct (Ho1 fd' Hne) as [Hx Hy], (Ho2 fd') as [Hx2 Hy2], (Ho3 fd') as [Hx3 Hy3].
    rewrite !wire_app, !resolved_app, Hx, Hy, Hx2, Hy2, Hx3, Hy3. unfold resolved. cbn. by rewrite decide_False.
  - destruct (Ho2 fd) as [Hx2 _], (Ho3 fd) as [Hx3 _]. rewrite !wire_app, Hw1, Hx2, Hx3. cbn. by rewrite app_nil_r.
  - destruct (Ho2 fd) as [_ Hy2], (Ho3 fd) as [_ Hy3]. rewrite !resolved_app, Hr1, Hy2, Hy3. unfold resolved. cbn.
    by rewrite decide_True.
Qed.

Lemma asyncWrite_accounts fuel : forall sends fd t t',
  patient -> entries_ok t -> asyncWrite_loop fuel sends fd t = (t', Ok tt) -> kept t t'.
Proof.
  induction fuel as [|fuel IH]; intros sends fd t t' Hp Hok E; [done|]. cbn [asyncWrite_loop] in E.
  rewrite (bind_Ok get _ t t t eq_refl) in E. destruct (toWrite t !! fd) as [[|entry rest]|] eqn:El; [by injection E as <-| |by injection E as <-].
  unfold mbind at 1, M_bind at 1 in E.
  destruct (write_loop sends fd (buffer entry) (holder_offset (buffer entry)) t) as [t1 [r|x| |]] eqn:Ew; [|done..].
  pose proof (proj1 Hok fd _ El) as Hl. apply list.Forall_cons in Hl as [Hb _].
  destruct (write_loop_patient _ _ _ Hp _ _ _ _ Ew) as [Hnl Hnn].
  destruct (write_loop_wrote _ _ _ _ _ _ _ Hb (proj1 (proj1 Hb)) Ew) as (tot & Htot & Hw & Hr).
  destruct r as [n| | |n]; [|done|done|].
  - subst n. destruct (requeue_accounts fd entry rest tot t t1 Hok El Htot Hw) as (t2 & Eq & Hk). rewrite Eq in E. by injection E as <-.
  - destruct Hr as [-> ->]. rewrite <- skipn_firstn_comm in Hw.
    destruct (complete_accounts fd entry rest (holder_size (buffer entry)) t t1 Hok El Hw) as (t2 & Eq & Hk).
    rewrite (bind_Ok _ _ _ _ _ Eq) in E. case_bool_decide; [by injection E as <-|].
    eapply kept_trans; [exact Hk|]. eapply IH; [done|apply Hk|exact E].
Qed.

(** *** The queue between threads *)

Lemma for_fd_app fd l1 l2 : for_fd fd (l1 ++ l2) = for_fd fd l1 ++ for_fd fd l2.
Proof. apply List.filter_app. Qed.

Lemma handleWrite_accounts flush fuel write writes t t' :
  patient -> entries_ok t -> writesQueue t = write :: writes ->
  handleWrite flush fuel write (set_writesQueue writes t) = (t', Ok tt) ->
  (forall fd, fd ∈ peers_ t -> accounted fd t' = accounted fd t) /\ entries_ok t' /\ peers_ t' = peers_ t /\ writesQueue t' = writes.
Proof.
  intros Hp [Ht Hq] Ew E. rewrite Ew in Hq. apply list.Forall_cons in Hq as [Hw Hws]. unfold handleWrite in E.
  assert (entries_ok (set_writesQueue writes t)) as Hok0 by by split.
  assert (forall fd, peerFd write <> Some fd -> for_fd fd (writesQueue t) = for_fd fd writes) as Hother.
  { intros fd Hne. rewrite Ew. unfold for_fd. cbn. by rewrite bool_decide_eq_false_2. }
  destruct (peerFd write) as [fd|] eqn:Ef.
  2:{ injection E as <-. split; [|done]. intros fd _. unfold accounted, waiting. cbn. by rewrite Hother. }
  rewrite (bind_Ok (isPeerFd fd) _ _ (set_writesQueue writes t) (bool_decide (fd ∈ peers_ t)) eq_refl) in E.
  case_bool_decide as Hpeer; cbn [negb] in E.
  2:{ injection E as <-. split; [|done]. intros fd' Hfd'. unfold accounted, waiting. cbn. rewrite Hother; [done|].
      intros [= <-]. done. }
  set (t1 := set_toWrite (fun m => <[fd := default [] (m !! fd) ++ [write]]> m) (set_writesQueue writes t)) in E.
  assert (entries_ok t1) as Hok1.
  { apply (entries_ok_insert fd _ _ Hok0). apply list.Forall_app. split; [|by constructor]. cbn.
    destruct (toWrite t !! fd) as [l|] eqn:El; [by eapply Ht|constructor]. }
  assert (forall fd', accounted fd' t1 = accounted fd' t) as Hacc1.
  { intros fd'. unfold accounted, waiting, t1. cbn. destruct (decide (fd' = fd)) as [->|Hne].
    - assert (for_fd fd (write :: writes) = write :: for_fd fd writes) as Efd.
      { unfold for_fd. cbn. by rewrite bool_decide_eq_true_2. }
      rewrite lookup_insert_eq, Ew, Efd. cbn [default from_option id]. by rewrite <- app_assoc.
    - rewrite lookup_insert_ne by done. rewrite Hother; [done|]. congruence. }
  destruct flush.
  - destruct (asyncWrite_accounts _ _ _ _ _ Hp Hok1 E) as (Ha & Hok' & Hp' & Hq').
    split; [|by rewrite Hp', Hq']. intros fd' _. by rewrite Ha.
  - injection E as <-. split; [|by destruct Hok1]. intros fd' _. rewrite <- Hacc1. by apply accounted_quiet.
Qed.

Lemma handleWrites_accounts flush fuel writes : forall t t',
  patient -> entries_ok t -> writesQueue t = writes -> handleWrites flush fuel writes t = (t', Ok tt) ->
  (forall fd, fd ∈ peers_ t -> accounted fd t' = accounted fd t) /\ entries_ok t' /\ peers_ t' = peers_ t.
Proof.
  induction writes as [|write writes IH]; intros t t' Hp Hok Ew E; cbn [handleWrites] in E; [by injection E as <-|].
  rewrite (bind_Ok _ _ t (set_writesQueue writes t) tt eq_refl) in E. unfold mbind, M_bind in E.
  destruct (handleWrite flush fuel write (set_writesQueue writes t)) as [t1 [[]|e| |]] eqn:E1; try done.
  destruct (handleWrite_accounts _ _ _ _ _ _ Hp Hok Ew E1) as (Ha1 & Hok1 & Hp1 & Hq1).
  destruct (IH t1 t' Hp Hok1 Hq1 E) as (Ha & Hok' & Hp'). split; [|by rewrite Hp'].
  intros fd Hfd. rewrite Ha, Ha1; [done..|]. by rewrite Hp1.
Qed.

(** *** Histories *)

Inductive write_op : Set :=
  | Write (fd : Fd) (deferred : nat) (buffer : BufferHolder) (flags : Z)
  | Queue (flush : bool)
  | Writable (fd : Fd).
Definition run_op (fuel : nat) (o : write_op) : M Transport unit :=
  match o with
  | Write fd deferred buffer flags => asyncWrite (Some fd) deferred buffer flags
  | Queue flush => handleWriteQueue flush fuel
  | Writable fd => onWritable fuel fd
  end.
Fixpoint run_ops (fuel : nat) (ops : list write_op) : M Transport unit :=
  match ops with [] => mret tt | o :: ops' => _ ← run_op fuel o; run_ops fuel ops' end.

(** The writes to a descriptor. *)
Definition issued (fd : Fd) (ops : list write_op) : list (nat * BufferHolder) :=
  omap (fun o => match o with Write fd' d b _ => if decide (fd' = fd) then Some (d, b) else None | _ => None end) ops.
Definition op_ok (o : write_op) : Prop := match o with Write _ _ b _ => holder_ok b | _ => True end.

Lemma run_op_accounts fuel o fd t t' :
  patient -> entries_ok t -> op_ok o -> fd ∈ peers_ t -> run_op fuel o t = (t', Ok tt) ->
  entries_ok t' /\ peers_ t' = peers_ t
  /\ accounted fd t' = (fst (accounted fd t) ++ concat (map (fun x => pending (snd x)) (issued fd [o])),
                        snd (accounted fd t) ++ map fst (issued fd [o])).
Proof.
  intros Hp Hok Ho Hfd E. destruct o as [fd' d b fl|fl|fd']; cbn [run_op op_ok] in *.
  - injection E as <-. destruct Hok as [Ht Hq]. split; [|split; [done|]].
    + split; [done|]. cbn. apply list.Forall_app. split; [done|]. by constructor.
    + unfold accounted, waiting, issued, for_fd. cbn [omap list_omap toWrite writesQueue set_writesQueue events fst snd].
      rewrite List.filter_app. cbn [List.filter peerFd]. destruct (decide (fd' = fd)) as [->|Hne].
      * rewrite bool_decide_eq_true_2 by done. rewrite (app_assoc (default [] _)), bytes_of_app, map_app.
        rewrite !app_assoc. unfold bytes_of at 3. done.
      * rewrite bool_decide_eq_false_2 by congruence. by rewrite !app_nil_r.
  - destruct (handleWrites_accounts _ _ _ _ _ Hp Hok eq_refl E) as (Ha & Hok' & Hp'). split; [done|]. split; [done|].
    rewrite (Ha fd Hfd).
    change (issued fd [Queue fl]) with (@nil (nat * BufferHolder)). cbn [map concat]. rewrite !app_nil_r. apply surjective_pairing.
  - unfold onWritable in E. rewrite (bind_Ok _ _ t (add_event (ModifyFd fd' false) t) tt eq_refl) in E.
    destruct (asyncWrite_accounts fuel fuel fd' (add_event (ModifyFd fd' false) t) t' Hp Hok E) as (Ha & Hok' & Hp' & _). split; [done|]. split; [done|].
    rewrite (Ha fd), accounted_quiet by done.
    change (issued fd [Writable fd']) with (@nil (nat * BufferHolder)). cbn [map concat]. rewrite !app_nil_r. apply surjective_pairing.
Qed.

(** C7. Whatever pieces the kernel takes: the bytes on the wire of a connected
    descriptor, then what waits for it, are the bytes written to it, in the order of the
    writes, each once; and the promises that were resolved, then those that wait,
    are the writes' promises in that order. *)
Theorem write_queue_fifo fuel ops fd : forall t t',
  patient -> entries_ok t -> Forall op_ok ops -> fd ∈ peers_ t -> run_ops fuel ops t = (t', Ok tt) ->
  wire fd (events t') ++ bytes_of (waiting fd t')
  = wire fd (events t) ++ bytes_of (waiting fd t) ++ concat (map (fun x => pending (snd x)) (issued fd ops))
  /\ resolved fd (events t') ++ map deferred (waiting fd t')
  = resolved fd (events t) ++ map deferred (waiting fd t) ++ map fst (issued fd ops).
Proof.
  induction ops as [|o ops IH]; intros t t' Hp Hok Ho Hfd E; cbn [run_ops] in E.
  { injection E as <-. cbn. by rewrite !app_nil_r. }
  apply list.Forall_cons in Ho as [Ho1 Ho]. unfold mbind, M_bind in E.
  destruct (run_op fuel o t) as [t1 [[]|e| |]] eqn:E1; try done.
  destruct (run_op_accounts _ _ _ _ _ Hp Hok Ho1 Hfd E1) as (Hok1 & Hp1 & Ha). rewrite <- Hp1 in Hfd.
  destruct (IH t1 t' Hp Hok1 Ho Hfd E) as [Hb Hd]. unfold accounted in Ha. injection Ha as Hab Had. cbn [fst snd] in *.
  rewrite Hb, Hd. replace (issued fd (o :: ops)) with (issued fd [o] ++ issued fd ops) by (symmetry; apply (omap_app _ [o] ops)).
  rewrite !map_app, concat_app. split; [by rewrite !app_assoc, Hab, <- !app_assoc|by rewrite !app_assoc, Had, <- !app_assoc].
Qed.

(** ** Termination *)

(** A kernel that takes something whenever it takes anything. *)
Definition diligent : Prop := forall n fd avail, kernel_send n fd avail = Sent 0 -> avail = 0%nat.

Lemma send_some_returns fd b tot t :
  diligent -> holder_ok b -> (tot <= holder_size b)%nat ->
  exists t' k, send_some fd b tot t = (t', Ok k) /\ match k with
    | Sent n => (n <= holder_size b - tot)%nat /\ (n = 0%nat -> tot = holder_size b)
    | Failed _ => True
    end.
Proof.
  intros Hd Hb Ht. destruct (send_some fd b tot t) as [t' r] eqn:E.
  destruct (send_some_wrote _ _ _ _ _ _ Hb Ht E) as (k & -> & Hk). exists t', k. split; [done|].
  destruct k as [n|]; [|done]. split; [apply Hk|]. intros ->.
  assert (send_bytes fd (drop tot (contents b)) (holder_size b - tot) t = (t', Ok (Sent 0))) as Es.
  { destruct Hb as [[_ Hs] _]. unfold send_some, contents in *. destruct (kind b); [|done]. by rewrite (proj2 (Nat.ltb_ge _ _) Hs) in E. }
  unfold send_bytes, call, mbind, M_bind in Es. cbn in Es.
  destruct (kernel_send (calls t) fd _) as [k|e] eqn:Ek in Es; cbn in Es; [injection Es as _ ->|done].
  apply Hd in Ek. rewrite length_drop in Ek. destruct Hb as [? _]. lia.
Qed.

Lemma write_loop_returns fuel fd b : diligent -> holder_ok b -> forall tot t,
  (tot <= holder_size b)%nat -> (holder_size b - tot < fuel)%nat -> exists t' r, write_loop fuel fd b tot t = (t', Ok r).
Proof.
  intros Hd Hb. induction fuel as [|fuel IH]; intros tot t Ht Hf; [lia|]. cbn [write_loop].
  destruct (send_some_returns fd b tot t Hd Hb Ht) as (t1 & k & E & Hk). rewrite (bind_Ok _ _ _ _ _ E).
  destruct k as [n|e]; [|destruct e; by eexists _, _]. cbn. destruct (Nat.leb_spec (holder_size b) (tot + n)); [by eexists _, _|].
  apply IH; lia.
Qed.

(** An entry's end leaves the rest of the queue. *)
Lemma entry_ends fd entry rest tot t :
  entries_ok t -> Forall (fun e => holder_ok (buffer e)) rest ->
  (exists t', reject_entry fd entry rest t = (t', Ok (bool_decide (rest = []))) /\ default [] (toWrite t' !! fd) = rest /\ entries_ok t')
  /\ (exists t', complete_entry fd entry rest tot t = (t', Ok (bool_decide (rest = []))) /\ default [] (toWrite t' !! fd) = rest
      /\ entries_ok t').
Proof.
  intros Hok Hr. split.
  - destruct (cleanUp_eval fd rest t) as (t3 & Ec & Hd3 & _ & _ & _ & _ & _ & Hok3).
    eexists. split; [unfold reject_entry; rewrite (bind_Ok _ _ _ _ _ Ec); reflexivity|]. split; [done|]. by apply Hok3.
  - set (t2 := match kind (buffer entry) with FileKind f => add_event (CloseFile f) t | RawKind _ => t end).
    assert ((match kind (buffer entry) with FileKind file => emit (CloseFile file) | RawKind _ => mret tt end) t = (t2, Ok tt)) as E2.
    { unfold t2. by destruct (kind (buffer entry)). }
    assert (entries_ok t2) as Hok2 by (unfold t2; by destruct (kind (buffer entry))).
    destruct (cleanUp_eval fd rest t2) as (t3 & Ec & Hd3 & _ & _ & _ & _ & _ & Hok3).
    eexists. split; [unfold complete_entry; rewrite (bind_Ok _ _ _ _ _ E2), (bind_Ok _ _ _ _ _ Ec); reflexivity|].
    split; [done|]. by apply Hok3.
Qed.

Lemma asyncWrite_loop_returns fuel sends fd : diligent -> forall t,
  entries_ok t -> (length (default [] (toWrite t !! fd)) < fuel)%nat ->
  Forall (fun e => holder_size (buffer e) < sends)%nat (default [] (toWrite t !! fd)) ->
  exists t', asyncWrite_loop fuel sends fd t = (t', Ok tt).
Proof.
  intros Hd. induction fuel as [|fuel IH]; intros t Hok Hl Hs; [lia|]. cbn [asyncWrite_loop].
  rewrite (bind_Ok get _ t t t eq_refl). destruct (toWrite t !! fd) as [[|entry rest]|] eqn:El; [by eexists| |by eexists].
  cbn [default from_option id length] in *. apply list.Forall_cons in Hs as [Hs1 Hs].
  pose proof (proj1 Hok fd _ El) as Hb. apply list.Forall_cons in Hb as [Hb Hrest]. pose proof (proj1 (proj1 Hb)) as Ho.
  destruct (write_loop_returns sends fd (buffer entry) Hd Hb (holder_offset (buffer entry)) t Ho) as (t1 & r & Ew); [lia|].
  destruct (write_loop_wrote _ _ _ _ _ _ _ Hb Ho Ew) as (tot & Htot & Hw & Hr).
  pose proof (entries_ok_wrote _ _ _ _ Hw Hok) as Hok1. rewrite (bind_Ok _ _ _ _ _ Ew).
  assert (forall t2 stop, default [] (toWrite t2 !! fd) = rest -> entries_ok t2 ->
    exists t', (if stop : bool then mret tt else asyncWrite_loop fuel sends fd) t2 = (t', Ok tt)) as Hnext.
  { intros t2 [] Hq Hok2; [by eexists|]. apply IH; rewrite ?Hq; [done|lia|done]. }
  destruct r as [n| | |n].
  - destruct (detach_pending n (buffer entry) Hb) as (b' & Ed & _); [lia|]. unfold requeue_entry. rewrite Ed. by eexists.
  - by eexists.
  - destruct (entry_ends fd entry rest 0 t1 Hok1 Hrest) as [(t2 & E2 & Hq2 & Hok2) _]. rewrite (bind_Ok _ _ _ _ _ E2). by apply Hnext.
  - destruct (entry_ends fd entry rest n t1 Hok1 Hrest) as [_ (t2 & E2 & Hq2 & Hok2)]. rewrite (bind_Ok _ _ _ _ _ E2). by apply Hnext.
Qed.

(** C37. Draining a queue comes to an end, whatever errors there are, if every entry has
    as many bytes as it says and the kernel takes at least one byte whenever it takes
    any: one round for each entry and one call for each byte are enough. *)
Theorem asyncWriteImpl_returns fuel fd t :
  diligent -> entries_ok t -> (length (default [] (toWrite t !! fd)) < fuel)%nat ->
  Forall (fun e => holder_size (buffer e) < fuel)%nat (default [] (toWrite t !! fd)) ->
  exists t', asyncWriteImpl fuel fd t = (t', Ok tt).
Proof. intros Hd Hok. by apply asyncWrite_loop_returns. Qed.

(** A file that got shorter after its size was read is waited for, for ever, with the
    lock of the queues held: [sendfile] has nothing to send and the loop goes on. *)
Theorem truncated_file_spins fuel fd file size offset d fl rest t :
  (forall n fd avail, kernel_send n fd avail = Sent avail) ->
  (length (file_contents file) < size)%nat -> (offset < size)%nat ->
  toWrite t !! fd = Some ({| deferred := d; buffer := BufferHolder_file file size offset; flags := fl; peerFd := Some fd |} :: rest) ->
  snd (asyncWriteImpl fuel fd t) = OutOfFuel.
Proof.
  intros Hk Hs Ho El.
  assert (forall n b tot t, b = BufferHolder_file file size offset -> (tot < size)%nat -> snd (write_loop n fd b tot t) = OutOfFuel) as Hloop.
  { clear t El. induction n as [|n IH]; intros b tot t Eb Ht; [done|]. cbn [write_loop]. unfold mbind, M_bind.
    unfold send_some, send_bytes, call, mbind, M_bind. rewrite Eb. cbn. rewrite Hk. cbn.
    assert (tot + (size - tot) `min` length (drop tot (file_contents file)) < size)%nat as Hlt by (rewrite length_drop; lia).
    rewrite (proj2 (Nat.leb_gt _ _) Hlt). by apply IH. }
  destruct fuel as [|fuel]; [done|]. unfold asyncWriteImpl. cbn [asyncWrite_loop]. rewrite (bind_Ok get _ t t t eq_refl), El.
  unfold mbind, M_bind. cbn [buffer holder_offset BufferHolder_file].
  pose proof (Hloop (S fuel) (BufferHolder_file file size offset) offset t eq_refl Ho) as Hspin.
  destruct (write_loop (S fuel) fd (BufferHolder_file file size offset) offset t) as [t1 r]. cbn in Hspin. by rewrite Hspin.
Qed.

(** ** What goes wrong *)

Definition raw_entry (fd : Fd) (d : nat) (data : bytes) : WriteEntry :=
  {| deferred := d; buffer := BufferHolder_raw (Raw data (length data)); flags := 0; peerFd := Some fd |}.

(** One call for a raw buffer. *)
Lemma send_raw fd data n t :
  send_some fd (BufferHolder_raw (Raw data (length data))) n t
  = match kernel_send (calls t) fd (length data - n) with
    | Sent k => (add_event (Wrote fd (take k (drop n data))) (set_calls (S (calls t)) t), Ok (Sent k))
    | Failed e => (set_calls (S (calls t)) t, Ok (Failed e))
    end.
Proof.
  unfold send_some. cbn [kind BufferHolder_raw holder_size raw_data raw_length]. rewrite Nat.ltb_irrefl.
  unfold send_bytes, call, mbind, M_bind. cbn. rewrite length_drop, Nat.min_id. by destruct (kernel_send _ _ _).
Qed.

(** A raw buffer that is written at once. *)
Lemma write_whole fuel fd d data rest t :
  toWrite t !! fd = Some (raw_entry fd d data :: rest) -> kernel_send (calls t) fd (length data) = Sent (length data) ->
  asyncWriteImpl (S fuel) fd t
  = (stop ← complete_entry fd (raw_entry fd d data) rest (length data);
     if stop : bool then mret tt else asyncWrite_loop fuel (S fuel) fd)
      (add_event (Wrote fd data) (set_calls (S (calls t)) t)).
Proof.
  intros El Hk. unfold asyncWriteImpl. cbn [asyncWrite_loop]. rewrite (bind_Ok get _ t t t eq_refl), El.
  cbn [write_loop raw_entry buffer holder_offset BufferHolder_raw holder_size]. unfold mbind at 1, M_bind at 1. cbn [write_loop].
  unfold mbind at 1, M_bind at 1. rewrite send_raw, Nat.sub_0_r, Hk. cbn [drop raw_length]. rewrite firstn_all.
  cbn [Nat.add]. by rewrite Nat.leb_refl.
Qed.

Lemma write_last fuel fd d data t :
  toWrite t !! fd = Some [raw_entry fd d data] -> kernel_send (calls t) fd (length data) = Sent (length data) ->
  asyncWriteImpl (S fuel) fd t
  = (add_event (ResolveWrite fd d (length data)) (add_event (ModifyFd fd false) (set_toWrite (delete fd)
      (add_event (Wrote fd data) (set_calls (S (calls t)) t)))), Ok tt).
Proof. intros El Hk. by rewrite (write_whole fuel fd d data [] t). Qed.

(** The promise of a write that was interrupted is resolved with the number of bytes
    of its last part, not of the whole (a file's promise with the whole). *)
Theorem partial_write_undercounts fuel fd d data k t :
  toWrite t !! fd = Some [raw_entry fd d data] -> (0 < k < length data)%nat ->
  kernel_send (calls t) fd (length data) = Sent k ->
  kernel_send (S (calls t)) fd (length data - k) = Failed EAGAIN ->
  kernel_send (S (S (calls t))) fd (length data - k) = Sent (length data - k) -> (2 <= fuel)%nat ->
  exists t', (_ ← onWritable fuel fd; onWritable fuel fd) t = (t', Ok tt)
  /\ wire fd (events t') = wire fd (events t) ++ data
  /\ list.last (events t') = Some (ResolveWrite fd d (length data - k)).
Proof.
  intros El Hk H1 H2 H3 Hf. destruct fuel as [|[|fuel]]; [lia..|]. set (n := S fuel).
  set (t1 := add_event (Wrote fd (take k data)) (set_calls (S (S (calls t))) (add_event (ModifyFd fd false) t))).
  assert (onWritable (S n) fd t = requeue_entry fd (raw_entry fd d data) [] k t1) as E1.
  { unfold onWritable. rewrite (bind_Ok _ _ t (add_event (ModifyFd fd false) t) tt eq_refl). unfold asyncWriteImpl.
    cbn [asyncWrite_loop]. rewrite (bind_Ok get _ _ _ _ eq_refl). cbn [toWrite add_event]. rewrite El. unfold n.
    unfold mbind at 1, M_bind at 1. cbn [write_loop raw_entry buffer holder_offset BufferHolder_raw holder_size].
    unfold mbind at 1, M_bind at 1. rewrite send_raw. cbn [calls add_event set_calls]. rewrite Nat.sub_0_r, H1. cbn [Nat.add raw_length].
    rewrite (proj2 (Nat.leb_gt _ _)) by lia. unfold mbind at 1, M_bind at 1. rewrite send_raw. cbn [calls add_event set_calls].
    by rewrite H2. }
  assert (requeue_entry fd (raw_entry fd d data) [] k t1
    = (add_event (ModifyFd fd true) (set_toWrite <[fd := [raw_entry fd d (drop k data)]]> t1), Ok tt)) as E2.
  { unfold requeue_entry, detach. cbn [kind buffer raw_entry BufferHolder_raw]. unfold RawBuffer_copy. cbn [raw_data raw_length].
    rewrite bool_decide_eq_false_2 by (intros ->; cbn in Hk; lia). rewrite (proj2 (Nat.ltb_ge _ _)) by lia.
    rewrite take_ge by (rewrite length_drop; lia). unfold raw_entry. by rewrite length_drop. }
  rewrite E2 in E1. rewrite (bind_Ok _ _ _ _ _ E1).
  set (t2 := add_event (ModifyFd fd false) (add_event (ModifyFd fd true) (set_toWrite <[fd := [raw_entry fd d (drop k data)]]> t1))).
  change (exists t', asyncWriteImpl (S n) fd t2 = (t', Ok tt) /\ wire fd (events t') = wire fd (events t) ++ data
    /\ list.last (events t') = Some (ResolveWrite fd d (length data - k))).
  rewrite (write_last n fd d (drop k data) t2).
  2:{ cbn. by rewrite lookup_insert_eq. }
  2:{ rewrite length_drop. exact H3. }
  eexists. split; [reflexivity|]. cbn [events add_event]. split; [|by rewrite last_snoc, length_drop].
  unfold t2, t1. cbn [events add_event set_toWrite set_calls]. rewrite !wire_app. unfold wire. cbn. rewrite !decide_True by done. cbn.
  by rewrite !app_nil_r, <- app_assoc, take_drop.
Qed.

(** When the peer is gone the queue is thrown away: none of its promises, the one
    being written or those that wait, is ever resolved or rejected. *)
Theorem lost_writes_unsettled fuel fd entry rest t :
  toWrite t !! fd = Some (entry :: rest) -> holder_ok (buffer entry) ->
  (forall avail, kernel_send (calls t) fd avail = Failed EGONE) ->
  exists t', asyncWriteImpl (S fuel) fd t = (t', Ok tt) /\ toWrite t' !! fd = None /\ events t' = events t.
Proof.
  intros El [[_ Hs] _] Hk. unfold asyncWriteImpl. cbn [asyncWrite_loop]. rewrite (bind_Ok get _ t t t eq_refl), El.
  assert (write_loop (S fuel) fd (buffer entry) (holder_offset (buffer entry)) t = (set_calls (S (calls t)) t, Ok Lost)) as E.
  { cbn [write_loop]. unfold mbind, M_bind. unfold send_some, contents in *. destruct (kind (buffer entry)).
    - rewrite (proj2 (Nat.ltb_ge _ _) Hs). unfold send_bytes, call, mbind, M_bind. cbn. by rewrite Hk.
    - unfold send_bytes, call, mbind, M_bind. cbn. by rewrite Hk. }
  rewrite (bind_Ok _ _ _ _ _ E). eexists. split; [reflexivity|]. cbn. by rewrite lookup_delete_eq.
Qed.

(** Queued writes are known by their descriptor's number: if a peer goes while a write
    to it is still in the queue between threads, and a new peer gets the number, the
    new peer is sent the old one's bytes. *)
Theorem stale_write_reaches_new_peer fuel fd d data t :
  fd ∈ peers_ t -> writesQueue t = [] -> (forall n fd avail, kernel_send n fd avail = Sent avail) ->
  exists t', (_ ← asyncWrite (Some fd) d (BufferHolder_raw (Raw data (length data))) 0;
              _ ← handlePeerDisconnection fd; _ ← handleNewPeer true (Some fd);
              _ ← handleWriteQueue false (S fuel); onWritable (S fuel) fd) t = (t', Ok tt)
  /\ events t' = events t ++ [OnDisconnection fd; RemoveFd fd; CloseFd fd; OnConnection fd; RegisterFd fd;
                             ModifyFd fd true; ModifyFd fd false; Wrote fd data; ModifyFd fd false;
                             ResolveWrite fd d (length data)].
Proof.
  intros Hfd Hq Hk.
  assert (exists t1, (_ ← asyncWrite (Some fd) d (BufferHolder_raw (Raw data (length data))) 0;
              _ ← handlePeerDisconnection fd; handleNewPeer true (Some fd)) t = (t1, Ok tt)
    /\ writesQueue t1 = [raw_entry fd d data] /\ toWrite t1 !! fd = Some [] /\ fd ∈ peers_ t1
    /\ events t1 = events t ++ [OnDisconnection fd; RemoveFd fd; CloseFd fd; OnConnection fd; RegisterFd fd])
    as (t1 & E1 & Hq1 & Ht1 & Hp1 & He1).
  { eexists. split; [reflexivity|]. cbn. rewrite Hq, lookup_delete_eq, lookup_insert_eq, <- !app_assoc. split_and!; try done. set_solver. }
  set (t2 := add_event (ModifyFd fd true)
    (set_toWrite (fun m => <[fd := default [] (m !! fd) ++ [raw_entry fd d data]]> m) (set_writesQueue [] t1))).
  assert (handleWriteQueue false (S fuel) t1 = (t2, Ok tt)) as E2.
  { unfold handleWriteQueue. rewrite (bind_Ok get _ _ _ _ eq_refl), Hq1. cbn [handleWrites].
    erewrite bind_Ok; [|reflexivity]. unfold handleWrite. cbn [peerFd raw_entry].
    erewrite bind_Ok; [reflexivity|]. rewrite (bind_Ok (isPeerFd fd) _ (set_writesQueue [] t1) _ (bool_decide (fd ∈ peers_ t1)) eq_refl).
    rewrite bool_decide_eq_true_2 by done. reflexivity. }
  assert (forall k : M Transport unit, (_ ← asyncWrite (Some fd) d (BufferHolder_raw (Raw data (length data))) 0;
              _ ← handlePeerDisconnection fd; _ ← handleNewPeer true (Some fd); k) t = k t1) as ->.
  { intros k. unfold mbind, M_bind in E1 |- *. destruct (asyncWrite _ _ _ _ t) as [ta [[]|e| |]]; [|done..].
    destruct (handlePeerDisconnection fd ta) as [tb [[]|e| |]]; [|done..]. by rewrite E1. }
  rewrite (bind_Ok _ _ _ _ _ E2). unfold onWritable. erewrite bind_Ok; [|reflexivity].
  set (t3 := add_event (ModifyFd fd false) t2). rewrite (write_last fuel fd d data t3).
  2:{ unfold t3, t2. cbn. by rewrite lookup_insert_eq, Ht1. }
  2:{ apply Hk. }
  eexists. split; [reflexivity|]. unfold t3, t2. cbn. by rewrite He1, <- !app_assoc.
Qed.

(** A descriptor that is polled as readable and writable at once is only read: its
    queue is left as it is. *)
Theorem both_ready_reads_only fuel fd t t' :
  fd ∈ peers_ t -> onReady fuel [FdTag fd true true] t = (t', Ok tt) -> fd ∈ peers_ t' ->
  toWrite t' = toWrite t /\ wire fd (events t') = wire fd (events t).
Proof.
  intros Hfd E. cbn [onReady onReady_entry] in E. unfold onReadable in E.
  assert (forall n t, fd ∈ peers_ t -> forall t' r, handleIncoming n fd t = (t', r) -> fd ∈ peers_ t' ->
    toWrite t' = toWrite t /\ wire fd (events t') = wire fd (events t)) as Hin.
  { clear. induction n as [|n IH]; intros t Hfd t' r E Hfd'; [by injection E as <- _|]. cbn [handleIncoming] in E.
    rewrite (bind_Ok call _ t (set_calls (S (calls t)) t) (calls t) eq_refl) in E.
    destruct (kernel_recv (calls t) fd) as [[|c b]|e].
    - injection E as <- _. cbn in Hfd'. set_solver.
    - rewrite (bind_Ok _ _ _ (add_event (OnInput fd (c :: b)) (set_calls (S (calls t)) t)) tt eq_refl) in E.
      destruct (IH (add_event (OnInput fd (c :: b)) (set_calls (S (calls t)) t)) Hfd _ _ E Hfd') as [-> Hw].
      split; [done|].
      rewrite Hw. cbn [events add_event set_calls]. by rewrite wire_app, app_nil_r.
    - destruct e; [by injection E as <- _|injection E as <- _; cbn in Hfd'; set_solver..]. }
  intros Hfd'. unfold mbind at 1, M_bind at 1 in E. rewrite (bind_Ok (isPeerFd fd) _ t t (bool_decide (fd ∈ peers_ t)) eq_refl) in E.
  rewrite bool_decide_eq_true_2 in E by done. destruct (handleIncoming fuel fd t) as [t1 [[]|e| |]] eqn:E1; try done.
  injection E as <-. by apply (Hin fuel t Hfd t1 _ E1).
Qed.
End Writes.

(** ** Witnesses *)

Section Witnesses.
(** A kernel that answers so to the [n]-th send; files hold ten bytes. *)
Definition demo_kernel (answer : nat -> nat -> sent) (ok : forall n avail k, answer n avail = Sent k -> (k <= avail)%nat) : Kernel :=
  {| kernel_send n _ avail := answer n avail; kernel_timer _ _ := Wakeups 1; kernel_settime _ _ := true;
     kernel_recv n _ := if (n =? 0)%nat then inl (B "in") else inr EAGAIN; file_contents _ := B "0123456789";
     kernel_ok n _ avail k := ok n avail k |}.

Definition greedy_kernel : Kernel.
Proof. refine (demo_kernel (fun _ avail => Sent avail) _). by intros n avail k [= ->]. Defined.

(** Three bytes, then nothing, then all. *)
Definition halting_kernel : Kernel.
Proof.
  refine (demo_kernel (fun n avail => match n with 0 => Sent (if (avail <? 3)%nat then avail else 3) | 1 => Failed EAGAIN | _ => Sent avail end) _).
  intros [|[|n]] avail k E; [|done|by injection E as <-].
  injection E as <-. destruct (Nat.ltb_spec avail 3); lia.
Defined.

Definition gone_kernel : Kernel.
Proof. refine (demo_kernel (fun _ _ => Failed EGONE) _). done. Defined.

(** A peer at descriptor 5, with these entries. *)
Definition connected (l : list WriteEntry) : Transport :=
  {| writesQueue := []; toWrite := {[ 5%nat := l ]}; timersQueue := []; timers := ∅; peersQueue := []; peers_ := {[ 5%nat ]};
     calls := 0; events := [] |}.

Lemma connected_ok `{Kernel} l : Forall (fun e => holder_ok (buffer e)) l -> entries_ok (connected l).
Proof. intros Hl. split; [|constructor]. cbn. intros fd l' E. apply lookup_singleton_Some in E as [<- <-]. done. Qed.

Lemma raw_ok `{Kernel} data : holder_ok (BufferHolder_raw (Raw data (length data))).
Proof. split; [unfold contents; cbn; lia|done]. Qed.

Definition two_writes : list write_op :=
  [Write 5 1 (BufferHolder_raw (Raw (B "hello ") 6)) 0; Write 5 2 (BufferHolder_raw (Raw (B "world") 5)) 0;
   Queue false; Writable 5; Writable 5].

Lemma write_queue_fifo_witness :
  let K := halting_kernel in
  exists t', run_ops 20 two_writes (connected []) = (t', Ok tt)
  /\ wire 5 (events t') ++ bytes_of (waiting 5 t') = B "hello world"
  /\ resolved 5 (events t') ++ map deferred (waiting 5 t') = [1; 2]%nat.
Proof.
  intros K. destruct (run_ops 20 two_writes (connected [])) as [t' r] eqn:E. exists t'.
  assert (r = Ok tt) as -> by (change r with (snd (t', r)); rewrite <- E; reflexivity). split; [done|].
  apply (write_queue_fifo 20 two_writes 5 (connected []) t').
  - by intros [|[|n]] fd avail e [= <-].
  - apply connected_ok. constructor.
  - repeat constructor; cbn; lia.
  - apply (bool_decide_unpack _). reflexivity.
  - exact E.
Defined.

Lemma asyncWriteImpl_returns_witness :
  let K := greedy_kernel in
  exists t', asyncWriteImpl 10 5 (connected [raw_entry 5 1 (B "hello")]) = (t', Ok tt).
Proof.
  intros K. apply asyncWriteImpl_returns.
  - by intros n fd avail [= ->].
  - apply connected_ok. repeat constructor; cbn; lia.
  - apply Nat.ltb_lt. reflexivity.
  - change (Forall (fun e => holder_size (buffer e) < 10)%nat [raw_entry 5 1 (B "hello")]). repeat constructor; cbn; lia.
Defined.

Lemma truncated_file_spins_witness :
  let K := greedy_kernel in
  snd (asyncWriteImpl 100 5 (connected [{| deferred := 1; buffer := BufferHolder_file 7 20 0; flags := 0; peerFd := Some 5%nat |}]))
  = OutOfFuel.
Proof. intros K. apply (truncated_file_spins 100 5 7 20 0 1 0 []); [done|apply Nat.ltb_lt; reflexivity|lia|reflexivity]. Defined.

Lemma partial_write_undercounts_witness :
  let K := halting_kernel in
  exists t', (_ ← onWritable 10 5; onWritable 10 5) (connected [raw_entry 5 1 (B "hello")]) = (t', Ok tt)
  /\ wire 5 (events t') = B "hello" /\ list.last (events t') = Some (ResolveWrite 5 1 2).
Proof. intros K. apply (partial_write_undercounts 10 5 1 (B "hello") 3); try reflexivity; [split; apply Nat.ltb_lt; reflexivity|lia]. Defined.

Lemma lost_writes_unsettled_witness :
  let K := gone_kernel in
  exists t', asyncWriteImpl 10 5 (connected [raw_entry 5 1 (B "hello"); raw_entry 5 2 (B "world")]) = (t', Ok tt)
  /\ toWrite t' !! 5%nat = None /\ events t' = [].
Proof. intros K. eapply (lost_writes_unsettled 9 5 (raw_entry 5 1 (B "hello"))); [reflexivity|apply raw_ok|done]. Defined.

Lemma stale_write_reaches_new_peer_witness :
  let K := greedy_kernel in
  exists t', (_ ← asyncWrite (Some 5%nat) 1 (BufferHolder_raw (Raw (B "secret") 6)) 0;
              _ ← handlePeerDisconnection 5; _ ← handleNewPeer true (Some 5%nat);
              _ ← handleWriteQueue false 10; onWritable 10 5) (connected []) = (t', Ok tt)
  /\ events t' = [OnDisconnection 5; RemoveFd 5; CloseFd 5; OnConnection 5; RegisterFd 5; ModifyFd 5 true; ModifyFd 5 false;
                  Wrote 5 (B "secret"); ModifyFd 5 false; ResolveWrite 5 1 6].
Proof.
  intros K. apply (stale_write_reaches_new_peer 9 5 1 (B "secret") (connected [])); [|reflexivity|done].
  apply (bool_decide_unpack _). reflexivity.
Defined.

Lemma both_ready_reads_only_witness :
  let K := greedy_kernel in
  exists t', onReady 10 [FdTag 5 true true] (connected [raw_entry 5 1 (B "hello")]) = (t', Ok tt)
  /\ toWrite t' = toWrite (connected [raw_entry 5 1 (B "hello")]) /\ wire 5 (events t') = [].
Proof.
  intros K. destruct (onReady 10 [FdTag 5 true true] (connected [raw_entry 5 1 (B "hello")])) as [t' r] eqn:E. exists t'.
  assert (r = Ok tt) as -> by (change r with (snd (t', r)); rewrite <- E; reflexivity).
  assert (5%nat ∈ peers_ t') as Hp.
  { change t' with (fst (t', @Ok unit tt)). rewrite <- E. apply (bool_decide_unpack _). reflexivity. }
  split; [done|]. apply (both_ready_reads_only 10 5 (connected [raw_entry 5 1 (B "hello")]) t'); [|exact E|exact Hp].
  apply (bool_decide_unpack _). reflexivity.
Defined.
End Witnesses.
