(* ===== verification/TimerPool.v ===== *)
(** * The timer pool: [src/common/timer_pool.cc], [include/pistache/timer_pool.h]

    The timers of a connection of the client.  What the system calls answer is an
    argument: the descriptor [timerfd_create] gives, if any, and whether
    [timerfd_settime] succeeds.  The build without libevent, with [NDEBUG]. *)

From S2P Require Import Prelude.

Abbreviation Fd := nat.

(** ** [TimerPool::Entry] *)

Record Entry : Set := { used : bool; fd_ : option Fd; registered : bool }.

(** The pool's entries. *)
Abbreviation TimerPool := (list Entry).

Definition Entry_new : Entry := {| used := false; fd_ := None; registered := false |}.
Definition set_used (b : bool) (e : Entry) : Entry := {| used := b; fd_ := fd_ e; registered := registered e |}.
Definition set_fd (fd : Fd) (e : Entry) : Entry := {| used := used e; fd_ := Some fd; registered := registered e |}.

(** What [TRY] throws is the text of the system's error. *)
Section Operations.
Context (system_error : bytes).

Definition TRY {A : Type} (answer : option A) : result A :=
  match answer with Some a => Ok a | None => Throw (RuntimeError system_error) end.

Definition initialize (timerfd : option Fd) (e : Entry) : Entry * result unit :=
  match fd_ e with
  | Some _ => (e, Ok tt)
  | None => match TRY timerfd with Ok fd => (set_fd fd e, Ok tt) | r => (e, _ ← r; Ok tt) end
  end.

(** The seconds and nanoseconds a timer is set to: nothing below a second is kept of
    more than a second. *)
Definition timer_spec (value : Z) : Z * Z :=
  if (value <? 1000)%Z then (0, value * 1000000)%Z else (Z.quot value 1000, 0)%Z.

(** The descriptor that is set, and to what. *)
Definition settime (what : bytes) (spec : Z * Z) (settime_ok : bool) (e : Entry) : result (Fd * (Z * Z)) :=
  match fd_ e with
  | None => Throw (RuntimeError what)
  | Some fd => _ ← TRY (if settime_ok then Some tt else None); Ok (fd, spec)
  end.
Definition armMs (value : Z) : bool -> Entry -> result (Fd * (Z * Z)) := settime (B "fd_ NULL") (timer_spec value).
Definition disarm : bool -> Entry -> result (Fd * (Z * Z)) := settime (B "fd_ empty") (0, 0)%Z.

(** Whether the descriptor is registered with the reactor now. *)
Definition registerReactor (e : Entry) : Entry * bool :=
  if registered e then (e, false) else ({| used := used e; fd_ := fd_ e; registered := true |}, true).

(** ** [TimerPool] *)

Definition DefaultTimerPoolSize : nat := 128.
Definition TimerPool_new (initialSize : nat) : TimerPool := replicate initialSize Entry_new.

(** The first timer that is not in use, by its index; it stays in use if it has no
    descriptor and none can be made. *)
Fixpoint pickTimer (timerfd : option Fd) (timers : TimerPool) : TimerPool * result (option nat) :=
  match timers with
  | [] => ([], Ok None)
  | entry :: timers' =>
      if used entry then
        let '(timers'', r) := pickTimer timerfd timers' in (entry :: timers'', i ← r; Ok (option_map S i))
      else
        let '(entry', r) := initialize timerfd (set_used true entry) in (entry' :: timers', _ ← r; Ok (Some 0%nat))
  end.

Definition releaseTimer (timer : nat) (timers : TimerPool) : TimerPool := alter (set_used false) timer timers.

(** ** What picking a timer does *)

Lemma pickTimer_None fd p : pickTimer fd p = (p, Ok None) <-> Forall (fun e => used e = true) p.
Proof.
  induction p as [|e p IH]; cbn [pickTimer]; [by split; [constructor|]|].
  destruct (used e) eqn:Eu.
  - destruct (pickTimer fd p) as [p' [[i|]| | |]]; cbn; split.
    all: try (intros [= ->]). all: try (intros [_ F]%list.Forall_cons).
    all: try (apply IH in F; by simplify_eq).
    constructor; [done|]. by apply IH.
  - destruct (initialize fd (set_used true e)) as [e' [[]| | |]]; cbn; split; try done.
    all: intros [E _]%list.Forall_cons; congruence.
Qed.

Lemma pickTimer_Some fd p p' i :
  pickTimer fd p = (p', Ok (Some i)) ->
  exists e e', p !! i = Some e /\ used e = false /\ Forall (fun e => used e = true) (take i p)
  /\ e' = {| used := true; fd_ := Some (default (default 0%nat fd) (fd_ e)); registered := registered e |}
  /\ (fd_ e = None -> is_Some fd) /\ p' = <[i := e']> p.
Proof.
  revert p' i. induction p as [|e p IH]; intros p' i; cbn [pickTimer]; [done|].
  destruct (used e) eqn:Eu.
  - destruct (pickTimer fd p) as [q [[j|]| | |]]; cbn; intros [= <- <-].
    destruct (IH q j eq_refl) as (f & f' & Hl & Hf & Ht & -> & Hs & ->). eexists f, _.
    repeat split; try done. by constructor.
  - unfold initialize. cbn [fd_ set_used]. destruct e as [u [d|] r]; cbn in *; [|destruct fd as [d|]; cbn].
    all: intros [= <- <-]; eexists _, _; repeat split; cbn; try done; eauto.
Qed.

(** With an idle timer in the pool, and descriptors to be had, one is picked. *)
Lemma pickTimer_idle fd p i e :
  p !! i = Some e -> used e = false -> is_Some fd ->
  exists p' j e' f, pickTimer fd p = (p', Ok (Some j)) /\ p' !! j = Some e' /\ fd_ e' = Some f.
Proof.
  intros Hi Hu [f Hf]. subst fd. revert i Hi. induction p as [|e0 p IH]; intros i Hi; [done|]. cbn [pickTimer].
  destruct (used e0) eqn:E0.
  - destruct i as [|i]; [cbn in Hi; congruence|]. destruct (IH i Hi) as (p' & j & e' & f' & -> & Hj & Hf).
    by exists (e0 :: p'), (S j), e', f'.
  - unfold initialize. cbn [fd_ set_used]. destruct (fd_ e0) as [f'|] eqn:Ef; cbn [TRY].
    + by eexists _, 0%nat, _, f'.
    + by eexists _, 0%nat, _, f.
Qed.
End Operations.
