(* ===== verification/ClientRequest.v ===== *)
(** * What the client sends: [splitUrl] and [writeRequest] of [src/client/client.cc]

    The text of a request, as the client writes it and as the server's parser reads it:
    the two halves of the library against each other.  A [std::stringstream] never
    refuses what is written to it; an exception of a header's [write] leaves. *)

From S2P Require Import Prelude Cxx Stream HttpDefs QValue Mime Cookie Net HttpHeader HttpHeaders HttpMessage.
From S2P Require Import HttpResponse HttpParser RequestText TypedHeaders.

Local Open Scope Z_scope.

Definition UA : bytes := B "pistache/0.1".

(** ** [splitUrl]: the host, the page, and whether the scheme is [https] *)

Definition splitUrl (url : bytes) (remove_subdomain : bool) : (bytes * bytes) * bool :=
  let '(is_http, cursor) := match_string (B "http://") Insensitive (RawStreamBuf url) in
  let '(looks_like_https, cursor) :=
    if is_http then (false, cursor) else match_string (B "https://") Insensitive cursor in
  let cursor :=
    if remove_subdomain
    then (match_literal (chr 46) Insensitive (match_string (B "www") Insensitive cursor).2).2
    else cursor in
  let cursor' := (match_until [chr 63; chr 47] Insensitive cursor).2 in
  ((Token_text (position cursor) cursor', after cursor'), looks_like_https).

(** ** [RequestBuilder]: what sets the parts of a request *)

Definition RequestBuilder_method (m : Method.t) (r : Request) : Request := set_method m r.
Definition RequestBuilder_resource (val : bytes) (r : Request) : Request := set_resource val r.
Definition RequestBuilder_params (query : Query) (r : Request) : Request := set_query query r.
Definition RequestBuilder_header (h : Header) (r : Request) : Request :=
  set_message (set_headers (Collection_add h (headers_ (request_message r))) (request_message r)) r.
Definition RequestBuilder_cookie (cookie : Cookie) (r : Request) : Request :=
  set_message (set_cookies (CookieJar_add cookie (cookies_ (request_message r))) (request_message r)) r.
Definition RequestBuilder_body (val : bytes) (r : Request) : Request :=
  set_message (set_body val (request_message r)) r.
Definition RequestBuilder_timeout (val : Z) (r : Request) : Request :=
  {| request_message := request_message r; method_ := method_ r; resource_ := resource_ r; query_ := query_ r;
     address_ := address_ r; HttpMessage.timeout_ := val |}.

(** [Client::prepareRequest], with which [get], [post] and the others begin. *)
Definition prepareRequest (resource : bytes) (method : Method.t) : Request :=
  RequestBuilder_method method (RequestBuilder_resource resource Request_default).

(** ** [writeRequest] *)

Section Write.
Context `{DateLib, Resolver, Iteration}.

Definition writeHeader (header : Header) : result bytes :=
  text ← Header_write param_order header; Ok (Header_name header ++ B ": " ++ text ++ crlf).

Fixpoint writeHeader_list (headers : list Header) : result bytes :=
  match headers with
  | [] => Ok []
  | header :: headers' => line ← writeHeader header; lines ← writeHeader_list headers'; Ok (line ++ lines)
  end.
Definition writeHeaders (headers : Collection) : result bytes :=
  writeHeader_list (Collection_list header_order headers).

Fixpoint cookie_list (first : bool) (cookies : list Cookie) : bytes :=
  match cookies with
  | [] => []
  | cookie :: cookies' =>
      (if first then [] else B "; ") ++ name cookie ++ B "=" ++ value cookie ++ cookie_list false cookies'
  end.
Definition writeCookies (cookies : CookieJar) : result bytes :=
  l ← CookieJar_list jar_order values_order cookies; Ok (B "Cookie: " ++ cookie_list true l ++ crlf).

(** [Host(const std::string& data)]. *)
Definition Host_new (data : bytes) : result Header :=
  match Host_parse data ([], 0) with
  | ((u, p), Ok _) => Ok (HHost u p)
  | (_, Throw e) => Throw e
  | (_, UB) => UB
  | (_, OutOfFuel) => OutOfFuel
  end.

Definition path_text (path : bytes) : bytes := if decide (head path = Some (chr 47)) then path else chr 47 :: path.

(** The port is added for [https] if the host has none. *)
Definition host_str (host : bytes) (is_https : bool) : bytes :=
  host ++ if is_https && bool_decide (find_char colon host = None) then B ":443" else [].

Definition writeRequest (request : Request) : result bytes :=
  let '((host, path), is_https) := splitUrl (resource_ request) false in
  let message := request_message request in
  cookies ← writeCookies (cookies_ message);
  headers ← writeHeaders (headers_ message);
  agent ← writeHeader (HUserAgent UA);
  header ← Host_new (host_str host is_https);
  host ← writeHeader header;
  content_length ← (if decide (body_ message = []) then Ok []
                    else writeHeader (HContentLength (Z.of_nat (length (body_ message)))));
  Ok (methodString (method_ request) ++ B " " ++ path_text path ++ Query_as_str param_order (query_ request)
      ++ B " HTTP/1.1" ++ crlf ++ cookies ++ headers ++ agent ++ host ++ content_length ++ crlf ++ body_ message).
End Write.

(** ** The text as a request line, header lines and a body *)

Lemma Query_as_str_text order params :
  Query_as_str order params = match order params with [] => [] | l => B "?" ++ query_text l end.
Proof.
  unfold Query_as_str. destruct (order params) as [|[k v] l]; [done|].
  cbn [map concat]. change (B "&") with [chr 38] at 1. cbn [app]. f_equal.
  revert k v. induction l as [|[k' v'] l IH]; intros k v.
  - cbn [map concat query_text]. rewrite !app_nil_r. done.
  - rewrite query_text_cons, <- (IH k' v'). cbn [map concat]. unfold query_pair. cbn [fst snd].
    by rewrite <- !app_assoc.
Qed.

(** The names and values of cookies. *)
Definition pairs (l : list Cookie) : list (bytes * bytes) := map (fun c => (name c, value c)) l.

Lemma cookie_list_text c l :
  cookie_list true (c :: l) = name c ++ B "=" ++ value c ++ jar_text (pairs l).
Proof.
  cbn [cookie_list app]. do 3 f_equal. induction l as [|c' l IH]; [done|].
  cbn [pairs map cookie_list]. rewrite IH. unfold jar_text. cbn [map concat]. by rewrite <- !app_assoc.
Qed.

(** ** What the server stores for the lines the client adds *)

Section Lines.
Context `{DateLib, Resolver}.

(** A header, and its line. *)
Definition store_line (h : Header) (text : bytes) (m : Message) : Message :=
  on_headers (Collection_addRaw {| raw_name := Header_name h; raw_value := text |}) (on_headers (Collection_add h) m).

Definition store_cookies (l : list Cookie) (m : Message) : Message :=
  on_headers (Collection_addRaw {| raw_name := B "Cookie"; raw_value := cookie_list true l |})
    (set_cookies (fold_left jar_add_pair (pairs l) ∅) m).

Lemma read_header_Ok n v m f :
  store_header n (v ++ crlf) (length v) (Cursor [] [], m) = ((Cursor [] [], f), Ok tt) ->
  read_header (n, v) m = (on_headers (Collection_addRaw {| raw_name := n; raw_value := v |}) f, Ok tt).
Proof. intros E. unfold read_header. cbn [fst snd]. unfold mbind, M_bind. by rewrite E. Qed.

Lemma read_cookies l m :
  Forall pair_ok (pairs l) -> read_header (B "Cookie", cookie_list true l) m = (store_cookies l m, Ok tt).
Proof.
  intros Hl. apply read_header_Ok. unfold store_header.
  change (LowercaseEqualStatic (B "Cookie") (B "cookie")) with true. cbv iota.
  rewrite (bind_Ok (on_object _) _ _ _ _ eq_refl). cbn [fst snd]. rewrite take_app_exact by done.
  unfold on_member. cbn [fst snd].
  assert (CookieJar_addFromRaw (cookie_list true l) (cookies_ (on_cookies CookieJar_removeAllCookies m))
          = (fold_left jar_add_pair (pairs l) ∅, Ok tt)) as E; [|by rewrite E].
  destruct l as [|c l]; [done|]. rewrite cookie_list_text. inversion Hl as [|? ? H1 H2]; subst.
  apply (addFromRaw_pairs (name c) (value c) (pairs l) ∅ H1 H2).
Qed.

(** A line whose text the header's own parser reads as the header it was written from. *)
Lemma read_typed h h0 text m :
  makeHeader (Header_name h) = Ok h0 ->
  Header_parseRaw (text ++ crlf) (length text) h0 = (h, Ok tt) ->
  LowercaseEqualStatic (Header_name h) (B "cookie") = false ->
  LowercaseEqualStatic (Header_name h) (B "set-cookie") = false ->
  read_header (Header_name h, text) m = (store_line h text m, Ok tt).
Proof.
  intros E1 E2 C1 C2. apply read_header_Ok. unfold store_header. rewrite C1, C2, E1.
  assert (isRegistered (Header_name h) = true) as ->.
  { unfold isRegistered. unfold makeHeader in E1. case_match; [|done]. apply bool_decide_eq_true_2. eauto. }
  rewrite (bind_Ok (lift _) _ _ _ _ eq_refl), E2. done.
Qed.

Lemma read_agent m : read_header (B "User-Agent", UA) m = (store_line (HUserAgent UA) UA m, Ok tt).
Proof. by apply (read_typed (HUserAgent UA) (HUserAgent [])). Qed.

Lemma read_length n m :
  0 <= n <= size_max ->
  read_header (B "Content-Length", to_string n) m = (store_line (HContentLength n) (to_string n) m, Ok tt).
Proof.
  intros Hn. apply (read_typed (HContentLength n) (HContentLength 0)); [done| |done..].
  cbn [Header_parseRaw]. rewrite take_app_exact by done. unfold on_data, ContentLength_parse.
  by rewrite to_string_pos, stoull_to_string by lia.
Qed.

(** A host name that is no address and has no port. *)
Definition name_ok (host : bytes) : Prop :=
  host <> [] /\ (colon ∉ host) /\ (lbracket ∉ host) /\ (rbracket ∉ host) /\ (CR ∉ host) /\ head host <> Some (chr 32)
  /\ Forall (fun b => b ∉ [chr 63; chr 47]) host /\ inet6_normalize host = None /\ forall d, colon ∈ d -> inet6_normalize (host ++ d) = None.

Lemma Host_parse_port host n u p :
  name_ok host -> 0 <= n <= Port_max -> Host_parse (host ++ colon :: to_string n) (u, p) = ((host, n), Ok tt).
Proof.
  intros (_ & Hc & Hl & Hr & _ & _ & _ & _ & Hi) Hn. unfold Host_parse. rewrite AddressParser_host_port by done.
  cbn [family_ host_ port_]. rewrite decide_False by done.
  unfold Port_max in *. destruct (to_string_u_spec n ltac:(lia)) as (_ & _ & Hne).
  rewrite to_string_pos by lia. rewrite bool_decide_eq_false_2 by done. rewrite <- to_string_pos by lia.
  pose proof (port_text n ltac:(lia)) as E. unfold Port_toString, Port_max in E. rewrite E.
  by rewrite (proj2 (Z.leb_le _ _)) by lia.
Qed.

Lemma Host_parse_name host : name_ok host -> Host_parse host ([], 0) = ((host, HTTP_STANDARD_PORT), Ok tt).
Proof.
  intros (_ & Hc & Hl & Hr & _ & _ & _ & Hi & _). unfold Host_parse, AddressParser_new. rewrite Hi.
  apply find_char_None in Hc, Hl. by rewrite Hl, Hc.
Qed.

Lemma read_host host n m :
  name_ok host -> 1 <= n <= Port_max ->
  read_header (B "Host", Host_write host n) m = (store_line (HHost host n) (Host_write host n) m, Ok tt).
Proof.
  intros Hh Hn. apply (read_typed (HHost host n) (HHost [] 0)); [done| |done..].
  cbn [Header_parseRaw]. rewrite take_app_exact by done. unfold Host_write.
  rewrite (proj2 (Z.eqb_neq n 0)) by lia. change (B ":") with [colon]. cbn [app].
  unfold on_data. rewrite Host_parse_port by (done || lia). done.
Qed.
End Lines.

(** ** The URL *)

(** A URL with its scheme: the host ends where a path or a query starts. *)
Definition scheme_text (https : bool) : bytes := if https then B "https://" else B "http://".
Definition page_ok (path : bytes) : Prop := path = [] \/ exists c rest, path = c :: rest /\ c ∈ [chr 63; chr 47].

Lemma host_scan host path pre :
  Forall (fun b => b ∉ [chr 63; chr 47]) host -> page_ok path ->
  let c := (match_until [chr 63; chr 47] Insensitive (Cursor pre (host ++ path))).2 in
  (Token_text (length pre) c, after c) = (host, path).
Proof.
  intros Hh [->|(c & rest & -> & Hc)].
  - rewrite app_nil_r.
    destruct (match_until_first [chr 63; chr 47] (Cursor pre host)) as (l & [b r] & [M1 M2] & _ & Hs); [by repeat constructor|].
    cbn [before after] in M1, M2, Hs. subst b host.
    destruct Hs as [[-> (a & k & -> & Ha)]|[-> ->]]; cbn [snd after].
    + rewrite list.Forall_forall in Hh. exfalso. apply (Hh a); [apply elem_of_app; right; left|done].
    + by rewrite app_nil_r, Token_text_app.
  - rewrite match_until_found by (done || by repeat constructor). cbn [snd after]. by rewrite Token_text_app.
Qed.

Lemma splitUrl_scheme https host path :
  Forall (fun b => b ∉ [chr 63; chr 47]) host -> page_ok path ->
  splitUrl (scheme_text https ++ host ++ path) false = ((host, path), https).
Proof.
  intros Hh Hp. pose proof (fun pre => host_scan host path pre Hh Hp) as Hu. cbv zeta in Hu.
  unfold splitUrl, RawStreamBuf. destruct https; cbn [scheme_text].
  - change (match_string (B "http://") Insensitive (Cursor [] (B "https://" ++ host ++ path)))
      with (false, Cursor [] (B "https://" ++ host ++ path)). cbv iota. cbn [fst snd].
    change (match_string (B "https://") Insensitive (Cursor [] (B "https://" ++ host ++ path)))
      with (true, Cursor (B "https://") (host ++ path)). unfold position. cbn [fst snd before]. by rewrite Hu.
  - change (match_string (B "http://") Insensitive (Cursor [] (B "http://" ++ host ++ path)))
      with (true, Cursor (B "http://") (host ++ path)). cbv iota. unfold position. cbn [fst snd before]. by rewrite Hu.
Qed.

(** The host a connection is made to loses a leading "www" also when no dot follows: the
    host is then another one than the one of the URL. *)
Theorem www_cut_from_name a host path :
  Forall (fun b => b ∉ [chr 63; chr 47]) (a :: host) -> page_ok path -> a <> chr 46 ->
  splitUrl (B "http://www" ++ a :: host ++ path) true = ((a :: host, path), false).
Proof.
  intros Hh Hp Ha. unfold splitUrl, RawStreamBuf.
  change (match_string (B "http://") Insensitive (Cursor [] (B "http://www" ++ a :: host ++ path)))
    with (true, Cursor (B "http://") (B "www" ++ a :: host ++ path)). cbv iota.
  change (match_string (B "www") Insensitive (Cursor (B "http://") (B "www" ++ a :: host ++ path)))
    with (true, Cursor (B "http://www") (a :: host ++ path)). cbn [snd].
  assert (match_literal (chr 46) Insensitive (Cursor (B "http://www") (a :: host ++ path))
          = (false, Cursor (B "http://www") (a :: host ++ path))) as ->.
  { unfold match_literal. cbn [after]. rewrite bool_decide_eq_false_2; [done|]. clear - Ha. revert a Ha. each_byte; congruence. }
  pose proof (host_scan (a :: host) path (B "http://www") Hh Hp) as Hu. cbv zeta in Hu.
  cbn [app] in Hu. unfold position. cbn [snd before]. by rewrite Hu.
Qed.

(** ** From the client to the server *)

Section RoundTrip.
Context `{DateLib, Resolver, StringMemory, Iteration}.

(** The application's own headers, each with its text. *)
Fixpoint own_lines (headers : list Header) : result (list (bytes * bytes)) :=
  match headers with
  | [] => Ok []
  | h :: headers' => text ← Header_write param_order h; own ← own_lines headers'; Ok ((Header_name h, text) :: own)
  end.

Definition default_port (https : bool) : Z := if https then 443 else HTTP_STANDARD_PORT.
Definition length_line (body : bytes) : list (bytes * bytes) :=
  if decide (body = []) then [] else [(B "Content-Length", to_string (Z.of_nat (length body)))].
Definition sent_lines (cs : list Cookie) (own : list (bytes * bytes)) (host : bytes) (https : bool) (body : bytes)
  : list (bytes * bytes) :=
  (B "Cookie", cookie_list true cs) :: own
  ++ [(B "User-Agent", UA); (B "Host", Host_write host (default_port https))] ++ length_line body.

(** The message after the client's own lines. *)
Definition received_message (host : bytes) (https : bool) (body : bytes) (m : Message) : Message :=
  let port := default_port https in
  let m := store_line (HHost host port) (Host_write host port) (store_line (HUserAgent UA) UA m) in
  let n := Z.of_nat (length body) in
  if decide (body = []) then m else store_line (HContentLength n) (to_string n) m.

Lemma writeHeader_text h t : Header_write param_order h = Ok t -> writeHeader h = Ok (header_text (Header_name h, t)).
Proof. unfold writeHeader. by intros ->. Qed.

Lemma writeHeader_list_text l own : own_lines l = Ok own -> writeHeader_list l = Ok (headers_text own).
Proof.
  revert own. induction l as [|h l IH]; intros own; cbn [own_lines writeHeader_list]; [by intros [= <-]|].
  unfold writeHeader. destruct (Header_write param_order h) as [t|e| |]; [|done..]. cbn.
  destruct (own_lines l) as [o|e| |]; [|done..]. intros [= <-]. by rewrite (IH o).
Qed.

Lemma default_port_range https : 1 <= default_port https <= Port_max.
Proof. by destruct https. Qed.

Lemma Host_new_name host https :
  name_ok host -> Host_new (host_str host https) = Ok (HHost host (default_port https)).
Proof.
  intros Hh. unfold Host_new, host_str. pose proof Hh as (_ & Hc & _). apply find_char_None in Hc. rewrite Hc.
  destruct https; cbn [andb bool_decide].
  - rewrite bool_decide_eq_true_2 by done. change (B ":443") with (colon :: to_string 443).
    by rewrite Host_parse_port by (done || (unfold Port_max; lia)).
  - by rewrite app_nil_r, Host_parse_name.
Qed.

Lemma writeRequest_text r host path https cs own :
  splitUrl (resource_ r) false = ((host, path), https) ->
  CookieJar_list jar_order values_order (cookies_ (request_message r)) = Ok cs ->
  own_lines (Collection_list header_order (headers_ (request_message r))) = Ok own -> name_ok host ->
  let body := body_ (request_message r) in
  writeRequest r
  = Ok (request_text (method_ r) (path_text path) (param_order (query_ r)) Http11 (sent_lines cs own host https body) body).
Proof.
  intros Eu Ec Eo Hh. unfold writeRequest. rewrite Eu. generalize (body_ (request_message r)) as body. intros body. unfold writeCookies, writeHeaders. rewrite Ec. cbn [mbind result_bind].
  rewrite (writeHeader_list_text _ _ Eo), (writeHeader_text (HUserAgent UA) UA eq_refl), Host_new_name by done.
  cbn [mbind result_bind]. rewrite (writeHeader_text (HHost host (default_port https)) _ eq_refl).
  rewrite Query_as_str_text. cbn [mbind result_bind Header_name].
  unfold request_text, request_line, target_text, sent_lines, headers_text, length_line.
  assert (forall k l, mjoin (map header_text (k ++ l)) = mjoin (map header_text k) ++ mjoin (map header_text l)) as Ej.
  { intros. rewrite map_app. apply join_app. }
  rewrite app_comm_cons, !Ej. destruct (decide (body = [])) as [->|Eb].
  - cbn [mbind result_bind map mjoin list_join]. unfold header_text. cbn [fst snd].
    f_equal. rewrite <- !app_assoc. by destruct (param_order (query_ r)).
  - rewrite (writeHeader_text (HContentLength (Z.of_nat (length body))) _ eq_refl).
    cbn [mbind result_bind map mjoin list_join Header_name]. unfold header_text. cbn [fst snd].
    f_equal. rewrite <- !app_assoc. by destruct (param_order (query_ r)).
Qed.

Lemma read_headers_app k l m m' :
  read_headers k m = (m', Ok tt) -> read_headers (k ++ l) m = read_headers l m'.
Proof.
  revert m. induction k as [|h k IH]; intros m; cbn [read_headers app]; [by intros [= ->]|].
  unfold mbind, M_bind. destruct (read_header h m) as [m1 [[]|e| |]]; [apply IH|done..].
Qed.

Lemma read_own_lines host https body m :
  name_ok host -> Z.of_nat (length body) <= size_max ->
  read_headers ([(B "User-Agent", UA); (B "Host", Host_write host (default_port https))] ++ length_line body) m
  = (received_message host https body m, Ok tt).
Proof.
  intros Hh Hb. cbn [app read_headers]. rewrite (bind_Ok _ _ _ _ _ (read_agent m)).
  rewrite (bind_Ok _ _ _ _ _ (read_host host _ _ Hh (default_port_range https))).
  unfold length_line, received_message. destruct (decide (body = [])); [done|]. cbn [read_headers].
  by rewrite (bind_Ok _ _ _ _ _ (read_length _ _ (conj (Nat2Z.is_nonneg _) Hb))).
Qed.

Lemma store_line_tryGet h text m name :
  tryGet name (headers_ (store_line h text m))
  = if LowercaseEqual name (Header_name h) then Some (default h (tryGet name (headers_ m))) else tryGet name (headers_ m).
Proof. apply (add_tryGet h (headers_ m) name). Qed.

(** The body is as long as the message says, if no header of the application says otherwise. *)
Lemma received_length host https body m :
  tryGet (B "Content-Length") (headers_ m) = None -> tryGet (B "Transfer-Encoding") (headers_ m) = None ->
  tryGet_TransferEncoding (headers_ (received_message host https body m)) = None
  /\ match tryGet_ContentLength (headers_ (received_message host https body m)) with
     | Some n => n = Z.of_nat (length body) | None => body = [] end.
Proof.
  intros Hc Ht. unfold tryGet_TransferEncoding, tryGet_ContentLength, received_message.
  destruct (decide (body = [])) as [->|Hb].
  - rewrite !(store_line_tryGet (HHost _ _)), !(store_line_tryGet (HUserAgent _)), Hc, Ht.
    by repeat change (LowercaseEqual (B _) (Header_name _)) with false.
  - rewrite !(store_line_tryGet (HContentLength _)), !(store_line_tryGet (HHost _ _)), !(store_line_tryGet (HUserAgent _)), Hc, Ht.
    done.
Qed.

(** The lines the client writes have the form the parser expects. *)
Lemma to_string_line_ok n : 0 <= n -> (CR ∉ to_string n) /\ head (to_string n) <> Some (chr 32).
Proof.
  intros Hn. rewrite to_string_pos by done. pose proof (to_string_u_digits n Hn) as F. rewrite list.Forall_forall in F.
  split.
  - intros Hin. by apply F in Hin.
  - intros E%head_Some_elem_of. by apply F in E.
Qed.

Lemma cookie_line_ok cs :
  Forall pair_ok (pairs cs) -> (CR ∉ cookie_list true cs) -> header_ok (B "Cookie", cookie_list true cs).
Proof.
  intros Hcs Hcr. split_and!; [by apply find_char_None..|done|]. cbn [snd]. destruct cs as [|c cs]; [done|].
  inversion Hcs as [|? ? (_ & _ & Hb) _]; subst. cbn [cookie_list app fst] in *. destruct (name c) as [|a l]; [done|].
  cbn. intros [= ->]. by vm_compute in Hb.
Qed.

Lemma own_lines_ok host https body :
  name_ok host ->
  Forall header_ok ([(B "User-Agent", UA); (B "Host", Host_write host (default_port https))] ++ length_line body).
Proof.
  intros (Hne & _ & _ & _ & Hcr & Hsp & _). constructor; [|constructor].
  - split_and!; [by apply find_char_None..|done].
  - split_and!; [by apply find_char_None..| |]; cbn [fst snd]; unfold Host_write.
    + intros [Hin|Hin]%elem_of_app; [done|]. revert Hin. apply find_char_None. by destruct https.
    + by destruct host.
  - unfold length_line. case_decide; [constructor|]. repeat constructor; cbn [fst snd].
    1-2: by apply find_char_None.
    all: by apply to_string_line_ok, Nat2Z.is_nonneg.
Qed.

(** What the first line of the request makes of a new request. *)
Definition started (r : Request) (path : bytes) : Request :=
  with_line (method_ r) (path_text path) (param_order (query_ r)) Http11 Request_default.

(** A request whose parts have no byte that means something to the parser, and which says
    itself neither how long the body is nor how it is encoded; the parser accepts its own
    headers: it makes [msg] of the cookies and of them. *)
Record sendable (r : Request) (host path : bytes) (https : bool) (cs : list Cookie) (own : list (bytes * bytes))
    (msg : Message) : Prop := {
  url : resource_ r = scheme_text https ++ host ++ path;
  host_ok : name_ok host;
  path_starts : path = [] \/ head path = Some (chr 47);
  path_fits : path_ok path;
  params_fit : Forall param_ok (param_order (query_ r));
  cookies_listed : CookieJar_list jar_order values_order (cookies_ (request_message r)) = Ok cs;
  cookies_fit : Forall pair_ok (pairs cs) /\ (CR ∉ cookie_list true cs);
  headers_built : built (headers_ (request_message r));
  headers_written : own_lines (Collection_list header_order (headers_ (request_message r))) = Ok own;
  headers_fit : Forall header_ok own;
  headers_read : read_headers own (store_cookies cs (request_message (started r path))) = (msg, Ok tt);
  no_length : tryGet (B "Content-Length") (headers_ (request_message r)) = None;
  no_encoding : tryGet (B "Transfer-Encoding") (headers_ (request_message r)) = None;
  body_fits : Z.of_nat (length (body_ (request_message r))) <= Z.min size_max memory_limit }.

(** *** The typed headers at the other end *)

(** What the server has for a header: what its class reads of what it wrote. *)
Definition reread (h : Header) : option Header :=
  match Header_write param_order h with Ok text => read_as (Header_name h) text | _ => None end.

Lemma read_as_data name v h0 h :
  makeHeader name = Ok h0 -> (forall str len, (Header_parseRaw str len h0).1 = h (take len str)) ->
  read_as name v = Some (h v).
Proof. intros E Ep. unfold read_as. by rewrite E, Ep, take_app_length. Qed.

(** The classes that keep their text read what they write, and so do those of the codings
    and of the connection; [Allow] comes back empty and [ETag] not at all. *)
Lemma reread_same h :
  match h with
  | HAccessControlAllowOrigin _ | HAccessControlAllowHeaders _ | HAccessControlExposeHeaders _
  | HAccessControlAllowMethods _ | HAuthorization _ | HLocation _ | HUserAgent _
  | HContentEncoding _ | HConnection _ => reread h = Some h
  | HAllow _ => reread h = Some (HAllow [])
  | HETag _ _ => reread h = None
  | _ => True
  end.
Proof.
  destruct h as [| v | v | v | v | | | c | | e | | | | v | | | | | | v | | v]; try done.
  1-4, 7-9: unfold reread; cbn [Header_write]; eapply (read_as_data _ v); [vm_compute; reflexivity|done].
  - by destruct c.
  - by destruct e.
Qed.

(** The client adds its own to those the application has not set. *)
Definition received_header (r : Request) (host : bytes) (https : bool) (k : Class.t) : option Header :=
  match tryGet (class_Name k) (headers_ (request_message r)) with
  | Some h => reread h
  | None =>
      match k with
      | Class.UserAgent => Some (HUserAgent UA)
      | Class.Host => Some (HHost host (default_port https))
      | Class.ContentLength =>
          let body := body_ (request_message r) in
          if decide (body = []) then None else Some (HContentLength (Z.of_nat (length body)))
      | _ => None
      end
  end.

Lemma Collection_list_find c k :
  Collection_wf c ->
  List.find (fun h => bool_decide (class_of h = k)) (Collection_list header_order c) = tryGet (class_Name k) c.
Proof.
  intros Hc. assert (forall h, In h (Collection_list header_order c) <-> exists n e, headers c !! n = Some (e, h)) as Hin.
  { intros h. unfold Collection_list. rewrite in_map_iff. split.
    - intros ([n [e h']] & <- & Hi). apply list_elem_of_In in Hi. rewrite header_order_ok, elem_of_map_to_list in Hi. cbn. eauto.
    - intros (n & e & El). exists (n, (e, h)). split; [done|]. apply list_elem_of_In. by rewrite header_order_ok, elem_of_map_to_list. }
  destruct (List.find _ _) as [h|] eqn:E.
  - apply find_some in E as [(n & e & El)%Hin Ek%bool_decide_eq_true]. destruct (Hc _ _ _ El) as [_ ->].
    rewrite Header_name_class, Ek in El. unfold tryGet. by rewrite El.
  - unfold tryGet. destruct (headers c !! _) as [[e h]|] eqn:El; [|done]. exfalso.
    pose proof (find_none _ _ E h (proj2 (Hin h) (ex_intro _ _ (ex_intro _ _ El)))) as Ef.
    apply bool_decide_eq_false in Ef. apply Ef. apply (wf_class c); [done|]. unfold tryGet. by rewrite El.
Qed.

Lemma own_lines_first l own k :
  own_lines l = Ok own ->
  match first_line (class_Name k) own with Some (n, v) => read_as n v | None => None end
  = match List.find (fun h => bool_decide (class_of h = k)) l with Some h => reread h | None => None end
  /\ Forall (fun h => no_cookie h.1) own.
Proof.
  revert own. induction l as [|h l IH]; intros own; cbn [own_lines List.find]; [intros [= <-]; by split|].
  destruct (Header_write param_order h) as [t|e| |] eqn:Ew; [|done..]. cbn.
  destruct (own_lines l) as [o|e| |]; [|done..]. intros [= <-]. destruct (IH o eq_refl) as [E Hn].
  split; [|constructor; [rewrite Header_name_class; apply class_no_cookie|done]].
  unfold first_line. cbn [List.find fst]. rewrite class_LowercaseEqual. case_bool_decide; [|done]. unfold reread. by rewrite Ew.
Qed.

Lemma own_lines_written l own h : own_lines l = Ok own -> In h l -> exists text, Header_write param_order h = Ok text.
Proof.
  revert own. induction l as [|h' l IH]; intros own; [done|]. cbn [own_lines].
  destruct (Header_write param_order h') as [t|e| |] eqn:Ew; [|done..]. cbn.
  destruct (own_lines l) as [o|e| |]; [|done..]. intros _ [->|Hin]; [by exists t|]. by apply (IH o).
Qed.

Lemma received_tryGet host https body m k :
  tryGet (class_Name k) (headers_ (received_message host https body m))
  = match tryGet (class_Name k) (headers_ m), k with
    | Some h, _ => Some h
    | None, Class.UserAgent => Some (HUserAgent UA)
    | None, Class.Host => Some (HHost host (default_port https))
    | None, Class.ContentLength => if decide (body = []) then None else Some (HContentLength (Z.of_nat (length body)))
    | None, _ => None
    end.
Proof.
  unfold received_message. destruct (decide (body = [])); rewrite !store_line_tryGet, !class_LowercaseEqual; cbn [class_of];
    by destruct k, (tryGet _ (headers_ m)).
Qed.

Section Received.
Context {r : Request} {host path : bytes} {https : bool} {cs : list Cookie} {own : list (bytes * bytes)} {msg : Message}.
Hypothesis Hr : sendable r host path https cs own msg.

Lemma started_headers : headers_ (request_message (started r path)) = Collection_empty.
Proof.
  unfold started, with_line. cbn. generalize (param_order (query_ r)) as l. clear.
  enough (forall l r0, headers_ (request_message (add_all_params l r0)) = headers_ (request_message r0)) as E by (intros l; by rewrite E).
  induction l as [|[k v] l IH]; intros r0; [done|]. cbn. by rewrite IH.
Qed.

Lemma own_tryGet k :
  tryGet (class_Name k) (headers_ msg)
  = match tryGet (class_Name k) (headers_ (request_message r)) with Some h => reread h | None => None end.
Proof.
  pose proof (built_wf _ (headers_built _ _ _ _ _ _ _ Hr)) as Hw.
  destruct (own_lines_first _ _ k (headers_written _ _ _ _ _ _ _ Hr)) as [E _].
  rewrite (read_headers_tryGet own _ msg _ (class_no_cookie k) (headers_read _ _ _ _ _ _ _ Hr)).
  change (tryGet (class_Name k) (headers_ (store_cookies _ ?m))) with (tryGet (class_Name k) (headers_ m)).
  rewrite started_headers, E, Collection_list_find by done. done.
Qed.

Lemma received_wf m : Collection_wf (headers_ m) -> Collection_wf (headers_ (received_message host https (body_ (request_message r)) m)).
Proof. intros Hm. unfold received_message. destruct (decide _); by repeat apply add_wf. Qed.

Lemma own_wf : Collection_wf (headers_ msg).
Proof.
  apply (read_headers_wf own (store_cookies cs (request_message (started r path)))); [|by apply Hr].
  change (Collection_wf (Collection_addRaw {| raw_name := B "Cookie"; raw_value := cookie_list true cs |} (headers_ (request_message (started r path))))).
  rewrite started_headers. apply Collection_empty_wf.
Qed.

(** Only an [ETag] is written and not read at all. *)
Lemma own_unread h k : tryGet (class_Name k) (headers_ (request_message r)) = Some h -> reread h = None -> k = Class.ETag.
Proof.
  pose proof (built_wf _ (headers_built _ _ _ _ _ _ _ Hr)) as Hw. intros E. pose proof (wf_class _ _ _ Hw E) as Ek.
  rewrite <- Collection_list_find in E by done. apply find_some in E as [Hin _].
  destruct (own_lines_written _ _ _ (headers_written _ _ _ _ _ _ _ Hr) Hin) as [text Et].
  unfold reread, read_as, makeHeader. rewrite Et, Header_name_class, Ek. by destruct k.
Qed.

Lemma received_typed k :
  tryGet_as k (headers_ (received_message host https (body_ (request_message r)) msg)) = Ok (received_header r host https k).
Proof.
  rewrite tryGet_as_wf by apply received_wf, own_wf. rewrite received_tryGet, own_tryGet. unfold received_header. f_equal.
  destruct (tryGet (class_Name k) (headers_ (request_message r))) as [h|] eqn:E; [|by destruct k].
  destruct (reread h) as [h'|] eqn:Er; [done|]. apply (own_unread h k) in Er; [by subst|done].
Qed.

Lemma own_length : tryGet (B "Content-Length") (headers_ msg) = None.
Proof. pose proof (own_tryGet Class.ContentLength) as E. cbn [class_Name] in E. by rewrite (no_length _ _ _ _ _ _ _ Hr) in E. Qed.
Lemma own_encoding : tryGet (B "Transfer-Encoding") (headers_ msg) = None.
Proof. pose proof (own_tryGet Class.TransferEncoding) as E. cbn [class_Name] in E. by rewrite (no_encoding _ _ _ _ _ _ _ Hr) in E. Qed.

Lemma received_cookies : cookies_ msg = fold_left jar_add_pair (pairs cs) ∅.
Proof.
  destruct (own_lines_first _ _ Class.Host (headers_written _ _ _ _ _ _ _ Hr)) as [_ Hn].
  by rewrite (read_headers_cookies _ _ _ Hn (headers_read _ _ _ _ _ _ _ Hr)).
Qed.
End Received.

(** C3. A request the client writes is the one the server's parser makes of the text, if
    none of its parts has a byte that means something to the parser (the conditions of
    [sendable]), it says nothing of the body's length or coding itself, and the parser
    accepts its headers.  The method, the path and the parameters of the query are those
    of the request, and so are the names and values of the cookies and the body; the bytes
    after it are left unread.  The typed header of each class is what the class reads of
    the text it wrote ([reread]: the same header for a class that reads what it writes;
    [Allow] reads nothing, and [ETag] is not registered), or the client's own (agent, host
    with the port of the scheme, length of the body) where the application set none. *)
Theorem client_request_parsed r host path https cs own msg :
  sendable r host path https cs own msg ->
  let body := body_ (request_message r) in
  let received := set_body body (received_message host https body msg) in
  (exists text, writeRequest r = Ok text /\ forall max rest, (length (text ++ rest) <= max)%nat ->
    ParserBase_parse (ParserBase_feed (text ++ rest) (ParserImpl_new max)).2
    = (parsed max text rest (set_message received (started r path)), Ok Done))
  /\ (forall k, tryGet_as k (headers_ received) = Ok (received_header r host https k))
  /\ cookies_ received = fold_left jar_add_pair (pairs cs) ∅.
Proof.
  intros Hr body received. split_and!.
  2: { intros k. apply (received_typed Hr). }
  2: { transitivity (cookies_ msg); [|apply (received_cookies Hr)]. unfold received, received_message. by destruct (decide _). }
  pose proof (received_length host https body msg (own_length Hr) (own_encoding Hr)) as [Ht Hlen].
  destruct Hr as [Er Hh Hp Hok Hq Ec [Hcs Hcr] _ Eo Hown Em _ _ Hb].
  assert (splitUrl (resource_ r) false = ((host, path), https)) as Eu.
  { rewrite Er. apply splitUrl_scheme; [apply Hh|]. destruct Hp as [->|Hp]; [by left|right].
    destruct path as [|c l]; [done|]. injection Hp as ->. exists (chr 47), l. split; [done|]. right. left. }
  eexists. split; [by apply (writeRequest_text r host path https cs own)|]. intros max rest Hl.
  assert (Z.of_nat (length body) <= size_max /\ Z.of_nat (length body) <= memory_limit) as [Hb1 Hb2] by (fold body in Hb; lia).
  apply parse_request_text; try done.
  - unfold path_text. case_decide; [done|]. constructor; [|done]. rewrite !not_elem_of_cons. repeat split; [done..|apply not_elem_of_nil].
  - constructor; [by apply cookie_line_ok|]. apply list.Forall_app. split; [done|]. by apply own_lines_ok.
  - cbn [sent_lines read_headers]. rewrite (bind_Ok _ _ _ _ _ (read_cookies cs _ Hcs)).
    rewrite (read_headers_app _ _ _ _ Em). by apply read_own_lines.
Qed.
End RoundTrip.

(** ** Witnesses *)

Definition sent_request : Request :=
  RequestBuilder_body (B "hello")
    (RequestBuilder_cookie (Cookie_new (B "id") (B "7"))
       (RequestBuilder_header (HAuthorization (B "Basic dTpw"))
          (RequestBuilder_params {[ B "x" := B "1" ]} (prepareRequest (B "https://example.com/a/b") Method.Post)))).

Definition sent_request_message : Message :=
  (read_headers (H := no_dates) (H0 := no_resolver) [(B "Authorization", B "Basic dTpw")]
     (store_cookies [Cookie_new (B "id") (B "7")] (request_message (started (H2 := plain_order) sent_request (B "/a/b"))))).1.

Lemma sent_request_sendable :
  sendable (H := no_dates) (H0 := no_resolver) (H1 := terabyte) (H2 := plain_order) sent_request
    (B "example.com") (B "/a/b") true [Cookie_new (B "id") (B "7")] [(B "Authorization", B "Basic dTpw")] sent_request_message.
Proof.
  split.
  - reflexivity.
  - split_and!; try (by apply find_char_None); try done. repeat constructor; set_solver.
  - by right.
  - repeat constructor; set_solver.
  - vm_compute. repeat constructor; set_solver.
  - vm_compute. reflexivity.
  - split; [|by apply find_char_None]. repeat constructor; by apply find_char_None.
  - apply (built_add (HAuthorization (B "Basic dTpw"))), built_empty.
  - vm_compute. reflexivity.
  - repeat constructor; try (by apply find_char_None); done.
  - vm_compute. reflexivity.
  - vm_compute. reflexivity.
  - vm_compute. reflexivity.
  - vm_compute. discriminate.
Qed.

Lemma client_request_parsed_witness :
  let received := set_body (B "hello") (received_message (B "example.com") true (B "hello") sent_request_message) in
  (exists text, writeRequest (H := no_dates) (H0 := no_resolver) (H1 := plain_order) sent_request = Ok text
   /\ forall max rest, (length (text ++ rest) <= max)%nat ->
     ParserBase_parse (H := no_dates) (H0 := no_resolver) (H1 := terabyte) (ParserBase_feed (text ++ rest) (ParserImpl_new max)).2
     = (parsed max text rest (set_message received (started (H2 := plain_order) sent_request (B "/a/b"))), Ok Done))
  /\ tryGet_as Class.Authorization (headers_ received) = Ok (Some (HAuthorization (B "Basic dTpw")))
  /\ tryGet_as Class.Host (headers_ received) = Ok (Some (HHost (B "example.com") 443)).
Proof.
  destruct (client_request_parsed (H := no_dates) (H0 := no_resolver) (H1 := terabyte) (H2 := plain_order)
              _ _ _ _ _ _ _ sent_request_sendable) as (Hp & Hk & _).
  split; [exact Hp|]. split; [refine (eq_trans (Hk Class.Authorization) _)|refine (eq_trans (Hk Class.Host) _)]; vm_compute; reflexivity.
Defined.

Lemma www_cut_from_name_witness :
  splitUrl (B "http://wwwater.org/x") true = ((B "ater.org", B "/x"), false).
Proof. apply (www_cut_from_name (chr 97) (B "ter.org") (B "/x")); [repeat constructor; set_solver|right; exists (chr 47), (B "x"); by repeat constructor|done]. Defined.
