(* ===== verification/Client.v ===== *)
(** * The client: [src/client/client.cc], [include/pistache/client.h]

    Connections, their pool, the client's queues of requests and the client's
    transport.  The objects live in a store, a [weak_ptr] is an address that may have
    nothing at it.  Promises are names: what settles one is an event, and the
    application's continuations are not run.  The system calls are an interface.  The
    build without TLS and libevent; the threads take turns between operations, so a
    mutex matters only where its owner locks it again, which is undefined. *)

From S2P Require Import Prelude Cxx Stream HttpDefs QValue Mime Cookie Net HttpHeader HttpHeaders HttpMessage.
From S2P Require Import HttpResponse HttpParser ClientRequest TimerPool.

Local Open Scope Z_scope.

(** ** Data *)

(** [std::function<void()>]: null, or the closure that releases a connection and looks
    for what to do next. *)
Inductive OnDone : Set := NoOnDone | ReleaseAndProcess (conn : nat).

Record RequestEntry : Set := { promise : nat; timer : option nat; onDone : OnDone }.
Record RequestData : Type := { data_promise : nat; request : Request; data_onDone : OnDone }.

Inductive ConnectionState : Set := NotConnected | Connecting | Connected.
#[export] Instance ConnectionState_eq_dec : EqDecision ConnectionState.
Proof. solve_decision. Defined.

(** [isUsed] is [state_], [conn_fd] what [fdDirectOrFromSsl] gives. *)
Record Connection : Type := {
  conn_fd : option Fd; requestEntry : option RequestEntry; isUsed : bool; connectionState_ : ConnectionState;
  transport_ : option nat; conn_queue : list RequestData; timerPool_ : TimerPool; parser_ : ResponseParser }.

(** [Transport::ConnectionEntry], with whether its promise is settled, and
    [Transport::RequestEntry]. *)
Record ConnectEntry : Set := { entry_conn : nat; addr : IP; settled : bool }.
Record SendEntry : Set := { send_conn : nat; send_timer : option nat; send_buffer : bytes }.

Record Transport : Type := {
  sends : list SendEntry; connects : list ConnectEntry; connections : gmap Fd ConnectEntry;
  timeouts : gmap Fd nat; timeoutsLock : bool; stopHandling : bool }.
Definition Transport_new : Transport :=
  {| sends := []; connects := []; connections := ∅; timeouts := ∅; timeoutsLock := false; stopHandling := false |}.

Inductive event : Type :=
  | Wrote (fd : Fd) (b : bytes)
  | ConnectCalled (fd : Fd)
  | CloseFd (fd : Fd)
  | RegisterFd (fd : Fd)
  | ModifyFd (fd : Fd)
  | SetTime (fd : Fd) (spec : Z * Z)
  | Printed
  | Resolve (promise : nat) (response : Response)
  | Reject (promise : nat) (what : bytes).

(** [pool] is [ConnectionPool::conns]; [thread] is the transport whose thread runs, if any. *)
Record World : Type := {
  pool : gmap bytes (list nat); heap : gmap nat Connection; brk : nat;
  requestsQueues : gmap bytes (list RequestData); queuesLock : bool; stopProcessRequestQueues : bool;
  ioIndex : Z; transports : list Transport; thread : option nat; calls : nat; events : list event }.

(** ** Setters *)

Definition set_conn_fd (fd : option Fd) (k : Connection) : Connection :=
  {| conn_fd := fd; requestEntry := requestEntry k; isUsed := isUsed k; connectionState_ := connectionState_ k;
     transport_ := transport_ k; conn_queue := conn_queue k; timerPool_ := timerPool_ k; parser_ := parser_ k |}.
Definition set_requestEntry (e : option RequestEntry) (k : Connection) : Connection :=
  {| conn_fd := conn_fd k; requestEntry := e; isUsed := isUsed k; connectionState_ := connectionState_ k;
     transport_ := transport_ k; conn_queue := conn_queue k; timerPool_ := timerPool_ k; parser_ := parser_ k |}.
Definition set_isUsed (b : bool) (k : Connection) : Connection :=
  {| conn_fd := conn_fd k; requestEntry := requestEntry k; isUsed := b; connectionState_ := connectionState_ k;
     transport_ := transport_ k; conn_queue := conn_queue k; timerPool_ := timerPool_ k; parser_ := parser_ k |}.
Definition set_connectionState (s : ConnectionState) (k : Connection) : Connection :=
  {| conn_fd := conn_fd k; requestEntry := requestEntry k; isUsed := isUsed k; connectionState_ := s;
     transport_ := transport_ k; conn_queue := conn_queue k; timerPool_ := timerPool_ k; parser_ := parser_ k |}.
Definition set_transport (t : nat) (k : Connection) : Connection :=
  {| conn_fd := conn_fd k; requestEntry := requestEntry k; isUsed := isUsed k; connectionState_ := connectionState_ k;
     transport_ := Some t; conn_queue := conn_queue k; timerPool_ := timerPool_ k; parser_ := parser_ k |}.
Definition set_conn_queue (l : list RequestData) (k : Connection) : Connection :=
  {| conn_fd := conn_fd k; requestEntry := requestEntry k; isUsed := isUsed k; connectionState_ := connectionState_ k;
     transport_ := transport_ k; conn_queue := l; timerPool_ := timerPool_ k; parser_ := parser_ k |}.
Definition set_timerPool (p : TimerPool) (k : Connection) : Connection :=
  {| conn_fd := conn_fd k; requestEntry := requestEntry k; isUsed := isUsed k; connectionState_ := connectionState_ k;
     transport_ := transport_ k; conn_queue := conn_queue k; timerPool_ := p; parser_ := parser_ k |}.
Definition set_parser (p : ResponseParser) (k : Connection) : Connection :=
  {| conn_fd := conn_fd k; requestEntry := requestEntry k; isUsed := isUsed k; connectionState_ := connectionState_ k;
     transport_ := transport_ k; conn_queue := conn_queue k; timerPool_ := timerPool_ k; parser_ := p |}.

Definition set_sends (l : list SendEntry) (t : Transport) : Transport :=
  {| sends := l; connects := connects t; connections := connections t; timeouts := timeouts t;
     timeoutsLock := timeoutsLock t; stopHandling := stopHandling t |}.
Definition set_connects (l : list ConnectEntry) (t : Transport) : Transport :=
  {| sends := sends t; connects := l; connections := connections t; timeouts := timeouts t;
     timeoutsLock := timeoutsLock t; stopHandling := stopHandling t |}.
Definition set_connections (f : gmap Fd ConnectEntry -> gmap Fd ConnectEntry) (t : Transport) : Transport :=
  {| sends := sends t; connects := connects t; connections := f (connections t); timeouts := timeouts t;
     timeoutsLock := timeoutsLock t; stopHandling := stopHandling t |}.
Definition set_timeouts (f : gmap Fd nat -> gmap Fd nat) (t : Transport) : Transport :=
  {| sends := sends t; connects := connects t; connections := connections t; timeouts := f (timeouts t);
     timeoutsLock := timeoutsLock t; stopHandling := stopHandling t |}.
Definition set_timeoutsLock (b : bool) (t : Transport) : Transport :=
  {| sends := sends t; connects := connects t; connections := connections t; timeouts := timeouts t;
     timeoutsLock := b; stopHandling := stopHandling t |}.
Definition set_stopHandling (t : Transport) : Transport :=
  {| sends := sends t; connects := connects t; connections := connections t; timeouts := timeouts t;
     timeoutsLock := timeoutsLock t; stopHandling := true |}.

Definition set_pool (f : gmap bytes (list nat) -> gmap bytes (list nat)) (w : World) : World :=
  {| pool := f (pool w); heap := heap w; brk := brk w; requestsQueues := requestsQueues w;
     queuesLock := queuesLock w; stopProcessRequestQueues := stopProcessRequestQueues w; ioIndex := ioIndex w; transports := transports w;
     thread := thread w; calls := calls w; events := events w |}.
Definition set_heap (f : gmap nat Connection -> gmap nat Connection) (w : World) : World :=
  {| pool := pool w; heap := f (heap w); brk := brk w; requestsQueues := requestsQueues w;
     queuesLock := queuesLock w; stopProcessRequestQueues := stopProcessRequestQueues w; ioIndex := ioIndex w; transports := transports w;
     thread := thread w; calls := calls w; events := events w |}.
Definition set_brk (n : nat) (w : World) : World :=
  {| pool := pool w; heap := heap w; brk := n; requestsQueues := requestsQueues w;
     queuesLock := queuesLock w; stopProcessRequestQueues := stopProcessRequestQueues w; ioIndex := ioIndex w; transports := transports w;
     thread := thread w; calls := calls w; events := events w |}.
Definition set_queues (f : gmap bytes (list RequestData) -> gmap bytes (list RequestData)) (w : World) : World :=
  {| pool := pool w; heap := heap w; brk := brk w; requestsQueues := f (requestsQueues w);
     queuesLock := queuesLock w; stopProcessRequestQueues := stopProcessRequestQueues w; ioIndex := ioIndex w; transports := transports w;
     thread := thread w; calls := calls w; events := events w |}.
Definition set_queuesLock (b : bool) (w : World) : World :=
  {| pool := pool w; heap := heap w; brk := brk w; requestsQueues := requestsQueues w;
     queuesLock := b; stopProcessRequestQueues := stopProcessRequestQueues w; ioIndex := ioIndex w; transports := transports w;
     thread := thread w; calls := calls w; events := events w |}.
Definition set_stop (b : bool) (w : World) : World :=
  {| pool := pool w; heap := heap w; brk := brk w; requestsQueues := requestsQueues w;
     queuesLock := queuesLock w; stopProcessRequestQueues := b; ioIndex := ioIndex w; transports := transports w;
     thread := thread w; calls := calls w; events := events w |}.
Definition set_ioIndex (z : Z) (w : World) : World :=
  {| pool := pool w; heap := heap w; brk := brk w; requestsQueues := requestsQueues w;
     queuesLock := queuesLock w; stopProcessRequestQueues := stopProcessRequestQueues w; ioIndex := z; transports := transports w;
     thread := thread w; calls := calls w; events := events w |}.
Definition set_transports (f : list Transport -> list Transport) (w : World) : World :=
  {| pool := pool w; heap := heap w; brk := brk w; requestsQueues := requestsQueues w;
     queuesLock := queuesLock w; stopProcessRequestQueues := stopProcessRequestQueues w; ioIndex := ioIndex w; transports := f (transports w);
     thread := thread w; calls := calls w; events := events w |}.
Definition set_thread (t : option nat) (w : World) : World :=
  {| pool := pool w; heap := heap w; brk := brk w; requestsQueues := requestsQueues w;
     queuesLock := queuesLock w; stopProcessRequestQueues := stopProcessRequestQueues w; ioIndex := ioIndex w; transports := transports w;
     thread := t; calls := calls w; events := events w |}.
Definition set_calls (n : nat) (w : World) : World :=
  {| pool := pool w; heap := heap w; brk := brk w; requestsQueues := requestsQueues w;
     queuesLock := queuesLock w; stopProcessRequestQueues := stopProcessRequestQueues w; ioIndex := ioIndex w; transports := transports w;
     thread := thread w; calls := n; events := events w |}.
Definition add_event (e : event) (w : World) : World :=
  {| pool := pool w; heap := heap w; brk := brk w; requestsQueues := requestsQueues w;
     queuesLock := queuesLock w; stopProcessRequestQueues := stopProcessRequestQueues w; ioIndex := ioIndex w; transports := transports w;
     thread := thread w; calls := calls w; events := events w ++ [e] |}.

(** ** Access *)

Definition emit (e : event) : M World unit := modify (add_event e).
Definition of_option {A} (o : option A) : M World A := lift (match o with Some a => Ok a | None => UB end).
Definition on_conn (c : nat) (f : Connection -> Connection) : M World unit := modify (set_heap (alter f c)).
Definition conn_at (c : nat) : M World Connection := w ← get; of_option (heap w !! c).
Definition on_transport (t : nat) (f : Transport -> Transport) : M World unit := modify (set_transports (alter f t)).
Definition transport_at (t : nat) : M World Transport := w ← get; of_option (transports w !! t).

(** [weak_ptr::lock]. *)
Definition lock_conn (c : nat) : M World (option Connection) := w ← get; mret (heap w !! c).

(** A scope that holds a mutex: an exception unlocks it. *)
Definition finally {A} (m : M World A) (fin : World -> World) : M World A := fun w => let '(w', r) := m w in (fin w', r).
Definition with_queuesLock {A} (m : M World A) : M World A :=
  w ← get;
  if queuesLock w then lift UB else _ ← modify (set_queuesLock true); finally m (set_queuesLock false).
Definition with_timeoutsLock {A} (t : nat) (m : M World A) : M World A :=
  k ← transport_at t;
  if timeoutsLock k then lift UB
  else _ ← on_transport t (set_timeoutsLock true);
       finally m (set_transports (alter (set_timeoutsLock false) t)).

(** An operation of the connection's timer pool. *)
Definition on_timers {A} (c : nat) (f : TimerPool -> TimerPool * result A) : M World A :=
  k ← conn_at c;
  let '(p, r) := f (timerPool_ k) in
  _ ← on_conn c (set_timerPool p); lift r.

(** ** The environment *)

Inductive send_result : Set := Sent (n : nat) | Again | Refused | SendFailed.
Inductive recv_result : Set := Received (b : bytes) | RecvAgain | RecvFailed (what : bytes).

(** What the [n]-th system call answers: how much of so many bytes a socket takes; at
    most so many bytes of what it has; whether a connection can begin; a new socket and
    a new timer; whether a timer can be set.  The addresses of a host and a port, the
    text of the system's errors, and the order of an unordered map. *)
Class System := {
  sys_send : nat -> Fd -> nat -> send_result;
  sys_recv : nat -> Fd -> nat -> recv_result;
  sys_connect : nat -> Fd -> IP -> bool;
  sys_socket : nat -> option Fd;
  sys_timerfd : nat -> option Fd;
  sys_settime : nat -> bool;
  sys_addresses : bytes -> bytes -> option (list IP);
  error_text : bytes;
  queues_order : gmap bytes (list RequestData) -> list bytes;
  sys_send_ok n fd len k : sys_send n fd len = Sent k -> (k <= len)%nat;
  sys_recv_ok n fd len b : sys_recv n fd len = Received b -> (length b <= len)%nat;
  queues_order_ok m : queues_order m ≡ₚ (map_to_list m).*1 }.

Section Operations.
Context `{DateLib, Resolver, StringMemory, Iteration, System}.
Context (maxConnectionsPerHost maxResponseSize : nat).

Definition call : M World nat := w ← get; _ ← modify (set_calls (S (calls w))); mret (calls w).

(** ** [ConnectionPool] *)

Definition Connection_new : Connection :=
  {| conn_fd := None; requestEntry := None; isUsed := false; connectionState_ := NotConnected; transport_ := None;
     conn_queue := []; timerPool_ := TimerPool_new DefaultTimerPoolSize; parser_ := ParserImpl_new maxResponseSize |}.

Definition make_connection : M World nat :=
  w ← get; _ ← put (set_heap <[brk w := Connection_new]> (set_brk (S (brk w)) w)); mret (brk w).
Fixpoint make_connections (n : nat) : M World (list nat) :=
  match n with
  | O => mret []
  | S n' => c ← make_connection; l ← make_connections n'; mret (c :: l)
  end.

Definition isIdle (c : nat) : M World bool := k ← conn_at c; mret (negb (isUsed k)).
Definition isConnected (c : nat) : M World bool := k ← conn_at c; mret (bool_decide (connectionState_ k = Connected)).
Definition setAsIdle (c : nat) : M World unit := on_conn c (set_isUsed false).
Definition tryUse (c : nat) : M World bool :=
  k ← conn_at c; if isUsed k then mret false else _ ← on_conn c (set_isUsed true); mret true.

(** The connections of a domain, made when they are first asked for. *)
Definition connections_of (domain : bytes) : M World (list nat) :=
  w ← get;
  match pool w !! domain with
  | Some l => mret l
  | None => l ← make_connections maxConnectionsPerHost; _ ← modify (set_pool <[domain := l]>); mret l
  end.
Fixpoint first_idle (l : list nat) : M World (option nat) :=
  match l with
  | [] => mret None
  | c :: l' => ok ← tryUse c; if ok : bool then mret (Some c) else first_idle l'
  end.
Definition pickConnection (domain : bytes) : M World (option nat) := l ← connections_of domain; first_idle l.
Definition releaseConnection (c : nat) : M World unit := setAsIdle c.

Fixpoint count_if (f : nat -> M World bool) (l : list nat) : M World nat :=
  match l with
  | [] => mret 0%nat
  | c :: l' => b ← f c; n ← count_if f l'; mret (if b : bool then S n else n)
  end.
Definition usedConnections (domain : bytes) : M World nat :=
  w ← get; count_if isConnected (default [] (pool w !! domain)).
Definition idleConnections (domain : bytes) : M World nat :=
  w ← get; count_if isIdle (default [] (pool w !! domain)).

(** ** The timers of a connection *)

Definition set_timer (c t : nat) (f : bool -> Entry -> result (Fd * (Z * Z))) : M World unit :=
  k ← conn_at c;
  entry ← of_option (timerPool_ k !! t);
  n ← call;
  '(fd, spec) ← lift (f (sys_settime n) entry);
  emit (SetTime fd spec).
Definition pick_timer (c : nat) : M World (option nat) := n ← call; on_timers c (pickTimer error_text (sys_timerfd n)).
Definition release_timer (c : nat) (t : option nat) : M World unit :=
  match t with
  | None => mret tt
  | Some t => _ ← set_timer c t (disarm error_text); on_timers c (fun p => (releaseTimer t p, Ok tt))
  end.

(** ** [Connection]: requests and answers *)

(** [done_] is what the closure of [onDone] does. *)
Section Performing.
Context (done_ : nat -> M World unit).

Definition call_onDone (f : OnDone) : M World unit :=
  match f with NoOnDone => mret tt | ReleaseAndProcess c => done_ c end.

Definition handleError (c : nat) (error : bytes) : M World unit :=
  k ← conn_at c;
  match requestEntry k with
  | None => mret tt
  | Some e =>
      _ ← release_timer c (timer e);
      _ ← emit (Reject (promise e) error);
      _ ← on_conn c (set_requestEntry None);
      call_onDone (onDone e)
  end.

(** A timer that is null is used. *)
Definition handleTimeout (c : nat) : M World unit :=
  k ← conn_at c;
  match requestEntry k with
  | None => mret tt
  | Some e =>
      _ ← (match timer e with None => lift UB | Some t => release_timer c (Some t) end);
      _ ← emit (Reject (promise e) (B "Timeout"));
      _ ← on_conn c (set_requestEntry None);
      call_onDone (onDone e)
  end.

(** [asyncSendRequestImpl], always with [FirstTry].  A request that is sent registers its
    timer; nothing waits for the promise of the sending. *)
Definition request_sent (t : nat) (req : SendEntry) : M World unit :=
  match send_timer req with
  | None => mret tt
  | Some timer =>
      with_timeoutsLock t (
        k ← conn_at (send_conn req);
        entry ← of_option (timerPool_ k !! timer);
        fd ← of_option (fd_ entry);
        _ ← on_transport t (set_timeouts (fun m => match m !! fd with Some _ => m | None => <[fd := send_conn req]> m end));
        _ ← on_timers (send_conn req) (fun p => (alter (fun e => (registerReactor e).1) timer p, Ok tt));
        if (registerReactor entry).2 then emit (RegisterFd fd) else mret tt)
  end.

(** [len] is what is left before a send, and is compared with what was written after it. *)
Fixpoint send_loop (fuel : nat) (t : nat) (fd : Fd) (req : SendEntry) (totalWritten : nat) : M World unit :=
  match fuel with
  | O => lift OutOfFuel
  | S fuel' =>
      let data := drop totalWritten (send_buffer req) in
      let len := (length (send_buffer req) - totalWritten)%nat in
      n ← call;
      match sys_send n fd len with
      | Again => throw (RuntimeError (B "Unimplemented, fix me!"))
      | Refused => handleError (send_conn req) (B "Could not send, connection refused")
      | SendFailed => handleError (send_conn req) (B "Could not send request")
      | Sent bytesWritten =>
          _ ← emit (Wrote fd (take bytesWritten data));
          let totalWritten := (totalWritten + bytesWritten)%nat in
          if (totalWritten =? len)%nat then request_sent t req else send_loop fuel' t fd req totalWritten
      end
  end.
Definition asyncSendRequestImpl (fuel : nat) (t : nat) (req : SendEntry) : M World unit :=
  conn ← lock_conn (send_conn req);
  match conn with
  | None => throw (RuntimeError (B "Send request error"))
  | Some k =>
      match conn_fd k with
      | None => handleError (send_conn req) (B "Could not send request")
      | Some fd => send_loop fuel t fd req 0
      end
  end.

Definition asyncSendRequest (fuel : nat) (t : nat) (req : SendEntry) : M World unit :=
  w ← get;
  if decide (thread w = Some t) then asyncSendRequestImpl fuel t req
  else on_transport t (fun k => set_sends (sends k ++ [req]) k).

Definition performImpl (fuel : nat) (c : nat) (request : Request) (p : nat) (f : OnDone) : M World unit :=
  buffer ← lift (writeRequest request);
  timer ← (if 0 <? HttpMessage.timeout_ request then
             t ← pick_timer c;
             match t with
             | None => lift UB
             | Some t => _ ← set_timer c t (armMs error_text (HttpMessage.timeout_ request)); mret (Some t)
             end
           else mret None);
  _ ← on_conn c (set_requestEntry (Some {| promise := p; timer := timer; onDone := f |}));
  k ← conn_at c;
  match transport_ k with
  | None => lift UB
  | Some t => asyncSendRequest fuel t {| send_conn := c; send_timer := timer; send_buffer := buffer |}
  end.

(** ** [Client::processRequestQueue] *)

(** The inner loop, for one domain; one unit of fuel per request. *)
Fixpoint process_domain (n : nat) (fuel : nat) (domain : bytes) : M World unit :=
  match n with
  | O => lift OutOfFuel
  | S n' =>
      conn ← pickConnection domain;
      match conn with
      | None => mret tt
      | Some c =>
          w ← get;
          match requestsQueues w !! domain with
          | None | Some [] => releaseConnection c
          | Some (data :: queue) =>
              _ ← modify (set_queues <[domain := queue]>);
              _ ← performImpl fuel c (request data) (data_promise data) (ReleaseAndProcess c);
              process_domain n' fuel domain
          end
      end
  end.
Fixpoint process_domains (fuel : nat) (domains : list bytes) : M World unit :=
  match domains with
  | [] => mret tt
  | domain :: domains' =>
      w ← get;
      _ ← process_domain (S (length (default [] (requestsQueues w !! domain)))) fuel domain;
      process_domains fuel domains'
  end.
Definition Client_processRequestQueue (fuel : nat) : M World unit :=
  w ← get;
  if stopProcessRequestQueues w then mret tt
  else with_queuesLock (
    w ← get;
    if stopProcessRequestQueues w then mret tt else process_domains fuel (queues_order (requestsQueues w))).
End Performing.

(** The closures of [doRequest] and [processRequestQueue]; each may run the other's
    [processRequestQueue]: one unit of [n] per level. *)
Fixpoint released (n fuel : nat) (c : nat) : M World unit :=
  match n with
  | O => lift OutOfFuel
  | S n' =>
      conn ← lock_conn c;
      match conn with
      | None => mret tt
      | Some _ => _ ← releaseConnection c; Client_processRequestQueue (released n' fuel) fuel
      end
  end.

(** By [ClientLevels.two_levels] more than two make no difference. *)
Definition levels : nat := 2.
Definition done_ (fuel : nat) : nat -> M World unit := released levels fuel.

(** [Connection::processRequestQueue], once connected. *)
Fixpoint process_queued (n fuel : nat) (c : nat) : M World unit :=
  match n with
  | O => lift OutOfFuel
  | S n' =>
      k ← conn_at c;
      match conn_queue k with
      | [] => mret tt
      | data :: queue =>
          _ ← on_conn c (set_conn_queue queue);
          _ ← performImpl (done_ fuel) fuel c (request data) (data_promise data) (data_onDone data);
          process_queued n' fuel c
      end
  end.
Definition Connection_processRequestQueue (fuel : nat) (c : nat) : M World unit :=
  k ← conn_at c; process_queued (S (length (conn_queue k))) fuel c.

(** What a move leaves of a response: empty containers, and the numbers. *)
Definition moved_out (r : Response) : Response :=
  {| response_message := {| version_ := version_ (response_message r); code_ := code_ (response_message r);
       body_ := []; cookies_ := ∅; headers_ := Collection_empty |} |}.

Definition run_parser (c : nat) : M World State :=
  k ← conn_at c;
  let '(p, r) := ParserBase_parse (parser_ k) in
  _ ← on_conn c (set_parser p); lift r.
Definition feed_parser (c : nat) (buffer : bytes) : M World bool :=
  k ← conn_at c;
  let '(ok, p) := ParserBase_feed buffer (parser_ k) in
  _ ← on_conn c (set_parser p); mret ok.

Definition finish_request (fuel : nat) (c : nat) : M World unit :=
  k ← conn_at c;
  match requestEntry k with
  | None => mret tt
  | Some e =>
      _ ← release_timer c (timer e);
      _ ← emit (Resolve (promise e) (object (parser_ k)));
      _ ← on_conn c (fun k => set_requestEntry None
            (set_parser (ParserImpl_reset (set_object (moved_out (object (parser_ k))) (parser_ k))) k));
      call_onDone (done_ fuel) (onDone e)
  end.
Definition handleResponsePacket (fuel : nat) (c : nat) (buffer : bytes) : M World unit :=
  catching (
    result ← feed_parser c buffer;
    if negb result then handleError (done_ fuel) c (B "Client: Too long packet")
    else
      state ← run_parser c;
      if decide (state = Done) then finish_request fuel c else mret tt)
    (fun ex => handleError (done_ fuel) c (what ex)).

(** ** Connecting and closing *)

(** [asyncConnect]: its promise's continuation is [connected]. *)
Definition asyncConnect (t c : nat) (address : IP) : M World unit :=
  on_transport t (fun k => set_connects (connects k ++ [{| entry_conn := c; addr := address; settled := false |}]) k).
Definition connected (fuel : nat) (c : nat) : M World unit :=
  _ ← on_conn c (set_connectionState Connected); Connection_processRequestQueue fuel c.

(** [connectSocket]: the first address a socket can be made for. *)
Fixpoint try_addresses (c : nat) (addrs : list IP) : M World unit :=
  match addrs with
  | [] => throw (RuntimeError (B "Failed to connect"))
  | address :: addrs' =>
      n ← call;
      match sys_socket n with
      | None => try_addresses c addrs'
      | Some sfd =>
          _ ← on_conn c (fun k => set_conn_fd (Some sfd) (set_connectionState Connecting k));
          k ← conn_at c;
          match transport_ k with None => lift UB | Some t => asyncConnect t c address end
      end
  end.
Definition connect (c : nat) (scheme : Scheme) (domain page : bytes) : M World unit :=
  address ← lift (makeWithDefaultPort domain (match scheme with Https => 443 | _ => 0 end) scheme (Some page));
  host ← lift (IP_toString (ip_ address));
  addrs ← lift (TRY error_text (sys_addresses host (to_string (addr_port address))));
  try_addresses c addrs.

(** [FdOrSslConn::close] *)
Definition close_fd (c : nat) : M World unit :=
  k ← conn_at c;
  match conn_fd k with
  | None => mret tt
  | Some fd => _ ← emit (CloseFd fd); on_conn c (set_conn_fd None)
  end.
Definition closeFromRemoteClosedConnection (c : nat) : M World unit :=
  _ ← on_conn c (set_connectionState NotConnected); close_fd c.
Definition close (c : nat) : M World unit :=
  k ← conn_at c;
  _ ← (match transport_ k with Some t => on_transport t set_stopHandling | None => mret tt end);
  closeFromRemoteClosedConnection c.

Fixpoint close_connected (l : list nat) : M World unit :=
  match l with
  | [] => mret tt
  | c :: l' => open ← isConnected c; _ ← (if open : bool then close c else mret tt); close_connected l'
  end.
(** [Client::shutdown] with [ConnectionPool::shutdown]; [domains] in the pool's order. *)
Definition shutdown (domains : list bytes) : M World unit :=
  _ ← modify (set_stop true);
  w ← get;
  close_connected (concat (map (fun d => default [] (pool w !! d)) domains)).

(** ** The client's transport *)

Fixpoint handle_sends (fuel : nat) (t : nat) (l : list SendEntry) : M World unit :=
  match l with
  | [] => mret tt
  | req :: l' =>
      _ ← on_transport t (set_sends l');
      _ ← asyncSendRequestImpl (done_ fuel) fuel t req;
      handle_sends fuel t l'
  end.
Definition handleRequestsQueue (fuel : nat) (t : nat) : M World unit := k ← transport_at t; handle_sends fuel t (sends k).

(** Rejecting the promise of [asyncConnect] prints the exception. *)
Definition insert_connection (t : nat) (fd : Fd) (entry : ConnectEntry) : M World unit :=
  on_transport t (set_connections (fun m => match m !! fd with Some _ => m | None => <[fd := entry]> m end)).
Definition handle_connect (t : nat) (data : ConnectEntry) : M World unit :=
  conn ← lock_conn (entry_conn data);
  match conn ≫= conn_fd with
  | None => emit Printed
  | Some fd =>
      n ← call;
      _ ← emit (ConnectCalled fd);
      if sys_connect n fd (addr data) then _ ← emit (RegisterFd fd); insert_connection t fd data else emit Printed
  end.
Fixpoint handle_connects (t : nat) (l : list ConnectEntry) : M World unit :=
  match l with
  | [] => mret tt
  | data :: l' => _ ← on_transport t (set_connects l'); _ ← handle_connect t data; handle_connects t l'
  end.
Definition handleConnectionQueue (t : nat) : M World unit := k ← transport_at t; handle_connects t (connects k).

(** [handleIncoming]: what there is is read into a buffer that doubles, up to 8 MB. *)
Definition MaxBuffer : Z := 4096.
Definition max_max_buffer : Z := 8 * 1024 * 1024.
Fixpoint incoming_loop (n fuel : nat) (t c : nat) (received : bytes) (max_buffer : Z) : M World unit :=
  match n with
  | O => lift OutOfFuel
  | S n' =>
      k ← conn_at c;
      match conn_fd k with
      | None => mret tt
      | Some fd =>
          i ← call;
          match sys_recv i fd (Z.to_nat (max_buffer - Z.of_nat (length received))) with
          | RecvAgain => if decide (received = []) then mret tt else handleResponsePacket fuel c received
          | RecvFailed what => handleError (done_ fuel) c what
          | Received [] =>
              _ ← (if decide (received = []) then handleError (done_ fuel) c (B "Remote closed connection")
                   else handleResponsePacket fuel c received);
              _ ← on_transport t (set_connections (delete fd));
              closeFromRemoteClosedConnection c
          | Received bytes =>
              let received := received ++ bytes in
              if max_buffer <=? Z.of_nat (length received) then
                if max_max_buffer <? max_buffer * 2 then handleResponsePacket fuel c received
                else incoming_loop n' fuel t c received (max_buffer * 2)
              else incoming_loop n' fuel t c received max_buffer
          end
      end
  end.
Definition handleIncoming (fuel : nat) (t c : nat) : M World unit := incoming_loop fuel fuel t c [] MaxBuffer.

Definition handleReadableEntry (fuel : nat) (t : nat) (fd : Fd) : M World unit :=
  k ← transport_at t;
  match connections k !! fd with
  | Some entry =>
      conn ← lock_conn (entry_conn entry);
      match conn with
      | Some _ => handleIncoming fuel t (entry_conn entry)
      | None => throw (RuntimeError (B "Connection error: problem with reading data from server"))
      end
  | None =>
      with_timeoutsLock t (
        k ← transport_at t;
        match timeouts k !! fd with
        | None => mret tt
        | Some c =>
            conn ← lock_conn c;
            match conn with
            | None => mret tt
            | Some _ => _ ← handleTimeout (done_ fuel) c; on_transport t (set_timeouts (delete fd))
            end
        end)
  end.

(** Settling the promise of [asyncConnect]. *)
Definition settle (t : nat) (fd : Fd) (twice : string) : M World unit :=
  k ← transport_at t;
  entry ← of_option (connections k !! fd);
  if settled entry then throw (RuntimeError (B twice))
  else on_transport t (set_connections <[fd := {| entry_conn := entry_conn entry; addr := addr entry; settled := true |}]>).
Definition reject_connect (t : nat) (fd : Fd) : M World unit :=
  _ ← settle t fd "Attempt to reject a fulfilled promise"; emit Printed.

Definition handleWritableEntry (fuel : nat) (t : nat) (fd : Fd) : M World unit :=
  k ← transport_at t;
  match connections k !! fd with
  | None => throw (RuntimeError (B "Unknown fd"))
  | Some entry =>
      conn ← lock_conn (entry_conn entry);
      match conn with
      | None => reject_connect t fd
      | Some k =>
          match conn_fd k with
          | None => reject_connect t fd
          | Some conn_fd =>
              _ ← settle t fd "Attempt to resolve a fulfilled promise";
              _ ← connected fuel (entry_conn entry);
              emit (ModifyFd conn_fd)
          end
      end
  end.
Definition handleHangupEntry (t : nat) (fd : Fd) : M World unit :=
  k ← transport_at t;
  match connections k !! fd with
  | None => throw (RuntimeError (B "Unknown fd"))
  | Some _ => reject_connect t fd
  end.

(** What was polled. *)
Inductive Tag : Set := ConnectionsTag | RequestsTag | FdTag (fd : Fd) (readable writable hangup : bool).

Definition onReady_entry (fuel : nat) (t : nat) (entry : Tag) : M World unit :=
  match entry with
  | ConnectionsTag => handleConnectionQueue t
  | RequestsTag => handleRequestsQueue fuel t
  | FdTag fd readable writable hangup =>
      if readable then handleReadableEntry fuel t fd
      else if writable then handleWritableEntry fuel t fd
      else if hangup then handleHangupEntry t fd
      else mret tt
  end.
Fixpoint onReady_entries (fuel : nat) (t : nat) (fds : list Tag) : M World unit :=
  match fds with
  | [] => mret tt
  | entry :: fds' => _ ← onReady_entry fuel t entry; onReady_entries fuel t fds'
  end.
Definition onReady (fuel : nat) (t : nat) (fds : list Tag) : M World unit :=
  k ← transport_at t; if stopHandling k then mret tt else onReady_entries fuel t fds.

(** ** [Client::doRequest] *)

(** The capacity of the queue of a domain. *)
Definition queue_size : nat := 2048.

Definition enqueue (domain : bytes) (data : RequestData) : M World unit :=
  with_queuesLock (
    w ← get;
    let queue := default [] (requestsQueues w !! domain) in
    if (length queue <? queue_size)%nat then modify (set_queues <[domain := queue ++ [data]]>)
    else _ ← modify (set_queues <[domain := queue]>); emit (Reject (data_promise data) (B "Queue is full"))).

Definition associateTransport (c : nat) : M World unit :=
  k ← conn_at c;
  match transport_ k with
  | Some _ => mret tt
  | None =>
      w ← get;
      if decide (transports w = []) then lift UB
      else
        _ ← modify (set_ioIndex (wrapu 64 (ioIndex w + 1)));
        on_conn c (set_transport (Z.to_nat (ioIndex w mod Z.of_nat (length (transports w)))))
  end.

(** [p] is the promise that is returned. *)
Definition doRequest (fuel : nat) (p : nat) (request : Request) : M World unit :=
  let message := request_message request in
  let request := set_message (set_headers (Collection_remove (B "User-Agent") (headers_ message)).2 message) request in
  let '((host, page), https_url) := splitUrl (resource_ request) true in
  conn ← pickConnection host;
  match conn with
  | None => enqueue host {| data_promise := p; request := request; data_onDone := NoOnDone |}
  | Some c =>
      _ ← associateTransport c;
      ready ← isConnected c;
      if ready : bool then performImpl (done_ fuel) fuel c request p (ReleaseAndProcess c)
      else
        _ ← on_conn c (fun k =>
              set_conn_queue (conn_queue k ++ [{| data_promise := p; request := request; data_onDone := ReleaseAndProcess c |}]) k);
        connect c (if https_url then Https else Http) host page
  end.
End Operations.

Definition Client_init (threads : nat) : World :=
  {| pool := ∅; heap := ∅; brk := 0; requestsQueues := ∅; queuesLock := false; stopProcessRequestQueues := false;
     ioIndex := 0; transports := replicate threads Transport_new; thread := None; calls := 0; events := [] |}.
