(* ===== verification/ClientPool.v ===== *)
(** * No request is settled twice, and a connection carries one at a time

    An invariant of the client under every operation and every outcome of it: wherever
    the promises of the submitted requests are (in a domain's queue, with a connection,
    settled), none is in two places; a connection in the pool that is idle has no
    request, and one in use has at most one. *)

From stdpp Require Import gmultiset.
From S2P Require Import Prelude Cxx Stream HttpDefs Net HttpHeader HttpHeaders HttpMessage HttpResponse HttpParser.
From S2P Require Import ClientRequest TimerPool Client.

(** ** What holds the promises *)

Section Held.
Context {K A : Type} `{Countable K} (f : A -> gmultiset nat).

Definition held (m : gmap K A) : gmultiset nat := map_fold (fun _ a acc => f a ⊎ acc) ∅ m.

Lemma held_empty : held ∅ = ∅.
Proof. apply map_fold_empty. Qed.

Lemma held_fresh k a m : m !! k = None -> held (<[k := a]> m) = f a ⊎ held m.
Proof. intros Hm. unfold held. rewrite map_fold_insert_L; [done| |done]. intros. multiset_solver. Qed.

Lemma held_split k a m : m !! k = Some a -> held m = f a ⊎ held (delete k m).
Proof. intros Hm. rewrite <- (insert_delete_id m k a Hm) at 1. apply held_fresh. apply lookup_delete_eq. Qed.

Lemma held_insert k a m : held (<[k := a]> m) = f a ⊎ held (delete k m).
Proof. rewrite <- insert_delete_eq. apply held_fresh. apply lookup_delete_eq. Qed.
End Held.

Definition promises (l : list RequestData) : gmultiset nat := list_to_set_disj (map data_promise l).

Lemma promises_cons d l : promises (d :: l) = {[+ data_promise d +]} ⊎ promises l.
Proof. apply list_to_set_disj_cons. Qed.
Lemma promises_snoc d l : promises (l ++ [d]) = promises l ⊎ {[+ data_promise d +]}.
Proof.
  unfold promises. rewrite map_app, list_to_set_disj_app. f_equal.
  exact (eq_trans (promises_cons d []) (right_id_L ∅ (⊎) _)).
Qed.

(** What an operation can do to a connection that matters here. *)
Definition view : Type := option RequestEntry * bool * list RequestData.
Definition view_of (k : Connection) : view := (requestEntry k, isUsed k, conn_queue k).
Definition carried (v : view) : gmultiset nat :=
  match v.1.1 with Some e => {[+ promise e +]} | None => ∅ end ⊎ promises v.2.

Lemma carried_idle u : carried (None, u, []) = ∅.
Proof. apply (left_id_L ∅ (⊎)). Qed.
Lemma carried_entry e u : carried (Some e, u, []) = {[+ promise e +]}.
Proof. apply (right_id_L ∅ (⊎)). Qed.
Lemma carried_queued d u : carried (None, u, [d]) = {[+ data_promise d +]}.
Proof.
  unfold carried, promises. cbn [fst snd map]. rewrite list_to_set_disj_cons, list_to_set_disj_nil.
  by rewrite (right_id_L ∅ (⊎)), (left_id_L ∅ (⊎)).
Qed.

Definition settled_promise (e : event) : option nat :=
  match e with Resolve p _ | Reject p _ => Some p | _ => None end.
Definition settled_in (es : list event) : gmultiset nat := list_to_set_disj (omap settled_promise es).

(** The part of the client's state the invariant is about. *)
Record core : Type := {
  queues : gmap bytes (list RequestData); views : gmap nat view; answered : gmultiset nat; fresh : nat }.
Definition core_of (w : World) : core :=
  {| queues := requestsQueues w; views := view_of <$> heap w; answered := settled_in (events w); fresh := brk w |}.

Definition everywhere (s : core) : gmultiset nat := held promises (queues s) ⊎ held carried (views s) ⊎ answered s.

(** A connection has at most one request, is in use while it has one, and will be
    released when it is done. *)
Definition conn_ok (c : nat) (v : view) : Prop :=
  match v with
  | (Some e, u, q) => u = true /\ q = [] /\ onDone e = ReleaseAndProcess c
  | (None, u, []) => True
  | (None, u, q) => u = true /\ exists d, q = [d] /\ data_onDone d = ReleaseAndProcess c
  end.

Create HintDb neutral.

Section Invariant.
Context (submitted : gmultiset nat).

(** [hand] is what an operation has taken out and not yet put elsewhere. *)
Record inv_core (hand : gmultiset nat) (s : core) : Prop := {
  counted : hand ⊎ everywhere s ⊆ submitted;
  views_ok : map_Forall conn_ok (views s);
  below : forall c v, views s !! c = Some v -> (c < fresh s)%nat }.
Definition inv (hand : gmultiset nat) (w : World) : Prop := inv_core hand (core_of w).

(** The connection [c] has no request; [u] is whether it is in use. *)
Definition carries_none (c : nat) (w : World) : Prop :=
  forall v, views (core_of w) !! c = Some v -> v.1.1 = None /\ v.2 = [].
Definition reserved (c : nat) (w : World) : Prop := views (core_of w) !! c = Some (None, true, []).

Lemma inv_weaken hand hand' w : inv hand w -> hand' ⊆ hand -> inv hand' w.
Proof. intros [C V F] Hs. split; [|done..]. multiset_solver. Qed.

(** ** Triples: every outcome keeps the invariant *)

Definition triple {A} (P : World -> Prop) (m : M World A) (Q : A -> World -> Prop) : Prop :=
  forall w, P w -> match m w with (w', Ok a) => Q a w' | (w', _) => inv ∅ w' end.

Lemma triple_bind {A C} P (m : M World A) (k : A -> M World C) R Q :
  triple P m R -> (forall a, triple (R a) (k a) Q) -> triple P (m ≫= k) Q.
Proof.
  intros Hm Hk w Hw. specialize (Hm w Hw). unfold mbind, M_bind. destruct (m w) as [w' [a|e| |]]; [|done..].
  by apply Hk.
Qed.

Lemma triple_mono {A} (P P' : World -> Prop) (m : M World A) (Q Q' : A -> World -> Prop) :
  triple P m Q -> (forall w, P' w -> P w) -> (forall a w, Q a w -> Q' a w) -> triple P' m Q'.
Proof. intros Hm HP HQ w Hw. specialize (Hm w (HP w Hw)). destruct (m w) as [w' [a|e| |]]; eauto. Qed.

Lemma triple_pre {A} (P P' : World -> Prop) (m : M World A) Q : triple P m Q -> (forall w, P' w -> P w) -> triple P' m Q.
Proof. intros Hm HP w Hw. apply (Hm w (HP w Hw)). Qed.

Lemma triple_get {C} (P : World -> Prop) (k : World -> M World C) Q :
  (forall w0, P w0 -> triple (fun w => w = w0) (k w0) Q) -> triple P (get ≫= k) Q.
Proof. intros Hk w Hw. by apply (Hk w Hw). Qed.

Lemma triple_ret {A} (P : World -> Prop) (a : A) (Q : A -> World -> Prop) :
  (forall w, P w -> Q a w) -> triple P (mret a) Q.
Proof. intros HQ w Hw. by apply HQ. Qed.

Lemma triple_fails {A} (P : World -> Prop) (r : result A) Q :
  (forall w, P w -> inv ∅ w) -> match r with Ok _ => False | _ => True end -> triple P (lift r) Q.
Proof. intros HP Hr w Hw. unfold lift. destruct r; [done|by apply HP..]. Qed.

Lemma triple_modify (P : World -> Prop) f (Q : unit -> World -> Prop) :
  (forall w, P w -> Q tt (f w)) -> triple P (modify f) Q.
Proof. intros HQ w Hw. by apply HQ. Qed.

(** ** Steps the invariant does not see *)

Definition neutral {A} (m : M World A) : Prop := forall w, core_of (m w).1 = core_of w.

Lemma neutral_bind {A C} (m : M World A) (k : A -> M World C) :
  neutral m -> (forall a, neutral (k a)) -> neutral (m ≫= k).
Proof.
  intros Hm Hk w. specialize (Hm w). unfold mbind, M_bind. destruct (m w) as [w' [a|e| |]]; cbn in *; [|done..].
  by rewrite Hk.
Qed.
Lemma neutral_ret {A} (a : A) : neutral (mret a).
Proof. done. Qed.
Lemma neutral_throw {A} e : neutral (A := A) (throw e).
Proof. done. Qed.
Lemma neutral_lift {A} (r : result A) : neutral (lift r).
Proof. done. Qed.
Lemma neutral_get : neutral get.
Proof. done. Qed.
Lemma neutral_emit e : settled_promise e = None -> neutral (emit e).
Proof.
  intros He w. unfold emit, modify, core_of. cbn. f_equal. unfold settled_in. rewrite omap_app. cbn. by rewrite He, app_nil_r.
Qed.
Lemma neutral_modify f : (forall w, core_of (f w) = core_of w) -> neutral (modify f).
Proof. intros Hf w. apply Hf. Qed.
Lemma neutral_on_transport t f : neutral (on_transport t f).
Proof. done. Qed.
Lemma neutral_on_conn c f : (forall k, view_of (f k) = view_of k) -> neutral (on_conn c f).
Proof.
  intros Hf w. unfold on_conn, modify, core_of. cbn. f_equal. apply map_eq. intros c'. rewrite !lookup_fmap, lookup_alter.
  case_decide; [|done]. subst. destruct (heap w !! c') as [k|]; [|done]. cbn. by rewrite Hf.
Qed.
Lemma neutral_finally {A} (m : M World A) f : neutral m -> (forall w, core_of (f w) = core_of w) -> neutral (finally m f).
Proof. intros Hm Hf w. unfold finally. specialize (Hm w). destruct (m w) as [w' r]. cbn in *. by rewrite Hf. Qed.

Lemma core_eq_inv hand w w' : core_of w' = core_of w -> inv hand w -> inv hand w'.
Proof. unfold inv. by intros ->. Qed.

(** A step the invariant does not see keeps whatever depends on the core only. *)
Lemma triple_neutral {A} (P : World -> Prop) (m : M World A) :
  neutral m -> (forall w w', core_of w' = core_of w -> P w -> P w') -> (forall w, P w -> inv ∅ w) ->
  triple P m (fun _ w => P w).
Proof.
  intros Hm HP Hi w Hw. specialize (Hm w). destruct (m w) as [w' [a|e| |]]; cbn in Hm.
  all: first [by eapply HP | apply Hi; by eapply HP].
Qed.

(** ** The operations that are such steps *)

Ltac neutral_step :=
  first [ apply neutral_bind; [|intros ?] | apply neutral_ret | apply neutral_throw | apply neutral_lift
        | apply neutral_get | apply neutral_modify; intros; reflexivity | apply neutral_on_transport | apply neutral_emit; reflexivity
        | apply neutral_on_conn; intros; reflexivity | apply neutral_finally; [|intros; reflexivity]
        | progress (auto with neutral) | case_match | case_decide ].
Ltac neutral_tac := repeat neutral_step; try (intros ?; reflexivity).

Section Neutral.
Context `{DateLib, Resolver, StringMemory, Iteration, System}.

Lemma call_neutral : neutral call.
Proof. unfold call. neutral_tac. Qed.
Lemma conn_at_neutral c : neutral (conn_at c).
Proof. unfold conn_at, of_option. neutral_tac. Qed.
Lemma transport_at_neutral t : neutral (transport_at t).
Proof. unfold transport_at, of_option. neutral_tac. Qed.
Lemma lock_conn_neutral c : neutral (lock_conn c).
Proof. unfold lock_conn. neutral_tac. Qed.
Lemma on_timers_neutral {A} c (f : TimerPool -> TimerPool * result A) : neutral (on_timers c f).
Proof. unfold on_timers. apply neutral_bind; [apply conn_at_neutral|]. intros. destruct (f _). neutral_tac. Qed.
Lemma with_timeoutsLock_neutral {A} t (m : M World A) : neutral m -> neutral (with_timeoutsLock t m).
Proof. intros Hm. unfold with_timeoutsLock. apply neutral_bind; [apply transport_at_neutral|]. intros. neutral_tac. Qed.
#[local] Hint Resolve call_neutral conn_at_neutral transport_at_neutral lock_conn_neutral on_timers_neutral
  with_timeoutsLock_neutral : neutral.

Lemma set_timer_neutral c t f : neutral (set_timer c t f).
Proof. unfold set_timer, of_option. neutral_tac. Qed.
Lemma pick_timer_neutral c : neutral (pick_timer c).
Proof. unfold pick_timer. neutral_tac. Qed.
#[local] Hint Resolve set_timer_neutral pick_timer_neutral : neutral.
Lemma release_timer_neutral c t : neutral (release_timer c t).
Proof. unfold release_timer. neutral_tac. Qed.
Lemma request_sent_neutral t req : neutral (request_sent t req).
Proof. unfold request_sent, of_option. neutral_tac. Qed.
Lemma associateTransport_neutral c : neutral (associateTransport c).
Proof. unfold associateTransport. neutral_tac. Qed.
Lemma feed_parser_neutral c b : neutral (feed_parser c b).
Proof. unfold feed_parser. neutral_tac. Qed.
Lemma run_parser_neutral c : neutral (run_parser c).
Proof. unfold run_parser. neutral_tac. Qed.
Lemma close_fd_neutral c : neutral (close_fd c).
Proof. unfold close_fd. neutral_tac. Qed.
#[local] Hint Resolve close_fd_neutral : neutral.
Lemma closeFromRemoteClosedConnection_neutral c : neutral (closeFromRemoteClosedConnection c).
Proof. unfold closeFromRemoteClosedConnection. neutral_tac. Qed.
#[local] Hint Resolve closeFromRemoteClosedConnection_neutral : neutral.
Lemma shutdown_neutral l : neutral (shutdown l).
Proof.
  unfold shutdown. neutral_tac. generalize (concat (map (fun d => default [] (pool a0 !! d)) l)) as cs.
  induction cs as [|c cs IH]; cbn [close_connected]; unfold isConnected, close; neutral_tac.
Qed.
Lemma connect_neutral c sch domain page : neutral (connect c sch domain page).
Proof.
  unfold connect. neutral_tac. match goal with |- neutral (try_addresses _ ?l) => generalize l end.
  intros l. induction l as [|x l IH]; cbn [try_addresses]; unfold asyncConnect; neutral_tac.
Qed.
Lemma settle_neutral t fd s : neutral (settle t fd s).
Proof. unfold settle, of_option. neutral_tac. Qed.
#[local] Hint Resolve settle_neutral : neutral.
Lemma reject_connect_neutral t fd : neutral (reject_connect t fd).
Proof. unfold reject_connect. neutral_tac. Qed.
#[local] Hint Resolve reject_connect_neutral : neutral.
Lemma handleHangupEntry_neutral t fd : neutral (handleHangupEntry t fd).
Proof. unfold handleHangupEntry. neutral_tac. Qed.
Lemma handleConnectionQueue_neutral t : neutral (handleConnectionQueue t).
Proof.
  unfold handleConnectionQueue. neutral_tac. generalize (connects a) as l.
  intros l. induction l as [|d l IH]; cbn [handle_connects]; unfold handle_connect, insert_connection; neutral_tac.
Qed.
End Neutral.

(** ** What a change of a connection, of a queue or of the events does *)

Lemma core_set_view hand hand' s c v v' ans :
  inv_core hand s -> views s !! c = Some v -> conn_ok c v' ->
  hand' ⊎ carried v' ⊎ ans ⊆ hand ⊎ carried v ⊎ answered s ->
  inv_core hand' {| queues := queues s; views := <[c := v']> (views s); answered := ans; fresh := fresh s |}.
Proof.
  intros [C V F] Hc Hv Hs. split; cbn [queues views answered fresh].
  - unfold everywhere in *. cbn [queues views answered]. rewrite held_insert. rewrite (held_split carried c v) in C by done.
    multiset_solver.
  - by apply map_Forall_insert_2.
  - intros c' w'. destruct (decide (c' = c)) as [->|Hne]; [intros _; by eapply F|].
    rewrite lookup_insert_ne by done. apply F.
Qed.

Lemma core_set_queue hand hand' s d q :
  inv_core hand s -> hand' ⊎ promises q ⊆ hand ⊎ promises (default [] (queues s !! d)) ->
  inv_core hand' {| queues := <[d := q]> (queues s); views := views s; answered := answered s; fresh := fresh s |}.
Proof.
  intros [C V F] Hs. split; [|done..]. unfold everywhere in *. cbn [queues views answered]. rewrite held_insert.
  destruct (queues s !! d) as [l|] eqn:E; cbn [default] in Hs.
  - rewrite (held_split promises d l) in C by done. multiset_solver.
  - rewrite delete_id by done. change (promises []) with (∅ : gmultiset nat) in Hs. multiset_solver.
Qed.

Lemma core_answer hand p s :
  inv_core ({[+ p +]} ⊎ hand) s ->
  inv_core hand {| queues := queues s; views := views s; answered := answered s ⊎ {[+ p +]}; fresh := fresh s |}.
Proof. intros [C V F]. split; [|done..]. unfold everywhere in *. cbn [queues views answered]. multiset_solver. Qed.

Lemma core_new hand s :
  inv_core hand s ->
  inv_core hand {| queues := queues s; views := <[fresh s := (None, false, [])]> (views s); answered := answered s;
                   fresh := S (fresh s) |}.
Proof.
  intros [C V F]. assert (views s !! fresh s = None) as E.
  { destruct (views s !! fresh s) eqn:E; [|done]. apply F in E. lia. }
  split; cbn [queues views answered fresh].
  - unfold everywhere in *. cbn [queues views answered]. rewrite held_fresh by done.
    rewrite carried_idle. multiset_solver.
  - by apply map_Forall_insert_2.
  - intros c v. destruct (decide (c = fresh s)) as [->|Hne]; [lia|]. rewrite lookup_insert_ne by done. intros E'%F. lia.
Qed.

Lemma views_lookup w c k : heap w !! c = Some k -> views (core_of w) !! c = Some (view_of k).
Proof. intros E. cbn. by rewrite lookup_fmap, E. Qed.

Lemma set_heap_core c f w k :
  heap w !! c = Some k ->
  core_of (set_heap (alter f c) w)
  = {| queues := queues (core_of w); views := <[c := view_of (f k)]> (views (core_of w));
       answered := answered (core_of w); fresh := fresh (core_of w) |}.
Proof.
  intros E. unfold core_of. cbn. f_equal. apply map_eq. intros c'. rewrite lookup_fmap, lookup_alter.
  case_decide as D; [subst; rewrite E, lookup_insert_eq; done|]. by rewrite lookup_insert_ne, lookup_fmap.
Qed.

Lemma settled_in_app es e p : settled_promise e = Some p -> settled_in (es ++ [e]) = settled_in es ⊎ {[+ p +]}.
Proof.
  intros E. unfold settled_in. rewrite omap_app, list_to_set_disj_app. f_equal. cbn [omap list_omap]. rewrite E.
  by rewrite list_to_set_disj_cons, list_to_set_disj_nil, (right_id_L ∅ (⊎)).
Qed.

(** A request is answered: its event, and the connection's entry is cleared. *)
Lemma answer_step w c k e ev f :
  inv ∅ w -> heap w !! c = Some k -> requestEntry k = Some e -> settled_promise ev = Some (promise e) ->
  (forall k', view_of (f k') = (None, isUsed k', conn_queue k')) ->
  let w' := set_heap (alter f c) (add_event ev w) in
  inv ∅ w' /\ carries_none c w' /\ onDone e = ReleaseAndProcess c.
Proof.
  intros Hi Hk He Hev Hf w'. pose proof (views_lookup w c k Hk) as Hv.
  pose proof (views_ok _ _ Hi c _ Hv) as Hok. unfold view_of in Hok. rewrite He in Hok. destruct Hok as (Hu & Hq & Hd).
  assert (core_of w' = {| queues := queues (core_of w); views := <[c := (None, isUsed k, [])]> (views (core_of w));
                          answered := answered (core_of w) ⊎ {[+ promise e +]}; fresh := fresh (core_of w) |}) as Ec.
  { unfold w'. rewrite (set_heap_core c f (add_event ev w) k Hk), Hf, Hq. cbn [queues answered fresh core_of].
    f_equal. cbn. by apply settled_in_app. }
  split_and!; [|..|done].
  - unfold inv. rewrite Ec. eapply core_set_view; [exact Hi|exact Hv|done|]. unfold view_of. rewrite He, Hq.
    rewrite carried_idle, carried_entry. multiset_solver.
  - intros v. rewrite Ec. cbn [views]. rewrite lookup_insert_eq. by intros [= <-].
Qed.

(** ** Triples of the operations *)

Ltac on_core := intros ? ? Hcore; unfold inv, carries_none, reserved; rewrite Hcore; done.

Lemma triple_conn_at {A} (P : World -> Prop) c (k : Connection -> M World A) Q :
  (forall w, P w -> inv ∅ w) ->
  (forall conn, triple (fun w => P w /\ heap w !! c = Some conn) (k conn) Q) ->
  triple P (conn_at c ≫= k) Q.
Proof.
  intros HP Hk w Hw. unfold conn_at, of_option, lift, mbind, M_bind, get. destruct (heap w !! c) as [conn|] eqn:E; [|by apply HP].
  by apply (Hk conn w).
Qed.

Lemma triple_finally {A} (P : World -> Prop) (m : M World A) fin Q :
  (forall w, core_of (fin w) = core_of w) -> (forall a w w', core_of w' = core_of w -> Q a w -> Q a w') ->
  triple P m Q -> triple P (finally m fin) Q.
Proof.
  intros Hf HQ Hm w Hw. specialize (Hm w Hw). unfold finally. destruct (m w) as [w' [a|e| |]].
  all: first [eapply HQ; [apply Hf|done] | eapply core_eq_inv; [apply Hf|done]].
Qed.

Section Triples.
Context `{DateLib, Resolver, StringMemory, Iteration, System} (maxConnectionsPerHost maxResponseSize : nat).

(** *** The pool *)

Lemma make_connection_inv hand : triple (inv hand) (make_connection maxResponseSize) (fun _ w => inv hand w).
Proof.
  intros w Hi. change (inv hand (set_heap <[brk w := Connection_new maxResponseSize]> (set_brk (S (brk w)) w))).
  pose proof (core_new _ _ Hi) as Hn.
  unfold inv, core_of in *. cbn [queues views answered fresh heap requestsQueues events brk set_heap set_brk] in *.
  by rewrite fmap_insert.
Qed.

Lemma connections_of_inv hand domain :
  triple (inv hand) (connections_of maxConnectionsPerHost maxResponseSize domain) (fun _ w => inv hand w).
Proof.
  unfold connections_of. apply triple_get. intros w0 Hi. destruct (pool w0 !! domain).
  { apply triple_ret. by intros ? ->. }
  apply triple_bind with (R := fun _ w => inv hand w).
  - apply triple_pre with (P := inv hand); [|by intros ? ->]. clear. induction maxConnectionsPerHost as [|n IH]; cbn [make_connections].
    { by apply triple_ret. }
    eapply triple_bind; [apply make_connection_inv|]. intros c. eapply triple_bind; [apply IH|]. intros l. by apply triple_ret.
  - intros l. eapply triple_bind with (R := fun _ w => inv hand w); [|intros; by apply triple_ret].
    apply triple_modify. intros w Hi'. exact Hi'.
Qed.

(** A connection that is picked was idle: it has no request, and is in use now. *)
Lemma tryUse_inv hand c :
  triple (inv hand) (tryUse c) (fun b w => inv hand w /\ (b = true -> reserved c w)).
Proof.
  unfold tryUse. apply triple_conn_at; [by intros; eapply inv_weaken; [done|multiset_solver]|]. intros k.
  destruct (isUsed k) eqn:Eu; [by apply triple_ret; intros w [? _]|].
  apply triple_bind with (R := fun _ w => inv hand w /\ reserved c w); [|intros; by apply triple_ret; intros w []].
  apply triple_modify. intros w [Hi Hk]. pose proof (views_lookup w c k Hk) as Hv.
  pose proof (views_ok _ _ Hi c _ Hv) as Hok. unfold view_of in Hok. rewrite Eu in Hok.
  assert (view_of k = (None, false, [])) as Ev.
  { unfold view_of. rewrite Eu. destruct (requestEntry k), (conn_queue k); try done; by destruct Hok. }
  assert (view_of (set_isUsed true k) = (None, true, [])) as Ev'.
  { unfold view_of in *. cbn. congruence. }
  unfold inv, reserved. rewrite (set_heap_core c _ w k Hk), Ev'. split.
  - eapply core_set_view; [exact Hi|exact Hv|done|]. rewrite Ev, !carried_idle. done.
  - cbn [views]. apply lookup_insert_eq.
Qed.

Lemma pickConnection_inv hand domain :
  triple (inv hand) (pickConnection maxConnectionsPerHost maxResponseSize domain)
    (fun o w => inv hand w /\ match o with Some c => reserved c w | None => True end).
Proof.
  unfold pickConnection. eapply triple_bind; [apply connections_of_inv|]. intros l. cbn beta.
  induction l as [|c l IH]; cbn [first_idle]; [by apply triple_ret|].
  eapply triple_bind; [apply tryUse_inv|]. intros [].
  - apply triple_ret. intros w [Hi Hr]. split; [done|by apply Hr].
  - eapply triple_pre; [exact IH|by intros w []].
Qed.

Lemma releaseConnection_inv c :
  triple (fun w => inv ∅ w /\ carries_none c w) (releaseConnection c) (fun _ w => inv ∅ w).
Proof.
  apply triple_modify. intros w [Hi Hn]. destruct (heap w !! c) as [k|] eqn:Ek.
  - pose proof (views_lookup w c k Ek) as Hv. destruct (Hn _ Hv) as [He Hq].
    unfold inv. rewrite (set_heap_core c _ w k Ek). eapply core_set_view; [exact Hi|exact Hv| |].
    + unfold view_of in *. cbn in *. by rewrite He, Hq.
    + unfold view_of in *. cbn in *. by rewrite He, Hq, !carried_idle.
  - eapply core_eq_inv; [|exact Hi]. unfold core_of. cbn. by rewrite alter_id by (intros ? E; congruence).
Qed.

Lemma triple_neutral_inv {A} hand (m : M World A) : neutral m -> triple (inv hand) m (fun _ w => inv hand w).
Proof.
  intros Hm. apply triple_neutral; [done|intros ? ?; apply core_eq_inv|]. intros. eapply inv_weaken; [done|multiset_solver].
Qed.

Lemma with_queuesLock_inv {A} hand (m : M World A) Q :
  (forall a w w', core_of w' = core_of w -> Q a w -> Q a w') ->
  triple (inv hand) m Q -> triple (inv hand) (with_queuesLock m) Q.
Proof.
  intros HQ Hm. assert (forall w, inv hand w -> inv ∅ w) as Hw by (intros; eapply inv_weaken; [done|multiset_solver]).
  unfold with_queuesLock. eapply triple_bind; [apply triple_neutral_inv, neutral_get|]. intros w0. cbn beta.
  destruct (queuesLock w0); [by apply triple_fails|].
  eapply triple_bind; [by apply triple_neutral_inv, neutral_modify|]. intros ?. cbn beta. by apply triple_finally.
Qed.

(** *** Requests *)

Definition carries (e : RequestEntry) (c : nat) (w : World) : Prop :=
  exists u q, views (core_of w) !! c = Some (Some e, u, q).

Lemma triple_answer {A} c e ev f (K : M World A) Q :
  settled_promise ev = Some (promise e) -> (forall k, view_of (f k) = (None, isUsed k, conn_queue k)) ->
  (onDone e = ReleaseAndProcess c -> triple (fun w => inv ∅ w /\ carries_none c w) K Q) ->
  triple (fun w => inv ∅ w /\ carries e c w) (_ ← emit ev; _ ← on_conn c f; K) Q.
Proof.
  intros Hev Hf HK w [Hi (u & q & Hv)].
  cbn in Hv. rewrite lookup_fmap in Hv. destruct (heap w !! c) as [k|] eqn:Hk; [|done].
  assert (requestEntry k = Some e) as He by (unfold view_of in Hv; cbn in Hv; congruence).
  destruct (answer_step w c k e ev f Hi Hk He Hev Hf) as (Hi' & Hn & Hd).
  exact (HK Hd (set_heap (alter f c) (add_event ev w)) (conj Hi' Hn)).
Qed.

Context (done_ : nat -> M World unit).
Hypothesis done_inv : forall c, triple (fun w => inv ∅ w /\ carries_none c w) (done_ c) (fun _ w => inv ∅ w).

Lemma release_timer_carries e c t :
  triple (fun w => inv ∅ w /\ carries e c w) (release_timer c t) (fun _ w => inv ∅ w /\ carries e c w).
Proof.
  apply triple_neutral; [apply release_timer_neutral| |by intros w []].
  intros w w' E. unfold inv, carries. by rewrite E.
Qed.

Lemma entry_carries w c k e : inv ∅ w /\ heap w !! c = Some k -> requestEntry k = Some e -> inv ∅ w /\ carries e c w.
Proof.
  intros [Hi Hk] He. split; [done|]. exists (isUsed k), (conn_queue k).
  rewrite <- He. exact (views_lookup w c k Hk).
Qed.

Lemma handleError_inv c error : triple (inv ∅) (handleError done_ c error) (fun _ w => inv ∅ w).
Proof.
  unfold handleError. apply triple_conn_at; [done|]. intros k. destruct (requestEntry k) as [e|] eqn:He.
  - eapply triple_pre; [|intros w Hw; by eapply entry_carries].
    eapply triple_bind; [apply release_timer_carries|]. intros ?. cbn beta.
    apply triple_answer; [done|done|]. intros E. rewrite E. apply done_inv.
  - apply triple_ret. by intros w [].
Qed.

Lemma handleTimeout_inv c : triple (inv ∅) (handleTimeout done_ c) (fun _ w => inv ∅ w).
Proof.
  unfold handleTimeout. apply triple_conn_at; [done|]. intros k. destruct (requestEntry k) as [e|] eqn:He.
  - eapply triple_pre; [|intros w Hw; by eapply entry_carries].
    apply triple_bind with (R := fun _ w => inv ∅ w /\ carries e c w).
    + destruct (timer e); [apply release_timer_carries|by apply triple_fails; [intros w []|]].
    + intros _. apply triple_answer; [done|done|]. intros E. rewrite E. apply done_inv.
  - apply triple_ret. by intros w [].
Qed.

Lemma send_loop_inv fuel t fd req n : triple (inv ∅) (send_loop done_ fuel t fd req n) (fun _ w => inv ∅ w).
Proof.
  revert n. induction fuel as [|fuel IH]; intros n; cbn [send_loop]; [by apply triple_fails|].
  eapply triple_bind; [apply triple_neutral_inv, call_neutral|]. intros i. cbn beta.
  destruct (sys_send _ _ _); [|by apply (triple_fails _ (Throw _))|apply handleError_inv..].
  eapply triple_bind; [by apply triple_neutral_inv, neutral_emit|]. intros ?. cbn beta.
  destruct (_ =? _)%nat; [apply triple_neutral_inv, request_sent_neutral|apply IH].
Qed.

Lemma asyncSendRequestImpl_inv fuel t req : triple (inv ∅) (asyncSendRequestImpl done_ fuel t req) (fun _ w => inv ∅ w).
Proof.
  unfold asyncSendRequestImpl. eapply triple_bind; [apply triple_neutral_inv, lock_conn_neutral|].
  intros [k|]; [|by apply (triple_fails _ (Throw _))].
  destruct (conn_fd k); [apply send_loop_inv|apply handleError_inv].
Qed.

Lemma asyncSendRequest_inv fuel t req : triple (inv ∅) (asyncSendRequest done_ fuel t req) (fun _ w => inv ∅ w).
Proof.
  unfold asyncSendRequest. eapply triple_bind; [apply triple_neutral_inv, neutral_get|]. intros w0. cbn beta.
  case_decide; [apply asyncSendRequestImpl_inv|]. apply triple_neutral_inv, neutral_on_transport.
Qed.

(** The request goes from the hand to the connection, which has none. *)
Lemma performImpl_inv fuel c request p :
  triple (fun w => inv {[+ p +]} w /\ reserved c w) (performImpl done_ fuel c request p (ReleaseAndProcess c))
    (fun _ w => inv ∅ w).
Proof.
  assert (forall w, inv {[+ p +]} w /\ reserved c w -> inv ∅ w) as Hi.
  { intros w [? _]. eapply inv_weaken; [done|multiset_solver]. }
  assert (forall A (m : M World A), neutral m ->
    triple (fun w => inv {[+ p +]} w /\ reserved c w) m (fun _ w => inv {[+ p +]} w /\ reserved c w)) as Hn.
  { intros A m Hm. apply triple_neutral; [done| |done]. intros w w' E. unfold inv, reserved. by rewrite E. }
  unfold performImpl. eapply triple_bind; [apply Hn, neutral_lift|]. intros buffer. cbn beta.
  eapply triple_bind.
  { apply Hn. destruct (0 <? HttpMessage.timeout_ request)%Z; [|apply neutral_ret]. apply neutral_bind; [apply pick_timer_neutral|].
    intros [t|]; [|apply neutral_lift]. apply neutral_bind; [apply set_timer_neutral|]. intros. apply neutral_ret. }
  intros timer. cbn beta. apply triple_bind with (R := fun _ w => inv ∅ w).
  - apply triple_modify. intros w [Hw Hr]. unfold reserved in Hr. cbn in Hr. rewrite lookup_fmap in Hr.
    destruct (heap w !! c) as [k|] eqn:Hk; [|done]. injection Hr as He Hu Hq.
    unfold inv. rewrite (set_heap_core c _ w k Hk). eapply core_set_view; [exact Hw|by apply views_lookup| |].
    + unfold view_of. cbn. by rewrite Hu, Hq.
    + unfold view_of. cbn [requestEntry isUsed conn_queue set_requestEntry].
      rewrite He, Hu, Hq, carried_idle, carried_entry. cbn [promise]. multiset_solver.
  - intros _. apply triple_conn_at; [done|]. intros k. destruct (transport_ k); [|by apply triple_fails; [intros w []|]].
    eapply triple_pre; [apply asyncSendRequest_inv|by intros w []].
Qed.

(** *** The queues of the domains *)

Lemma pop_queue w d x q :
  inv ∅ w -> requestsQueues w !! d = Some (x :: q) -> inv {[+ data_promise x +]} (set_queues <[d := q]> w).
Proof.
  intros Hi Hq. unfold inv. change (core_of (set_queues <[d := q]> w)) with
    {| queues := <[d := q]> (queues (core_of w)); views := views (core_of w); answered := answered (core_of w);
       fresh := fresh (core_of w) |}.
  eapply core_set_queue; [exact Hi|]. cbn [queues core_of]. rewrite Hq.
  change (default [] (Some (x :: q))) with (x :: q). rewrite promises_cons. multiset_solver.
Qed.

Lemma reserved_carries_none c w : reserved c w -> carries_none c w.
Proof. intros Hr v Hv. unfold reserved in Hr. rewrite Hr in Hv. by injection Hv as <-. Qed.

Lemma process_domain_inv n fuel d :
  triple (inv ∅) (process_domain maxConnectionsPerHost maxResponseSize done_ n fuel d) (fun _ w => inv ∅ w).
Proof.
  induction n as [|n IH]; cbn [process_domain]; [by apply triple_fails|].
  eapply triple_bind; [apply pickConnection_inv|]. intros [c|]; cbn beta; [|by apply triple_ret; intros w []].
  apply triple_get. intros w0 [Hi Hr]. destruct (requestsQueues w0 !! d) as [[|x q]|] eqn:Eq.
  1,3: eapply triple_pre; [apply releaseConnection_inv|intros w ->; split; [done|by apply reserved_carries_none]].
  apply triple_bind with (R := fun _ w => inv {[+ data_promise x +]} w /\ reserved c w).
  - apply triple_modify. intros w ->. split; [by apply pop_queue|exact Hr].
  - intros []. eapply triple_bind; [apply performImpl_inv|]. intros ?. apply IH.
Qed.

Lemma Client_processRequestQueue_inv fuel :
  triple (inv ∅) (Client_processRequestQueue maxConnectionsPerHost maxResponseSize done_ fuel) (fun _ w => inv ∅ w).
Proof.
  unfold Client_processRequestQueue. eapply triple_bind; [apply triple_neutral_inv, neutral_get|]. intros w0. cbn beta.
  destruct (stopProcessRequestQueues w0); [by apply triple_ret|].
  apply with_queuesLock_inv; [intros ? ? ?; apply core_eq_inv|].
  eapply triple_bind; [apply triple_neutral_inv, neutral_get|]. intros w1. cbn beta.
  destruct (stopProcessRequestQueues w1); [by apply triple_ret|].
  generalize (queues_order (requestsQueues w1)) as ds. intros ds. induction ds as [|d ds IH]; cbn [process_domains]; [by apply triple_ret|].
  eapply triple_bind; [apply triple_neutral_inv, neutral_get|]. intros w2. cbn beta.
  eapply triple_bind; [apply process_domain_inv|]. intros ?. apply IH.
Qed.
End Triples.

Section Client.
Context `{DateLib, Resolver, StringMemory, Iteration, System} (maxConnectionsPerHost maxResponseSize : nat).

Lemma released_inv n fuel c :
  triple (fun w => inv ∅ w /\ carries_none c w) (released maxConnectionsPerHost maxResponseSize n fuel c) (fun _ w => inv ∅ w).
Proof.
  revert c. induction n as [|n IH]; intros c; cbn [released]; [by apply triple_fails; [intros w []|]|].
  eapply triple_bind.
  { apply triple_neutral; [apply (lock_conn_neutral c)| |by intros w []].
    intros w w' E. unfold inv, carries_none. by rewrite E. }
  intros [k|]; cbn beta; [|by apply triple_ret; intros w []].
  eapply triple_bind; [apply releaseConnection_inv|]. intros ?. by apply Client_processRequestQueue_inv.
Qed.

Lemma done_inv' fuel c :
  triple (fun w => inv ∅ w /\ carries_none c w) (done_ maxConnectionsPerHost maxResponseSize fuel c) (fun _ w => inv ∅ w).
Proof. apply released_inv. Qed.
#[local] Hint Resolve done_inv' : core.

(** *** A connection's own queue *)

Lemma process_queued_inv n fuel c :
  triple (inv ∅) (process_queued maxConnectionsPerHost maxResponseSize n fuel c) (fun _ w => inv ∅ w).
Proof.
  induction n as [|n IH]; cbn [process_queued]; [by apply triple_fails|].
  apply triple_conn_at; [done|]. intros k. destruct (conn_queue k) as [|d q] eqn:Eq; [by apply triple_ret; intros w []|].
  apply triple_bind with (R := fun _ w => inv {[+ data_promise d +]} w /\ reserved c w /\ data_onDone d = ReleaseAndProcess c).
  - apply triple_modify. intros w [Hi Hk]. pose proof (views_ok _ _ Hi c _ (views_lookup w c k Hk)) as Hok.
    unfold view_of in Hok. rewrite Eq in Hok. destruct (requestEntry k) eqn:He; [by destruct Hok as (_ & ? & _)|].
    destruct Hok as (Hu & d' & [= <- ->] & Hd). unfold inv, reserved. rewrite (set_heap_core c _ w k Hk). split_and!; [|..|done].
    + eapply core_set_view; [exact Hi|by apply views_lookup| |]; unfold view_of; cbn [requestEntry isUsed conn_queue set_conn_queue];
        rewrite He; [done|]. rewrite Eq, carried_idle, carried_queued. multiset_solver.
    + cbn [views]. rewrite lookup_insert_eq. unfold view_of. cbn. by rewrite He, Hu.
  - intros []. eapply triple_bind; [|intros ?; apply IH]. intros w (Hi & Hr & Hd). rewrite Hd.
    apply (performImpl_inv _ (done_inv' fuel)). done.
Qed.

Lemma connected_inv fuel c : triple (inv ∅) (connected maxConnectionsPerHost maxResponseSize fuel c) (fun _ w => inv ∅ w).
Proof.
  unfold connected. eapply triple_bind; [by apply triple_neutral_inv, neutral_on_conn|]. intros ?. cbn beta.
  unfold Connection_processRequestQueue. apply triple_conn_at; [done|]. intros k.
  eapply triple_pre; [apply process_queued_inv|by intros w []].
Qed.

(** *** Responses *)

Lemma finish_request_inv fuel c : triple (inv ∅) (finish_request maxConnectionsPerHost maxResponseSize fuel c) (fun _ w => inv ∅ w).
Proof.
  unfold finish_request. apply triple_conn_at; [done|]. intros k. destruct (requestEntry k) as [e|] eqn:He.
  - eapply triple_pre; [|intros w Hw; by eapply entry_carries].
    eapply triple_bind; [apply release_timer_carries|]. intros ?. cbn beta.
    apply triple_answer; [done|done|]. intros E. rewrite E. apply done_inv'.
  - apply triple_ret. by intros w [].
Qed.

Lemma handleResponsePacket_inv fuel c b :
  triple (inv ∅) (handleResponsePacket maxConnectionsPerHost maxResponseSize fuel c b) (fun _ w => inv ∅ w).
Proof.
  unfold handleResponsePacket, catching. intros w Hw.
  match goal with |- context [match ?m w with _ => _ end] => assert (triple (inv ∅) m (fun _ w => inv ∅ w)) as Hm end.
  { eapply triple_bind; [apply triple_neutral_inv, feed_parser_neutral|]. intros []; cbn [negb].
    - eapply triple_bind; [apply triple_neutral_inv, run_parser_neutral|]. intros s. cbn beta.
      case_decide; [apply finish_request_inv|by apply triple_ret].
    - by apply handleError_inv. }
  specialize (Hm w Hw). match goal with |- context [match ?m w with _ => _ end] => destruct (m w) as [w' [a|e| |]] end; [done| |done|done].
  by apply handleError_inv.
Qed.

Lemma incoming_loop_inv n fuel t c r max :
  triple (inv ∅) (incoming_loop maxConnectionsPerHost maxResponseSize n fuel t c r max) (fun _ w => inv ∅ w).
Proof.
  revert r max. induction n as [|n IH]; intros r max; cbn [incoming_loop]; [by apply triple_fails|].
  apply triple_conn_at; [done|]. intros k. eapply triple_pre with (P := inv ∅); [|by intros w []].
  destruct (conn_fd k) as [fd|]; [|by apply triple_ret].
  eapply triple_bind; [apply triple_neutral_inv, call_neutral|]. intros i. cbn beta.
  destruct (sys_recv _ _ _) as [[|b bs]| |e].
  - apply triple_bind with (R := fun _ w => inv ∅ w); [case_decide; [by apply handleError_inv|apply handleResponsePacket_inv]|].
    intros []. eapply triple_bind; [apply triple_neutral_inv, neutral_on_transport|]. intros ?.
    apply triple_neutral_inv, closeFromRemoteClosedConnection_neutral.
  - cbv zeta. destruct (_ <=? _)%Z; [|apply IH]. destruct (_ <? _)%Z; [apply handleResponsePacket_inv|apply IH].
  - case_decide; [by apply triple_ret|apply handleResponsePacket_inv].
  - by apply handleError_inv.
Qed.

(** *** The transport *)

Lemma handleReadableEntry_inv fuel t fd :
  triple (inv ∅) (handleReadableEntry maxConnectionsPerHost maxResponseSize fuel t fd) (fun _ w => inv ∅ w).
Proof.
  unfold handleReadableEntry. eapply triple_bind; [apply triple_neutral_inv, transport_at_neutral|]. intros k. cbn beta.
  destruct (connections k !! fd) as [entry|].
  - eapply triple_bind; [apply triple_neutral_inv, lock_conn_neutral|]. intros [?|]; cbn beta;
      [apply incoming_loop_inv|by apply (triple_fails _ (Throw _))].
  - unfold with_timeoutsLock. eapply triple_bind; [apply triple_neutral_inv, transport_at_neutral|]. intros k'. cbn beta.
    destruct (timeoutsLock k'); [by apply triple_fails|].
    eapply triple_bind; [apply triple_neutral_inv, neutral_on_transport|]. intros ?. cbn beta.
    apply triple_finally; [done|intros ? ? ?; apply core_eq_inv|].
    eapply triple_bind; [apply triple_neutral_inv, transport_at_neutral|]. intros k2. cbn beta.
    destruct (timeouts k2 !! fd) as [c|]; [|by apply triple_ret].
    eapply triple_bind; [apply triple_neutral_inv, lock_conn_neutral|]. intros [?|]; cbn beta; [|by apply triple_ret].
    eapply triple_bind; [by apply handleTimeout_inv|]. intros ?. apply triple_neutral_inv, neutral_on_transport.
Qed.

Lemma handleWritableEntry_inv fuel t fd :
  triple (inv ∅) (handleWritableEntry maxConnectionsPerHost maxResponseSize fuel t fd) (fun _ w => inv ∅ w).
Proof.
  unfold handleWritableEntry. eapply triple_bind; [apply triple_neutral_inv, transport_at_neutral|]. intros k. cbn beta.
  destruct (connections k !! fd) as [entry|]; [|by apply (triple_fails _ (Throw _))].
  eapply triple_bind; [apply triple_neutral_inv, lock_conn_neutral|]. intros [k'|]; cbn beta;
    [destruct (conn_fd k')|]; try apply triple_neutral_inv, reject_connect_neutral.
  eapply triple_bind; [apply triple_neutral_inv, settle_neutral|]. intros ?. cbn beta.
  eapply triple_bind; [apply connected_inv|]. intros ?. by apply triple_neutral_inv, neutral_emit.
Qed.

Lemma handleRequestsQueue_inv fuel t :
  triple (inv ∅) (handleRequestsQueue maxConnectionsPerHost maxResponseSize fuel t) (fun _ w => inv ∅ w).
Proof.
  unfold handleRequestsQueue. eapply triple_bind; [apply triple_neutral_inv, transport_at_neutral|]. intros k. cbn beta.
  generalize (sends k) as l. intros l. induction l as [|req l IH]; cbn [handle_sends]; [by apply triple_ret|].
  eapply triple_bind; [apply triple_neutral_inv, neutral_on_transport|]. intros ?. cbn beta.
  eapply triple_bind; [by apply asyncSendRequestImpl_inv|]. intros ?. apply IH.
Qed.

Lemma onReady_inv fuel t fds : triple (inv ∅) (onReady maxConnectionsPerHost maxResponseSize fuel t fds) (fun _ w => inv ∅ w).
Proof.
  unfold onReady. eapply triple_bind; [apply triple_neutral_inv, transport_at_neutral|]. intros k. cbn beta.
  destruct (stopHandling k); [by apply triple_ret|].
  induction fds as [|entry fds IH]; cbn [onReady_entries]; [by apply triple_ret|].
  eapply triple_bind; [|intros ?; apply IH]. destruct entry as [| |fd readable writable hangup]; cbn [onReady_entry].
  - apply triple_neutral_inv, handleConnectionQueue_neutral.
  - apply handleRequestsQueue_inv.
  - destruct readable; [apply handleReadableEntry_inv|]. destruct writable; [apply handleWritableEntry_inv|].
    destruct hangup; [apply triple_neutral_inv, handleHangupEntry_neutral|by apply triple_ret].
Qed.

(** *** The application *)

Lemma enqueue_inv domain d : triple (inv {[+ data_promise d +]}) (enqueue domain d) (fun _ w => inv ∅ w).
Proof.
  unfold enqueue. apply with_queuesLock_inv; [intros ? ? ?; apply core_eq_inv|]. apply triple_get. intros w0 Hi.
  destruct (_ <? _)%nat.
  - apply triple_modify. intros w ->. eapply (core_set_queue _ _ (core_of w0)); [exact Hi|]. rewrite promises_snoc.
    cbn [queues core_of]. multiset_solver.
  - apply triple_bind with (R := fun _ w => inv {[+ data_promise d +]} w).
    + apply triple_modify. intros w ->. by eapply (core_set_queue _ _ (core_of w0)).
    + intros ?. apply triple_modify. intros w Hw. unfold inv in *.
      change (core_of (add_event _ w)) with {| queues := queues (core_of w); views := views (core_of w);
        answered := settled_in (events w ++ [Reject (data_promise d) (B "Queue is full")]); fresh := fresh (core_of w) |}.
      rewrite (settled_in_app _ _ (data_promise d)) by done. apply (core_answer ∅ _ (core_of w)).
      by rewrite (right_id_L ∅ (⊎)).
Qed.

Lemma doRequest_inv fuel p r :
  triple (inv {[+ p +]}) (doRequest maxConnectionsPerHost maxResponseSize fuel p r) (fun _ w => inv ∅ w).
Proof.
  unfold doRequest. destruct (splitUrl _ _) as [[host page] https].
  eapply triple_bind; [apply pickConnection_inv|]. intros [c|]; cbn beta.
  2: { eapply triple_pre; [apply enqueue_inv|by intros w []]. }
  assert (forall A (m : M World A), neutral m ->
    triple (fun w => inv {[+ p +]} w /\ reserved c w) m (fun _ w => inv {[+ p +]} w /\ reserved c w)) as Hn.
  { intros A m Hm. apply triple_neutral; [done| |intros w [? _]; eapply inv_weaken; [done|multiset_solver]].
    intros w w' E. unfold inv, reserved. by rewrite E. }
  eapply triple_bind; [apply Hn, associateTransport_neutral|]. intros ?. cbn beta.
  eapply triple_bind; [apply Hn; unfold isConnected; apply neutral_bind; [apply conn_at_neutral|intros; apply neutral_ret]|].
  intros []; cbn beta; [apply (performImpl_inv _ (done_inv' fuel))|].
  apply triple_bind with (R := fun _ w => inv ∅ w); [|intros ?; apply triple_neutral_inv, connect_neutral].
  apply triple_modify. intros w [Hi Hr]. unfold reserved in Hr. cbn in Hr. rewrite lookup_fmap in Hr.
  destruct (heap w !! c) as [k|] eqn:Hk; [|done]. injection Hr as He Hu Hq.
  unfold inv. rewrite (set_heap_core c _ w k Hk). eapply core_set_view; [exact Hi|by apply views_lookup| |];
    unfold view_of; cbn [requestEntry isUsed conn_queue set_conn_queue]; rewrite He, Hu, Hq.
  - split; [done|]. by eexists.
  - cbn [app]. rewrite carried_idle, carried_queued. cbn [data_promise]. multiset_solver.
Qed.
End Client.
End Invariant.

(** ** The client's life *)

(** The application's thread submits requests and shuts down; a transport's thread is
    told what was polled. *)
Inductive operation : Type :=
  | Submit (promise : nat) (request : Request)
  | Ready (transport : nat) (fds : list Tag)
  | Shutdown (domains : list bytes).

Section Life.
Context `{DateLib, Resolver, StringMemory, Iteration, System} (maxConnectionsPerHost maxResponseSize : nat).

Definition perform (fuel : nat) (op : operation) (w : World) : World :=
  match op with
  | Submit p r => (doRequest maxConnectionsPerHost maxResponseSize fuel p r (set_thread None w)).1
  | Ready t fds => (onReady maxConnectionsPerHost maxResponseSize fuel t fds (set_thread (Some t) w)).1
  | Shutdown domains => (shutdown domains (set_thread None w)).1
  end.
Definition life (fuel : nat) (ops : list operation) (w : World) : World := fold_left (fun w op => perform fuel op w) ops w.

Definition submitted_by (op : operation) : gmultiset nat := match op with Submit p _ => {[+ p +]} | _ => ∅ end.
Fixpoint all_submitted (ops : list operation) : gmultiset nat :=
  match ops with [] => ∅ | op :: ops' => submitted_by op ⊎ all_submitted ops' end.

(** The promises that wait, in a queue or with a connection. *)
Definition waiting (w : World) : gmultiset nat := held promises (requestsQueues w) ⊎ held carried (views (core_of w)).

Lemma inv_grow S T w : inv S ∅ w -> S ⊆ T -> inv T ∅ w.
Proof. intros [C V F] Hs. split; [|done..]. multiset_solver. Qed.

Lemma perform_inv S fuel op w : inv S ∅ w -> inv (S ⊎ submitted_by op) ∅ (perform fuel op w).
Proof.
  intros Hi. destruct op as [p r|t fds|ds]; cbn [submitted_by perform].
  - assert (inv (S ⊎ {[+ p +]}) {[+ p +]} (set_thread None w)) as Hp.
    { destruct Hi as [C V F]. split; [|done..]. cbn [core_of set_thread]. multiset_solver. }
    pose proof (doRequest_inv _ maxConnectionsPerHost maxResponseSize fuel p r _ Hp) as Hd.
    by destruct (doRequest _ _ _ _ _ _) as [w' [a|e| |]].
  - rewrite (right_id_L ∅ (⊎)).
    pose proof (onReady_inv S maxConnectionsPerHost maxResponseSize fuel t fds (set_thread (Some t) w) Hi) as Hd.
    by destruct (onReady _ _ _ _ _ _) as [w' [a|e| |]].
  - rewrite (right_id_L ∅ (⊎)). eapply core_eq_inv; [apply (shutdown_neutral ds)|exact Hi].
Qed.

Lemma life_inv S fuel ops w : inv S ∅ w -> inv (S ⊎ all_submitted ops) ∅ (life fuel ops w).
Proof.
  revert S w. induction ops as [|op ops IH]; intros S w Hi; cbn [all_submitted life fold_left].
  - by rewrite (right_id_L ∅ (⊎)).
  - rewrite (assoc_L (⊎)). by apply IH, perform_inv.
Qed.

(** C12. Whatever the client does, in whatever order, and whether it ends well, with an
    exception or worse: a submitted request is in one place at most, waiting or answered,
    so no promise is settled twice or settled while it waits.  A connection has one
    request at most, with its closure, and is in use as long as it has one. *)
Theorem requests_settle_once fuel ops threads :
  let w := life fuel ops (Client_init threads) in
  (forall p, multiplicity p (settled_in (events w)) + multiplicity p (waiting w) <= multiplicity p (all_submitted ops))%nat
  /\ forall c k, heap w !! c = Some k -> conn_ok c (view_of k).
Proof.
  intros w. assert (inv ∅ ∅ (Client_init threads)) as H0'.
  { split; cbn.
    - unfold everywhere. cbn. by rewrite fmap_empty, !held_empty.
    - rewrite fmap_empty. apply map_Forall_empty.
    - intros c v. by rewrite lookup_fmap, lookup_empty. }
  pose proof (life_inv ∅ fuel ops _ H0') as [C V _]. fold w in C, V. split.
  - intros p. specialize (C p). unfold everywhere in C. unfold waiting. cbn [queues answered core_of] in C.
    rewrite !multiplicity_disj_union, multiplicity_empty in C. rewrite multiplicity_disj_union. lia.
  - intros c k Hk. apply (V c). by apply views_lookup.
Qed.
End Life.
