(* ===== verification/ClientLevels.v ===== *)
(** * The bound on the closures of the client

    A request that fails while [Client::processRequestQueue] starts it ends in the closure
    that calls [processRequestQueue] again, which locks the mutex that is held: undefined
    behaviour in the model, where the thread of the program stays.  So the model's bound on
    the levels of calls is no bound on what it says of the program. *)

From S2P Require Import Prelude Cxx Stream HttpDefs Net HttpHeader HttpHeaders HttpMessage HttpResponse HttpParser.
From S2P Require Import ClientRequest TimerPool Client.

(** ** Computations that agree while the mutex of the queues is held *)

Definition agree {A} (m1 m2 : M World A) : Prop :=
  forall w, queuesLock w = true -> m1 w = m2 w /\ queuesLock (m1 w).1 = true.
Abbreviation keeps m := (agree m m).

Lemma agree_then {A C} (m1 m2 : M World A) (k1 k2 : A -> M World C) :
  agree m1 m2 -> (forall a, agree (k1 a) (k2 a)) -> agree (m1 ≫= k1) (m2 ≫= k2).
Proof.
  intros Hm Hk w Hw. destruct (Hm w Hw) as [E L]. unfold mbind, M_bind. rewrite <- E.
  destruct (m1 w) as [w' [a|e| |]]; [by apply Hk|done..].
Qed.
Lemma keeps_ret {A} (a : A) : keeps (mret a).
Proof. done. Qed.
Lemma keeps_get : keeps get.
Proof. done. Qed.
Lemma keeps_lift {A} (r : result A) : keeps (lift r).
Proof. done. Qed.
Lemma keeps_throw {A} e : keeps (throw e : M World A).
Proof. done. Qed.
Lemma keeps_modify f : (forall w, queuesLock (f w) = queuesLock w) -> keeps (modify f).
Proof. intros Hf w Hw. split; [done|]. cbn. by rewrite Hf. Qed.
Lemma keeps_put (w1 : World) : queuesLock w1 = true -> keeps (put w1).
Proof. done. Qed.
Lemma agree_finally {A} (m1 m2 : M World A) f :
  (forall w, queuesLock (f w) = queuesLock w) -> agree m1 m2 -> agree (finally m1 f) (finally m2 f).
Proof.
  intros Hf Hm w Hw. destruct (Hm w Hw) as [E L]. unfold finally. rewrite <- E. split; [done|].
  destruct (m1 w) as [w' r]. cbn in *. by rewrite Hf.
Qed.

Create HintDb levels.
Ltac agree_step :=
  first [ apply agree_then; [|intros ?] | apply keeps_ret | apply keeps_get | apply keeps_lift | apply keeps_throw
        | apply keeps_modify; intros; reflexivity | apply agree_finally; [intros; reflexivity|]
        | progress (auto with levels) | case_match | case_decide ].
Ltac agree_tac := repeat agree_step.

Section Levels.
Context `{DateLib, Resolver, StringMemory, Iteration, System} (maxConnectionsPerHost maxResponseSize : nat).

Lemma call_keeps : keeps call.
Proof. unfold call. agree_tac. Qed.
Lemma conn_at_keeps c : keeps (conn_at c).
Proof. unfold conn_at, of_option. agree_tac. Qed.
Lemma transport_at_keeps t : keeps (transport_at t).
Proof. unfold transport_at, of_option. agree_tac. Qed.
Lemma on_conn_keeps c f : keeps (on_conn c f).
Proof. by apply keeps_modify. Qed.
Lemma on_transport_keeps t f : keeps (on_transport t f).
Proof. by apply keeps_modify. Qed.
Lemma emit_keeps e : keeps (emit e).
Proof. by apply keeps_modify. Qed.
Lemma on_timers_keeps {A} c (f : TimerPool -> TimerPool * result A) : keeps (on_timers c f).
Proof.
  unfold on_timers. apply agree_then; [apply conn_at_keeps|]. intros k. destruct (f _).
  apply agree_then; [apply on_conn_keeps|]. intros. apply keeps_lift.
Qed.
#[local] Hint Resolve call_keeps conn_at_keeps transport_at_keeps on_conn_keeps on_transport_keeps emit_keeps
  on_timers_keeps : levels.
Lemma set_timer_keeps c t f : keeps (set_timer c t f).
Proof. unfold set_timer, of_option. agree_tac. Qed.
Lemma pick_timer_keeps c : keeps (pick_timer c).
Proof. unfold pick_timer. agree_tac. Qed.
#[local] Hint Resolve set_timer_keeps pick_timer_keeps : levels.
Lemma release_timer_keeps c t : keeps (release_timer c t).
Proof. unfold release_timer. agree_tac. Qed.
Lemma lock_conn_keeps c : keeps (lock_conn c).
Proof. unfold lock_conn. agree_tac. Qed.
Lemma request_sent_keeps t req : keeps (request_sent t req).
Proof. unfold request_sent, with_timeoutsLock, of_option. agree_tac. Qed.
Lemma releaseConnection_keeps c : keeps (releaseConnection c).
Proof. apply on_conn_keeps. Qed.
Lemma make_connection_keeps : keeps (make_connection maxResponseSize).
Proof. intros w Hw. done. Qed.
Lemma make_connections_keeps n : keeps (make_connections maxResponseSize n).
Proof.
  induction n as [|n IH]; cbn [make_connections]; [apply keeps_ret|].
  apply agree_then; [apply make_connection_keeps|]. intros c. apply agree_then; [apply IH|]. intros. apply keeps_ret.
Qed.
Lemma connections_of_keeps d : keeps (connections_of maxConnectionsPerHost maxResponseSize d).
Proof.
  unfold connections_of. apply agree_then; [apply keeps_get|]. intros w. case_match; [apply keeps_ret|].
  apply agree_then; [apply make_connections_keeps|]. intros l. agree_tac.
Qed.
Lemma pickConnection_keeps d : keeps (pickConnection maxConnectionsPerHost maxResponseSize d).
Proof.
  unfold pickConnection. apply agree_then; [apply connections_of_keeps|]. intros l.
  induction l as [|c l IH]; cbn [first_idle]; unfold tryUse; agree_tac.
Qed.
#[local] Hint Resolve release_timer_keeps lock_conn_keeps request_sent_keeps releaseConnection_keeps
  pickConnection_keeps : levels.

(** ** What performs a request, with two closures that agree *)

Section Performing.
Context (done1 done2 : nat -> M World unit).
Hypothesis done_agree : forall c, agree (done1 c) (done2 c).

Lemma handleError_agree c e : agree (handleError done1 c e) (handleError done2 c e).
Proof. unfold handleError, call_onDone. agree_tac. Qed.

Lemma send_loop_agree fuel t fd req n : agree (send_loop done1 fuel t fd req n) (send_loop done2 fuel t fd req n).
Proof.
  revert n. induction fuel as [|fuel IH]; intros n; cbn [send_loop]; [apply keeps_lift|].
  apply agree_then; [apply call_keeps|]. intros i.
  destruct (sys_send _ _ _); [|apply keeps_throw|apply handleError_agree..]. agree_tac.
Qed.

Lemma performImpl_agree fuel c r p f : agree (performImpl done1 fuel c r p f) (performImpl done2 fuel c r p f).
Proof.
  unfold performImpl, asyncSendRequest, asyncSendRequestImpl. agree_tac.
  all: first [apply send_loop_agree | unfold call_onDone; by case_match].
Qed.

Lemma process_domains_agree fuel ds :
  agree (process_domains maxConnectionsPerHost maxResponseSize done1 fuel ds)
    (process_domains maxConnectionsPerHost maxResponseSize done2 fuel ds).
Proof.
  induction ds as [|d ds IH]; cbn [process_domains]; [apply keeps_ret|].
  apply agree_then; [apply keeps_get|]. intros w. apply agree_then; [|intros ?; apply IH].
  generalize (S (length (default [] (requestsQueues w !! d)))) as n. intros n.
  induction n as [|n IHn]; cbn [process_domain]; [apply keeps_lift|].
  apply agree_then; [apply pickConnection_keeps|]. intros [c|]; [|apply keeps_ret].
  apply agree_then; [apply keeps_get|]. intros w'. destruct (requestsQueues w' !! d) as [[|x q]|].
  1,3: apply releaseConnection_keeps.
  apply agree_then; [by apply keeps_modify|]. intros ?. apply agree_then; [apply performImpl_agree|]. intros ?. apply IHn.
Qed.
End Performing.

(** ** The closures *)

(** Under the mutex a closure returns at once, or locks it again. *)
Lemma released_agree n m fuel c :
  agree (released maxConnectionsPerHost maxResponseSize (S n) fuel c) (released maxConnectionsPerHost maxResponseSize (S m) fuel c).
Proof.
  cbn [released]. apply agree_then; [apply lock_conn_keeps|]. intros [k|]; [|apply keeps_ret].
  apply agree_then; [apply releaseConnection_keeps|]. intros ?. intros w Hw.
  unfold Client_processRequestQueue, with_queuesLock, mbind, M_bind, get. destruct (stopProcessRequestQueues w); [done|].
  by rewrite Hw.
Qed.

Lemma Client_processRequestQueue_eq done1 done2 fuel w :
  (forall c, agree (done1 c) (done2 c)) ->
  Client_processRequestQueue maxConnectionsPerHost maxResponseSize done1 fuel w
  = Client_processRequestQueue maxConnectionsPerHost maxResponseSize done2 fuel w.
Proof.
  intros Hd. unfold Client_processRequestQueue, with_queuesLock. rewrite !(bind_Ok get _ _ _ _ eq_refl).
  destruct (stopProcessRequestQueues w); [done|]. rewrite !(bind_Ok get _ _ _ _ eq_refl).
  destruct (queuesLock w); [done|]. rewrite !(bind_Ok (modify _) _ _ _ _ eq_refl).
  unfold finally. rewrite !(bind_Ok get _ _ _ _ eq_refl). destruct (stopProcessRequestQueues _); [done|].
  by rewrite (proj1 (process_domains_agree done1 done2 Hd fuel _ (set_queuesLock true w) eq_refl)).
Qed.

Lemma released_S n fuel c :
  released maxConnectionsPerHost maxResponseSize (S n) fuel c
  = (conn ← lock_conn c;
     match conn with
     | None => mret tt
     | Some _ =>
         _ ← releaseConnection c;
         Client_processRequestQueue maxConnectionsPerHost maxResponseSize
           (released maxConnectionsPerHost maxResponseSize n fuel) fuel
     end).
Proof. reflexivity. Qed.

(** The bound [levels] on the closures that run each other makes no difference to the model:
    the second of them locks the mutex of the queues, which the thread holds, and what it
    would call is not reached.  (A thread that locks a mutex it holds does not come back in
    the program, [client.cc:1770]; the model has undefined behaviour there.) *)
Lemma two_levels n fuel c w :
  released maxConnectionsPerHost maxResponseSize (levels + n) fuel c w
  = released maxConnectionsPerHost maxResponseSize levels fuel c w.
Proof.
  unfold levels. cbn [Nat.add]. rewrite !(released_S (S _)). unfold mbind, M_bind.
  destruct (lock_conn c w) as [w' [[k|]|e| |]]; [|done..].
  destruct (releaseConnection c w') as [w2 [u|e| |]]; [|done..].
  apply Client_processRequestQueue_eq. intros c'. apply released_agree.
Qed.
End Levels.
