(* ===== verification/ClientFlow.v ===== *)
(** * How the client's requests go through a connection

    One domain with one connection, on the thread of its transport: what an answer, a
    timeout, a closed connection and a short write do to the request that waits next. *)

From S2P Require Import Prelude Cxx Stream HttpDefs Net HttpHeader HttpHeaders HttpMessage HttpResponse HttpParser.
From S2P Require Import ClientRequest TimerPool Client.

Section Flow.
Context `{DateLib, Resolver, StringMemory, Iteration, System} (maxConnectionsPerHost maxResponseSize : nat).
Context (w : World) (d : bytes) (c t : nat) (fd : Fd).

(** The client [w] with its one connection as [k], the lock [l], the queue [q], [n] system
    calls made and the events [es] after those of [w]. *)
Definition upd (l : bool) (k : Connection) (q : list RequestData) (n : nat) (es : list event) : World :=
  {| pool := {[d := [c]]}; heap := <[c := k]> (heap w); brk := brk w; requestsQueues := {[d := q]}; queuesLock := l;
     stopProcessRequestQueues := false; ioIndex := ioIndex w; transports := transports w; thread := Some t;
     calls := n; events := es |}.

(** ** Running the steps *)

Lemma run_get l k q n es : get (upd l k q n es) = (upd l k q n es, Ok (upd l k q n es)).
Proof. done. Qed.
Lemma run_conn_at l k q n es : conn_at c (upd l k q n es) = (upd l k q n es, Ok k).
Proof. unfold conn_at, of_option, mbind, M_bind, get, lift. cbn [heap upd]. by rewrite lookup_insert_eq. Qed.
Lemma run_lock_conn l k q n es : lock_conn c (upd l k q n es) = (upd l k q n es, Ok (Some k)).
Proof. unfold lock_conn, mbind, M_bind, get, mret, M_ret. cbn [heap upd]. by rewrite lookup_insert_eq. Qed.
Lemma run_on_conn l k q n es f : on_conn c f (upd l k q n es) = (upd l (f k) q n es, Ok tt).
Proof.
  unfold on_conn, modify, set_heap. cbn [heap upd]. do 2 f_equal. unfold upd. f_equal.
  apply map_eq. intros c'.
  destruct (decide (c = c')) as [<-|Hne].
  - by rewrite lookup_alter_eq, !lookup_insert_eq.
  - by rewrite lookup_alter_ne, !lookup_insert_ne.
Qed.
Lemma run_emit l k q n es e : emit e (upd l k q n es) = (upd l k q n (es ++ [e]), Ok tt).
Proof. done. Qed.
Lemma run_transport_at tr l k q n es : transports w !! t = Some tr -> transport_at t (upd l k q n es) = (upd l k q n es, Ok tr).
Proof. intros E. unfold transport_at, of_option, mbind, M_bind, get, lift. cbn [transports upd]. by rewrite E. Qed.
Lemma run_call l k q n es : call (upd l k q n es) = (upd l k q (S n) es, Ok n).
Proof. done. Qed.
Lemma run_set_lock b l k q n es : modify (set_queuesLock b) (upd l k q n es) = (upd b k q n es, Ok tt).
Proof. done. Qed.
Lemma run_set_queues l k q n es q' : modify (set_queues <[d := q']>) (upd l k q n es) = (upd l k q' n es, Ok tt).
Proof. unfold modify, set_queues, upd. cbn. by rewrite insert_singleton_eq. Qed.


(** The kernel takes whatever it is given; the connection is usable. *)
Hypothesis send_all : forall n fd len, sys_send n fd len = Sent len.
Definition usable (k : Connection) : Prop := conn_fd k = Some fd /\ transport_ k = Some t.

(** A request without a timeout, and its text. *)
Definition has_text (x : RequestData) (text : bytes) : Prop :=
  writeRequest (request x) = Ok text /\ (HttpMessage.timeout_ (request x) <= 0)%Z.

Section Performing.
Context (done_ : nat -> M World unit).

Lemma run_send l k q n es fuel buffer :
  send_loop done_ (S fuel) t fd {| send_conn := c; send_timer := None; send_buffer := buffer |} 0 (upd l k q n es)
  = (upd l k q (S n) (es ++ [Wrote fd buffer]), Ok tt).
Proof.
  cbn [send_loop send_buffer]. rewrite (bind_Ok _ _ _ _ _ (run_call l k q n es)), send_all, Nat.sub_0_r, drop_0.
  rewrite (bind_Ok _ _ _ _ _ (run_emit l k q (S n) es _)), firstn_all. by rewrite Nat.eqb_refl.
Qed.

Lemma run_performImpl l k q n es fuel x text f :
  usable k -> has_text x text ->
  performImpl done_ (S fuel) c (request x) (data_promise x) f (upd l k q n es)
  = (upd l (set_requestEntry (Some {| promise := data_promise x; timer := None; onDone := f |}) k) q (S n)
       (es ++ [Wrote fd text]), Ok tt).
Proof.
  intros [Hf Ht] [Hw Hto]. unfold performImpl. rewrite Hw. rewrite (bind_Ok (lift _) _ _ _ _ eq_refl).
  rewrite (proj2 (Z.ltb_ge _ _)) by done. rewrite (bind_Ok (mret None) _ _ _ _ eq_refl).
  rewrite (bind_Ok _ _ _ _ _ (run_on_conn l k q n es _)), (bind_Ok _ _ _ _ _ (run_conn_at l _ q n es)).
  cbn [transport_ set_requestEntry]. rewrite Ht. unfold asyncSendRequest.
  rewrite (bind_Ok _ _ _ _ _ (run_get l _ q n es)). cbn [thread upd]. rewrite decide_True by done.
  unfold asyncSendRequestImpl. cbn [send_conn]. rewrite (bind_Ok _ _ _ _ _ (run_lock_conn l _ q n es)).
  cbn [conn_fd set_requestEntry]. rewrite Hf. apply run_send.
Qed.

Lemma run_pick l k q n es :
  pickConnection maxConnectionsPerHost maxResponseSize d (upd l k q n es)
  = if isUsed k then (upd l k q n es, Ok None) else (upd l (set_isUsed true k) q n es, Ok (Some c)).
Proof.
  unfold pickConnection, connections_of. rewrite (bind_Ok _ _ (upd l k q n es) (upd l k q n es) [c]).
  2: { rewrite (bind_Ok _ _ _ _ _ (run_get l k q n es)). cbn [pool upd]. by rewrite lookup_singleton_eq. }
  cbn [first_idle]. destruct (isUsed k) eqn:Eu.
  - rewrite (bind_Ok (tryUse c) _ _ (upd l k q n es) false); [done|].
    unfold tryUse. rewrite (bind_Ok _ _ _ _ _ (run_conn_at l k q n es)). by rewrite Eu.
  - rewrite (bind_Ok (tryUse c) _ _ (upd l (set_isUsed true k) q n es) true); [done|].
    unfold tryUse. rewrite (bind_Ok _ _ _ _ _ (run_conn_at l k q n es)), Eu.
    by rewrite (bind_Ok _ _ _ _ _ (run_on_conn l k q n es _)).
Qed.

(** The connection when it takes the next request. *)
Definition taken (x : RequestData) (k : Connection) : Connection :=
  set_requestEntry (Some {| promise := data_promise x; timer := None; onDone := ReleaseAndProcess c |}) (set_isUsed true k).

(** An idle connection takes the first of the queue. *)
Lemma run_process l k x q n es fuel m text :
  usable k -> isUsed k = false -> has_text x text ->
  process_domain maxConnectionsPerHost maxResponseSize done_ (S (S m)) (S fuel) d (upd l k (x :: q) n es)
  = (upd l (taken x k) q (S n) (es ++ [Wrote fd text]), Ok tt).
Proof.
  intros Hk Hu Hx. cbn [process_domain]. pose proof (run_pick l k (x :: q) n es) as Ep. rewrite Hu in Ep.
  rewrite (bind_Ok _ _ _ _ _ Ep), (bind_Ok _ _ _ _ _ (run_get l _ (x :: q) n es)). cbn [requestsQueues upd].
  rewrite lookup_singleton_eq, (bind_Ok _ _ _ _ _ (run_set_queues l _ (x :: q) n es q)).
  rewrite (bind_Ok _ _ _ _ _ (run_performImpl l (set_isUsed true k) q n es fuel x text _ Hk Hx)).
  pose proof (run_pick l (taken x k) q (S n) (es ++ [Wrote fd text])) as Ep'. cbn [isUsed taken set_requestEntry set_isUsed] in Ep'.
  fold (taken x k). by rewrite (bind_Ok _ _ _ _ _ Ep').
Qed.

Lemma run_process_empty l k n es fuel m :
  isUsed k = false ->
  process_domain maxConnectionsPerHost maxResponseSize done_ (S m) fuel d (upd l k [] n es) = (upd l k [] n es, Ok tt).
Proof.
  intros Hu. cbn [process_domain]. pose proof (run_pick l k [] n es) as Ep. rewrite Hu in Ep.
  rewrite (bind_Ok _ _ _ _ _ Ep), (bind_Ok _ _ _ _ _ (run_get l _ [] n es)). cbn [requestsQueues upd].
  rewrite lookup_singleton_eq. unfold releaseConnection, setAsIdle. rewrite run_on_conn.
  do 2 f_equal. destruct k. cbn in *. by rewrite Hu.
Qed.
End Performing.

(** What becomes of an idle connection and of the queue. *)
Definition after_release (k : Connection) (q : list RequestData) (n : nat) (es : list event) (text : bytes) : World :=
  match q with
  | [] => upd false k [] n es
  | x :: q' => upd false (taken x k) q' (S n) (es ++ [Wrote fd text])
  end.
Definition next_text (q : list RequestData) (text : bytes) : Prop :=
  match q with [] => True | x :: _ => has_text x text end.

Lemma run_released k q n es m fuel text :
  usable k -> next_text q text ->
  released maxConnectionsPerHost maxResponseSize (S m) (S fuel) c (upd false k q n es)
  = (after_release (set_isUsed false k) q n es text, Ok tt).
Proof.
  intros Hk Hx. cbn [released]. rewrite (bind_Ok _ _ _ _ _ (run_lock_conn false k q n es)).
  unfold releaseConnection, setAsIdle. rewrite (bind_Ok _ _ _ _ _ (run_on_conn false k q n es _)).
  generalize (released maxConnectionsPerHost maxResponseSize m (S fuel)) as done_. intros done_.
  unfold Client_processRequestQueue, with_queuesLock.
  rewrite (bind_Ok _ _ _ _ _ (run_get false _ q n es)). cbn [stopProcessRequestQueues upd]. cbv iota.
  rewrite (bind_Ok _ _ _ _ _ (run_get false _ q n es)). cbn [queuesLock upd]. cbv iota.
  rewrite (bind_Ok _ _ _ _ _ (run_set_lock true false _ q n es)). unfold finally.
  rewrite (bind_Ok _ _ _ _ _ (run_get true _ q n es)). cbn [stopProcessRequestQueues requestsQueues upd]. cbv iota.
  assert (queues_order {[d := q]} = [d]) as ->.
  { apply Permutation_singleton_r. rewrite queues_order_ok, map_to_list_singleton. done. }
  cbn [process_domains]. rewrite (bind_Ok _ _ _ _ _ (run_get true _ q n es)). cbn [requestsQueues upd].
  rewrite lookup_singleton_eq. change (default [] (Some q)) with q. destruct q as [|x q].
  - by rewrite (bind_Ok _ _ _ _ _ (run_process_empty done_ true (set_isUsed false k) n es (S fuel) _ eq_refl)).
  - by rewrite (bind_Ok _ _ _ _ _ (run_process done_ true (set_isUsed false k) x q n es fuel (length q) text Hk eq_refl Hx)).
Qed.

(** ** An answer *)

(** The text [b] is all that is missing of a response: [p'] has it. *)
Definition completes (b : bytes) (p p' : ResponseParser) : Prop :=
  exists p1, ParserBase_feed b p = (true, p1) /\ ParserBase_parse p1 = (p', Ok Done).
Definition next_parser (p' : ResponseParser) : ResponseParser :=
  ParserImpl_reset (set_object (moved_out (object p')) p').

(** The connection once it is released again. *)
Definition served (k : Connection) (p' : ResponseParser) : Connection :=
  set_isUsed false (set_requestEntry None (set_parser (next_parser p') k)).

Lemma run_response k e q n es fuel b p' text :
  usable k -> requestEntry k = Some e -> timer e = None -> onDone e = ReleaseAndProcess c ->
  completes b (parser_ k) p' -> next_text q text ->
  handleResponsePacket maxConnectionsPerHost maxResponseSize (S fuel) c b (upd false k q n es)
  = (after_release (served k p') q n (es ++ [Resolve (promise e) (object p')]) text, Ok tt).
Proof.
  intros Hk He Ht Hd (p1 & Ef & Ep) Hx. unfold handleResponsePacket, catching.
  assert (feed_parser c b (upd false k q n es) = (upd false (set_parser p1 k) q n es, Ok true)) as E1.
  { unfold feed_parser. rewrite (bind_Ok _ _ _ _ _ (run_conn_at false k q n es)), Ef.
    by rewrite (bind_Ok _ _ _ _ _ (run_on_conn false k q n es _)). }
  rewrite (bind_Ok _ _ _ _ _ E1). cbn [negb].
  assert (run_parser c (upd false (set_parser p1 k) q n es) = (upd false (set_parser p' k) q n es, Ok Done)) as E2.
  { unfold run_parser. rewrite (bind_Ok _ _ _ _ _ (run_conn_at false _ q n es)). cbn [parser_ set_parser]. rewrite Ep.
    by rewrite (bind_Ok _ _ _ _ _ (run_on_conn false _ q n es _)). }
  rewrite (bind_Ok _ _ _ _ _ E2), decide_True by done. unfold finish_request.
  rewrite (bind_Ok _ _ _ _ _ (run_conn_at false _ q n es)). cbn [requestEntry set_parser]. rewrite He, Ht.
  rewrite (bind_Ok (release_timer c None) _ _ _ _ eq_refl). cbn [parser_ set_parser].
  rewrite (bind_Ok _ _ _ _ _ (run_emit false _ q n es _)), (bind_Ok _ _ _ _ _ (run_on_conn false _ q n _ _)), Hd.
  cbn [call_onDone]. unfold done_, levels.
  by rewrite (run_released _ q n _ 1 fuel text) by done.
Qed.

(** ** One after the other *)

(** The responses that are read from the texts [bs], one from each. *)
Inductive answers : ResponseParser -> list bytes -> list Response -> Prop :=
  | answers_nil p : answers p [] []
  | answers_cons p b p' bs rs :
      completes b p p' -> answers (next_parser p') bs rs -> answers p (b :: bs) (object p' :: rs).

Fixpoint handle_packets (fuel : nat) (bs : list bytes) : M World unit :=
  match bs with
  | [] => mret tt
  | b :: bs' => _ ← handleResponsePacket maxConnectionsPerHost maxResponseSize fuel c b; handle_packets fuel bs'
  end.

(** Each request is answered, and then the next one is written. *)
Fixpoint exchange (p : nat) (q : list RequestData) (texts : list bytes) (rs : list Response) : list event :=
  match rs with
  | [] => []
  | r :: rs' =>
      Resolve p r :: match q, texts with
                     | x :: q', text :: texts' => Wrote fd text :: exchange (data_promise x) q' texts' rs'
                     | _, _ => []
                     end
  end.

Lemma run_packets e q texts bs rs fuel k n es :
  usable k -> requestEntry k = Some e -> timer e = None -> onDone e = ReleaseAndProcess c ->
  Forall2 has_text q texts -> answers (parser_ k) bs rs -> length bs = S (length q) ->
  exists k', handle_packets (S fuel) bs (upd false k q n es)
             = (upd false k' [] (n + length q) (es ++ exchange (promise e) q texts rs), Ok tt)
             /\ isUsed k' = false /\ requestEntry k' = None.
Proof.
  intros Hk He Ht Hd Hx. revert e bs rs k n es Hk He Ht Hd.
  induction Hx as [|x text q texts Hx Hq IH]; intros e bs rs k n es Hk He Ht Hd Hans Hlen.
  - destruct bs as [|b [|? ?]]; try discriminate Hlen. inversion Hans as [|? ? p' ? rs' Hc Hr]; subst. inversion Hr; subst.
    cbn [handle_packets exchange]. pose proof (run_response k e [] n es fuel b p' [] Hk He Ht Hd Hc I) as E. cbn [after_release] in E.
    eexists. rewrite (bind_Ok _ _ _ _ _ E), Nat.add_0_r. done.
  - destruct bs as [|b bs]; [discriminate Hlen|]. inversion Hans as [|? ? p' ? rs' Hc Hr]; subst.
    pose proof (run_response k e (x :: q) n es fuel b p' text Hk He Ht Hd Hc Hx) as E. cbn [after_release] in E.
    cbn [handle_packets exchange]. rewrite (bind_Ok _ _ _ _ _ E).
    destruct (IH {| promise := data_promise x; timer := None; onDone := ReleaseAndProcess c |} bs rs' (taken x (served k p')) (S n)
      ((es ++ [Resolve (promise e) (object p')]) ++ [Wrote fd text])) as (k' & -> & Hu & Hn); try done.
    { cbn in Hlen. lia. }
    exists k'. split; [|done]. cbn [length promise]. rewrite <- plus_n_Sm, <- !app_assoc. done.
Qed.

(** C13. Over one connection the queued requests of a domain are served one after the
    other, if the requests have no timeout, the kernel takes each of them whole and each
    answer comes in one packet: each answer that comes settles the request that was written
    last, and only then is the next of the queue written, in the order of the queue; in the
    end the connection is idle and the queue empty.  ([late_response_answers_next] and
    [partial_send_truncates] below are what happens otherwise.) *)
Theorem served_in_order e q texts bs rs fuel k n es :
  usable k -> requestEntry k = Some e -> timer e = None -> onDone e = ReleaseAndProcess c ->
  Forall2 has_text q texts -> answers (parser_ k) bs rs -> length bs = S (length q) ->
  exists k', handle_packets (S fuel) bs (upd false k q n es)
             = (upd false k' [] (n + length q) (es ++ exchange (promise e) q texts rs), Ok tt)
             /\ isUsed k' = false /\ requestEntry k' = None.
Proof. apply run_packets. Qed.

(** ** A timeout *)

Hypothesis settime_ok : forall n, sys_settime n = true.

Definition timer_of (k : Connection) (i : nat) (tfd : Fd) : Prop := exists en, timerPool_ k !! i = Some en /\ fd_ en = Some tfd.
Definition timer_released (i : nat) (k : Connection) : Connection := set_timerPool (releaseTimer i (timerPool_ k)) k.

Lemma run_release_timer l k q n es i tfd :
  timer_of k i tfd ->
  release_timer c (Some i) (upd l k q n es) = (upd l (timer_released i k) q (S n) (es ++ [SetTime tfd (0, 0)%Z]), Ok tt).
Proof.
  intros (en & Hi & Hf). unfold release_timer.
  rewrite (bind_Ok _ _ (upd l k q n es) (upd l k q (S n) (es ++ [SetTime tfd (0, 0)%Z])) tt).
  - unfold on_timers. rewrite (bind_Ok _ _ _ _ _ (run_conn_at l k q (S n) _)).
    by rewrite (bind_Ok _ _ _ _ _ (run_on_conn l k q (S n) _ _)).
  - unfold set_timer. rewrite (bind_Ok _ _ _ _ _ (run_conn_at l k q n es)), Hi.
    rewrite (bind_Ok (of_option (Some en)) _ _ _ en eq_refl), (bind_Ok _ _ _ _ _ (run_call l k q n es)).
    unfold disarm, settime. rewrite Hf, settime_ok. done.
Qed.

(** The connection after the timeout of a request. *)
Definition timed_out (i : nat) (k : Connection) : Connection := set_isUsed false (set_requestEntry None (timer_released i k)).

Lemma run_timeout k e q n es fuel i tfd text :
  usable k -> requestEntry k = Some e -> timer e = Some i -> timer_of k i tfd -> onDone e = ReleaseAndProcess c ->
  next_text q text ->
  handleTimeout (done_ maxConnectionsPerHost maxResponseSize (S fuel)) c (upd false k q n es)
  = (after_release (timed_out i k) q (S n) ((es ++ [SetTime tfd (0, 0)%Z]) ++ [Reject (promise e) (B "Timeout")]) text, Ok tt).
Proof.
  intros Hk He Ht Hi Hd Hx. unfold handleTimeout. rewrite (bind_Ok _ _ _ _ _ (run_conn_at false k q n es)), He, Ht.
  rewrite (bind_Ok _ _ _ _ _ (run_release_timer false k q n es i tfd Hi)).
  rewrite (bind_Ok _ _ _ _ _ (run_emit false _ q (S n) _ _)), (bind_Ok _ _ _ _ _ (run_on_conn false _ q (S n) _ _)), Hd.
  cbn [call_onDone]. unfold done_, levels. by rewrite (run_released _ q (S n) _ 1 fuel text) by done.
Qed.

(** A request that times out gives its connection to the next one, which is written
    behind it; the answer to the first, when it comes, is taken for the answer to the
    second. *)
Theorem late_response_answers_next k e x n es fuel i tfd text b p' :
  usable k -> requestEntry k = Some e -> timer e = Some i -> timer_of k i tfd -> onDone e = ReleaseAndProcess c ->
  has_text x text -> completes b (parser_ k) p' ->
  exists w', (_ ← handleTimeout (done_ maxConnectionsPerHost maxResponseSize (S fuel)) c;
              handleResponsePacket maxConnectionsPerHost maxResponseSize (S fuel) c b) (upd false k [x] n es) = (w', Ok tt)
  /\ events w' = es ++ [SetTime tfd (0, 0)%Z; Reject (promise e) (B "Timeout"); Wrote fd text; Resolve (data_promise x) (object p')].
Proof.
  intros Hk He Ht Hi Hd Hx Hc. pose proof (run_timeout k e [x] n es fuel i tfd text Hk He Ht Hi Hd Hx) as E.
  cbn [after_release] in E. rewrite (bind_Ok _ _ _ _ _ E).
  rewrite (run_response (taken x (timed_out i k)) {| promise := data_promise x; timer := None; onDone := ReleaseAndProcess c |}
             [] (S (S n)) _ fuel b p' []); try done.
  eexists. split; [done|]. cbn [after_release events upd promise]. by rewrite <- !app_assoc.
Qed.
End Flow.

(** ** A connection the server closes *)

Section Closed.
Context `{DateLib, Resolver, StringMemory, Iteration, System} (maxConnectionsPerHost maxResponseSize : nat).
Context (w : World) (d : bytes) (c t : nat) (fd : Fd).
Hypothesis send_all : forall n fd len, sys_send n fd len = Sent len.

(** When the server closes a connection, the request it carries is rejected and the
    connection goes to the next request, which is written to it; only then is it closed.
    The next request is with a connection without a descriptor, its promise unsettled. *)
Theorem closed_connection_reused k e x q n es fuel text :
  usable t fd k -> requestEntry k = Some e -> timer e = None -> onDone e = ReleaseAndProcess c -> has_text x text ->
  sys_recv n fd (Z.to_nat MaxBuffer) = Received [] ->
  exists w' k', handleIncoming maxConnectionsPerHost maxResponseSize (S fuel) t c (upd w d c t false k (x :: q) n es) = (w', Ok tt)
  /\ events w' = es ++ [Reject (promise e) (B "Remote closed connection"); Wrote fd text; CloseFd fd]
  /\ heap w' !! c = Some k' /\ conn_fd k' = None /\ connectionState_ k' = NotConnected
  /\ promise <$> requestEntry k' = Some (data_promise x) /\ timer <$> requestEntry k' = Some None.
Proof.
  intros Hk He Ht Hd Hx Hr. pose proof Hk as [Hf _]. unfold handleIncoming. cbn [incoming_loop].
  rewrite (bind_Ok _ _ _ _ _ (run_conn_at w d c t false k (x :: q) n es)), Hf.
  rewrite (bind_Ok _ _ _ _ _ (run_call w d c t false k (x :: q) n es)).
  change (MaxBuffer - Z.of_nat (length []))%Z with MaxBuffer. rewrite Hr, decide_True by done.
  set (k2 := set_isUsed false (set_requestEntry None k)).
  assert (handleError (done_ maxConnectionsPerHost maxResponseSize (S fuel)) c (B "Remote closed connection")
            (upd w d c t false k (x :: q) (S n) es)
          = (upd w d c t false (taken c x k2) q (S (S n))
               ((es ++ [Reject (promise e) (B "Remote closed connection")]) ++ [Wrote fd text]), Ok tt)) as E.
  { unfold handleError. rewrite (bind_Ok _ _ _ _ _ (run_conn_at w d c t false k (x :: q) (S n) es)), He, Ht.
    rewrite (bind_Ok (release_timer c None) _ _ _ _ eq_refl).
    rewrite (bind_Ok _ _ _ _ _ (run_emit w d c t false _ (x :: q) (S n) _ _)).
    rewrite (bind_Ok _ _ _ _ _ (run_on_conn w d c t false _ (x :: q) (S n) _ _)), Hd.
    cbn [call_onDone]. unfold done_, levels.
    by rewrite (run_released _ _ w d c t fd send_all (set_requestEntry None k) (x :: q) (S n) _ 1 fuel text) by done. }
  rewrite (bind_Ok _ _ _ _ _ E). clear E.
  set (w2 := set_transports (alter (set_connections (delete fd)) t) w).
  match goal with |- context [upd w d c t false ?k' q ?n' ?es'] =>
    rewrite (bind_Ok (on_transport t _) _ (upd w d c t false k' q n' es') (upd w2 d c t false k' q n' es') tt eq_refl) end.
  unfold closeFromRemoteClosedConnection. rewrite (bind_Ok _ _ _ _ _ (run_on_conn w2 d c t false _ q _ _ _)).
  unfold close_fd. rewrite (bind_Ok _ _ _ _ _ (run_conn_at w2 d c t false _ q _ _)).
  cbn [conn_fd set_connectionState taken set_requestEntry set_isUsed k2]. rewrite Hf.
  rewrite (bind_Ok _ _ _ _ _ (run_emit w2 d c t false _ q _ _ _)), run_on_conn.
  eexists _, _. split; [reflexivity|]. cbn [events heap upd]. split; [by rewrite <- !app_assoc|].
  split; [apply lookup_insert_eq|done].
Qed.
End Closed.

(** ** A send that takes a part *)

Section Partial.
Context `{DateLib, Resolver, StringMemory, Iteration, System} (done_ : nat -> M World unit) (w : World) (t : nat) (fd : Fd).

Lemma run_send_part fuel req total w' k :
  sys_send (calls w') fd (length (send_buffer req) - total) = Sent k ->
  send_loop done_ (S fuel) t fd req total w'
  = (if (total + k =? length (send_buffer req) - total)%nat then request_sent t req else send_loop done_ fuel t fd req (total + k))
      (add_event (Wrote fd (take k (drop total (send_buffer req)))) (set_calls (S (calls w')) w')).
Proof.
  intros E. cbn [send_loop]. rewrite (bind_Ok call _ w' (set_calls (S (calls w')) w') (calls w') eq_refl), E.
  by rewrite (bind_Ok (emit _) _ _ _ tt eq_refl).
Qed.

(** What is left is computed before a send and compared with what was written after
    it: a request of which a part was taken, and then the rest but for as much as that
    part, counts as sent while its end was not. *)
Theorem partial_send_truncates req a fuel :
  let b := send_buffer req in
  send_timer req = None -> (0 < a)%nat -> (2 * a < length b)%nat ->
  sys_send (calls w) fd (length b) = Sent a -> sys_send (S (calls w)) fd (length b - a) = Sent (length b - 2 * a) ->
  exists w', send_loop done_ (S (S fuel)) t fd req 0 w = (w', Ok tt)
  /\ events w' = events w ++ [Wrote fd (take a b); Wrote fd (take (length b - 2 * a) (drop a b))]
  /\ (a + (length b - 2 * a) < length b)%nat.
Proof.
  intros b Ht Ha Hb E1 E2. rewrite (run_send_part _ _ _ _ a) by (by rewrite Nat.sub_0_r).
  fold b. rewrite (proj2 (Nat.eqb_neq _ _)) by lia.
  rewrite (run_send_part _ _ _ _ (length b - 2 * a)) by done. fold b. rewrite (proj2 (Nat.eqb_eq _ _)) by lia.
  unfold request_sent. rewrite Ht. eexists. split; [done|]. cbn [events add_event set_calls]. rewrite <- app_assoc, drop_0.
  split; [done|lia].
Qed.

Lemma send_nothing_left fuel req w' :
  (0 < length (send_buffer req))%nat -> (forall m l, (calls w' <= m)%nat -> sys_send m fd l = Sent l) ->
  (send_loop done_ fuel t fd req (length (send_buffer req)) w').2 = OutOfFuel.
Proof.
  intros Hb. revert w'. induction fuel as [|fuel IH]; intros w' Hs; [done|].
  rewrite (run_send_part _ _ _ _ 0) by (rewrite Nat.sub_diag; by apply Hs).
  rewrite Nat.sub_diag, (proj2 (Nat.eqb_neq _ _)) by lia. rewrite Nat.add_0_r. apply IH.
  intros m l Hm. apply Hs. cbn in Hm. lia.
Qed.

(** If the rest of a request is taken by the second send, the loop goes on sending
    nothing for ever. *)
Theorem partial_send_spins req a fuel :
  let b := send_buffer req in
  (0 < a < length b)%nat -> sys_send (calls w) fd (length b) = Sent a ->
  (forall m l, (calls w < m)%nat -> sys_send m fd l = Sent l) ->
  (send_loop done_ fuel t fd req 0 w).2 = OutOfFuel.
Proof.
  intros b Ha E1 Hs. destruct fuel as [|fuel]; [done|].
  rewrite (run_send_part _ _ _ _ a) by (by rewrite Nat.sub_0_r). fold b. rewrite (proj2 (Nat.eqb_neq _ _)) by lia.
  destruct fuel as [|fuel]; [done|].
  rewrite (run_send_part _ _ _ _ (length b - a)) by (apply Hs; cbn; lia). fold b.
  rewrite (proj2 (Nat.eqb_neq _ _)) by lia. replace (0 + a + (length b - a))%nat with (length (send_buffer req)) by (unfold b in *; lia).
  apply send_nothing_left; [unfold b in *; lia|]. intros m l Hm. apply Hs. cbn in Hm. lia.
Qed.
End Partial.

(** ** A timeout, and a next request with a timeout *)

Lemma bind_UB {A C} (m : M World A) (k : A -> M World C) w w' : m w = (w', UB) -> (m ≫= k) w = (w', UB).
Proof. intros E. unfold mbind, M_bind. by rewrite E. Qed.

Section Deadlock.
Context `{DateLib, Resolver, StringMemory, Iteration, System} (maxConnectionsPerHost maxResponseSize : nat).
Context (w : World) (d : bytes) (c t : nat) (fd : Fd).
Hypothesis send_all : forall n fd len, sys_send n fd len = Sent len.
Hypothesis settime_ok : forall n, sys_settime n = true.
Hypothesis timerfd_ok : forall n, is_Some (sys_timerfd n).

(** The transport holds [timeoutsLock]. *)
Hypothesis locked : timeoutsLock <$> transports w !! t = Some true.

Lemma run_performImpl_locked done_ l k q n es fuel x text i en :
  usable t fd k -> writeRequest (request x) = Ok text -> (0 < HttpMessage.timeout_ (request x))%Z ->
  timerPool_ k !! i = Some en -> used en = false ->
  exists w', performImpl done_ (S fuel) c (request x) (data_promise x) (ReleaseAndProcess c) (upd w d c t l k q n es) = (w', UB).
Proof.
  intros [Hf Ht] Hw Hto Hi Hu. unfold performImpl. rewrite Hw, (bind_Ok (lift _) _ _ _ _ eq_refl).
  rewrite (proj2 (Z.ltb_lt _ _)) by done.
  destruct (pickTimer_idle error_text (sys_timerfd n) (timerPool_ k) i en Hi Hu (timerfd_ok n)) as (p' & j & e' & f & Ep & Hj & He').
  set (k1 := set_timerPool p' k).
  assert (pick_timer c (upd w d c t l k q n es) = (upd w d c t l k1 q (S n) es, Ok (Some j))) as E1.
  { unfold pick_timer. rewrite (bind_Ok _ _ _ _ _ (run_call w d c t l k q n es)). unfold on_timers.
    rewrite (bind_Ok _ _ _ _ _ (run_conn_at w d c t l k q (S n) es)), Ep.
    by rewrite (bind_Ok _ _ _ _ _ (run_on_conn w d c t l k q (S n) es _)). }
  assert (set_timer c j (armMs error_text (HttpMessage.timeout_ (request x))) (upd w d c t l k1 q (S n) es)
          = (upd w d c t l k1 q (S (S n)) (es ++ [SetTime f (timer_spec (HttpMessage.timeout_ (request x)))]), Ok tt)) as E2.
  { unfold set_timer. rewrite (bind_Ok _ _ _ _ _ (run_conn_at w d c t l k1 q (S n) es)). cbn [timerPool_ set_timerPool k1]. rewrite Hj.
    rewrite (bind_Ok (of_option (Some e')) _ _ _ e' eq_refl), (bind_Ok _ _ _ _ _ (run_call w d c t l k1 q (S n) es)).
    unfold armMs, settime. rewrite He', settime_ok. done. }
  match goal with |- context [(?m ≫= ?kk) (upd w d c t l k q n es)] =>
    rewrite (bind_Ok m kk _ (upd w d c t l k1 q (S (S n)) (es ++ [SetTime f (timer_spec (HttpMessage.timeout_ (request x)))])) (Some j)) end.
  2: { rewrite (bind_Ok _ _ _ _ _ E1), (bind_Ok _ _ _ _ _ E2). done. }
  rewrite (bind_Ok _ _ _ _ _ (run_on_conn w d c t l k1 q _ _ _)), (bind_Ok _ _ _ _ _ (run_conn_at w d c t l _ q _ _)).
  cbn [transport_ set_requestEntry set_timerPool k1]. rewrite Ht. unfold asyncSendRequest.
  rewrite (bind_Ok _ _ _ _ _ (run_get w d c t l _ q _ _)). cbn [thread upd]. rewrite decide_True by done.
  unfold asyncSendRequestImpl. cbn [send_conn]. rewrite (bind_Ok _ _ _ _ _ (run_lock_conn w d c t l _ q _ _)).
  cbn [conn_fd set_requestEntry set_timerPool k1]. rewrite Hf. cbn [send_loop send_buffer].
  rewrite (bind_Ok _ _ _ _ _ (run_call w d c t l _ q _ _)), send_all, Nat.sub_0_r.
  rewrite (bind_Ok _ _ _ _ _ (run_emit w d c t l _ q _ _ _)), Nat.eqb_refl.
  unfold request_sent. cbn [send_timer]. unfold with_timeoutsLock.
  destruct (transports w !! t) as [tr|] eqn:Et; [|done]. injection locked as Hl.
  rewrite (bind_Ok _ _ _ _ _ (run_transport_at w d c t tr l _ q _ _ Et)), Hl. by eexists.
Qed.

(** The closure of the request that is done runs into the lock. *)
Lemma run_released_locked k x q n es m fuel text i en :
  usable t fd k -> writeRequest (request x) = Ok text -> (0 < HttpMessage.timeout_ (request x))%Z ->
  timerPool_ k !! i = Some en -> used en = false ->
  exists w', released maxConnectionsPerHost maxResponseSize (S m) (S fuel) c (upd w d c t false k (x :: q) n es) = (w', UB).
Proof.
  intros Hk Hw Hto Hi Hu. cbn [released]. rewrite (bind_Ok _ _ _ _ _ (run_lock_conn w d c t false k (x :: q) n es)).
  unfold releaseConnection, setAsIdle. rewrite (bind_Ok _ _ _ _ _ (run_on_conn w d c t false k (x :: q) n es _)).
  generalize (released maxConnectionsPerHost maxResponseSize m (S fuel)) as done_. intros done_.
  unfold Client_processRequestQueue, with_queuesLock.
  rewrite (bind_Ok _ _ _ _ _ (run_get w d c t false _ (x :: q) n es)). cbn [stopProcessRequestQueues upd]. cbv iota.
  rewrite (bind_Ok _ _ _ _ _ (run_get w d c t false _ (x :: q) n es)). cbn [queuesLock upd]. cbv iota.
  rewrite (bind_Ok _ _ _ _ _ (run_set_lock w d c t true false _ (x :: q) n es)). unfold finally.
  rewrite (bind_Ok _ _ _ _ _ (run_get w d c t true _ (x :: q) n es)). cbn [stopProcessRequestQueues requestsQueues upd]. cbv iota.
  assert (queues_order {[d := x :: q]} = [d]) as ->.
  { apply Permutation_singleton_r. rewrite queues_order_ok, map_to_list_singleton. done. }
  cbn [process_domains]. rewrite (bind_Ok _ _ _ _ _ (run_get w d c t true _ (x :: q) n es)). cbn [requestsQueues upd].
  rewrite lookup_singleton_eq. cbn [process_domain].
  pose proof (run_pick maxConnectionsPerHost maxResponseSize w d c t true (set_isUsed false k) (x :: q) n es) as Ep.
  cbn [isUsed set_isUsed] in Ep.
  set (k2 := set_isUsed true (set_isUsed false k)) in *.
  destruct (run_performImpl_locked done_ true k2 q n es fuel x text i en Hk Hw Hto Hi Hu) as [w' E].
  eexists. rewrite (bind_UB _ _ _ w'); [reflexivity|].
  rewrite (bind_Ok _ _ _ _ _ Ep), (bind_Ok _ _ _ _ _ (run_get w d c t true _ (x :: q) n es)). cbn [requestsQueues upd].
  rewrite lookup_singleton_eq, (bind_Ok _ _ _ _ _ (run_set_queues w d c t true _ (x :: q) n es q)).
  by rewrite (bind_UB _ _ _ _ E).
Qed.
End Deadlock.

Section Timeout.
Context `{DateLib, Resolver, StringMemory, Iteration, System} (maxConnectionsPerHost maxResponseSize : nat).

(** The timeout of a request is handled under [timeoutsLock]; if a request that has a
    timeout too waits for the connection, it is sent under that lock, and its timer is
    put into the table by locking it again: the transport's thread blocks itself. *)
Theorem timeout_relocks w d c t fd tr tfd k e x q n es fuel text i :
  (forall n fd len, sys_send n fd len = Sent len) -> (forall n, sys_settime n = true) -> (forall n, is_Some (sys_timerfd n)) ->
  transports w !! t = Some tr -> connections tr !! tfd = None -> timeouts tr !! tfd = Some c -> timeoutsLock tr = false ->
  usable t fd k -> requestEntry k = Some e -> timer e = Some i -> timer_of k i tfd -> onDone e = ReleaseAndProcess c ->
  writeRequest (request x) = Ok text -> (0 < HttpMessage.timeout_ (request x))%Z ->
  (handleReadableEntry maxConnectionsPerHost maxResponseSize (S fuel) t tfd (upd w d c t false k (x :: q) n es)).2 = UB.
Proof.
  intros Hsend Hset Htfd Et Hc Hti Hlk Hk He Hei Hi Hd Hw Hto. unfold handleReadableEntry.
  rewrite (bind_Ok _ _ _ _ _ (run_transport_at w d c t tr false k (x :: q) n es Et)), Hc. unfold with_timeoutsLock.
  rewrite (bind_Ok _ _ _ _ _ (run_transport_at w d c t tr false k (x :: q) n es Et)), Hlk. cbv iota.
  set (w2 := set_transports (alter (set_timeoutsLock true) t) w).
  rewrite (bind_Ok (on_transport t (set_timeoutsLock true)) _ (upd w d c t false k (x :: q) n es)
             (upd w2 d c t false k (x :: q) n es) tt eq_refl). unfold finally.
  assert (transports w2 !! t = Some (set_timeoutsLock true tr)) as Et2.
  { cbn [transports w2 set_transports]. by rewrite list_lookup_alter_eq, Et. }
  rewrite (bind_Ok _ _ _ _ _ (run_transport_at w2 d c t _ false k (x :: q) n es Et2)). cbn [timeouts set_timeoutsLock].
  rewrite Hti, (bind_Ok _ _ _ _ _ (run_lock_conn w2 d c t false k (x :: q) n es)).
  assert (exists w', handleTimeout (done_ maxConnectionsPerHost maxResponseSize (S fuel)) c (upd w2 d c t false k (x :: q) n es)
                     = (w', UB)) as [w' E].
  { unfold handleTimeout. rewrite (bind_Ok _ _ _ _ _ (run_conn_at w2 d c t false k (x :: q) n es)), He, Hei.
    rewrite (bind_Ok _ _ _ _ _ (run_release_timer w2 d c t Hset false k (x :: q) n es i tfd Hi)).
    rewrite (bind_Ok _ _ _ _ _ (run_emit w2 d c t false _ (x :: q) (S n) _ _)).
    rewrite (bind_Ok _ _ _ _ _ (run_on_conn w2 d c t false _ (x :: q) (S n) _ _)), Hd.
    destruct Hi as (en & Hi & Hf). cbn [call_onDone]. unfold done_, levels.
    apply (run_released_locked maxConnectionsPerHost maxResponseSize w2 d c t fd Hsend Hset Htfd ltac:(by rewrite Et2)
             _ x q (S n) _ 1 fuel text i (set_used false en)); try done.
    cbn [timerPool_ set_requestEntry timer_released set_timerPool]. unfold releaseTimer. by rewrite list_lookup_alter_eq, Hi. }
  by rewrite (bind_UB _ _ _ _ E).
Qed.
End Timeout.

(** ** Witnesses *)

Definition open_system : System.
Proof.
  refine {| sys_send := fun _ _ len => Sent len; sys_recv := fun _ _ _ => Received []; sys_connect := fun _ _ _ => true;
            sys_socket := fun _ => Some 7; sys_timerfd := fun _ => Some 50; sys_settime := fun _ => true;
            sys_addresses := fun _ _ => None; error_text := []; queues_order := fun m => (map_to_list m).*1 |}.
  - by intros n fd len k [= ->].
  - intros n fd len b [= <-]. apply Nat.le_0_l.
  - done.
Defined.

(** A socket that takes four bytes first, and then all, or what makes the loop stop. *)
Definition short_system (second : nat -> nat) : System.
Proof.
  refine {| sys_send := fun n _ len => if (n =? 0)%nat then Sent (4 `min` len)
                                       else if (n =? 1)%nat then Sent (second len `min` len) else Sent len;
            sys_recv := fun _ _ _ => Received []; sys_connect := fun _ _ _ => true;
            sys_socket := fun _ => Some 7; sys_timerfd := fun _ => Some 50; sys_settime := fun _ => true;
            sys_addresses := fun _ _ => None; error_text := []; queues_order := fun m => (map_to_list m).*1 |}.
  - intros n fd len k E. assert (k = 4 `min` len \/ k = second len `min` len \/ k = len) as Hk.
    { destruct (n =? 0); [left; congruence|]. destruct (n =? 1); right; [left|right]; congruence. }
    pose proof (Nat.le_min_r 4 len). pose proof (Nat.le_min_r (second len) len). clear E.
    by destruct Hk as [->|[->| ->]].
  - intros n fd len b [= <-]. apply Nat.le_0_l.
  - done.
Defined.

Definition get_request (path : bytes) (timeout : Z) : Request :=
  {| request_message := Message_default; method_ := Method.Get; resource_ := B "http://example.com" ++ path; query_ := ∅;
     address_ := Address_default; HttpMessage.timeout_ := timeout |}.
Definition get_text (path : bytes) : bytes :=
  B "GET " ++ path ++ B " HTTP/1.1" ++ crlf ++ B "Cookie: " ++ crlf ++ B "User-Agent: pistache/0.1" ++ crlf
  ++ B "Host: example.com:80" ++ crlf ++ crlf.
Definition next_data (timeout : Z) : RequestData :=
  {| data_promise := 2; request := get_request (B "/b") timeout; data_onDone := NoOnDone |}.

(** A connection that waits for the answer to request 1. *)
Definition busy_connection (timer : option nat) : Connection :=
  {| conn_fd := Some 7; requestEntry := Some {| promise := 1; timer := timer; onDone := ReleaseAndProcess 0 |};
     isUsed := true; connectionState_ := Connected; transport_ := Some 0; conn_queue := [];
     timerPool_ := [{| used := true; fd_ := Some 50; registered := true |}]; parser_ := ParserImpl_new 4096 |}.

Definition small_response (body : bytes) : bytes :=
  B "HTTP/1.1 200 OK" ++ crlf ++ B "Content-Length: 2" ++ crlf ++ crlf ++ body.
Definition parser_after (b : bytes) (p : ResponseParser) : ResponseParser :=
  (ParserBase_parse (H := no_dates) (H0 := no_resolver) (H1 := terabyte) (ParserBase_feed b p).2).1.
Definition parser1 : ResponseParser := parser_after (small_response (B "hi")) (ParserImpl_new 4096).
Definition parser2 : ResponseParser := parser_after (small_response (B "yo")) (next_parser parser1).

Lemma next_has_text : has_text (H := no_dates) (H0 := no_resolver) (H2 := plain_order) (next_data 0) (get_text (B "/b")).
Proof. split; [vm_compute; reflexivity|done]. Qed.

Lemma served_in_order_witness :
  exists k', handle_packets (H := no_dates) (H0 := no_resolver) (H1 := terabyte) (H2 := plain_order) (H3 := open_system)
    1 4096 0 1 [small_response (B "hi"); small_response (B "yo")]
    (upd (Client_init 1) (B "example.com") 0 0 false (busy_connection None) [next_data 0] 0 [])
  = (upd (Client_init 1) (B "example.com") 0 0 false k' [] 1
       [Resolve 1 (object parser1); Wrote 7 (get_text (B "/b")); Resolve 2 (object parser2)], Ok tt)
  /\ isUsed k' = false /\ requestEntry k' = None.
Proof.
  apply (served_in_order (H := no_dates) (H0 := no_resolver) (H1 := terabyte) (H2 := plain_order) (H3 := open_system)
    1 4096 (Client_init 1) (B "example.com") 0 0 7 ltac:(done) {| promise := 1; timer := None; onDone := ReleaseAndProcess 0 |}
    [next_data 0] [get_text (B "/b")] [small_response (B "hi"); small_response (B "yo")] [object parser1; object parser2]
    0 (busy_connection None) 0 []); try done.
  - constructor; [apply next_has_text|constructor].
  - constructor; [eexists; split; [reflexivity|vm_compute; reflexivity]|].
    constructor; [eexists; split; [reflexivity|vm_compute; reflexivity]|constructor].
Defined.

Lemma late_response_answers_next_witness :
  exists w', (_ ← handleTimeout (H3 := open_system) (done_ (H := no_dates) (H0 := no_resolver) (H2 := plain_order) (H3 := open_system) 1 4096 1) 0;
              handleResponsePacket (H := no_dates) (H0 := no_resolver) (H1 := terabyte) (H2 := plain_order) (H3 := open_system)
                1 4096 1 0 (small_response (B "hi")))
             (upd (Client_init 1) (B "example.com") 0 0 false (busy_connection (Some 0)) [next_data 0] 0 []) = (w', Ok tt)
  /\ events w' = [] ++ [SetTime 50 (0, 0)%Z; Reject 1 (B "Timeout"); Wrote 7 (get_text (B "/b")); Resolve 2 (object parser1)].
Proof.
  apply (late_response_answers_next (H := no_dates) (H0 := no_resolver) (H1 := terabyte) (H2 := plain_order) (H3 := open_system)
    1 4096 (Client_init 1) (B "example.com") 0 0 7 ltac:(done) ltac:(done) (busy_connection (Some 0))
    {| promise := 1; timer := Some 0; onDone := ReleaseAndProcess 0 |} (next_data 0) 0 [] 0 0 50 (get_text (B "/b"))
    (small_response (B "hi")) parser1); try done.
  - by eexists.
  - eexists. split; [reflexivity|vm_compute; reflexivity].
Defined.

Lemma closed_connection_reused_witness :
  exists w' k', handleIncoming (H := no_dates) (H0 := no_resolver) (H1 := terabyte) (H2 := plain_order) (H3 := open_system)
    1 4096 1 0 0 (upd (Client_init 1) (B "example.com") 0 0 false (busy_connection None) [next_data 0] 0 []) = (w', Ok tt)
  /\ events w' = [] ++ [Reject 1 (B "Remote closed connection"); Wrote 7 (get_text (B "/b")); CloseFd 7]
  /\ heap w' !! 0 = Some k' /\ conn_fd k' = None /\ connectionState_ k' = NotConnected
  /\ promise <$> requestEntry k' = Some 2 /\ timer <$> requestEntry k' = Some None.
Proof.
  apply (closed_connection_reused (H := no_dates) (H0 := no_resolver) (H1 := terabyte) (H2 := plain_order) (H3 := open_system)
    1 4096 (Client_init 1) (B "example.com") 0 0 7 ltac:(done) (busy_connection None)
    {| promise := 1; timer := None; onDone := ReleaseAndProcess 0 |} (next_data 0) [] 0 [] 0 (get_text (B "/b"))); done.
Defined.

Definition ten_bytes : SendEntry := {| send_conn := 0; send_timer := None; send_buffer := B "0123456789" |}.

Lemma partial_send_truncates_witness :
  exists w', send_loop (H3 := short_system (fun _ => 2)) (fun _ => mret tt) 2 0 7 ten_bytes 0 (Client_init 1) = (w', Ok tt)
  /\ events w' = [] ++ [Wrote 7 (B "0123"); Wrote 7 (B "45")] /\ (4 + (10 - 2 * 4) < 10)%nat.
Proof. apply (partial_send_truncates (H3 := short_system (fun _ => 2)) (fun _ => mret tt) (Client_init 1) 0 7 ten_bytes 4 0); try reflexivity; vm_compute; lia. Defined.

Lemma partial_send_spins_witness :
  (send_loop (H3 := short_system (fun len => len)) (fun _ => mret tt) 1000 0 7 ten_bytes 0 (Client_init 1)).2 = OutOfFuel.
Proof.
  apply (partial_send_spins (H3 := short_system (fun len => len)) (fun _ => mret tt) (Client_init 1) 0 7 ten_bytes 4 1000).
  - vm_compute. lia.
  - reflexivity.
  - intros [|[|m]] l Hm; cbn in *; [lia| |done]. by rewrite Nat.min_id.
Defined.

Definition armed_transport : Transport :=
  {| sends := []; connects := []; connections := ∅; timeouts := {[50 := 0]}; timeoutsLock := false; stopHandling := false |}.

Lemma timeout_relocks_witness :
  (handleReadableEntry (H := no_dates) (H0 := no_resolver) (H1 := terabyte) (H2 := plain_order) (H3 := open_system) 1 4096 1 0 50
     (upd (set_transports (fun _ => [armed_transport]) (Client_init 1)) (B "example.com") 0 0 false
        (busy_connection (Some 0)) [next_data 500] 0 [])).2 = UB.
Proof.
  apply (timeout_relocks (H := no_dates) (H0 := no_resolver) (H1 := terabyte) (H2 := plain_order) (H3 := open_system) 1 4096
    (set_transports (fun _ => [armed_transport]) (Client_init 1)) (B "example.com") 0 0 7 armed_transport 50
    (busy_connection (Some 0)) {| promise := 1; timer := Some 0; onDone := ReleaseAndProcess 0 |} (next_data 500) [] 0 [] 0
    (get_text (B "/b")) 0); try done.
  all: first [by eexists | vm_compute; reflexivity].
Defined.
