(* ===== verification/Poller.v ===== *)
(** * The poller: [src/common/os.cc], [include/pistache/os.h], [flags.h]

    What is registered with a poller, how interests and tags go to the kernel and come
    back, and the descriptor one thread wakes another with.  The build on Linux without
    libevent: a poller is an epoll descriptor.  The kernel's answers are parameters. *)

From S2P Require Import Prelude Cxx.

Local Open Scope Z_scope.

(** ** [Flags] *)

Definition hasFlag (flag val : Z) : bool := negb (Z.land val flag =? 0).
Definition setFlag (flag val : Z) : Z := Z.lor val flag.
Definition toggleFlag (flag val : Z) : Z := Z.lxor val flag.

(** The enumerators of [NotifyOn]. *)
Module NotifyOn.
Definition None : Z := 0.
Definition Read : Z := 1.
Definition Write : Z := Z.shiftl Read 1.
Definition Hangup : Z := Z.shiftl Read 2.
Definition Shutdown : Z := Z.shiftl Read 3.
End NotifyOn.

Inductive Mode : Set := Level | Edge.

(** ** Masks

    The bits of [<sys/epoll.h>]. *)
Definition EPOLLIN : Z := 1.
Definition EPOLLOUT : Z := 4.
Definition EPOLLERR : Z := 8.
Definition EPOLLHUP : Z := 16.
Definition EPOLLRDHUP : Z := 8192.
Definition EPOLLONESHOT : Z := 2 ^ 30.
Definition EPOLLET : Z := 2 ^ 31.

Definition toEpollEvents (interest : Z) : Z :=
  let events := 0 in
  let events := if hasFlag NotifyOn.Read interest then Z.lor events EPOLLIN else events in
  let events := if hasFlag NotifyOn.Write interest then Z.lor events EPOLLOUT else events in
  let events := if hasFlag NotifyOn.Hangup interest then Z.lor events EPOLLHUP else events in
  if hasFlag NotifyOn.Shutdown interest then Z.lor events EPOLLRDHUP else events.

(** The argument is an [int], the mask the kernel gives an [unsigned]. *)
Definition toNotifyOn (events : Z) : Z :=
  let events := wraps 32 events in
  let flags := NotifyOn.None in
  let flags := if hasFlag EPOLLIN events then setFlag NotifyOn.Read flags else flags in
  let flags := if hasFlag EPOLLOUT events then setFlag NotifyOn.Write flags else flags in
  let flags := if hasFlag EPOLLHUP events then setFlag NotifyOn.Hangup flags else flags in
  if hasFlag EPOLLRDHUP events then setFlag NotifyOn.Shutdown flags else flags.

(** ** [Epoll] *)

(** A descriptor is an [int]; [PS_FD_EMPTY] is -1. *)
Definition PS_FD_EMPTY : Z := -1.

Record epoll_event : Set := { ev_events : Z; ev_data : Z }.

(** A call of [epoll_ctl]. *)
Inductive ctl : Set :=
  | CTL_ADD (fd : Z) (ev : epoll_event)
  | CTL_MOD (fd : Z) (ev : epoll_event)
  | CTL_DEL (fd : Z).

(** The calls that succeeded, in order. *)
Abbreviation Epoll := (list ctl).

(** The interest list the calls leave ([epoll_ctl(2)]). *)
Definition apply_ctl (m : gmap Z epoll_event) (c : ctl) : gmap Z epoll_event :=
  match c with CTL_ADD fd ev | CTL_MOD fd ev => <[fd := ev]> m | CTL_DEL fd => delete fd m end.
Definition interest (e : Epoll) : gmap Z epoll_event := fold_left apply_ctl e ∅.

(** Whether the kernel accepts a call, and the text of the error if not. *)
Class EpollKernel := { epoll_accepts : Epoll -> ctl -> bool; system_error : bytes }.

(** What [Epoll::poll] makes of an event of the kernel. *)
Record Event : Set := { event_flags : Z; tag : Z }.
Definition Event_of (ev : epoll_event) : Event := {| event_flags := toNotifyOn (ev_events ev); tag := ev_data ev |}.

Definition isReadable (e : Event) : bool := hasFlag NotifyOn.Read (event_flags e).
Definition isWritable (e : Event) : bool := hasFlag NotifyOn.Write (event_flags e).
Definition isHangup (e : Event) : bool := hasFlag NotifyOn.Hangup (event_flags e).

(** An answer of [epoll_wait]. *)
Inductive wait_answer : Set := WaitInterrupted | WaitFailed | Ready (evs : list epoll_event).

(** The loop of [poll] over the answers: [None] is -1. *)
Fixpoint poll (answers : list wait_answer) : result (option (list Event)) :=
  match answers with
  | [] => OutOfFuel
  | WaitInterrupted :: answers' => poll answers'
  | WaitFailed :: _ => Ok None
  | Ready evs :: _ => Ok (Some (map Event_of evs))
  end.

Section Operations.
Context `{EpollKernel}.

Definition TRY_ctl (c : ctl) : M Epoll unit :=
  e ← get;
  if epoll_accepts e c then modify (fun e => e ++ [c]) else throw (RuntimeError system_error).

Definition edge (mode : Mode) (events : Z) : Z := match mode with Edge => Z.lor events EPOLLET | Level => events end.

Definition addFd (fd interest tag : Z) (mode : Mode) : M Epoll unit :=
  TRY_ctl (CTL_ADD fd {| ev_events := edge mode (toEpollEvents interest); ev_data := tag |}).
Definition addFdOneShot (fd interest tag : Z) (mode : Mode) : M Epoll unit :=
  TRY_ctl (CTL_ADD fd {| ev_events := edge mode (Z.lor (toEpollEvents interest) EPOLLONESHOT); ev_data := tag |}).
Definition rearmFd (fd interest tag : Z) (mode : Mode) : M Epoll unit :=
  TRY_ctl (CTL_MOD fd {| ev_events := edge mode (toEpollEvents interest); ev_data := tag |}).
Definition removeFd (fd : Z) : M Epoll unit := TRY_ctl (CTL_DEL fd).
End Operations.

(** ** [NotifyFd] *)

(** The descriptor of an eventfd and its counter ([eventfd(2)], non-blocking). *)
Record NotifyFd : Set := { event_fd : Z; counter : Z }.
Definition NotifyFd_new : NotifyFd := {| event_fd := PS_FD_EMPTY; counter := 0 |}.
Definition isBound (n : NotifyFd) : bool := negb (event_fd n =? PS_FD_EMPTY).

(** [eventfd_write] and [eventfd_read]: 0, or -1 with [EAGAIN] where the call would block. *)
Definition WRITE_EFD (val : Z) : M NotifyFd Z :=
  n ← get;
  if counter n + val <=? 2 ^ 64 - 2
  then _ ← modify (fun n => {| event_fd := event_fd n; counter := counter n + val |}); mret 0
  else mret (-1).
Definition READ_EFD : M NotifyFd Z :=
  n ← get;
  if counter n =? 0 then mret (-1)
  else _ ← modify (fun n => {| event_fd := event_fd n; counter := 0 |}); mret 0.

Section Notify.
Context `{EpollKernel}.

Definition TRY_RET {S} (ret : Z) : M S Z := if ret <? 0 then throw (RuntimeError system_error) else mret ret.

Definition notify : M NotifyFd unit :=
  n ← get;
  if negb (isBound n) then throw (RuntimeError (B "Can not notify an unbound fd"))
  else ret ← WRITE_EFD 1; _ ← TRY_RET ret; mret tt.

Definition read : M NotifyFd unit :=
  n ← get;
  if negb (isBound n) then throw (RuntimeError (B "Can not read an unbound fd"))
  else ret ← READ_EFD; _ ← TRY_RET ret; mret tt.

(** The only error the descriptor gives is [EAGAIN]. *)
Definition tryRead : M NotifyFd bool :=
  n ← get;
  if negb (isBound n) then throw (RuntimeError (B "Can not try to read if unbound"))
  else
    ret ← READ_EFD;
    res ← TRY_RET ret;
    if negb (res =? 0) then mret false else mret true.

(** [eventfd]: what the system call returns. *)
Definition bind (eventfd : Z) : M (NotifyFd * Epoll) Z := fun '(n, e) =>
  match TRY_RET eventfd e with
  | (_, Ok fd) =>
      let '(e', r) := addFd fd NotifyOn.Read fd Edge e in
      (({| event_fd := fd; counter := 0 |}, e'), _ ← r; Ok fd)
  | (_, Throw x) => ((n, e), Throw x)
  | (_, UB) => ((n, e), UB)
  | (_, OutOfFuel) => ((n, e), OutOfFuel)
  end.
Definition unbind : M (NotifyFd * Epoll) unit := fun '(n, e) =>
  if isBound n then
    match removeFd (event_fd n) e with
    | (e', Ok _) => ((NotifyFd_new, e'), Ok tt)
    | (e', r) => ((n, e'), r)
    end
  else ((n, e), Ok tt).
End Notify.

(** ** [CpuSet]: a [std::bitset<1024>] *)

Module CpuSet.
Definition Size : nat := 1024.

Definition empty : Z := 0.
Definition clear (_ : Z) : Z := 0.

Definition set (cpu : nat) : M Z unit :=
  if (Size <=? cpu)%nat then throw (InvalidArgument (B "Trying to set invalid cpu number"))
  else modify (fun bits => Z.setbit bits (Z.of_nat cpu)).
Definition unset (cpu : nat) : M Z unit :=
  if (Size <=? cpu)%nat then throw (InvalidArgument (B "Trying to unset invalid cpu number"))
  else modify (fun bits => Z.clearbit bits (Z.of_nat cpu)).

(** The [initializer_list] overloads, and the loops of the ranges. *)
Fixpoint each (f : nat -> M Z unit) (cpus : list nat) : M Z unit :=
  match cpus with [] => mret tt | cpu :: cpus' => _ ← f cpu; each f cpus' end.
Definition set_list : list nat -> M Z unit := each set.
Definition unset_list : list nat -> M Z unit := each unset.

Definition range (f : nat -> M Z unit) (begin end_ : nat) : M Z unit :=
  if (end_ <? begin)%nat then throw (RangeError (B "Invalid range, begin > end"))
  else each f (seq begin (end_ - begin)).
Definition setRange : nat -> nat -> M Z unit := range set.
Definition unsetRange : nat -> nat -> M Z unit := range unset.

Definition test (bits : Z) (cpu : nat) : bool := Z.testbit bits (Z.of_nat cpu).
Definition isSet (cpu : nat) (bits : Z) : result bool :=
  if (Size <=? cpu)%nat then Throw (InvalidArgument (B "Trying to test invalid cpu number")) else Ok (test bits cpu).
Definition count (bits : Z) : nat := length (filter (fun cpu => test bits cpu = true) (seq 0 Size)).

(** The processors [CPU_SET] is called for. *)
Definition toPosix (bits : Z) : list nat := filter (fun cpu => test bits cpu = true) (seq 0 Size).

(** The invariant: no bit past the last processor. *)
Definition wf (bits : Z) : Prop := 0 <= bits /\ forall cpu, (Size <= cpu)%nat -> test bits cpu = false.

Lemma test_setbit bits cpu c : test (Z.setbit bits (Z.of_nat cpu)) c = bool_decide (c = cpu) || test bits c.
Proof. unfold test. rewrite Z.setbit_eqb by lia. f_equal. case_bool_decide; [apply Z.eqb_eq|apply Z.eqb_neq]; lia. Qed.
Lemma test_clearbit bits cpu c : test (Z.clearbit bits (Z.of_nat cpu)) c = negb (bool_decide (c = cpu)) && test bits c.
Proof.
  unfold test. rewrite Z.clearbit_eqb, andb_comm. f_equal. f_equal.
  case_bool_decide; [apply Z.eqb_eq|apply Z.eqb_neq]; lia.
Qed.

Lemma wf_setbit bits cpu : wf bits -> (cpu < Size)%nat -> wf (Z.setbit bits (Z.of_nat cpu)).
Proof.
  intros [Hp Hb] Hc. split.
  - rewrite Z.setbit_spec'. apply Z.lor_nonneg. split; [done|]. apply Z.pow_nonneg. lia.
  - intros c Hs. rewrite test_setbit, Hb by done. rewrite bool_decide_eq_false_2 by lia. done.
Qed.
Lemma wf_clearbit bits cpu : wf bits -> wf (Z.clearbit bits (Z.of_nat cpu)).
Proof.
  intros [Hp Hb]. split.
  - rewrite Z.clearbit_spec'. apply Z.ldiff_nonneg. by left.
  - intros c Hs. by rewrite test_clearbit, Hb, andb_false_r.
Qed.

(** What the processors of a range become, up to the first that does not exist. *)
Section Range.
Context (f : nat -> M Z unit) (g : nat -> Z -> Z) (after : bool) (w : bytes).
Hypothesis f_in : forall cpu bits, (cpu < Size)%nat -> f cpu bits = (g cpu bits, Ok tt).
Hypothesis f_out : forall cpu bits, (Size <= cpu)%nat -> f cpu bits = (bits, Throw (InvalidArgument w)).
Hypothesis g_test : forall cpu bits c, test (g cpu bits) c = if bool_decide (c = cpu) then after else test bits c.
Hypothesis g_wf : forall cpu bits, wf bits -> (cpu < Size)%nat -> wf (g cpu bits).

Lemma each_range n b bits :
  wf bits ->
  let r := each f (seq b n) bits in
  r.2 = (if bool_decide (n = 0 \/ b + n <= Size)%nat then Ok tt else Throw (InvalidArgument w))
  /\ wf r.1
  /\ forall c, test r.1 c = if bool_decide (b <= c < Nat.min (b + n) Size)%nat then after else test bits c.
Proof.
  revert b bits. induction n as [|n IH]; intros b bits Hw r; subst r; cbn [seq each].
  - split; [by rewrite bool_decide_eq_true_2 by lia|]. split; [done|]. intros c.
    by rewrite bool_decide_eq_false_2 by lia.
  - unfold mbind, M_bind. destruct (decide (b < Size)%nat) as [Hb|Hb].
    + rewrite f_in by done. destruct (IH (S b) (g b bits)) as (E & Hw' & Ht); [by apply g_wf|].
      rewrite E. split; [|split; [done|]].
      * destruct (decide (n = 0 \/ S b + n <= Size)%nat).
        -- rewrite !bool_decide_eq_true_2 by lia. done.
        -- rewrite !bool_decide_eq_false_2 by lia. done.
      * intros c. rewrite Ht, g_test. repeat case_bool_decide; try done; lia.
    + rewrite f_out by lia. cbn [fst snd]. split; [by rewrite bool_decide_eq_false_2 by lia|]. split; [done|].
      intros c. by rewrite bool_decide_eq_false_2 by lia.
Qed.
End Range.

Lemma range_spec f g after w (b e : nat) bits :
  (forall cpu bits, (cpu < Size)%nat -> f cpu bits = (g cpu bits, Ok tt)) ->
  (forall cpu bits, (Size <= cpu)%nat -> f cpu bits = (bits, Throw (InvalidArgument w))) ->
  (forall cpu bits c, test (g cpu bits) c = if bool_decide (c = cpu) then after else test bits c) ->
  (forall cpu bits, wf bits -> (cpu < Size)%nat -> wf (g cpu bits)) ->
  wf bits -> (b <= e)%nat ->
  (range f b e bits).2 = (if bool_decide (b = e \/ e <= Size)%nat then Ok tt else Throw (InvalidArgument w))
  /\ wf (range f b e bits).1
  /\ forall c, test (range f b e bits).1 c = if bool_decide (b <= c < Nat.min e Size)%nat then after else test bits c.
Proof.
  intros Hin Hout Ht Hg Hw Hbe. unfold range. rewrite (proj2 (Nat.ltb_ge _ _)) by lia.
  destruct (each_range f g after w Hin Hout Ht Hg (e - b) b bits Hw) as (E & Hw' & Hc).
  replace (b + (e - b))%nat with e in * by lia. split; [|by split]. rewrite E.
  destruct (decide (b = e \/ e <= Size)%nat).
  - rewrite !bool_decide_eq_true_2 by lia. done.
  - rewrite !bool_decide_eq_false_2 by lia. done.
Qed.

Lemma count_bound bits : (count bits <= Size)%nat.
Proof. unfold count. etrans; [apply length_filter|]. by rewrite length_seq. Qed.

(** A range of processors is set, or cleared, and no other; where it goes past the last
    processor an exception is thrown after the processors that exist were done; and
    the set never grows past 1024 bits. *)
Theorem cpu_ranges (set_it : bool) (b e : nat) bits :
  wf bits -> (b <= e)%nat ->
  let r := (if set_it then setRange else unsetRange) b e bits in
  r.2 = (if bool_decide (b = e \/ e <= Size)%nat then Ok tt
         else Throw (InvalidArgument (if set_it then B "Trying to set invalid cpu number" else B "Trying to unset invalid cpu number")))
  /\ wf r.1 /\ (count r.1 <= Size)%nat
  /\ forall c, (c < Size)%nat -> isSet c r.1 = Ok (if bool_decide (b <= c < e)%nat then set_it else test bits c).
Proof.
  intros Hw Hbe r.
  assert (r.2 = (if bool_decide (b = e \/ e <= Size)%nat then Ok tt
         else Throw (InvalidArgument (if set_it then B "Trying to set invalid cpu number" else B "Trying to unset invalid cpu number")))
    /\ wf r.1 /\ forall c, test r.1 c = if bool_decide (b <= c < Nat.min e Size)%nat then set_it else test bits c)
    as (E & Hw' & Ht).
  { subst r. destruct set_it.
    - apply (range_spec set (fun cpu bits => Z.setbit bits (Z.of_nat cpu)) true); try done.
      + intros cpu ? Hc. unfold set. by rewrite (proj2 (Nat.leb_gt _ _)) by done.
      + intros cpu ? Hc. unfold set. by rewrite (proj2 (Nat.leb_le _ _)) by done.
      + intros. rewrite test_setbit. by case_bool_decide.
      + intros. by apply wf_setbit.
    - apply (range_spec unset (fun cpu bits => Z.clearbit bits (Z.of_nat cpu)) false); try done.
      + intros cpu ? Hc. unfold unset. by rewrite (proj2 (Nat.leb_gt _ _)) by done.
      + intros cpu ? Hc. unfold unset. by rewrite (proj2 (Nat.leb_le _ _)) by done.
      + intros. rewrite test_clearbit. by case_bool_decide.
      + intros. by apply wf_clearbit. }
  split; [done|]. split; [done|]. split; [apply count_bound|]. intros c Hc. unfold isSet.
  rewrite (proj2 (Nat.leb_gt _ _)) by done. rewrite Ht. f_equal.
  destruct (decide (b <= c < e)%nat).
  - by rewrite !bool_decide_eq_true_2 by lia.
  - by rewrite !bool_decide_eq_false_2 by lia.
Qed.

Lemma cpu_ranges_witness :
  let r := setRange 1020 1030 0 in
  r.2 = Throw (InvalidArgument (B "Trying to set invalid cpu number"))
  /\ isSet 1023 r.1 = Ok true /\ isSet 1019 r.1 = Ok false.
Proof.
  destruct (cpu_ranges true 1020 1030 0) as (E & _ & _ & Hs).
  - split; [done|]. intros. unfold test. apply Z.bits_0.
  - lia.
  - split; [exact E|]. split; [apply (Hs 1023%nat)|apply (Hs 1019%nat)]; apply Nat.ltb_lt; reflexivity.
Defined.
End CpuSet.

(** ** Lemmas *)

(** An interest comes back from the kernel as the flags it was made of, whatever the
    mode. *)
Lemma toNotifyOn_toEpollEvents f mode :
  0 <= f < 16 ->
  toNotifyOn (edge mode (toEpollEvents f)) = f
  /\ toNotifyOn (edge mode (Z.lor (toEpollEvents f) EPOLLONESHOT)) = f.
Proof.
  intros Hf. assert (f ∈ map Z.of_nat (seq 0 16)) as Hin.
  { apply list_elem_of_fmap. exists (Z.to_nat f). split; [lia|]. apply elem_of_seq. lia. }
  clear Hf. revert f Hin. apply list.Forall_forall. destruct mode; repeat constructor.
Qed.

(** A notification that was not read yet is read once; then there is an exception, and
    never the answer [false]. *)
Lemma tryRead_bound `{EpollKernel} n :
  event_fd n <> PS_FD_EMPTY ->
  tryRead n = if counter n =? 0 then (n, Throw (RuntimeError system_error))
              else ({| event_fd := event_fd n; counter := 0 |}, Ok true).
Proof.
  intros Hb. unfold tryRead, mbind, M_bind, get. unfold isBound. rewrite (proj2 (Z.eqb_neq _ _) Hb). cbn [negb].
  unfold READ_EFD, mbind, M_bind, get. by destruct (counter n =? 0).
Qed.
