(* ===== verification/Reactor.v ===== *)
(** * The reactor: [src/common/reactor.cc], [include/pistache/reactor.h]

    [SyncImpl] polls in the thread that runs it and gives what is ready to its handlers;
    [AsyncImpl] has one [SyncImpl] for each of its threads and a clone of each handler in
    every one of them, found again by the keys it encodes.  Handlers are objects in a
    store; what they do when a poller is given to them, and when descriptors are ready,
    is a parameter. *)

From S2P Require Import Prelude Cxx Poller.

Local Open Scope Z_scope.

(** ** [SyncImpl::HandlerList] *)

Module HandlerList.
Definition HandlerBits : Z := 8.
(** [sizeof] counts bytes. *)
Definition HandlerShift : Z := wrapu 64 (8 - HandlerBits).
Definition DataMask : Z := Z.shiftr size_max HandlerBits.
Definition MaxHandlers : nat := 255.

Record t : Set := { handlers : list (option nat); index_ : nat }.
Definition new : t := {| handlers := replicate MaxHandlers None; index_ := 0 |}.

Definition add (handler : nat) : M t Z :=
  l ← get;
  if (index_ l =? MaxHandlers)%nat then throw (RuntimeError (B "Maximum handlers reached"))
  else
    _ ← modify (fun l => {| handlers := handlers l; index_ := S (index_ l) |});
    stored ← lift (set_at (handlers l) (index_ l) (Some handler));
    _ ← modify (fun l => {| handlers := stored; index_ := index_ l |});
    mret (Z.of_nat (index_ l)).

Definition removeAll (_ : t) : t := new.

Definition at_index (index : Z) (l : t) : result (option nat) :=
  if Z.of_nat (index_ l) <=? index then Throw (RuntimeError (B "Attempting to retrieve invalid handler"))
  else at_ (handlers l) (Z.to_nat index).

Definition empty (l : t) : bool := (index_ l =? 0)%nat.
Definition size (l : t) : nat := index_ l.

(** A tag goes through [Fd], an [int], on the way in and on the way out. *)
Definition through_Fd (z : Z) : Z := wrapu 64 (wraps 32 z).
Definition encodeTag (key value : Z) : Z :=
  through_Fd (Z.lor (wrapu 64 (Z.shiftl key HandlerShift)) (through_Fd value)).
Definition decodeTag (value : Z) : Z * Z := (Z.shiftr value HandlerShift, through_Fd (Z.land value DataMask)).

(** The handlers [forEachHandler] calls its argument with. *)
Definition each (l : t) : list (option nat) := take (index_ l) (handlers l).
End HandlerList.

(** ** Handlers *)

(** What the reactor keeps in a handler: whether [reactor_] is set, the thread, the key. *)
Record HandlerObj : Set := { attached : bool; tid : option nat; key_ : Z }.
Definition HandlerObj_new : HandlerObj := {| attached := false; tid := None; key_ := 0 |}.
Definition set_attached (b : bool) (h : HandlerObj) : HandlerObj := {| attached := b; tid := tid h; key_ := key_ h |}.
Definition set_tid (t : nat) (h : HandlerObj) : HandlerObj := {| attached := attached h; tid := Some t; key_ := key_ h |}.
Definition set_key (k : Z) (h : HandlerObj) : HandlerObj := {| attached := attached h; tid := tid h; key_ := k |}.

Abbreviation Objects := (gmap nat HandlerObj).

(** [SyncImpl]. *)
Record Sync : Set := { handlers_ : HandlerList.t; shutdown_ : bool; shutdownFd : NotifyFd; poller : Epoll }.

Definition on_handlers {A} (m : M HandlerList.t A) : M (Objects * Sync) A := fun '(o, s) =>
  let '(l, r) := m (handlers_ s) in
  ((o, {| handlers_ := l; shutdown_ := shutdown_ s; shutdownFd := shutdownFd s; poller := poller s |}), r).
Definition on_poller {A} (m : M Epoll A) : M (Objects * Sync) A := fun '(o, s) =>
  let '(e, r) := m (poller s) in
  ((o, {| handlers_ := handlers_ s; shutdown_ := shutdown_ s; shutdownFd := shutdownFd s; poller := e |}), r).
Definition on_object (h : nat) (f : HandlerObj -> HandlerObj) : M (Objects * Sync) unit :=
  modify (fun '(o, s) => (alter f h o, s)).

(** [AsyncImpl]: one [SyncImpl] for each worker.  [next] names the objects to come. *)
Record AsyncImpl : Set := { objects : Objects; next : nat; workers : list Sync }.

Section Reactor.
Context `{EpollKernel}.

(** What a handler does with a poller, and what its [clone] has of it. *)
Context (registerPoller unregisterPoller : nat -> M Epoll unit) (clone : HandlerObj -> HandlerObj).

(** The constructor of [SyncImpl]; [eventfd] is what the system call answers. *)
Definition SyncImpl_new (eventfd : Z) : result Sync :=
  match bind eventfd (NotifyFd_new, []) with
  | ((n, e), r) => _ ← r; Ok {| handlers_ := HandlerList.new; shutdown_ := false; shutdownFd := n; poller := e |}
  end.

(** *** [SyncImpl] *)

Definition addHandler (handler : nat) (setKey : bool) : M (Objects * Sync) Z :=
  _ ← on_poller (registerPoller handler);
  _ ← on_object handler (set_attached true);
  key ← on_handlers (HandlerList.add handler);
  _ ← (if setKey then on_object handler (set_key key) else mret tt);
  mret key.

Definition detachFromReactor (handler : nat) : M (Objects * Sync) unit :=
  _ ← on_poller (unregisterPoller handler); on_object handler (set_attached false).

(** A null pointer is not dereferenced here: the pointers below [index_] are set. *)
Fixpoint detach_each (l : list (option nat)) : M (Objects * Sync) unit :=
  match l with
  | [] => mret tt
  | Some h :: l' => _ ← detachFromReactor h; detach_each l'
  | None :: _ => lift UB
  end.
Definition detachAndRemoveAllHandlers : M (Objects * Sync) unit := fun '(o, s) =>
  (_ ← detach_each (HandlerList.each (handlers_ s)); on_handlers (modify HandlerList.removeAll)) (o, s).

Definition handler (key : Z) (s : Sync) : result (option nat) := HandlerList.at_index key (handlers_ s).

Definition registerFd (key fd interest tag : Z) (mode : Mode) : M (Objects * Sync) unit :=
  on_poller (addFd fd interest (HandlerList.encodeTag key tag) mode).
Definition registerFdOneShot (key fd interest tag : Z) (mode : Mode) : M (Objects * Sync) unit :=
  on_poller (addFdOneShot fd interest (HandlerList.encodeTag key tag) mode).
Definition modifyFd (key fd interest tag : Z) (mode : Mode) : M (Objects * Sync) unit :=
  on_poller (rearmFd fd interest (HandlerList.encodeTag key tag) mode).
Definition removeFd (key fd : Z) : M (Objects * Sync) unit := on_poller (Poller.removeFd fd).

(** The flag is set before the descriptor is written. *)
Definition shutdown : M (Objects * Sync) unit := fun '(o, s) =>
  let '(n, r) := notify (shutdownFd s) in
  ((o, {| handlers_ := handlers_ s; shutdown_ := true; shutdownFd := n; poller := poller s |}), r).

(** *** [AsyncImpl] *)

Definition KeyMarker : Z := 12245771. (* 0xBADB0B *)

Fixpoint make_workers (eventfds : list Z) : result (list Sync) :=
  match eventfds with
  | [] => Ok []
  | fd :: eventfds' => s ← SyncImpl_new fd; l ← make_workers eventfds'; Ok (s :: l)
  end.

(** [eventfds]: what [eventfd] answers for each of the [threads]. *)
Definition AsyncImpl_new (eventfds : list Z) (o : Objects) (n : nat) : result AsyncImpl :=
  if (HandlerList.MaxHandlers <? length eventfds)%nat
  then Throw (RuntimeError (B "Too many worker threads requested (max " ++ to_string (Z.of_nat HandlerList.MaxHandlers) ++ B ")."))
  else l ← make_workers eventfds; Ok {| objects := o; next := n; workers := l |}.

Definition encodeKey (originalKey value : Z) : Z := Z.lor (wrapu 64 (Z.shiftl originalKey 32)) value.
Definition decodeKey (data : Z) : Z * Z := (wrapu 32 (Z.shiftr data 32), wrapu 32 (Z.land data 4294967295)).

(** A call of a worker's [SyncImpl]. *)
Definition in_worker {A} (i : nat) (m : M (Objects * Sync) A) : M AsyncImpl A := fun a =>
  match at_ (workers a) i with
  | Ok s =>
      let '((o, s'), r) := m (objects a, s) in
      ({| objects := o; next := next a; workers := <[i := s']> (workers a) |}, r)
  | Throw e => (a, Throw e)
  | UB => (a, UB)
  | OutOfFuel => (a, OutOfFuel)
  end.

(** [handler->clone()]: a new object. *)
Definition clone_handler (h : nat) : M AsyncImpl nat :=
  a ← get;
  _ ← modify (fun a => {| objects := <[next a := clone (default HandlerObj_new (objects a !! h))]> (objects a);
                          next := S (next a); workers := workers a |});
  mret (next a).

Definition set_object_key (h : nat) (k : Z) : M AsyncImpl unit :=
  modify (fun a => {| objects := alter (set_key k) h (objects a); next := next a; workers := workers a |}).

(** The loop over the workers [i], [i + 1], ...; the keys are the array. *)
Fixpoint add_clones (h : nat) (count i : nat) (keys : list Z) : M AsyncImpl (list Z) :=
  match count with
  | O => mret keys
  | S count' =>
      cl ← clone_handler h;
      key ← in_worker i (addHandler cl false);
      _ ← set_object_key cl (encodeKey key (wrapu 32 (Z.of_nat i)));
      keys ← lift (set_at keys i key);
      add_clones h count' (S i) keys
  end.

Definition Async_addHandler (h : nat) : M AsyncImpl Z :=
  a ← get;
  keys ← add_clones h (length (workers a)) 0 (replicate HandlerList.MaxHandlers 0);
  key0 ← lift (at_ keys 0);
  mret (encodeKey key0 KeyMarker).

(** A loop over all the workers. *)
Fixpoint each_worker (f : M (Objects * Sync) unit) (count i : nat) : M AsyncImpl unit :=
  match count with O => mret tt | S count' => _ ← in_worker i f; each_worker f count' (S i) end.
Definition all_workers (f : M (Objects * Sync) unit) : M AsyncImpl unit := a ← get; each_worker f (length (workers a)) 0.
Definition Async_detachFromReactor (h : nat) : M AsyncImpl unit := all_workers (detachFromReactor h).
Definition Async_detachAndRemoveAllHandlers : M AsyncImpl unit := all_workers detachAndRemoveAllHandlers.
Definition Async_shutdown : M AsyncImpl unit := all_workers shutdown.

Fixpoint handler_of_each (key : Z) (l : list Sync) : result (list (option nat)) :=
  match l with [] => Ok [] | s :: l' => h ← handler key s; hs ← handler_of_each key l'; Ok (h :: hs) end.
Definition Async_handlers (key : Z) (a : AsyncImpl) : result (list (option nat)) :=
  let '(idx, marker) := decodeKey key in
  if negb (marker =? KeyMarker) then Throw (RuntimeError (B "Invalid key")) else handler_of_each idx (workers a).

(** [f] is the member function, which is given the key the worker knows. *)
Definition dispatchCall {A} (key : Z) (f : Z -> M (Objects * Sync) A) : M AsyncImpl A :=
  let decoded := decodeKey key in in_worker (Z.to_nat decoded.2) (f decoded.1).

Definition Async_registerFd (key fd interest tag : Z) (mode : Mode) : M AsyncImpl unit :=
  dispatchCall key (fun k => registerFd k fd interest tag mode).
Definition Async_registerFdOneShot (key fd interest tag : Z) (mode : Mode) : M AsyncImpl unit :=
  dispatchCall key (fun k => registerFdOneShot k fd interest tag mode).
Definition Async_modifyFd (key fd interest tag : Z) (mode : Mode) : M AsyncImpl unit :=
  dispatchCall key (fun k => modifyFd k fd interest tag mode).
Definition Async_removeFd (key fd : Z) : M AsyncImpl unit := dispatchCall key (fun k => removeFd k fd).
End Reactor.

(** ** Polling *)

Section Polling.
(** The application's part of the state, and what its handlers do to it. *)
Context {W : Type} (onReady : nat -> list Event -> M W unit).

(** A null handler would be dereferenced. *)
Definition call_onReady (h : option nat) (events : list Event) : M W unit :=
  match h with Some h => onReady h events | None => lift UB end.

(** The events by handler: [fdHandlers.at(handler_)] of a map nothing is put in. *)
Fixpoint sort_events (l : HandlerList.t) (events : list Event) (fdHandlers : gmap (option nat) (list Event))
  : result (gmap (option nat) (list Event)) :=
  match events with
  | [] => Ok fdHandlers
  | event :: events' =>
      handler_ ← HandlerList.at_index (HandlerList.decodeTag (tag event)).1 l;
      evs ← match fdHandlers !! handler_ with
            | Some evs => Ok evs
            | None => Throw (OutOfRange (B "_Map_base::at"))
            end;
      sort_events l events' (<[handler_ := evs ++ [event]]> fdHandlers)
  end.

Fixpoint call_each (l : list (option nat * list Event)) : M W unit :=
  match l with [] => mret tt | (h, evs) :: l' => _ ← call_onReady h evs; call_each l' end.

Definition handleFds (l : HandlerList.t) (events : list Event) : M W unit :=
  if (HandlerList.size l =? 1)%nat
  then h ← lift (HandlerList.at_index 0 l); call_onReady h events
  else fdHandlers ← lift (sort_events l events ∅); call_each (map_to_list fdHandlers).

(** One turn of the loop: what [epoll_wait] answers, and the two readings of [shutdown_]. *)
Record turn : Set := { answers : list wait_answer; shutdown_read : bool; shutdown_locked : bool }.

Fixpoint turns_loop (l : HandlerList.t) (turns : list turn) : M W unit :=
  match turns with
  | [] => lift OutOfFuel
  | t :: turns' =>
      polled ← lift (poll (answers t));
      match polled with
      | None | Some [] => turns_loop l turns'
      | Some events =>
          if shutdown_read t then mret tt
          else if shutdown_locked t then mret tt
          else _ ← handleFds l events; turns_loop l turns'
      end
  end.

Definition runOnce (l : HandlerList.t) (turns : list turn) : M W unit :=
  if HandlerList.empty l then throw (RuntimeError (B "You need to set at least one handler"))
  else turns_loop l turns.

(** The loop of [run]: each element is a reading of [shutdown_] and the turns after it. *)
Fixpoint run_loop (l : HandlerList.t) (rounds : list (bool * list turn)) : M W unit :=
  match rounds with
  | [] => lift OutOfFuel
  | (shutdown, turns) :: rounds' => if shutdown then mret tt else _ ← runOnce l turns; run_loop l rounds'
  end.
End Polling.

(** [run] sets the thread of its handlers first. *)
Definition set_threads (thread : nat) (l : HandlerList.t) (o : Objects) : Objects :=
  fold_left (fun o h => match h with Some h => alter (set_tid thread) h o | None => o end) (HandlerList.each l) o.

(** ** [Reactor]: the implementation a context makes, if [init] was called *)

(** [makeImpl]: [SyncContext], or [AsyncContext] with its threads; the system call's answers
    for their descriptors. *)
Inductive ExecutionContext : Set := SyncContext (eventfd : Z) | AsyncContext (eventfds : list Z).
Inductive Impl : Set := ISync (o : Objects) (s : Sync) | IAsync (a : AsyncImpl).

(** The implementation, and the handlers there are outside of it. *)
Record Reactor : Set := { impl_ : option Impl; made : Objects; made_next : nat }.

Section Facade.
Context `{EpollKernel}.
Context (registerPoller unregisterPoller : nat -> M Epoll unit) (clone : HandlerObj -> HandlerObj).

Definition makeImpl (context : ExecutionContext) (r : Reactor) : result Impl :=
  match context with
  | SyncContext eventfd => s ← SyncImpl_new eventfd; Ok (ISync (made r) s)
  | AsyncContext eventfds => a ← AsyncImpl_new eventfds (made r) (made_next r); Ok (IAsync a)
  end.
Definition Reactor_init (context : ExecutionContext) : M Reactor unit := fun r =>
  match makeImpl context r with
  | Ok i => ({| impl_ := Some i; made := made r; made_next := made_next r |}, Ok tt)
  | Throw e => (r, Throw e)
  | UB => (r, UB)
  | OutOfFuel => (r, OutOfFuel)
  end.

Definition no_impl : exn := RuntimeError (B "Invalid object state, you should call init() before.").

(** [impl()->f(...)]. *)
Definition on_impl {A} (f : M (Objects * Sync) A) (g : M AsyncImpl A) : M Reactor A := fun r =>
  match impl_ r with
  | None => (r, Throw no_impl)
  | Some (ISync o s) =>
      let '((o', s'), x) := f (o, s) in ({| impl_ := Some (ISync o' s'); made := made r; made_next := made_next r |}, x)
  | Some (IAsync a) =>
      let '(a', x) := g a in ({| impl_ := Some (IAsync a'); made := made r; made_next := made_next r |}, x)
  end.

Definition Reactor_addHandler (h : nat) : M Reactor Z :=
  on_impl (addHandler registerPoller h true) (Async_addHandler registerPoller clone h).
Definition Reactor_detachFromReactor (h : nat) : M Reactor unit :=
  on_impl (detachFromReactor unregisterPoller h) (Async_detachFromReactor unregisterPoller h).
Definition Reactor_detachAndRemoveAllHandlers : M Reactor unit := fun r =>
  match impl_ r with
  | None => (r, Ok tt)
  | Some _ =>
      on_impl (detachAndRemoveAllHandlers unregisterPoller) (Async_detachAndRemoveAllHandlers unregisterPoller) r
  end.
Definition Reactor_handlers (key : Z) (r : Reactor) : result (list (option nat)) :=
  match impl_ r with
  | None => Throw no_impl
  | Some (ISync _ s) => h ← handler key s; Ok [h]
  | Some (IAsync a) => Async_handlers key a
  end.
Definition Reactor_registerFd (key fd interest tag : Z) (mode : Mode) : M Reactor unit :=
  on_impl (registerFd key fd interest tag mode) (Async_registerFd key fd interest tag mode).
Definition Reactor_registerFdOneShot (key fd interest tag : Z) (mode : Mode) : M Reactor unit :=
  on_impl (registerFdOneShot key fd interest tag mode) (Async_registerFdOneShot key fd interest tag mode).
Definition Reactor_modifyFd (key fd interest tag : Z) (mode : Mode) : M Reactor unit :=
  on_impl (modifyFd key fd interest tag mode) (Async_modifyFd key fd interest tag mode).

(** The overloads without a tag: [Polling::Tag(fd)]. *)
Definition Reactor_registerFd_tagless (key fd interest : Z) : Mode -> M Reactor unit := Reactor_registerFd key fd interest (wrapu 64 fd).
Definition Reactor_registerFdOneShot_tagless (key fd interest : Z) : Mode -> M Reactor unit :=
  Reactor_registerFdOneShot key fd interest (wrapu 64 fd).
Definition Reactor_modifyFd_tagless (key fd interest : Z) : Mode -> M Reactor unit := Reactor_modifyFd key fd interest (wrapu 64 fd).
Definition Reactor_removeFd (key fd : Z) : M Reactor unit := on_impl (removeFd key fd) (Async_removeFd key fd).
Definition Reactor_shutdown : M Reactor unit := fun r =>
  match impl_ r with None => (r, Ok tt) | Some _ => on_impl shutdown Async_shutdown r end.
End Facade.
