(* ===== verification/ReactorDispatch.v ===== *)
(** * Which handler a polled event reaches

    The keys [AsyncImpl] encodes are read back exactly; a handler that is added has a clone
    in every worker, and the clone's key leads the clone's registrations to its own
    worker, whose events reach it.  With a second handler no event reaches anything. *)

From S2P Require Import Prelude Cxx Poller Reactor.

Local Open Scope Z_scope.

(** ** Keys and tags *)

Lemma lor_shiftl_low k v w : 0 <= w -> 0 <= v < 2 ^ w ->
  Z.shiftr (Z.lor (Z.shiftl k w) v) w = k /\ Z.land (Z.lor (Z.shiftl k w) v) (Z.ones w) = v.
Proof.
  intros Hw Hv. split.
  - rewrite Z.shiftr_lor, Z.shiftr_shiftl_l, Z.sub_diag, Z.shiftl_0_r by lia.
    rewrite (Z.shiftr_div_pow2 v), Z.div_small by lia. apply Z.lor_0_r.
  - rewrite Z.land_lor_distr_l, !Z.land_ones, Z.shiftl_mul_pow2, Z.mod_mul, Z.mod_small by lia. done.
Qed.

Lemma encodeKey_range k v : 0 <= v < 2 ^ 32 -> 0 <= encodeKey k v < 2 ^ 64.
Proof.
  intros Hv. unfold encodeKey. pose proof (wrapu_range 64 (Z.shiftl k 32) ltac:(lia)) as Hr.
  assert (0 <= Z.lor (wrapu 64 (Z.shiftl k 32)) v) as Hp by (apply Z.lor_nonneg; lia).
  split; [done|].
  destruct (decide (Z.lor (wrapu 64 (Z.shiftl k 32)) v = 0)) as [->|Hn]; [lia|].
  apply Z.log2_lt_pow2; [lia|]. rewrite Z.log2_lor by lia.
  apply Z.max_lub_lt.
  - destruct (decide (wrapu 64 (Z.shiftl k 32) = 0)) as [->|]; [done|]. apply Z.log2_lt_pow2; lia.
  - destruct (decide (v = 0)) as [->|]; [done|]. apply Z.log2_lt_pow2; lia.
Qed.

Lemma decode_encode k v : 0 <= k < 2 ^ 32 -> 0 <= v < 2 ^ 32 -> decodeKey (encodeKey k v) = (k, v).
Proof.
  intros Hk Hv. unfold encodeKey, decodeKey.
  assert (wrapu 64 (Z.shiftl k 32) = Z.shiftl k 32) as ->.
  { rewrite Z.shiftl_mul_pow2 by lia. apply wrapu_small. lia. }
  destruct (lor_shiftl_low k v 32 ltac:(lia) Hv) as [E1 E2]. change 4294967295 with (Z.ones 32).
  rewrite E1, E2. by rewrite !wrapu_small by lia.
Qed.

Lemma through_Fd_small z : 0 <= z < 2 ^ 31 -> HandlerList.through_Fd z = z.
Proof. intros Hz. unfold HandlerList.through_Fd. rewrite wraps_small, wrapu_small; lia. Qed.

(** A registration of the first handler: the tag is the descriptor. *)
Lemma encodeTag_first fd : 0 <= fd < 2 ^ 31 -> HandlerList.encodeTag 0 fd = fd.
Proof.
  intros Hf. unfold HandlerList.encodeTag. change (wrapu 64 (Z.shiftl 0 HandlerList.HandlerShift)) with 0.
  rewrite Z.lor_0_l, (through_Fd_small fd) by done. by apply through_Fd_small.
Qed.

(** ** Lists of handlers *)

Definition wf_list (l : HandlerList.t) : Prop :=
  length (HandlerList.handlers l) = HandlerList.MaxHandlers /\ (HandlerList.index_ l <= HandlerList.MaxHandlers)%nat.

Definition pushed (l : HandlerList.t) (h : nat) : HandlerList.t :=
  {| HandlerList.handlers := <[HandlerList.index_ l := Some h]> (HandlerList.handlers l);
     HandlerList.index_ := S (HandlerList.index_ l) |}.

Lemma add_pushes l h :
  wf_list l -> (HandlerList.index_ l < HandlerList.MaxHandlers)%nat ->
  HandlerList.add h l = (pushed l h, Ok (Z.of_nat (HandlerList.index_ l))) /\ wf_list (pushed l h).
Proof.
  intros [Hl Hi] Hm. unfold HandlerList.add, mbind, M_bind, get, lift, set_at.
  rewrite (proj2 (Nat.eqb_neq _ _)) by lia. cbn [modify].
  rewrite (proj2 (Nat.ltb_lt _ _)) by (rewrite Hl; lia). split; [done|].
  split; cbn; [by rewrite length_insert|lia].
Qed.

Lemma add_full l h :
  (HandlerList.index_ l = HandlerList.MaxHandlers)%nat ->
  HandlerList.add h l = (l, Throw (RuntimeError (B "Maximum handlers reached"))).
Proof. intros E. unfold HandlerList.add, mbind, M_bind, get. by rewrite E, Nat.eqb_refl. Qed.

Lemma at_pushed l h (i : nat) :
  wf_list l -> (HandlerList.index_ l < HandlerList.MaxHandlers)%nat -> (i <= HandlerList.index_ l)%nat ->
  HandlerList.at_index (Z.of_nat i) (pushed l h)
  = if decide (i = HandlerList.index_ l) then Ok (Some h) else HandlerList.at_index (Z.of_nat i) l.
Proof.
  intros [Hl _] Hm Hi. unfold HandlerList.at_index, at_. cbn [pushed HandlerList.handlers HandlerList.index_].
  rewrite (proj2 (Z.leb_gt _ _)) by lia. rewrite Nat2Z.id. case_decide as Hd.
  - subst i. by rewrite list_lookup_insert_eq by lia.
  - rewrite list_lookup_insert_ne by done. by rewrite (proj2 (Z.leb_gt _ _)) by lia.
Qed.

(** ** Adding a handler *)

Section Adding.
Context `{EpollKernel}.
Context (registerPoller : nat -> M Epoll unit) (clone : HandlerObj -> HandlerObj).
Hypothesis registers : forall h e, snd (registerPoller h e) = Ok tt.

(** A worker after a handler was added. *)
Definition with_handler (s : Sync) (h : nat) : Sync :=
  {| handlers_ := pushed (handlers_ s) h; shutdown_ := shutdown_ s; shutdownFd := shutdownFd s;
     poller := fst (registerPoller h (poller s)) |}.

Lemma addHandler_adds h setKey o s :
  wf_list (handlers_ s) -> (HandlerList.index_ (handlers_ s) < HandlerList.MaxHandlers)%nat ->
  addHandler registerPoller h setKey (o, s)
  = ((alter (fun x => if setKey : bool then set_key (Z.of_nat (HandlerList.index_ (handlers_ s))) (set_attached true x)
                      else set_attached true x) h o, with_handler s h),
     Ok (Z.of_nat (HandlerList.index_ (handlers_ s)))).
Proof.
  intros Hw Hi. unfold addHandler, mbind, M_bind, on_poller. pose proof (registers h (poller s)) as Hr.
  unfold with_handler. destruct (registerPoller h (poller s)) as [e r]. cbn [fst snd] in *. subst r.
  cbn [on_object modify]. unfold on_handlers. cbn [handlers_]. destruct (add_pushes _ h Hw Hi) as [-> _].
  destruct setKey; [|done]. cbn [on_object modify]. by rewrite alter_alter_eq.
Qed.

(** The workers have the same number of handlers. *)
Definition uniform (k : nat) (l : list Sync) : Prop :=
  Forall (fun s => wf_list (handlers_ s) /\ HandlerList.index_ (handlers_ s) = k) l.

Definition clone_key (k i : nat) (x : HandlerObj) : HandlerObj :=
  set_key (encodeKey (Z.of_nat k) (Z.of_nat i)) (set_attached true (clone x)).

Lemma in_worker_app {A} (m : M (Objects * Sync) A) o n d s l :
  in_worker (length d) m {| objects := o; next := n; workers := d ++ s :: l |}
  = let '((o', s'), r) := m (o, s) in ({| objects := o'; next := n; workers := d ++ s' :: l |}, r).
Proof.
  unfold in_worker, at_. cbn [workers objects next]. rewrite list_lookup_middle by done.
  destruct (m (o, s)) as [[o' s'] r]. f_equal. f_equal. rewrite insert_app_r_alt by lia.
  by rewrite Nat.sub_diag.
Qed.

Lemma clone_key_at (o : Objects) n h k i :
  alter (set_key (encodeKey (Z.of_nat k) (Z.of_nat i))) n (alter (set_attached true) n
    (<[n := clone (default HandlerObj_new (o !! h))]> o))
  = <[n := clone_key k i (default HandlerObj_new (o !! h))]> o.
Proof. apply map_eq. intros j. destruct (decide (j = n)) as [->|]; by simplify_map_eq. Qed.

Lemma clone_handler_eq h (a : AsyncImpl) :
  clone_handler clone h a
  = ({| objects := <[next a := clone (default HandlerObj_new (objects a !! h))]> (objects a); next := S (next a);
        workers := workers a |}, Ok (next a)).
Proof. done. Qed.

(** The loop, from the worker that comes after those of [d]. *)
Lemma add_clones_loop h k l d o n keys :
  uniform k l -> (k < HandlerList.MaxHandlers)%nat -> (length d + length l <= HandlerList.MaxHandlers)%nat ->
  length keys = HandlerList.MaxHandlers -> (h < n)%nat ->
  exists o' keys',
    add_clones registerPoller clone h (length l) (length d) keys {| objects := o; next := n; workers := d ++ l |}
    = ({| objects := o'; next := (n + length l)%nat; workers := d ++ imap (fun j s => with_handler s (n + j)) l |}, Ok keys')
  /\ (forall j, (j < length l)%nat ->
        o' !! (n + j)%nat = Some (clone_key k (length d + j) (default HandlerObj_new (o !! h))))
  /\ (forall x, (x < n)%nat -> o' !! x = o !! x)
  /\ (forall j, keys' !! j = if decide (length d <= j < length d + length l)%nat then Some (Z.of_nat k) else keys !! j).
Proof.
  intros Hu Hk. revert d o n keys. induction Hu as [|s l [Hw Hi] Hu IH]; intros d o n keys Hm Hlen Hh.
  - exists o, keys. cbn [length add_clones imap]. rewrite Nat.add_0_r, app_nil_r. split; [done|]. split; [intros; lia|].
    split; [done|]. intros j. by rewrite decide_False by lia.
  - cbn [length] in *. cbn [add_clones]. unfold mbind at 1, M_bind at 1. rewrite clone_handler_eq. cbn [objects next workers].
    unfold mbind at 1, M_bind at 1. rewrite in_worker_app, addHandler_adds by (try done; lia). rewrite Hi.
    unfold mbind at 1, M_bind at 1. cbn [set_object_key modify objects next workers].
    rewrite (wrapu_small 32) by (change (2 ^ 32) with 4294967296; unfold HandlerList.MaxHandlers in *; lia).
    rewrite clone_key_at. unfold mbind at 1, M_bind at 1. unfold lift, set_at.
    rewrite (proj2 (Nat.ltb_lt _ _)) by lia.
    destruct (IH (d ++ [with_handler s n]) (<[n := clone_key k (length d) (default HandlerObj_new (o !! h))]> o) (S n)
                 (<[length d := Z.of_nat k]> keys)) as (o' & keys' & E & Hc & Ho & Hks).
    { rewrite length_app. cbn. lia. }
    { by rewrite length_insert. }
    { lia. }
    rewrite length_app, <- app_assoc in E. cbn [length app] in E. rewrite Nat.add_1_r in E.
    exists o', keys'. split.
    { rewrite E. f_equal. f_equal; [lia|]. rewrite <- app_assoc. cbn [app imap]. rewrite Nat.add_0_r.
      f_equal. f_equal. apply imap_ext. intros. cbn. f_equal. lia. }
    split; [|split].
    + intros [|j] Hj.
      * rewrite !Nat.add_0_r, Ho by lia. by rewrite lookup_insert_eq.
      * replace (n + S j)%nat with (S n + j)%nat by lia. rewrite Hc by lia.
        rewrite length_app, lookup_insert_ne by lia. cbn [length]. do 2 f_equal. lia.
    + intros x Hx. rewrite Ho by lia. by rewrite lookup_insert_ne by lia.
    + intros j. rewrite Hks, length_app. cbn [length]. destruct (decide (j = length d)) as [->|Hj].
      * rewrite decide_False, decide_True by lia. by rewrite list_lookup_insert_eq by lia.
      * rewrite list_lookup_insert_ne by done. do 2 case_decide; try done; lia.
Qed.

Lemma handler_of_each_ok key l f :
  (forall i s, l !! i = Some s -> handler key s = Ok (f i)) -> handler_of_each key l = Ok (imap (fun i _ => f i) l).
Proof.
  revert f. induction l as [|s l IH]; intros f Hf; [done|]. cbn. rewrite (Hf 0%nat) by done. cbn.
  rewrite (IH (fun i => f (S i))) by (intros i ? Hi; by apply (Hf (S i))). done.
Qed.

Lemma imap_seq {A} (l : list A) n : imap (fun i _ => Some (n + i)%nat) l = map Some (seq n (length l)).
Proof.
  revert n. induction l as [|a l IH]; intros n; [done|]. cbn. rewrite Nat.add_0_r. f_equal.
  rewrite <- IH. apply imap_ext. intros. cbn. f_equal. lia.
Qed.

Lemma imap_const_imap {A B C} (f : nat -> A -> B) (g : nat -> C) l :
  imap (fun i _ => g i) (imap f l) = imap (fun i _ => g i) l.
Proof.
  revert f g. induction l as [|a l IH]; intros f g; [done|]. cbn. f_equal.
  apply (IH (f ∘ S) (g ∘ S)).
Qed.

Lemma uniform_with_handler k l n :
  uniform k l -> (k < HandlerList.MaxHandlers)%nat -> uniform (S k) (imap (fun j s => with_handler s (n + j)) l).
Proof.
  intros Hu Hk. apply list.Forall_lookup. intros i s' Hs. apply list_lookup_imap_Some in Hs as (s & Hs & ->).
  destruct (proj1 (list.Forall_lookup _ _) Hu i s Hs) as [Hw Hi]. cbn [with_handler handlers_].
  destruct (add_pushes (handlers_ s) (n + i) Hw ltac:(lia)) as [_ Hp]. split; [done|]. cbn. by rewrite Hi.
Qed.

(** What [addHandler] of the asynchronous reactor does. *)
Lemma Async_addHandler_adds h k a :
  uniform k (workers a) -> (k < HandlerList.MaxHandlers)%nat ->
  (0 < length (workers a) <= HandlerList.MaxHandlers)%nat -> (h < next a)%nat ->
  exists a', Async_addHandler registerPoller clone h a = (a', Ok (encodeKey (Z.of_nat k) KeyMarker))
  /\ workers a' = imap (fun j s => with_handler s (next a + j)) (workers a)
  /\ next a' = (next a + length (workers a))%nat
  /\ (forall i, (i < length (workers a))%nat ->
       objects a' !! (next a + i)%nat = Some (clone_key k i (default HandlerObj_new (objects a !! h))))
  /\ (forall x, (x < next a)%nat -> objects a' !! x = objects a !! x).
Proof.
  intros Hu Hk Hw Hh. unfold Async_addHandler, mbind at 1, M_bind at 1, get.
  destruct (add_clones_loop h k (workers a) [] (objects a) (next a) (replicate HandlerList.MaxHandlers 0)
              Hu Hk ltac:(cbn; lia) (length_replicate _ _) Hh) as (o' & keys' & E & Hc & Ho & Hks).
  destruct a as [o n l]. cbn [objects next workers] in *. cbn [length app] in E. unfold mbind at 1, M_bind at 1. rewrite E.
  unfold mbind, M_bind, lift, at_. rewrite Hks, decide_True by (cbn; lia).
  eexists. split; [done|]. by cbn.
Qed.

Lemma handlers_after_adding k a a' (j : nat) :
  uniform k (workers a) -> (k < HandlerList.MaxHandlers)%nat -> (j <= k)%nat ->
  workers a' = imap (fun j s => with_handler s (next a + j)) (workers a) ->
  Async_handlers (encodeKey (Z.of_nat j) KeyMarker) a'
  = if decide (j = k) then Ok (map Some (seq (next a) (length (workers a))))
    else Async_handlers (encodeKey (Z.of_nat j) KeyMarker) a.
Proof.
  intros Hu Hk Hj Hw. unfold HandlerList.MaxHandlers in Hk. unfold Async_handlers.
  rewrite decode_encode by (unfold KeyMarker; lia). rewrite Z.eqb_refl. cbn [negb]. rewrite Hw. case_decide as Hd.
  - subst j. rewrite (handler_of_each_ok _ _ (fun i => Some (next a + i)%nat)).
    + by rewrite imap_const_imap, imap_seq.
    + intros i s' Hs. apply list_lookup_imap_Some in Hs as (s & Hs & ->). unfold handler. cbn [with_handler handlers_].
      destruct (proj1 (list.Forall_lookup _ _) Hu i s Hs) as [Hl Hi].
      rewrite at_pushed by (try done; unfold HandlerList.MaxHandlers; lia). by rewrite decide_True by lia.
  - generalize (next a) as n. clear Hw. induction Hu as [|s l [Hl Hi] Hu IH]; intros n; [done|]. cbn [imap handler_of_each].
    unfold handler. cbn [with_handler handlers_].
    rewrite at_pushed by (try done; unfold HandlerList.MaxHandlers; lia). rewrite decide_False by lia.
    rewrite (imap_ext _ (fun j s => with_handler s (S n + j)) l) by (intros; cbn; f_equal; lia). by rewrite IH.
Qed.
End Adding.

(** ** Registering and polling *)

Section Dispatch.
Context `{EpollKernel}.
Context (registerPoller : nat -> M Epoll unit) (clone : HandlerObj -> HandlerObj).
Hypothesis registers : forall h e, snd (registerPoller h e) = Ok tt.

Lemma dispatch_to k (i : nat) {A} (f : Z -> M (Objects * Sync) A) :
  0 <= k < 2 ^ 32 -> Z.of_nat i < 2 ^ 32 ->
  dispatchCall (encodeKey k (Z.of_nat i)) f = in_worker i (f k).
Proof. intros Hk Hi. unfold dispatchCall. rewrite decode_encode by lia. cbn [fst snd]. by rewrite Nat2Z.id. Qed.

Lemma in_worker_out i {A} (m : M (Objects * Sync) A) a :
  (length (workers a) <= i)%nat -> in_worker i m a = (a, Throw (OutOfRange (B "at"))).
Proof. intros Hi. unfold in_worker, at_. by rewrite (lookup_ge_None_2 _ _ Hi). Qed.

Lemma registerFd_in_worker k i fd flags tag mode a s :
  workers a !! i = Some s ->
  let c := CTL_ADD fd {| ev_events := edge mode (toEpollEvents flags); ev_data := HandlerList.encodeTag k tag |} in
  in_worker i (registerFd k fd flags tag mode) a
  = if epoll_accepts (poller s) c
    then ({| objects := objects a; next := next a;
             workers := <[i := {| handlers_ := handlers_ s; shutdown_ := shutdown_ s; shutdownFd := shutdownFd s;
                                  poller := poller s ++ [c] |}]> (workers a) |}, Ok tt)
    else (a, Throw (RuntimeError system_error)).
Proof.
  intros Hs c. unfold in_worker, at_. rewrite Hs. unfold registerFd, on_poller, addFd, TRY_ctl, mbind, M_bind, get.
  fold c. destruct (epoll_accepts (poller s) c); [done|]. cbn. destruct a as [o n l], s as [hs sd sf p]. cbn in *.
  by rewrite list_insert_id.
Qed.

Lemma interest_snoc e c : interest (e ++ [c]) = apply_ctl (interest e) c.
Proof. unfold interest. by rewrite fold_left_app. Qed.

Lemma handleFds_single {W} (onReady : nat -> list Event -> M W unit) l h events w :
  wf_list l -> HandlerList.index_ l = 0%nat -> handleFds onReady (pushed l h) events w = onReady h events w.
Proof.
  intros Hw Hi. unfold handleFds, HandlerList.size. cbn [pushed HandlerList.index_]. rewrite Hi. cbn [Nat.eqb].
  change 0 with (Z.of_nat 0). unfold mbind, M_bind, lift.
  rewrite at_pushed by (try done; unfold HandlerList.MaxHandlers; lia). by rewrite Hi, decide_True by done.
Qed.

Lemma clone_reached h a fd flags mode (i : nat) :
  uniform 0 (workers a) -> (i < length (workers a) <= HandlerList.MaxHandlers)%nat -> (h < next a)%nat ->
  0 <= fd < 2 ^ 31 ->
  exists a' x s,
    Async_addHandler registerPoller clone h a = (a', Ok (encodeKey 0 KeyMarker))
    /\ Async_handlers (encodeKey 0 KeyMarker) a' = Ok (map Some (seq (next a) (length (workers a))))
    /\ objects a' !! (next a + i)%nat = Some x /\ attached x = true /\ workers a' !! i = Some s
    /\ match Async_registerFd (key_ x) fd flags fd mode a' with
       | (a'', Ok _) =>
           exists s' ev, workers a'' = <[i := s']> (workers a') /\ objects a'' = objects a'
           /\ interest (poller s') = <[fd := ev]> (interest (poller s))
           /\ (forall mask, Event_of {| ev_events := mask; ev_data := ev_data ev |} = {| event_flags := toNotifyOn mask; tag := fd |})
           /\ forall W (onReady : nat -> list Event -> M W unit) events w,
                handleFds onReady (handlers_ s') events w = onReady (next a + i)%nat events w
       | (a'', Throw e) => a'' = a' /\ e = RuntimeError system_error
       | _ => False
       end.
Proof.
  intros Hu Hi Hh Hfd.
  destruct (Async_addHandler_adds registerPoller clone registers h 0 a Hu ltac:(unfold HandlerList.MaxHandlers; lia)
              ltac:(lia) Hh) as (a' & E & Hw & _ & Hc & _).
  pose proof (handlers_after_adding registerPoller 0 a a' 0 Hu ltac:(unfold HandlerList.MaxHandlers; lia) ltac:(lia) Hw) as Eh.
  rewrite decide_True in Eh by done. specialize (Hc i ltac:(lia)). set (x := clone_key _ _ _ _) in Hc.
  destruct (lookup_lt_is_Some_2 (workers a) i ltac:(lia)) as [s0 Hs0].
  set (s := with_handler registerPoller s0 (next a + i)).
  assert (workers a' !! i = Some s) as Hs by (rewrite Hw, list_lookup_imap, Hs0; done).
  exists a', x, s. split; [done|]. split; [done|]. split; [done|]. split; [done|]. split; [done|].
  assert (key_ x = encodeKey 0 (Z.of_nat i)) as -> by done.
  unfold Async_registerFd. unfold HandlerList.MaxHandlers in *. rewrite dispatch_to by lia.
  rewrite (registerFd_in_worker _ _ _ _ _ _ _ _ Hs), encodeTag_first by done. cbv zeta.
  destruct (epoll_accepts _ _); [|done].
  eexists _, _. split; [done|]. split; [done|]. cbn [poller workers]. rewrite interest_snoc. cbn [apply_ctl].
  split; [done|]. split; [done|]. intros W onReady events w.
  destruct (proj1 (list.Forall_lookup _ _) Hu i s0 Hs0) as [Hl H0]. by apply handleFds_single.
Qed.

(** C9. The first handler added to an asynchronous reactor (the workers have none before it; a
    second one stops the reactor, [two_handlers_stop_reactor]) has a clone in every worker,
    all found by the key that is returned.  A descriptor the clone of worker [i] registers with its
    own key goes to the poller of worker [i] and to no other; and whatever that poller
    reports is given, whole, to that clone, with the descriptor as its tag. *)
Theorem events_reach_clone h a fd flags mode (i : nat) :
  uniform 0 (workers a) -> (i < length (workers a) <= HandlerList.MaxHandlers)%nat -> (h < next a)%nat ->
  0 <= fd < 2 ^ 31 ->
  exists a' x s,
    Async_addHandler registerPoller clone h a = (a', Ok (encodeKey 0 KeyMarker))
    /\ Async_handlers (encodeKey 0 KeyMarker) a' = Ok (map Some (seq (next a) (length (workers a))))
    /\ objects a' !! (next a + i)%nat = Some x /\ attached x = true /\ workers a' !! i = Some s
    /\ match Async_registerFd (key_ x) fd flags fd mode a' with
       | (a'', Ok _) =>
           exists s' ev, workers a'' = <[i := s']> (workers a') /\ objects a'' = objects a'
           /\ interest (poller s') = <[fd := ev]> (interest (poller s))
           /\ (forall mask, Event_of {| ev_events := mask; ev_data := ev_data ev |} = {| event_flags := toNotifyOn mask; tag := fd |})
           /\ forall W (onReady : nat -> list Event -> M W unit) events w,
                handleFds onReady (handlers_ s') events w = onReady (next a + i)%nat events w
       | (a'', Throw e) => a'' = a' /\ e = RuntimeError system_error
       | _ => False
       end.
Proof. by apply clone_reached. Qed.

(** The 64 bits of a key hold any handler and any worker the reactor can have, and give
    back both; the key [addHandler] returns is no worker's, so that a registration with it
    is refused with nothing done, and a worker's key names no list of handlers.  More
    threads than a list can hold are refused, and so is a handler more than it can hold,
    after its poller was given to it. *)
Theorem keys_kept_apart (k i : nat) :
  (k < HandlerList.MaxHandlers)%nat -> (i < HandlerList.MaxHandlers)%nat ->
  0 <= encodeKey (Z.of_nat k) (Z.of_nat i) < 2 ^ 64
  /\ decodeKey (encodeKey (Z.of_nat k) (Z.of_nat i)) = (Z.of_nat k, Z.of_nat i)
  /\ (forall a fd flags tag mode, (length (workers a) <= HandlerList.MaxHandlers)%nat ->
        Async_registerFd (encodeKey (Z.of_nat k) KeyMarker) fd flags tag mode a = (a, Throw (OutOfRange (B "at")))
        /\ Async_handlers (encodeKey (Z.of_nat k) (Z.of_nat i)) a = Throw (RuntimeError (B "Invalid key")))
  /\ (forall eventfds o n, (HandlerList.MaxHandlers < length eventfds)%nat ->
        AsyncImpl_new eventfds o n = Throw (RuntimeError (B "Too many worker threads requested (max 255).")))
  /\ (forall h setKey o s, HandlerList.index_ (handlers_ s) = HandlerList.MaxHandlers ->
        addHandler registerPoller h setKey (o, s)
        = ((alter (set_attached true) h o,
            {| handlers_ := handlers_ s; shutdown_ := shutdown_ s; shutdownFd := shutdownFd s;
               poller := fst (registerPoller h (poller s)) |}),
           Throw (RuntimeError (B "Maximum handlers reached")))).
Proof.
  unfold HandlerList.MaxHandlers at 1 2. intros Hk Hi. split; [apply encodeKey_range; lia|].
  assert (decodeKey (encodeKey (Z.of_nat k) (Z.of_nat i)) = (Z.of_nat k, Z.of_nat i)) as Ed by (apply decode_encode; lia).
  split; [done|]. split; [|split].
  - intros a fd flags tag mode Hw. unfold HandlerList.MaxHandlers in Hw. split.
    + assert (exists m, KeyMarker = Z.of_nat m /\ Z.of_nat m = 12245771) as (m & -> & Hm).
      { exists (Z.to_nat KeyMarker). rewrite Z2Nat.id; by unfold KeyMarker. }
      unfold Async_registerFd. rewrite dispatch_to by lia. apply in_worker_out. lia.
    + unfold Async_handlers. rewrite Ed. by rewrite (proj2 (Z.eqb_neq _ _)) by (unfold KeyMarker; lia).
  - intros l o n Hl. unfold AsyncImpl_new. by rewrite (proj2 (Nat.ltb_lt _ _)) by done.
  - intros h setKey o s Hx. unfold addHandler, mbind, M_bind, on_poller. pose proof (registers h (poller s)) as Hr.
    destruct (registerPoller h (poller s)) as [e r]. cbn [fst snd] in *. subst r. cbn [on_object modify].
    unfold on_handlers. cbn [handlers_]. by rewrite add_full.
Qed.
End Dispatch.

(** ** The polling loop *)

Section Loop.
Context {W : Type} (onReady : nat -> list Event -> M W unit).

(** What a turn gives to the handlers, if it is not the last. *)
Definition batch (t : turn) : option (list Event) :=
  match poll (answers t) with Ok (Some []) | Ok None => None | Ok (Some events) => Some events | _ => None end.

(** A turn that polls, and after which the loop goes on. *)
Definition goes_on (t : turn) : Prop :=
  exists polled, poll (answers t) = Ok polled
  /\ (batch t = None \/ shutdown_read t = false /\ shutdown_locked t = false).
(** One that finds the flag set. *)
Definition stops (t : turn) : Prop :=
  exists event events, poll (answers t) = Ok (Some (event :: events))
  /\ (shutdown_read t = true \/ shutdown_locked t = true).

Fixpoint deliver (h : nat) (batches : list (list Event)) : M W unit :=
  match batches with [] => mret tt | b :: batches' => _ ← onReady h b; deliver h batches' end.

Lemma turns_deliver l h before last after w :
  wf_list l -> HandlerList.index_ l = 0%nat -> Forall goes_on before -> stops last ->
  turns_loop onReady (pushed l h) (before ++ last :: after) w = deliver h (omap batch before) w.
Proof.
  intros Hw Hi Hb Hl. revert w. induction Hb as [|t before (polled & Hp & Hg) Hb IH]; intros w.
  - destruct Hl as (event & events & Hp & Hs). cbn [app turns_loop omap list_omap].
    unfold mbind, M_bind, lift. rewrite Hp. destruct (shutdown_read last); [done|]. by destruct Hs as [?| ->].
  - cbn [app turns_loop omap list_omap]. unfold mbind at 1, M_bind at 1, lift. unfold batch in *. rewrite Hp in *.
    destruct polled as [[|event events]|]; [apply IH| |apply IH].
    destruct Hg as [Hg|[-> ->]]; [done|]. cbn [deliver]. unfold mbind, M_bind.
    rewrite handleFds_single by done. by destruct (onReady h (event :: events) w) as [w' [[]|e| |]].
Qed.

(** C23. The loop of a reactor with one handler gives the handler what is polled, batch by
    batch in the order it comes, until a descriptor is ready with the shutdown flag set;
    then it returns, and that batch and later ones are not given.  An interrupted call is
    repeated; a failed one is passed over. *)
Theorem polled_delivered l h before last after w :
  wf_list l -> HandlerList.index_ l = 0%nat -> Forall goes_on before -> stops last ->
  runOnce onReady (pushed l h) (before ++ last :: after) w = deliver h (omap batch before) w.
Proof. intros. unfold runOnce. cbn. by apply turns_deliver. Qed.

Lemma sort_events_throws l event events :
  wf_list l -> exists e, sort_events l (event :: events) ∅ = Throw e.
Proof.
  intros [Hl Hi]. cbn [sort_events]. unfold HandlerList.at_index.
  destruct (Z.leb_spec (Z.of_nat (HandlerList.index_ l)) (HandlerList.decodeTag (tag event)).1) as [_|Ht]; [by eexists|].
  unfold at_. destruct (HandlerList.handlers l !! _) as [h|]; [|by eexists].
  cbn. rewrite lookup_empty. by eexists.
Qed.

(** With a second handler the reactor stops at the first event: an exception leaves the
    loop and no handler is called, whatever was polled and whatever its tag.  The events
    are looked up in a map that nothing was put in. *)
Theorem two_handlers_stop_reactor l before t after w :
  wf_list l -> (1 < HandlerList.index_ l)%nat ->
  Forall (fun t => exists polled, poll (answers t) = Ok polled /\ batch t = None) before ->
  (exists event events, poll (answers t) = Ok (Some (event :: events))) ->
  shutdown_read t = false -> shutdown_locked t = false ->
  exists e, runOnce onReady l (before ++ t :: after) w = (w, Throw e).
Proof.
  intros Hw Hi Hb (event & events & Hp) Hs1 Hs2. unfold runOnce, HandlerList.empty.
  rewrite (proj2 (Nat.eqb_neq _ _)) by lia.
  induction Hb as [|t0 before (polled & Hp0 & Hn) Hb IH].
  - cbn [app turns_loop]. unfold mbind at 1, M_bind at 1, lift. rewrite Hp, Hs1, Hs2.
    unfold mbind at 1, M_bind at 1. unfold handleFds, HandlerList.size. rewrite (proj2 (Nat.eqb_neq _ _)) by lia.
    destruct (sort_events_throws l event events Hw) as [e E]. exists e.
    unfold mbind, M_bind, lift. by rewrite E.
  - cbn [app turns_loop]. unfold mbind at 1, M_bind at 1, lift. unfold batch in Hn. rewrite Hp0 in *.
    by destruct polled as [[|? ?]|]; [|done|].
Qed.
End Loop.

(** ** Witnesses *)

(** A kernel that accepts every call, and handlers that register nothing. *)
#[local] Instance accepting : EpollKernel := {| epoll_accepts _ _ := true; system_error := B "error" |}.
Definition no_registration (_ : nat) : M Epoll unit := mret tt.

Definition idle_worker (fd : Z) : Sync :=
  {| handlers_ := HandlerList.new; shutdown_ := false; shutdownFd := {| event_fd := fd; counter := 0 |}; poller := [] |}.
Definition two_workers : AsyncImpl :=
  {| objects := {[ 0%nat := HandlerObj_new ]}; next := 1; workers := [idle_worker 4; idle_worker 6] |}.

Lemma wf_new : wf_list HandlerList.new.
Proof. split; cbn; [done|unfold HandlerList.MaxHandlers; lia]. Qed.

Lemma events_reach_clone_witness :
  exists a' x,
    Async_addHandler no_registration (fun x => x) 0 two_workers = (a', Ok (encodeKey 0 KeyMarker))
    /\ objects a' !! 2%nat = Some x
    /\ match Async_registerFd (key_ x) 9 NotifyOn.Read 9 Edge a' with
       | (a'', Ok _) => exists s', workers a'' = <[1%nat := s']> (workers a')
           /\ forall events w, handleFds (fun h (evs : list Event) (w : list nat) => (w ++ [h], Ok tt)) (handlers_ s') events w
                               = (w ++ [2%nat], Ok tt)
       | (a'', Throw e) => a'' = a' /\ e = RuntimeError (B "error")
       | _ => False
       end.
Proof.
  destruct (events_reach_clone no_registration (fun x => x) (fun _ _ => eq_refl) 0 two_workers 9 NotifyOn.Read Edge 1)
    as (a' & x & s & E & _ & Hx & _ & _ & Hr).
  - repeat constructor.
  - cbn. unfold HandlerList.MaxHandlers. lia.
  - cbn. lia.
  - lia.
  - exists a', x. split; [exact E|]. split; [exact Hx|].
    destruct (Async_registerFd _ _ _ _ _ _) as [a'' [u|e| |]]; try exact Hr.
    destruct Hr as (s' & ev & Hw & _ & _ & _ & Hd). exists s'. split; [exact Hw|]. intros events w. by rewrite Hd.
Defined.

Lemma keys_kept_apart_witness :
  0 <= encodeKey 254 254 < 2 ^ 64 /\ decodeKey (encodeKey 254 254) = (254, 254)
  /\ Async_registerFd (encodeKey 254 KeyMarker) 9 NotifyOn.Read 9 Edge two_workers = (two_workers, Throw (OutOfRange (B "at"))).
Proof.
  destruct (keys_kept_apart no_registration (fun _ _ => eq_refl) 254 254) as (E1 & E2 & E3 & _).
  - unfold HandlerList.MaxHandlers. lia.
  - unfold HandlerList.MaxHandlers. lia.
  - split; [exact E1|]. split; [exact E2|]. apply E3. cbn. unfold HandlerList.MaxHandlers. lia.
Defined.

Definition ready_turn (fd : Z) (shutdown : bool) : turn :=
  {| answers := [WaitInterrupted; Ready [{| ev_events := EPOLLIN; ev_data := fd |}]]; shutdown_read := shutdown;
     shutdown_locked := shutdown |}.
Definition readable (fd : Z) : Event := {| event_flags := NotifyOn.Read; tag := fd |}.

Lemma polled_delivered_witness :
  runOnce (fun h evs (w : list (nat * list Event)) => (w ++ [(h, evs)], Ok tt)) (pushed HandlerList.new 2)
    ([ready_turn 9 false; {| answers := [WaitFailed]; shutdown_read := false; shutdown_locked := false |}; ready_turn 5 false]
     ++ ready_turn 4 true :: [ready_turn 9 false]) []
  = ([(2%nat, [readable 9]); (2%nat, [readable 5])], Ok tt).
Proof.
  rewrite polled_delivered.
  - reflexivity.
  - apply wf_new.
  - reflexivity.
  - repeat constructor; eexists; (split; [reflexivity|]); auto.
  - do 2 eexists. split; [reflexivity|]. by left.
Defined.

Lemma two_handlers_stop_reactor_witness :
  exists e, runOnce (fun h evs (w : list (nat * list Event)) => (w ++ [(h, evs)], Ok tt)) (pushed (pushed HandlerList.new 2) 3)
              ([] ++ ready_turn 0 false :: []) [] = ([], Throw e).
Proof.
  apply two_handlers_stop_reactor.
  - apply add_pushes; [apply (add_pushes HandlerList.new 2 wf_new)|]; cbn; unfold HandlerList.MaxHandlers; lia.
  - cbn. lia.
  - constructor.
  - do 2 eexists. reflexivity.
  - reflexivity.
  - reflexivity.
Defined.
