(* ===== verification/Load.v ===== *)
(** * Asking for the load: [Transport::load], [handleNotify], [Listener::requestLoad]

    The listener asks each worker's transport for the time its thread used: the promise
    is kept in the transport, the worker is woken through an event descriptor and answers
    with what [getrusage] gives.  Floating point is a parameter. *)

From S2P Require Import Prelude Cxx Poller Reactor ReactorDispatch.

Local Open Scope Z_scope.

(** ** The transport's part: [src/common/transport.cc], [transport.h] *)

(** [ru_stime] and [ru_utime], in seconds and microseconds. *)
Record rusage : Set := { stime : Z * Z; utime : Z * Z }.

(** [loadRequest_] is the promise's name and whether it is settled; none if cleared. *)
Inductive load_event : Set := ResolveLoad (deferred : nat) (u : rusage) | RejectLoad (deferred : nat) (what : bytes).
Record Loads : Set := { loadRequest_ : option (nat * bool); notifier : NotifyFd; load_events : list load_event }.

Definition on_notifier {A} (m : M NotifyFd A) : M Loads A := fun s =>
  let '(n, r) := m (notifier s) in
  ({| loadRequest_ := loadRequest_ s; notifier := n; load_events := load_events s |}, r).
Definition set_request (d : option (nat * bool)) : M Loads unit :=
  modify (fun s => {| loadRequest_ := d; notifier := notifier s; load_events := load_events s |}).

(** Settling; where there is no promise nothing is done. *)
Definition settle (e : nat -> load_event) (again : bytes) : M Loads unit :=
  s ← get;
  match loadRequest_ s with
  | None => mret tt
  | Some (d, true) => throw (RuntimeError again)
  | Some (d, false) =>
      modify (fun s => {| loadRequest_ := Some (d, true); notifier := notifier s; load_events := load_events s ++ [e d] |})
  end.

Section Transport.
Context `{EpollKernel}.

Definition load (deferred : nat) : M Loads unit := _ ← set_request (Some (deferred, false)); on_notifier notify.

(** The loop [while (this->notifier.tryRead()) ;]. *)
Fixpoint drain (fuel : nat) : M Loads unit :=
  match fuel with
  | O => lift OutOfFuel
  | S fuel' => more ← on_notifier tryRead; if more : bool then drain fuel' else mret tt
  end.

(** [usage]: what [getrusage] gives, none if it fails. *)
Definition handleNotify (fuel : nat) (usage : option rusage) (now : rusage) : M Loads unit :=
  _ ← drain fuel;
  _ ← (match usage with
       | Some _ => mret tt
       | None => settle (fun d => RejectLoad d (B "Could not compute usage")) (B "Attempt to reject a fulfilled promise")
       end);
  _ ← settle (fun d => ResolveLoad d (default now usage)) (B "Attempt to resolve a fulfilled promise");
  set_request None.

(** [Transport::onReady]: the branch of the notifier; [other] has the other branches. *)
Fixpoint onReady (other : Event -> M Loads unit) (fuel : nat) (usage : option rusage) (now : rusage) (fds : list Event)
  : M Loads unit :=
  match fds with
  | [] => mret tt
  | entry :: fds' =>
      s ← get;
      _ ← (if tag entry =? wrapu 64 (event_fd (notifier s)) then handleNotify fuel usage now else other entry);
      onReady other fuel usage now fds'
  end.
End Transport.

(** ** [Listener::requestLoad]: [src/server/listener.cc] *)

Class Doubles := {
  double : Type; of_Z : Z -> double; plus : double -> double -> double; minus : double -> double -> double;
  times : double -> double -> double; divide : double -> double -> double }.

Section Listener.
Context `{Doubles}.

(** [global] is indeterminate until it is assigned. *)
Record Load : Type := { global : option double; load_workers : list double; raw : list rusage; tick : Z }.

Definition totalElapsed (usage : rusage) : double :=
  of_Z ((stime usage).1 * 1000000 + (stime usage).2 + ((utime usage).1 * 1000000 + (utime usage).2)).

Definition loadPct (last usage : rusage) (ticks : Z) : double :=
  divide (times (minus (totalElapsed usage) (totalElapsed last)) (of_Z 100)) (of_Z ticks).

(** The loop over the workers from the [i]-th on; an index past [old.raw] is not checked. *)
Fixpoint each_usage (old : Load) (ticks : Z) (usages : list rusage) (i : nat) (res : Load) : result Load :=
  match usages with
  | [] => Ok res
  | usage :: usages' =>
      match raw old !! i with
      | None => UB
      | Some last =>
          let pct := loadPct last usage ticks in
          match global res with
          | None => UB
          | Some g =>
              each_usage old ticks usages' (S i)
                {| global := Some (plus g pct); load_workers := load_workers res ++ [pct]; raw := raw res; tick := tick res |}
          end
      end
  end.

(** What the promise of [requestLoad] is resolved with; [now] is the clock, in
    microseconds, and a default-constructed time point is the epoch. *)
Definition requestLoad (old : Load) (handlers : nat) (usages : list rusage) (now : Z) : result Load :=
  let res := {| global := None; load_workers := []; raw := usages; tick := 0 |} in
  match raw old with
  | [] => Ok {| global := Some (of_Z 0); load_workers := replicate handlers (of_Z 0); raw := usages; tick := 0 |}
  | _ =>
      let ticks := now - tick old in
      res ← each_usage old ticks usages 0 {| global := None; load_workers := []; raw := usages; tick := now |};
      match global res with
      | None => UB
      | Some g => Ok {| global := Some (divide g (of_Z (Z.of_nat (length usages)))); load_workers := load_workers res;
                        raw := raw res; tick := tick res |}
      end
  end.

(** The first request has no loads and leaves the time unset; every later one adds to a
    sum that was never set. *)
Lemma requestLoad_second old handlers usages now :
  raw old <> [] -> requestLoad old handlers usages now = UB.
Proof.
  intros Hr. unfold requestLoad. destruct (raw old) as [|u l] eqn:E; [done|]. destruct usages as [|usage usages]; [done|].
  cbn. by rewrite E.
Qed.
Lemma requestLoad_first old handlers usages now :
  raw old = [] ->
  requestLoad old handlers usages now
  = Ok {| global := Some (of_Z 0); load_workers := replicate handlers (of_Z 0); raw := usages; tick := 0 |}.
Proof. intros E. unfold requestLoad. by rewrite E. Qed.
End Listener.

(** ** What becomes of a request *)

Section Answer.
Context `{EpollKernel}.

Lemma drain_throws fuel s :
  event_fd (notifier s) <> PS_FD_EMPTY -> (2 <= fuel)%nat ->
  drain fuel s = ({| loadRequest_ := loadRequest_ s; notifier := {| event_fd := event_fd (notifier s); counter := 0 |};
                     load_events := load_events s |}, Throw (RuntimeError system_error)).
Proof.
  intros Hb Hf. destruct fuel as [|[|fuel]]; [lia..|]. cbn [drain]. unfold mbind at 1, M_bind at 1, on_notifier.
  rewrite tryRead_bound by done. destruct (counter (notifier s) =? 0) eqn:Ec.
  - f_equal. destruct s as [d [f c] l]. cbn in *. apply Z.eqb_eq in Ec. by subst c.
  - cbn [notifier]. unfold mbind, M_bind. rewrite tryRead_bound by done. done.
Qed.

(** On Linux a request for the load stops the worker it is made of: the loop that
    empties the notifier ends with an exception and never with [false], the exception
    leaves [onReady] and the reactor's loop, and the request's promise is not settled. *)
Theorem load_stops_worker other fuel usage now deferred s h flags events t turns :
  event_fd (notifier s) <> PS_FD_EMPTY -> 0 <= counter (notifier s) < 2 ^ 64 - 2 -> (2 <= fuel)%nat ->
  poll (answers t) = Ok (Some ({| event_flags := flags; tag := wrapu 64 (event_fd (notifier s)) |} :: events)) ->
  shutdown_read t = false -> shutdown_locked t = false ->
  let requested := (load deferred s).1 in
  (load deferred s).2 = Ok tt
  /\ exists s',
       runOnce (fun _ => onReady other fuel usage now) (pushed HandlerList.new h) (t :: turns) requested
       = (s', Throw (RuntimeError system_error))
       /\ load_events s' = load_events s /\ loadRequest_ s' = Some (deferred, false).
Proof.
  intros Hb Hc Hf Hp H1 H2 requested.
  assert (load deferred s
          = ({| loadRequest_ := Some (deferred, false);
                notifier := {| event_fd := event_fd (notifier s); counter := counter (notifier s) + 1 |};
                load_events := load_events s |}, Ok tt)) as E.
  { unfold load, mbind, M_bind, set_request, modify, on_notifier. cbn [notifier]. unfold notify, mbind, M_bind, get, isBound.
    rewrite (proj2 (Z.eqb_neq _ _) Hb). cbn [negb]. unfold WRITE_EFD, mbind, M_bind, get.
    by rewrite (proj2 (Z.leb_le _ _)) by lia. }
  subst requested. rewrite E. cbn [fst snd]. split; [done|]. eexists. unfold runOnce.
  change (HandlerList.empty (pushed HandlerList.new h)) with false. cbv iota. cbn [turns_loop]. unfold mbind at 1, M_bind at 1, lift. rewrite Hp, H1, H2.
  unfold mbind at 1, M_bind at 1. rewrite handleFds_single by (done || apply wf_new).
  cbn [onReady]. unfold mbind at 1, M_bind at 1, get. cbn [notifier event_fd tag]. rewrite Z.eqb_refl.
  unfold mbind at 1, M_bind at 1. unfold handleNotify, mbind at 1, M_bind at 1. rewrite drain_throws by done. by cbn.
Qed.
End Answer.

(** ** Witnesses *)

#[local] Instance accepting_kernel : EpollKernel := {| epoll_accepts _ _ := true; system_error := B "Resource temporarily unavailable" |}.

Definition notified_worker : Loads :=
  {| loadRequest_ := None; notifier := {| event_fd := 11; counter := 0 |}; load_events := [] |}.

Lemma load_stops_worker_witness :
  (load 1 notified_worker).2 = Ok tt
  /\ exists s',
       runOnce (fun _ => onReady (fun _ => mret tt) 2 None {| stime := (0, 0); utime := (0, 0) |}) (pushed HandlerList.new 5)
         [ready_turn 11 false] (load 1 notified_worker).1
       = (s', Throw (RuntimeError (B "Resource temporarily unavailable")))
       /\ load_events s' = [] /\ loadRequest_ s' = Some (1%nat, false).
Proof.
  apply (load_stops_worker (H := accepting_kernel) (fun _ => mret tt) 2 None {| stime := (0, 0); utime := (0, 0) |} 1 notified_worker 5 NotifyOn.Read
           [] (ready_turn 11 false) []); try reflexivity.
  - discriminate.
  - cbn. lia.
Defined.
