(* ===== verification/Endpoint.v ===== *)
(** * The endpoint: [src/server/endpoint.cc], [include/pistache/endpoint.h]

    The endpoint's transport closes connections that take too long: a timer makes it look
    at every peer, at how far the peer's parser is and since when, and at whether the
    peer is idle.  A peer is an object with its parser; the base transport knows its
    descriptor.  The options of the endpoint reach the transport through a factory. *)

From S2P Require Import Prelude Cxx Stream HttpDefs QValue Mime Cookie Net HttpHeader HttpHeaders HttpMessage HeaderMemory.
From S2P Require Import HttpParser Resume HttpResponse HttpHandler Transport.

Local Open Scope Z_scope.

(** ** Timeouts *)

Record Timeouts : Set := { headerTimeout_ : Z; bodyTimeout_ : Z; keepaliveTimeout_ : Z }.

(** [Step::id]: the parser's steps, by their place in [allSteps]. *)
Inductive StepId : Set := RequestLineId | HeadersId | BodyId | OtherId.
Definition step_id (currentStep : nat) : StepId :=
  match currentStep with O => RequestLineId | 1%nat => HeadersId | 2%nat => BodyId | _ => OtherId end.

Definition checkTimeout (t : Timeouts) (idle : bool) (id : StepId) (elapsed : Z) : bool :=
  if idle then keepaliveTimeout_ t <? elapsed
  else
    match id with
    | RequestLineId | HeadersId => (headerTimeout_ t <? elapsed) || (bodyTimeout_ t <? elapsed)
    | BodyId => bodyTimeout_ t <? elapsed
    | OtherId => false
    end.

(** ** The transport *)

(** A peer with its parser; [time_] is the parser's, in nanoseconds. *)
Record Peer : Type := { peer_fd : option Fd; isIdle_ : bool; parser : RequestParser; time_ : Z }.
Definition set_idle (b : bool) (p : Peer) : Peer :=
  {| peer_fd := peer_fd p; isIdle_ := b; parser := parser p; time_ := time_ p |}.
Definition no_fd (p : Peer) : Peer := {| peer_fd := None; isIdle_ := isIdle_ p; parser := parser p; time_ := time_ p |}.

(** [peer_at] is [peers_] with its peers, by name; [closing]: the promises of the timeout
    responses, with the peers their continuations have. *)
Record TransportImpl : Type := {
  base : Transport; peer_at : gmap Fd nat; peers : gmap nat Peer; closing : gmap nat nat; promises : nat }.

Definition on_base {A} (m : M Transport A) : M TransportImpl A := fun s =>
  let '(t, r) := m (base s) in
  ({| base := t; peer_at := peer_at s; peers := peers s; closing := closing s; promises := promises s |}, r).
Definition on_peer (id : nat) (f : Peer -> Peer) : M TransportImpl unit :=
  modify (fun s => {| base := base s; peer_at := peer_at s; peers := alter f id (peers s); closing := closing s;
                      promises := promises s |}).

(** The order in which an unordered map is gone through. *)
Class PeerOrder := {
  peer_order : gmap Fd nat -> list (Fd * nat);
  peer_order_ok : forall m, peer_order m ≡ₚ map_to_list m }.

(** [std::chrono::duration_cast<std::chrono::milliseconds>]. *)
Definition milliseconds (ns : Z) : Z := Z.quot ns 1000000.

Section Transport.
Context `{DateLib, Resolver, StringMemory, Iteration, ContentEncodings, Compressors, PeerOrder}.
Context (timeouts : Timeouts) (handler : Handler).

Definition removePeer (id : nat) : M TransportImpl unit :=
  s ← get;
  match peers s !! id with
  | None => lift UB
  | Some p =>
      match peer_fd p with
      | None => mret tt
      | Some fd =>
          _ ← on_base (Transport.removePeer (Some fd));
          modify (fun s => {| base := base s; peer_at := delete fd (peer_at s); peers := alter no_fd id (peers s);
                              closing := closing s; promises := promises s |})
      end
  end.

(** The response of a peer that took too long. *)
Definition timeout_response (fd : option Fd) : ResponseWriter * result outcome :=
  send 408 [] MediaType_default (ResponseWriter_new Http11 (Z.of_nat <$> fd) (maxResponseSize_ handler)).

(** The promise of a write is named; that of a response that is refused is rejected
    already, and its continuation runs at once. *)
Definition closePeer (id : nat) : M TransportImpl unit :=
  s ← get;
  match peers s !! id with
  | None => lift UB
  | Some p =>
      if isIdle_ p then removePeer id
      else
        _ ← on_peer id (set_idle true);
        o ← lift (timeout_response (peer_fd p)).2;
        match o with
        | Rejected _ => removePeer id
        | AsyncWrite _ buffer =>
            s ← get;
            _ ← on_base (asyncWrite (peer_fd p) (promises s) (BufferHolder_raw buffer) 0);
            modify (fun s => {| base := base s; peer_at := peer_at s; peers := peers s;
                                closing := <[promises s := id]> (closing s); promises := S (promises s) |})
        end
  end.

(** The continuation of a timeout response, whichever way its promise is settled. *)
Definition response_settled (promise : nat) : M TransportImpl unit :=
  s ← get; match closing s !! promise with Some id => removePeer id | None => mret tt end.

Definition timed_out (now : nat -> Z) (id : nat) (p : Peer) : bool :=
  checkTimeout timeouts (isIdle_ p) (step_id (currentStep (parser p))) (milliseconds (now id - time_ p)).

(** The peers that are closed: first collected, under the lock, then closed. *)
Fixpoint idlePeers (now : nat -> Z) (s : TransportImpl) (l : list (Fd * nat)) : result (list nat) :=
  match l with
  | [] => Ok []
  | (_, id) :: l' =>
      match peers s !! id with
      | None => UB
      | Some p => ids ← idlePeers now s l'; Ok (if timed_out now id p then id :: ids else ids)
      end
  end.
Fixpoint closePeers (ids : list nat) : M TransportImpl unit :=
  match ids with [] => mret tt | id :: ids' => _ ← closePeer id; closePeers ids' end.

(** [now]: what the clock says when a peer is looked at. *)
Definition checkIdlePeers (now : nat -> Z) : M TransportImpl unit :=
  s ← get; ids ← lift (idlePeers now s (peer_order (peer_at s))); closePeers ids.

(** [onReady]: the timer is looked for first. *)
Definition is_timer (timerFd : Fd) (entry : Tag) : bool :=
  match entry with FdTag fd _ _ => bool_decide (fd = timerFd) | _ => false end.
Definition onReady (timerFd : Fd) (now : nat -> Z) (rest : list Tag -> M TransportImpl unit) (fds : list Tag)
  : M TransportImpl unit :=
  _ ← (if existsb (is_timer timerFd) fds then checkIdlePeers now else mret tt); rest fds.

(** ** What the handler does to a peer *)

Definition idle_after (idle : bool) (events : list HttpHandler.event) : bool :=
  fold_left (fun idle e => match e with SetIdle b => b | OnRequest _ _ => idle | Respond _ _ => true end) events idle.

(** A peer after an input: a parser that was reset has the time of the reset.  [true]: an
    exception of the application left the handler. *)
Definition receive (onRequest : Request -> ResponseWriter -> application_end) (address : Address) (now : Z) (data : bytes)
  (p : Peer) : result (Peer * list HttpHandler.event * bool) :=
  match onInput onRequest handler (Z.of_nat (default 0%nat (peer_fd p))) address data (parser p) with
  | (q, Ok (Handled events)) =>
      Ok ({| peer_fd := peer_fd p; isIdle_ := idle_after (isIdle_ p) events; parser := q;
             time_ := match events with [] => time_ p | _ => now end |}, events, false)
  | (q, Ok (Escaped events)) =>
      Ok ({| peer_fd := peer_fd p; isIdle_ := idle_after (isIdle_ p) events; parser := q; time_ := time_ p |}, events, true)
  | (_, Throw e) => Throw e
  | (_, UB) => UB
  | (_, OutOfFuel) => OutOfFuel
  end.

(** Inputs one after the other, up to an exception that leaves the handler. *)
Fixpoint receive_all (onRequest : Request -> ResponseWriter -> application_end) (address : Address) (inputs : list (Z * bytes))
  (p : Peer) : result (Peer * list HttpHandler.event * bool) :=
  match inputs with
  | [] => Ok (p, [], false)
  | (now, data) :: inputs' =>
      '(q, events, escaped) ← receive onRequest address now data p;
      if escaped : bool then Ok (q, events, true)
      else
        '(q', events', escaped') ← receive_all onRequest address inputs' q;
        Ok (q', events ++ events', escaped')
  end.

(** A response of the application, sent when it likes. *)
Definition respond (p : Peer) : Peer := set_idle true p.

(** A connection that is opened. *)
Definition connect (fd : Fd) (now : Z) : Peer :=
  {| peer_fd := Some fd; isIdle_ := false; parser := onConnection handler; time_ := now |}.
End Transport.

(** ** [Endpoint::Options] and [Endpoint::init] *)

Record Options : Set := {
  threads_ : Z; threadsName_ : bytes; flags_ : Z; backlog_ : Z; o_maxRequestSize : Z; o_maxResponseSize : Z;
  o_timeouts : Timeouts }.

(** The defaults of [config.h], in milliseconds. *)
Definition Options_default : Options :=
  {| threads_ := 1; threadsName_ := []; flags_ := 0; backlog_ := 128; o_maxRequestSize := DefaultMaxRequestSize;
     o_maxResponseSize := DefaultMaxResponseSize;
     o_timeouts := {| headerTimeout_ := 60000; bodyTimeout_ := 60000; keepaliveTimeout_ := 300000 |} |}.

(** [transport_factory]: the options the factory given to the listener has copied. *)
Record Endpoint : Type := {
  e_handler : option Handler; options_ : Options; transport_factory : option Options; e_listening : bool }.
Definition Endpoint_new : Endpoint :=
  {| e_handler := None; options_ := Options_default; transport_factory := None; e_listening := false |}.

Definition sized (o : Options) (h : Handler) : Handler :=
  setMaxResponseSize (o_maxResponseSize o) (setMaxRequestSize (o_maxRequestSize o) h).

Definition init (options : Options) (e : Endpoint) : Endpoint :=
  {| e_handler := sized options <$> e_handler e; options_ := options; transport_factory := Some options;
     e_listening := e_listening e |}.
Definition setHandler (h : Handler) (e : Endpoint) : Endpoint :=
  {| e_handler := Some (sized (options_ e) h); options_ := options_ e; transport_factory := transport_factory e;
     e_listening := e_listening e |}.

(** A transport the listener asks the factory for; the listener's own factory, before
    [init], makes one that has no timeouts. *)
Definition make_transport (e : Endpoint) : result (Handler * option Timeouts) :=
  match e_handler e, transport_factory e with
  | None, Some _ => Throw (RuntimeError (B "Must call setHandler()"))
  | None, None => Throw (RuntimeError (B "setHandler() has not been called"))
  | Some h, o => Ok (h, o_timeouts <$> o)
  end.
Definition serve (e : Endpoint) : Endpoint * result unit :=
  match e_handler e with
  | None => (e, Throw (RuntimeError (B "Must call setHandler() prior to serve()")))
  | Some h => ({| e_handler := e_handler e; options_ := options_ e; transport_factory := transport_factory e; e_listening := true |}, Ok tt)
  end.
