(* ===== verification/EndpointTimeouts.v ===== *)
(** * Which connections are closed, and when

    A look at the peers closes the idle ones that are past the keep-alive time, answers
    408 to the busy ones that are past the time of their parser's step, and leaves the
    others alone; the answer is written and the connection is closed then.  What counts
    as idle is not what the comments say. *)

From S2P Require Import Prelude Cxx Stream HttpDefs QValue Mime Cookie Net HttpHeader HttpHeaders HttpMessage HeaderMemory.
From S2P Require Import HttpParser Termination Resume Fragmentation RequestText HttpResponse HttpHandler Transport WriteQueue Endpoint.

Local Open Scope Z_scope.

Section Timeouts.
Context `{DateLib, Resolver, StringMemory, Iteration, ContentEncodings, Compressors, PeerOrder}.
Context (timeouts : Timeouts) (handler : Handler).

Abbreviation closePeer := (Endpoint.closePeer handler).
Abbreviation closePeers := (Endpoint.closePeers handler).
Abbreviation timed_out := (Endpoint.timed_out timeouts).

(** ** The timeout response *)

Definition timeout_text : bytes := error_text Http11 408 [].

Lemma timeout_response_text fd :
  0 <= maxResponseSize_ handler ->
  (timeout_response handler (Some fd)).2
  = Ok (if bool_decide (Z.of_nat (length timeout_text) <= maxResponseSize_ handler)
        then AsyncWrite (Z.of_nat fd) (Stream.Raw timeout_text (length timeout_text)) else Rejected exceeded).
Proof. intros Hm. apply (send_error handler (Z.of_nat fd) (HttpError 408 []) Request_default Hm). Qed.

Hypothesis fits : Z.of_nat (length timeout_text) <= maxResponseSize_ handler.

(** The entry that is queued for it. *)
Definition timeout_entry (promise : nat) (fd : Fd) : WriteEntry :=
  {| deferred := promise; buffer := BufferHolder_raw (Stream.Raw timeout_text (length timeout_text)); flags := 0;
     peerFd := Some fd |}.

(** ** One peer *)

Record wf (s : TransportImpl) : Prop := {
  wf_peers : forall fd id, peer_at s !! fd = Some id -> exists p, peers s !! id = Some p /\ peer_fd p = Some fd;
  wf_base : peers_ (base s) = dom (peer_at s) }.

Definition removed (id : nat) (fd : Fd) (s : TransportImpl) : TransportImpl :=
  {| base := (Transport.removePeer (Some fd) (base s)).1; peer_at := delete fd (peer_at s);
     peers := alter no_fd id (peers s); closing := closing s; promises := promises s |}.
Definition asked (id : nat) (fd : Fd) (s : TransportImpl) : TransportImpl :=
  {| base := set_writesQueue (writesQueue (base s) ++ [timeout_entry (promises s) fd]) (base s); peer_at := peer_at s;
     peers := alter (set_idle true) id (peers s); closing := <[promises s := id]> (closing s); promises := S (promises s) |}.

Lemma removePeer_eval id fd p s :
  peers s !! id = Some p -> peer_fd p = Some fd -> removePeer id s = (removed id fd s, Ok tt).
Proof. intros E Ef. unfold removePeer, mbind, M_bind, get. by rewrite E, Ef. Qed.

Lemma closePeer_eval id fd p s :
  peers s !! id = Some p -> peer_fd p = Some fd ->
  closePeer id s = (if isIdle_ p then removed id fd s else asked id fd s, Ok tt).
Proof.
  intros E Ef. unfold Endpoint.closePeer. unfold mbind at 1, M_bind at 1, get. rewrite E.
  destruct (isIdle_ p); [by apply (removePeer_eval id fd p)|].
  unfold mbind at 1, M_bind at 1. cbn [on_peer modify]. unfold mbind at 1, M_bind at 1, lift. rewrite Ef.
  rewrite timeout_response_text by lia. by rewrite bool_decide_eq_true_2 by done.
Qed.

Lemma removePeer_toWrite fd t : toWrite (Transport.removePeer (Some fd) t).1 = delete fd (toWrite t).
Proof. done. Qed.
Lemma removePeer_peers fd t : peers_ (Transport.removePeer (Some fd) t).1 = peers_ t ∖ {[fd]}.
Proof. done. Qed.

Lemma removePeer_events fd t : events (Transport.removePeer (Some fd) t).1 = (events t ++ [RemoveFd fd]) ++ [CloseFd fd].
Proof. done. Qed.

Lemma wf_removed id fd s : wf s -> peer_at s !! fd = Some id -> wf (removed id fd s).
Proof.
  intros [Hp Hb] Hat. split.
  - intros fd' id' Hl. cbn in Hl. apply lookup_delete_Some in Hl as [Hne Hl]. destruct (Hp fd' id' Hl) as (p & E & Ef).
    exists p. split; [|done]. cbn. rewrite lookup_alter_ne; [done|]. intros ->.
    destruct (Hp fd id' Hat) as (p' & E' & Ef'). congruence.
  - cbn [removed base peer_at]. by rewrite removePeer_peers, dom_delete_L, Hb.
Qed.
Lemma wf_asked id fd s : wf s -> wf (asked id fd s).
Proof.
  intros [Hp Hb]. split; [|done]. intros fd' id' Hl. destruct (Hp fd' id' Hl) as (p & E & Ef). cbn.
  destruct (decide (id' = id)) as [->|]; [rewrite lookup_alter_eq, E; by eexists|].
  rewrite lookup_alter_ne by done. by exists p.
Qed.

(** ** All of them *)

(** What one look makes of a peer, if it is among those that are closed. *)
Definition outcome_of (s s' : TransportImpl) (fd : Fd) (id : nat) (p : Peer) (close : bool) : Prop :=
  if close then
    if isIdle_ p
    then peer_at s' !! fd = None /\ (fd ∉ peers_ (base s')) /\ toWrite (base s') !! fd = None /\ peers s' !! id = Some (no_fd p)
    else peer_at s' !! fd = Some id /\ toWrite (base s') !! fd = toWrite (base s) !! fd
         /\ peers s' !! id = Some (set_idle true p)
         /\ exists promise, closing s' !! promise = Some id /\ timeout_entry promise fd ∈ writesQueue (base s')
  else peer_at s' !! fd = Some id /\ toWrite (base s') !! fd = toWrite (base s) !! fd /\ peers s' !! id = Some p.

(** Nothing that was asked for is forgotten. *)
Definition extends (s s' : TransportImpl) : Prop :=
  (exists es, writesQueue (base s') = writesQueue (base s) ++ es)
  /\ (forall k, (k < promises s)%nat -> closing s' !! k = closing s !! k) /\ (promises s <= promises s')%nat.

Lemma extends_trans s1 s2 s3 : extends s1 s2 -> extends s2 s3 -> extends s1 s3.
Proof.
  intros ([e1 E1] & C1 & P1) ([e2 E2] & C2 & P2). split; [|split].
  - exists (e1 ++ e2). by rewrite E2, E1, app_assoc.
  - intros k Hk. rewrite C2 by lia. by apply C1.
  - lia.
Qed.

(** One closing, seen by the peer itself and by another. *)
Lemma closed_self id fd p s s' :
  wf s -> peer_at s !! fd = Some id -> peers s !! id = Some p -> closePeer id s = (s', Ok tt) ->
  wf s' /\ extends s s' /\ outcome_of s s' fd id p true
  /\ (isIdle_ p = false -> exists promise, (promise < promises s')%nat /\ closing s' !! promise = Some id
      /\ timeout_entry promise fd ∈ writesQueue (base s')).
Proof.
  intros Hw Hat E. destruct (wf_peers s Hw fd id Hat) as (p' & E' & Ef). rewrite E in E'. injection E' as <-.
  rewrite (closePeer_eval id fd p s E Ef). unfold outcome_of. destruct (isIdle_ p) eqn:Ei; intros [= <-].
  - split; [by apply wf_removed|]. split; [|split; [|done]].
    + split; [by exists []; rewrite app_nil_r|]. by split.
    + cbn [removed base peer_at peers]. rewrite removePeer_toWrite, removePeer_peers, !lookup_delete_eq, lookup_alter_eq, E.
      split; [done|]. split; [set_solver|]. done.
  - assert (exists promise, (promise < promises (asked id fd s))%nat /\ closing (asked id fd s) !! promise = Some id
      /\ timeout_entry promise fd ∈ writesQueue (base (asked id fd s))) as Hx.
    { exists (promises s). split; [cbn; lia|]. split; [apply lookup_insert_eq|]. cbn. set_solver. }
    split; [by apply wf_asked|]. split; [|split; [|done]].
    + split; [by eexists|]. split; [|cbn; lia]. intros k Hk. cbn. by rewrite lookup_insert_ne by lia.
    + split; [done|]. split; [done|]. split; [cbn; by rewrite lookup_alter_eq, E|].
      destruct Hx as (k & _ & Hc & Hq). by exists k.
Qed.

Lemma closed_other id fd p s s' fd' id' p' :
  wf s -> peer_at s !! fd = Some id -> peers s !! id = Some p -> closePeer id s = (s', Ok tt) ->
  peer_at s !! fd' = Some id' -> peers s !! id' = Some p' -> fd' <> fd ->
  outcome_of s s' fd' id' p' false.
Proof.
  intros Hw Hat E. destruct (wf_peers s Hw fd id Hat) as (q & E' & Ef). rewrite E in E'. injection E' as <-.
  rewrite (closePeer_eval id fd p s E Ef). intros Hs' Hat' Ep' Hne.
  assert (id' <> id) as Hid.
  { intros ->. destruct (wf_peers s Hw fd' id Hat') as (q & Eq & Efq). congruence. }
  unfold outcome_of. destruct (isIdle_ p); injection Hs' as <-; cbn [removed asked base peer_at peers].
  - by rewrite removePeer_toWrite, !lookup_delete_ne, lookup_alter_ne by done.
  - by rewrite lookup_alter_ne.
Qed.

(** What is not a peer any more. *)
Definition gone_stays (s s' : TransportImpl) : Prop :=
  (forall fd, peer_at s !! fd = None -> peer_at s' !! fd = None /\ toWrite (base s') !! fd = toWrite (base s) !! fd)
  /\ (forall id, (forall fd, peer_at s !! fd <> Some id) ->
        peers s' !! id = peers s !! id /\ forall fd, peer_at s' !! fd <> Some id).

Lemma gone_refl s : gone_stays s s.
Proof. by split. Qed.
Lemma gone_trans s1 s2 s3 : gone_stays s1 s2 -> gone_stays s2 s3 -> gone_stays s1 s3.
Proof.
  intros [F1 I1] [F2 I2]. split.
  - intros fd Hfd. destruct (F1 fd Hfd) as [E1 W1]. destruct (F2 fd E1) as [E2 W2]. by rewrite W2.
  - intros id Hid. destruct (I1 id Hid) as [E1 N1]. destruct (I2 id N1) as [E2 N2]. by rewrite E2.
Qed.

Lemma closed_gone id fd p s s' :
  wf s -> peer_at s !! fd = Some id -> peers s !! id = Some p -> closePeer id s = (s', Ok tt) -> gone_stays s s'.
Proof.
  intros Hw Hat E. destruct (wf_peers s Hw fd id Hat) as (q & E' & Ef). rewrite E in E'. injection E' as <-.
  rewrite (closePeer_eval id fd p s E Ef). intros Hs'. split.
  - intros fd' Hn. assert (fd' <> fd) by congruence. destruct (isIdle_ p); injection Hs' as <-; cbn [removed asked base peer_at]; [|done].
    by rewrite removePeer_toWrite, !lookup_delete_ne by done.
  - intros id' Hn. assert (id' <> id) as Hne by (intros ->; by apply (Hn fd)).
    destruct (isIdle_ p); injection Hs' as <-; cbn [removed asked peer_at peers]; (rewrite lookup_alter_ne by done); (split; [done|]); [|done].
    intros fd'. rewrite lookup_delete. by case_decide.
Qed.

(** Once closed, nothing later in the same look changes it. *)
Lemma outcome_kept s s1 s' fd id p :
  wf s' -> outcome_of s s1 fd id p true -> gone_stays s1 s' -> extends s1 s' ->
  (isIdle_ p = true -> forall fd, peer_at s1 !! fd <> Some id) ->
  (isIdle_ p = false -> outcome_of s1 s' fd id (set_idle true p) false) ->
  (isIdle_ p = false -> exists promise, (promise < promises s1)%nat /\ closing s1 !! promise = Some id
      /\ timeout_entry promise fd ∈ writesQueue (base s1)) ->
  outcome_of s s' fd id p true.
Proof.
  intros Hw Ho [Gf Gi] ([es Ee] & Ec & _) Hid Hb Hq. unfold outcome_of in *. destruct (isIdle_ p) eqn:Ei.
  - destruct Ho as (H1' & H2' & H3' & H4'). destruct (Gf fd H1') as [E1 E2]. destruct (Gi id (Hid eq_refl)) as [E3 _].
    split; [done|]. split; [rewrite (wf_base s' Hw); by apply not_elem_of_dom|]. split; [congruence|]. congruence.
  - destruct Ho as (_ & H2' & _ & _). destruct (Hb eq_refl) as (E1 & E2 & E3). split; [done|]. split; [congruence|].
    split; [done|]. destruct (Hq eq_refl) as (k & Hk & Hc & Hin). exists k. rewrite Ec, Ee by done. split; [done|]. set_solver.
Qed.

Lemma closePeers_outcomes l s :
  wf s -> NoDup l.*1 -> (forall fd id, (fd, id) ∈ l -> peer_at s !! fd = Some id) ->
  exists s', closePeers l.*2 s = (s', Ok tt) /\ wf s' /\ extends s s' /\ gone_stays s s'
  /\ forall fd id p, peer_at s !! fd = Some id -> peers s !! id = Some p ->
       outcome_of s s' fd id p (bool_decide ((fd, id) ∈ l)).
Proof.
  revert s. induction l as [|[fd0 id0] l IH]; intros s Hw Hd Hin.
  - exists s. split; [done|]. split; [done|]. split; [split; [by exists []; rewrite app_nil_r|by split]|].
    split; [apply gone_refl|]. intros fd id p Hat Ep. by rewrite bool_decide_eq_false_2 by set_solver.
  - cbn in Hd. apply list.NoDup_cons in Hd as [Hni Hd].
    assert (peer_at s !! fd0 = Some id0) as Hat0 by (apply Hin; set_solver).
    destruct (wf_peers s Hw fd0 id0 Hat0) as (p0 & Ep0 & Ef0).
    destruct (closePeer id0 s) as [s1 r] eqn:Ec. pose proof (closePeer_eval id0 fd0 p0 s Ep0 Ef0) as Ev.
    assert (r = Ok tt) as -> by (rewrite Ec in Ev; by injection Ev).
    destruct (closed_self id0 fd0 p0 s s1 Hw Hat0 Ep0 Ec) as (Hw1 & Hx1 & Ho & Hq).
    pose proof (closed_gone id0 fd0 p0 s s1 Hw Hat0 Ep0 Ec) as Hg1.
    assert (forall fd id, (fd, id) ∈ l -> fd <> fd0) as Hne.
    { intros fd id Hl ->. apply Hni. apply list_elem_of_fmap. by exists (fd0, id). }
    destruct (IH s1 Hw1 Hd) as (s' & E' & Hw' & Hx' & Hg' & Hall).
    { intros fd id Hl. pose proof (Hin fd id ltac:(set_solver)) as Hat. destruct (wf_peers s Hw fd id Hat) as (p & Ep & _).
      by destruct (closed_other id0 fd0 p0 s s1 fd id p Hw Hat0 Ep0 Ec Hat Ep (Hne fd id Hl)) as [? _]. }
    exists s'. split; [cbn; unfold mbind, M_bind; by rewrite Ec|]. split; [done|]. split; [by eapply extends_trans|].
    split; [by eapply gone_trans|]. intros fd id p Hat Ep. destruct (decide (fd = fd0)) as [->|Hf].
    + assert (id = id0) as -> by congruence. assert (p = p0) as -> by congruence.
      rewrite bool_decide_eq_true_2 by set_solver. apply (outcome_kept s s1); try done.
      * intros Hi fd Hat'. destruct (wf_peers s1 Hw1 fd id0 Hat') as (q & Eq & Eqf).
        unfold outcome_of in Ho. rewrite Hi in Ho. destruct Ho as (_ & _ & _ & Hno). rewrite Eq in Hno. by injection Hno as ->.
      * intros Hi. unfold outcome_of in Ho. rewrite Hi in Ho. destruct Ho as (H1' & _ & H3' & _).
        pose proof (Hall fd0 id0 _ H1' H3') as Hn. by rewrite bool_decide_eq_false_2 in Hn by (intros Hl; by apply (Hne fd0 id0 Hl)).
    + destruct (closed_other id0 fd0 p0 s s1 fd id p Hw Hat0 Ep0 Ec Hat Ep Hf) as (H1' & H2' & H3').
      pose proof (Hall fd id p H1' H3') as Hn. assert ((fd, id) ∈ (fd0, id0) :: l <-> (fd, id) ∈ l) as Hiff by set_solver.
      rewrite (bool_decide_ext _ _ Hiff). revert Hn. unfold outcome_of. by rewrite H2'.
Qed.

(** ** A look at the peers *)

Definition is_timed_out (now : nat -> Z) (s : TransportImpl) (x : Fd * nat) : bool :=
  match peers s !! x.2 with Some p => timed_out now x.2 p | None => false end.

Lemma idlePeers_filter now s l :
  (forall fd id, (fd, id) ∈ l -> is_Some (peers s !! id)) ->
  idlePeers timeouts now s l = Ok (filter (fun x => is_timed_out now s x = true) l).*2.
Proof.
  induction l as [|[fd id] l IH]; intros Hin; [done|]. cbn [idlePeers].
  destruct (Hin fd id ltac:(set_solver)) as [p Ep]. rewrite Ep, IH by (intros fd0 id0 ?; apply (Hin fd0 id0); set_solver).
  rewrite filter_cons. assert (is_timed_out now s (fd, id) = timed_out now id p) as -> by (unfold is_timed_out; cbn; by rewrite Ep).
  by destruct (timed_out now id p).
Qed.

Lemma NoDup_filter_fst {A B} (P : A * B -> Prop) `{forall x, Decision (P x)} (l : list (A * B)) :
  NoDup l.*1 -> NoDup (filter P l).*1.
Proof.
  induction l as [|x l IH]; [done|]. rewrite fmap_cons. intros [Hx Hl]%list.NoDup_cons. rewrite filter_cons. case_decide; [|by apply IH].
  rewrite fmap_cons. apply list.NoDup_cons. split; [|by apply IH]. intros (y & E & Hy)%list_elem_of_fmap. apply Hx, list_elem_of_fmap.
  exists y. split; [done|]. by apply list_elem_of_filter in Hy as [_ ?].
Qed.

Lemma checkIdlePeers_outcomes now s :
  wf s ->
  exists s', checkIdlePeers timeouts handler now s = (s', Ok tt) /\ wf s' /\ extends s s'
  /\ forall fd id p, peer_at s !! fd = Some id -> peers s !! id = Some p ->
       outcome_of s s' fd id p (timed_out now id p).
Proof.
  intros Hw. pose proof (peer_order_ok (peer_at s)) as Hp. set (l := peer_order (peer_at s)) in *.
  assert (forall fd id, (fd, id) ∈ l <-> peer_at s !! fd = Some id) as Hl.
  { intros fd id. by rewrite Hp, elem_of_map_to_list. }
  destruct (closePeers_outcomes (filter (fun x => is_timed_out now s x = true) l) s Hw) as (s' & E & Hw' & Hx & _ & Ho).
  { apply NoDup_filter_fst. rewrite Hp. apply NoDup_fst_map_to_list. }
  { intros fd id [_ Hin]%list_elem_of_filter. by apply Hl. }
  exists s'. split; [|split; [done|split; [done|]]].
  - unfold checkIdlePeers, mbind at 1, M_bind at 1, get. fold l. unfold mbind, M_bind, lift.
    rewrite idlePeers_filter; [done|]. intros fd id Hin. destruct (wf_peers s Hw fd id (proj1 (Hl fd id) Hin)) as (p & Ep & _).
    by eexists.
  - intros fd id p Hat Ep. specialize (Ho fd id p Hat Ep).
    assert (bool_decide ((fd, id) ∈ filter (fun x => is_timed_out now s x = true) l) = timed_out now id p) as <-; [|done].
    apply eq_true_iff_eq. rewrite bool_decide_eq_true, list_elem_of_filter, Hl. unfold is_timed_out. cbn [snd].
    rewrite Ep. naive_solver.
Qed.

(** C10. A look at the peers decides each of them by itself, in whatever order the map is
    gone through.  One that is not past its time is left as it was, with what waits to be
    written to it.  One that is idle is removed and closed.  One that is busy is marked
    idle and a 408 response is queued for it, in a promise whose continuation closes it;
    and nothing that was queued before is lost. *)
Theorem timeouts_enforced now s :
  wf s ->
  exists s', checkIdlePeers timeouts handler now s = (s', Ok tt) /\ wf s' /\ extends s s'
  /\ forall fd id p, peer_at s !! fd = Some id -> peers s !! id = Some p ->
       outcome_of s s' fd id p (timed_out now id p).
Proof. apply checkIdlePeers_outcomes. Qed.

(** C25. A busy peer that is closed, with nothing else to be written and a socket that takes
    what it is given, receives exactly the 408 response; when the response's promise is
    resolved, the peer is removed and its descriptor closed. *)
Theorem timeout_answered `{Kernel} id fd p fuel s :
  wf s -> peer_at s !! fd = Some id -> peers s !! id = Some p -> isIdle_ p = false ->
  writesQueue (base s) = [] -> toWrite (base s) !! fd = Some [] ->
  kernel_send (calls (base s)) fd (length timeout_text) = Sent (length timeout_text) ->
  exists s',
    (_ ← closePeer id; _ ← on_base (handleWriteQueue false (S fuel)); _ ← on_base (onWritable (S fuel) fd);
     response_settled (promises s)) s = (s', Ok tt)
    /\ wire fd (events (base s')) = wire fd (events (base s)) ++ timeout_text
    /\ resolved fd (events (base s')) = resolved fd (events (base s)) ++ [promises s]
    /\ list.last (events (base s')) = Some (CloseFd fd)
    /\ peer_at s' !! fd = None /\ (fd ∉ peers_ (base s')).
Proof.
  intros Hw Hat Ep Hi Eq Et Hk. destruct (wf_peers s Hw fd id Hat) as (p' & E' & Ef). rewrite Ep in E'. injection E' as <-.
  pose proof (closePeer_eval id fd p s Ep Ef) as E1. rewrite Hi in E1. rewrite (bind_Ok _ _ _ _ _ E1).
  set (t1 := add_event (ModifyFd fd true) (set_toWrite <[fd := [timeout_entry (promises s) fd]]> (base s))).
  set (s1 := {| base := t1; peer_at := peer_at s; peers := alter (set_idle true) id (peers s);
                closing := <[promises s := id]> (closing s); promises := S (promises s) |}).
  assert (on_base (handleWriteQueue false (S fuel)) (asked id fd s) = (s1, Ok tt)) as E2.
  { unfold on_base. cbn [base asked]. rewrite Eq. cbn [app]. unfold handleWriteQueue, mbind, M_bind, get.
    cbn [writesQueue set_writesQueue handleWrites]. unfold mbind, M_bind. cbn [modify handleWrite timeout_entry peerFd].
    unfold isPeerFd, mbind, M_bind, get. cbn [peers_ set_writesQueue]. rewrite (wf_base s Hw).
    rewrite bool_decide_eq_true_2 by (apply elem_of_dom; by eexists). cbn [negb mret M_ret modify emit].
    unfold s1, t1. do 3 f_equal. unfold set_toWrite. cbn [toWrite set_writesQueue writesQueue]. by rewrite Et, Eq. }
  rewrite (bind_Ok _ _ _ _ _ E2).
  set (t2 := add_event (ResolveWrite fd (promises s) (length timeout_text)) (add_event (ModifyFd fd false)
    (set_toWrite (delete fd) (add_event (Wrote fd timeout_text) (set_calls (S (calls (base s))) (add_event (ModifyFd fd false) t1)))))).
  set (s2 := {| base := t2; peer_at := peer_at s1; peers := peers s1; closing := closing s1; promises := promises s1 |}).
  assert (on_base (onWritable (S fuel) fd) s1 = (s2, Ok tt)) as E3.
  { unfold on_base. cbn [base s1]. unfold onWritable. rewrite (bind_Ok (emit _) _ _ _ _ eq_refl).
    rewrite (write_last fuel fd (promises s) timeout_text); [done| |exact Hk].
    cbn. by rewrite lookup_insert_eq. }
  rewrite (bind_Ok _ _ _ _ _ E3).
  assert (response_settled (promises s) s2 = (removed id fd s2, Ok tt)) as E4.
  { unfold response_settled, mbind, M_bind, get. cbn [closing s2 s1]. rewrite lookup_insert_eq.
    apply (removePeer_eval id fd (set_idle true p)); [|done]. cbn. by rewrite lookup_alter_eq, Ep. }
  rewrite E4. eexists. split; [reflexivity|]. cbn [removed base peer_at s2].
  assert (events (Transport.removePeer (Some fd) t2).1
          = events (base s) ++ [ModifyFd fd true; ModifyFd fd false; Wrote fd timeout_text; ModifyFd fd false;
                                ResolveWrite fd (promises s) (length timeout_text); RemoveFd fd; CloseFd fd]) as ->.
  { rewrite removePeer_events. unfold t2, t1. cbn [events add_event set_toWrite set_calls]. by rewrite <- !app_assoc. }
  rewrite wire_app, resolved_app, last_app. split; [|split; [|split; [done|]]].
  - f_equal. unfold wire. cbn -[timeout_text]. rewrite !decide_True by done. cbn -[timeout_text]. by rewrite app_nil_r.
  - f_equal. unfold resolved. cbn -[timeout_text]. by rewrite !decide_True by done.
  - rewrite removePeer_peers, lookup_delete_eq. split; [done|]. set_solver.
Qed.

(** ** What counts as idle *)

Context (onRequest : Request -> ResponseWriter -> application_end) (address : Address).

Abbreviation receive := (Endpoint.receive handler onRequest address).
Abbreviation receive_all := (Endpoint.receive_all handler onRequest address).

Lemma receive_waiting now data p p' b :
  receive now data p = Ok (p', [], b) -> isIdle_ p' = isIdle_ p /\ time_ p' = time_ p /\ peer_fd p' = peer_fd p.
Proof.
  unfold Endpoint.receive. destruct (onInput _ _ _ _ _ _) as [q [[events|events]|e| |]]; try done; by intros [= <- ->].
Qed.

Lemma receive_all_waiting inputs p p' b :
  receive_all inputs p = Ok (p', [], b) -> isIdle_ p' = isIdle_ p /\ time_ p' = time_ p /\ peer_fd p' = peer_fd p.
Proof.
  revert p. induction inputs as [|[now data] inputs IH]; intros p; cbn [Endpoint.receive_all]; [by intros [= ->]|].
  destruct (receive now data p) as [[[q events] [|]]|e| |] eqn:E; try done; cbn.
  { intros [= -> ->]. by eapply receive_waiting. }
  destruct (receive_all inputs q) as [[[q' events'] b']|e| |] eqn:E'; try done. cbn.
  intros [= -> Ha ->]. apply app_eq_nil in Ha as [-> ->]. apply receive_waiting in E as (<- & <- & <-). by eapply IH.
Qed.

(** A request that was dispatched and not failed. *)
Lemma receive_served now data p p' request response :
  0 <= maxResponseSize_ handler -> receive now data p = Ok (p', [SetIdle false; OnRequest request response], false) ->
  currentStep (parser p') = 0%nat /\ time_ p' = now /\ isIdle_ p' = false.
Proof.
  intros Hm. unfold Endpoint.receive.
  pose proof (onInput_contained onRequest handler (Z.of_nat (default 0%nat (peer_fd p))) address data (parser p) Hm) as Hc.
  destruct (onInput _ _ _ _ _ _) as [q [[events'|events']|x| |]]; try done. intros [= <- ->].
  inversion Hc as [| | |q' p'' _ _ _ Hf| |]; subst. split; [apply (fresh_step _ _ Hf)|done].
Qed.

(** A connection is busy, to the timer, from the moment a request is complete until the
    application answers it, and idle from then on.  While the application works on a
    request, the header and body times apply to it, counted from the request.  Once one
    answer was sent, whatever part of the next request arrives, neither of them applies:
    only the keep-alive time does, and the connection is closed without a response. *)
Theorem idle_is_not_reading now clock id inputs p p' events :
  0 <= maxResponseSize_ handler ->
  let elapsed := milliseconds (clock id - time_ p') in
  (forall data request response,
     receive now data p = Ok (p', [SetIdle false; OnRequest request response], false) ->
     timed_out clock id p' = (headerTimeout_ timeouts <? milliseconds (clock id - now))
                             || (bodyTimeout_ timeouts <? milliseconds (clock id - now)))
  /\ (receive_all inputs (respond p) = Ok (p', events, false) -> events = [] ->
      time_ p' = time_ p /\ timed_out clock id p' = (keepaliveTimeout_ timeouts <? elapsed)
      /\ forall fd s, peer_fd p = Some fd -> peers s !! id = Some p' ->
           exists s', closePeer id s = (s', Ok tt) /\ writesQueue (base s') = writesQueue (base s)
           /\ list.last (Transport.events (base s')) = Some (CloseFd fd)).
Proof.
  intros Hm elapsed. split.
  - intros data request response E. apply receive_served in E as (Hs & Ht & Hi); [|done].
    unfold Endpoint.timed_out, checkTimeout. by rewrite Hi, Hs, Ht.
  - intros E ->. apply receive_all_waiting in E as (Hi & Ht & Hf). cbn in Hi, Ht, Hf. split; [done|]. split.
    + unfold Endpoint.timed_out, checkTimeout. by rewrite Hi.
    + intros fd s Efd Ep. exists (removed id fd s). split.
      * rewrite (closePeer_eval id fd p' s Ep) by congruence. by rewrite Hi.
      * split; [done|]. cbn [removed base]. rewrite removePeer_events. by rewrite last_snoc.
Qed.
End Timeouts.

(** ** Witnesses *)

#[local] Instance ascending : PeerOrder := {| peer_order := map_to_list; peer_order_ok m := reflexivity _ |}.

Definition short : Timeouts := {| headerTimeout_ := 60000; bodyTimeout_ := 60000; keepaliveTimeout_ := 300000 |}.

(** One busy connection, at descriptor 5, opened at time 0. *)
Definition one_peer : TransportImpl :=
  {| base := connected []; peer_at := {[ 5%nat := 0%nat ]}; peers := {[ 0%nat := connect Handler_new 5 0 ]}; closing := ∅;
     promises := 0 |}.

Lemma one_peer_wf : wf one_peer.
Proof.
  split.
  - cbn. intros fd id [<- <-]%lookup_singleton_Some. eexists. by rewrite lookup_singleton_eq.
  - cbn. by rewrite dom_singleton_L.
Qed.

Definition plain_check : (nat -> Z) -> M TransportImpl unit :=
  checkIdlePeers (H := no_dates) (H2 := plain_order) (H3 := plain_build) (H4 := no_compression) short Handler_new.
Definition plain_close : nat -> M TransportImpl unit :=
  Endpoint.closePeer (H := no_dates) (H2 := plain_order) (H3 := plain_build) (H4 := no_compression) Handler_new.
Definition plain_receive_all : list (Z * bytes) -> Peer -> result (Peer * list HttpHandler.event * bool) :=
  Endpoint.receive_all (H := no_dates) (H0 := no_resolver) (H1 := terabyte) (H2 := plain_order) (H3 := plain_build)
    (H4 := no_compression) Handler_new silent Address_default.

Lemma timeouts_enforced_witness :
  exists s', plain_check (fun _ => 61 * 10 ^ 9) one_peer = (s', Ok tt)
  /\ peer_at s' !! 5%nat = Some 0%nat
  /\ exists promise, timeout_entry promise 5 ∈ writesQueue (base s').
Proof.
  destruct (timeouts_enforced (H := no_dates) (H2 := plain_order) (H3 := plain_build) (H4 := no_compression) short Handler_new
              ltac:(vm_compute; discriminate) (fun _ => 61 * 10 ^ 9) one_peer one_peer_wf) as (s' & E & _ & _ & Ho).
  exists s'. split; [exact E|].
  specialize (Ho 5%nat 0%nat (connect Handler_new 5 0) (lookup_singleton_eq _ _) (lookup_singleton_eq _ _)).
  change (timed_out short (fun _ => 61 * 10 ^ 9) 0 (connect Handler_new 5 0)) with true in Ho.
  destruct Ho as (Hat & _ & _ & k & _ & Hin). split; [exact Hat|]. by exists k.
Defined.

Lemma timeout_answered_witness :
  let K := greedy_kernel in
  exists s',
    (_ ← plain_close 0; _ ← on_base (handleWriteQueue false 2); _ ← on_base (onWritable 2 5); response_settled 0) one_peer
    = (s', Ok tt)
    /\ wire 5 (events (base s')) = B "HTTP/1.1 408 Request Timeout" ++ crlf ++ B "Content-Length: 0" ++ crlf ++ crlf
    /\ peer_at s' !! 5%nat = None.
Proof.
  intros K. destruct (timeout_answered (H := no_dates) (H2 := plain_order) (H3 := plain_build) (H4 := no_compression) Handler_new
    ltac:(vm_compute; discriminate) 0 5 (connect Handler_new 5 0) 1 one_peer one_peer_wf) as (s' & E & Hw & _ & _ & Hn & _);
    try reflexivity.
  exists s'. split; [exact E|]. split; [|exact Hn]. rewrite Hw. reflexivity.
Defined.

(** An answered connection that has sent the beginning of its second request. *)
Definition slow_inputs : list (Z * bytes) := [(10 ^ 9, B "POST /slow HTTP/1.1"); (100 * 10 ^ 9, crlf ++ B "Content-Le")].
Definition answered_peer : Peer := connect Handler_new 5 0.

Definition waits (r : result (Peer * list HttpHandler.event * bool)) : bool := match r with Ok (_, [], false) => true | _ => false end.
Lemma waits_ok r : waits r = true -> exists p, r = Ok (p, [], false).
Proof. destruct r as [[[p [|e l]] [|]]| | |]; try done. by exists p. Qed.

Lemma idle_is_not_reading_witness :
  exists p', plain_receive_all slow_inputs (respond answered_peer) = Ok (p', [], false)
  /\ timed_out short (fun _ => 200 * 10 ^ 9) 0 p' = false.
Proof.
  destruct (waits_ok (plain_receive_all slow_inputs (respond answered_peer)) ltac:(vm_compute; reflexivity)) as [p' E].
  exists p'. split; [exact E|]. unfold plain_receive_all in E.
  destruct (idle_is_not_reading (H := no_dates) (H0 := no_resolver) (H1 := terabyte) (H2 := plain_order) (H3 := plain_build)
    (H4 := no_compression) short Handler_new ltac:(vm_compute; discriminate) silent Address_default 0
    (fun _ => 200 * 10 ^ 9) 0 slow_inputs answered_peer p' [] ltac:(vm_compute; discriminate)) as [_ Hi].
  destruct (Hi E eq_refl) as (Ht & Hk & _). rewrite Hk, Ht. vm_compute. reflexivity.
Defined.
