(* ===== verification/Timeout.v ===== *)
(** * Response timeouts: [Http::Timeout] of [http.h] and [http.cc]

    A response writer carries a [Timeout]: armed, it has the transport wait on a timer's
    descriptor, and what it does when the timer expires is a closure that holds the
    address of the object ([this]).  So the objects are a store, and a closure is the name of the
    promise it waits for with the address it captured.  The transport's own operations
    are those of [Transport]; each step below is one call by the application, or what
    the worker does for one event.  The handler's [onTimeout] is the application's: what
    it is called with is recorded, and what it does is steps of its own.  The timers are
    those of the Linux build without libevent.  The theorems are in [TimeoutUse]. *)

From S2P Require Import Prelude HttpDefs Stream Transport.

Local Open Scope Z_scope.

(** ** Objects *)

(** The address of a [Timeout]. *)
Abbreviation Id := nat.

(** [transport] says that the pointer is not null; a [version] the constructor leaves out is
    [None]; [peer] is the descriptor of the peer a [weak_ptr] points to.  The [handler], which is the
    server's, is left out. *)
Record Timeout : Set := {
  transport : bool; version : option Version; armed : bool; timerFd : option Fd; peer : option Fd }.

Definition set_armed (b : bool) (o : Timeout) : Timeout :=
  {| transport := transport o; version := version o; armed := b; timerFd := timerFd o; peer := peer o |}.
Definition set_timerFd (fd : option Fd) (o : Timeout) : Timeout :=
  {| transport := transport o; version := version o; armed := armed o; timerFd := fd; peer := peer o |}.
Definition set_peer (p : option Fd) (o : Timeout) : Timeout :=
  {| transport := transport o; version := version o; armed := armed o; timerFd := timerFd o; peer := p |}.

(** [handler->onTimeout(request, ...)]: for which peer, and with which version. *)
Record answer : Set := { answer_peer : Fd; answer_version : option Version }.

(** The transport, the objects, the promises' closures ([then]) with the [this] each captured,
    the descriptors that are open, the peers there are, and what was answered. *)
Record World : Type := {
  tr : Transport; objects : gmap Id Timeout; closures : gmap nat Id; promises : nat;
  open_fds : gset Fd; live_peers : gset Fd; answers : list answer }.

Definition World_new (live : gset Fd) : World :=
  {| tr := Transport_new; objects := ∅; closures := ∅; promises := 0; open_fds := ∅; live_peers := live; answers := [] |}.

Definition set_tr (t : Transport) (w : World) : World :=
  {| tr := t; objects := objects w; closures := closures w; promises := promises w; open_fds := open_fds w;
     live_peers := live_peers w; answers := answers w |}.
Definition set_objects (f : gmap Id Timeout -> gmap Id Timeout) (w : World) : World :=
  {| tr := tr w; objects := f (objects w); closures := closures w; promises := promises w; open_fds := open_fds w;
     live_peers := live_peers w; answers := answers w |}.
Definition add_closure (d : nat) (this : Id) (w : World) : World :=
  {| tr := tr w; objects := objects w; closures := <[d := this]> (closures w); promises := S d; open_fds := open_fds w;
     live_peers := live_peers w; answers := answers w |}.
Definition set_open (f : gset Fd -> gset Fd) (w : World) : World :=
  {| tr := tr w; objects := objects w; closures := closures w; promises := promises w; open_fds := f (open_fds w);
     live_peers := live_peers w; answers := answers w |}.
Definition set_live (f : gset Fd -> gset Fd) (w : World) : World :=
  {| tr := tr w; objects := objects w; closures := closures w; promises := promises w; open_fds := open_fds w;
     live_peers := f (live_peers w); answers := answers w |}.
Definition add_answers (l : list answer) (w : World) : World :=
  {| tr := tr w; objects := objects w; closures := closures w; promises := promises w; open_fds := open_fds w;
     live_peers := live_peers w; answers := answers w ++ l |}.

(** An operation of the transport. *)
Definition zoom {A} (m : M Transport A) : M World A := fun w => let '(t, r) := m (tr w) in (set_tr t w, r).

(** [this->...]: using an object that was destroyed is undefined. *)
Definition obj_at (this : Id) : M World Timeout :=
  w ← get; lift (match objects w !! this with Some o => Ok o | None => UB end).
Definition on_obj (this : Id) (f : Timeout -> Timeout) : M World unit :=
  o ← obj_at this; modify (set_objects <[this := f o]>).

(** ** Expiration *)

(** [weak_ptr::lock]: nothing is answered to a peer that is gone. *)
Definition lock (p : option Fd) (w : World) : option Fd :=
  p ← p; if decide (p ∈ live_peers w) then Some p else None.
Definition timeout_answers (o : Timeout) (w : World) : list answer :=
  match lock (peer o) w with Some p => [{| answer_peer := p; answer_version := version o |}] | None => [] end.
Definition onTimeout (this : Id) : M World unit :=
  o ← obj_at this; w ← get; put (add_answers (timeout_answers o w) w).

(** [CLOSE_FD] of the object's descriptor, which it also empties. *)
Definition close_fd (fd : option Fd) (fds : gset Fd) : gset Fd :=
  match fd with Some n => fds ∖ {[n]} | None => fds end.
Definition close_timerFd (this : Id) : M World unit :=
  o ← obj_at this; _ ← modify (set_open (close_fd (timerFd o))); on_obj this (set_timerFd None).

(** The closure given to [then]. *)
Definition resolved (this : Id) : M World unit :=
  _ ← on_obj this (set_armed false); _ ← onTimeout this; close_timerFd this.

(** What the transport told the promises it knows of: a rejection is thrown again, as an
    exception that the promises do not catch, out of the call that rejects. *)
Fixpoint settle_events (es : list event) : M World unit :=
  match es with
  | [] => mret tt
  | e :: es' =>
      w ← get;
      _ ← match e with
          | ResolveTimer d _ => match closures w !! d with Some this => resolved this | None => mret tt end
          | RejectTimer d what => match closures w !! d with Some _ => throw (RuntimeError what) | None => mret tt end
          | _ => mret tt
          end;
      settle_events es'
  end.
Definition settle (before : nat) : M World unit := w ← get; settle_events (drop before (events (tr w))).

(** ** The class *)

Definition Timeout_new (version : Version) (peer : Fd) : Timeout :=
  {| transport := true; version := Some version; armed := false; timerFd := None; peer := Some peer |}.

(** [Timeout(Timeout&&)] leaves [version] out and [other.armed] as it is. *)
Definition Timeout_moved (other : Timeout) : Timeout :=
  {| transport := transport other; version := None; armed := armed other; timerFd := timerFd other; peer := peer other |}.
Definition moved_from (other : Timeout) : Timeout := set_peer None (set_timerFd None other).
Definition Timeout_move (this other : Id) : M World unit :=
  o ← obj_at other; _ ← modify (set_objects <[this := Timeout_moved o]>); on_obj other moved_from.
(** [operator=(Timeout&&)] copies the members, [version] too. *)
Definition Timeout_move_assign (this other : Id) : M World unit :=
  o ← obj_at other;
  _ ← on_obj this (fun old => set_peer (peer old) o);
  _ ← on_obj other (set_timerFd None);
  o ← obj_at other;
  _ ← on_obj other (set_peer None);
  on_obj this (set_peer (peer o)).
(** [Timeout(const Timeout&)], for [ResponseWriter::clone]. *)
Definition Timeout_copy (this other : Id) : M World unit :=
  o ← obj_at other; modify (set_objects <[this := o]>).

Definition isArmed (this : Id) : M World bool := o ← obj_at this; mret (armed o).

(** The transport has no timer for [PS_FD_EMPTY]. *)
Definition disarmTimer_of (fd : option Fd) : M Transport unit :=
  match fd with Some fd => Transport.disarmTimer fd | None => throw (RuntimeError (B "Timer has not been armed")) end.
Definition disarm (this : Id) : M World unit :=
  o ← obj_at this; if transport o && armed o then zoom (disarmTimer_of (timerFd o)) else mret tt.

(** The destructor. *)
Definition Timeout_destroy (this : Id) : M World unit := _ ← disarm this; modify (set_objects (delete this)).

Section Operations.
Context `{Kernel}.

(** [duration_cast] to milliseconds rounds towards zero. *)
Definition armTimer (isInRightThread : bool) (fd : Fd) (nanoseconds : Z) (deferred : nat) : M Transport unit :=
  armTimerMs isInRightThread fd (Z.quot nanoseconds 1000000) deferred.

(** [timerfd_create] gives a descriptor or fails; [then] is called when the promise
    may already be rejected. *)
Definition arm (isInRightThread : bool) (this : Id) (created : option Fd) (nanoseconds : Z) : M World unit :=
  match created with
  | None => throw (RuntimeError (B "timerfd_create(PST_CLOCK_MONOTONIC, TFD_NONBLOCK)"))
  | Some fd =>
      _ ← modify (set_open ({[fd]} ∪.));
      _ ← on_obj this (set_timerFd (Some fd));
      w ← get;
      let d := promises w in
      _ ← zoom (armTimer isInRightThread fd nanoseconds d);
      _ ← modify (add_closure d this);
      _ ← settle (length (events (tr w)));
      on_obj this (set_armed true)
  end.

(** ** The worker *)

(** [onReady]'s branch for a timer: the entry is erased after its promise was settled. *)
Definition timerReady (fd : Fd) : M World unit :=
  w ← get;
  match timers (tr w) !! fd with
  | Some entry =>
      _ ← zoom (handleTimer entry);
      _ ← settle (length (events (tr w)));
      zoom (modify (set_timers (delete fd)))
  | None => mret tt
  end.

(** [handleTimerQueue]: the timers armed by other threads. *)
Fixpoint armQueued (entries : list TimerEntry) : M World unit :=
  match entries with
  | [] => mret tt
  | e :: entries' =>
      w ← get;
      _ ← zoom (modify (set_timersQueue entries'));
      _ ← zoom (armTimerMsImpl e);
      _ ← settle (length (events (tr w)));
      armQueued entries'
  end.
Definition timersQueued : M World unit := w ← get; armQueued (timersQueue (tr w)).

(** ** Runs *)

Inductive op : Set :=
  | New (this : Id) (v : Version) (p : Fd)
  | Move (this other : Id)
  | MoveAssign (this other : Id)
  | Copy (this other : Id)
  | Arm (isInRightThread : bool) (this : Id) (created : option Fd) (nanoseconds : Z)
  | Disarm (this : Id)
  | Destroy (this : Id)
  | Ready (fd : Fd)
  | Queued
  | Leave (p : Fd).

(** The application sees the exceptions of what it calls; one that leaves a destructor
    or the worker's loop ends the program. *)
Inductive outcome : Set := Done | Raised | Terminated | Undefined.

Definition call_op (o : op) : M World unit :=
  match o with
  | New this v p => modify (set_objects <[this := Timeout_new v p]>)
  | Move this other => Timeout_move this other
  | MoveAssign this other => Timeout_move_assign this other
  | Copy this other => Timeout_copy this other
  | Arm isInRightThread this created ns => arm isInRightThread this created ns
  | Disarm this => disarm this
  | Destroy this => Timeout_destroy this
  | Ready fd => timerReady fd
  | Queued => timersQueued
  | Leave p => modify (set_live (.∖ {[p]}))
  end.
Definition may_throw (o : op) : bool := match o with Destroy _ | Ready _ | Queued => false | _ => true end.
Definition outcome_of (o : op) (r : result unit) : outcome :=
  match r with
  | Ok _ => Done
  | Throw _ => if may_throw o then Raised else Terminated
  | _ => Undefined
  end.
Definition step (o : op) (w : World) : World * outcome :=
  let '(w', r) := call_op o w in (w', outcome_of o r).
Definition goes_on (r : outcome) : bool := match r with Done | Raised => true | _ => false end.

(** What the operations do, up to the end of the program. *)
Fixpoint run (ops : list op) (w : World) : World * list outcome :=
  match ops with
  | [] => (w, [])
  | o :: ops' =>
      let '(w', r) := step o w in
      if goes_on r then let '(w'', rs) := run ops' w' in (w'', r :: rs) else (w', [r])
  end.
End Operations.
