(* ===== verification/TimeoutUse.v ===== *)
(** * What a response timeout does

    A timeout that is armed by its worker, and moved or copied only while it is not armed,
    implements a machine with four phases ([timeout_refines]): what is answered, what is
    thrown and what ends the program is what the machine says.  A timeout that is moved while
    it is armed is never answered, and ends the program ([moved_timeout_ends_program]). *)

From S2P Require HttpResponse.
From S2P Require Import Prelude HttpDefs Stream Transport Timeout.

Local Open Scope Z_scope.

(** ** The machine *)

(** [Waiting]: the timer's descriptor will answer; [Disarmed]: it will expire without an
    answer; [Lapsed]: it has, and the timeout still takes itself for armed. *)
Inductive phase : Set := Idle | Waiting (fd : Fd) | Disarmed (fd : Fd) | Lapsed.
Record spec_obj : Set := { phase_of : phase; spec_version : option Version; spec_peer : option Fd }.

(** The timeouts, the timers left behind, the peers and the answers. *)
Record Spec : Type := {
  spec_objs : gmap Id spec_obj; leftover : gset Fd; spec_live : gset Fd; spec_answers : list answer }.
Definition Spec_new (live : gset Fd) : Spec :=
  {| spec_objs := ∅; leftover := ∅; spec_live := live; spec_answers := [] |}.
Definition with_objs (f : gmap Id spec_obj -> gmap Id spec_obj) (s : Spec) : Spec :=
  {| spec_objs := f (spec_objs s); leftover := leftover s; spec_live := spec_live s; spec_answers := spec_answers s |}.
Definition with_leftover (f : gset Fd -> gset Fd) (s : Spec) : Spec :=
  {| spec_objs := spec_objs s; leftover := f (leftover s); spec_live := spec_live s; spec_answers := spec_answers s |}.
Definition with_live (f : gset Fd -> gset Fd) (s : Spec) : Spec :=
  {| spec_objs := spec_objs s; leftover := leftover s; spec_live := f (spec_live s); spec_answers := spec_answers s |}.
Definition with_answers (l : list answer) (s : Spec) : Spec :=
  {| spec_objs := spec_objs s; leftover := leftover s; spec_live := spec_live s; spec_answers := spec_answers s ++ l |}.

Definition in_phase (p : phase) (a : spec_obj) : spec_obj :=
  {| phase_of := p; spec_version := spec_version a; spec_peer := spec_peer a |}.
Definition without_peer (a : spec_obj) : spec_obj :=
  {| phase_of := phase_of a; spec_version := spec_version a; spec_peer := None |}.
Definition without_version (a : spec_obj) : spec_obj :=
  {| phase_of := phase_of a; spec_version := None; spec_peer := spec_peer a |}.

(** The descriptor whose timer the phase is about. *)
Definition timer_of (p : phase) : option Fd := match p with Waiting fd | Disarmed fd => Some fd | _ => None end.
Definition to_left (p : phase) (s : Spec) : Spec :=
  match timer_of p with Some fd => with_leftover ({[fd]} ∪.) s | None => s end.
(** What is left of a phase when arming failed. *)
Definition refused (p : phase) : phase := match p with Idle => Idle | _ => Lapsed end.
(** One 408 to a peer that is still there. *)
Definition answer_for (a : spec_obj) (live : gset Fd) : list answer :=
  match spec_peer a with
  | Some p => if decide (p ∈ live) then [{| answer_peer := p; answer_version := spec_version a |}] else []
  | None => []
  end.

Section Machine.
Context `{Kernel}.

Inductive spec_step (s : Spec) : op -> outcome -> Spec -> Prop :=
  | S_new i v p : spec_objs s !! i = None ->
      spec_step s (New i v p) Done
        (with_objs <[i := {| phase_of := Idle; spec_version := Some v; spec_peer := Some p |}]> s)
  | S_move i j a : spec_objs s !! i = None -> spec_objs s !! j = Some a -> phase_of a = Idle ->
      spec_step s (Move i j) Done (with_objs (fun m => <[j := without_peer a]> (<[i := without_version a]> m)) s)
  | S_assign i j a b : i <> j -> spec_objs s !! i = Some b -> spec_objs s !! j = Some a ->
      phase_of a = Idle -> phase_of b = Idle ->
      spec_step s (MoveAssign i j) Done (with_objs (fun m => <[j := without_peer a]> (<[i := a]> m)) s)
  | S_copy i j a : spec_objs s !! i = None -> spec_objs s !! j = Some a -> phase_of a = Idle ->
      spec_step s (Copy i j) Done (with_objs <[i := a]> s)
  | S_arm i a fd ns n : spec_objs s !! i = Some a -> (forall fd', phase_of a <> Waiting fd') ->
      kernel_settime n fd = true ->
      spec_step s (Arm true i (Some fd) ns) Done
        (to_left (phase_of a) (with_objs <[i := in_phase (Waiting fd) a]> s))
  | S_refused i a fd ns n : spec_objs s !! i = Some a -> (forall fd', phase_of a <> Waiting fd') ->
      kernel_settime n fd = false ->
      spec_step s (Arm true i (Some fd) ns) Raised
        (to_left (phase_of a) (with_objs <[i := in_phase (refused (phase_of a)) a]> s))
  | S_no_timer i ns : spec_step s (Arm true i None ns) Raised s
  | S_disarm i a fd : spec_objs s !! i = Some a -> timer_of (phase_of a) = Some fd ->
      spec_step s (Disarm i) Done (with_objs <[i := in_phase (Disarmed fd) a]> s)
  | S_disarm_idle i a : spec_objs s !! i = Some a -> phase_of a = Idle -> spec_step s (Disarm i) Done s
  | S_disarm_lapsed i a : spec_objs s !! i = Some a -> phase_of a = Lapsed -> spec_step s (Disarm i) Raised s
  | S_destroy i a : spec_objs s !! i = Some a -> phase_of a <> Lapsed ->
      spec_step s (Destroy i) Done (to_left (phase_of a) (with_objs (delete i) s))
  | S_destroy_lapsed i a : spec_objs s !! i = Some a -> phase_of a = Lapsed -> spec_step s (Destroy i) Terminated s
  | S_answers i a fd n k : spec_objs s !! i = Some a -> phase_of a = Waiting fd -> kernel_timer n fd = Wakeups k ->
      spec_step s (Ready fd) Done
        (with_answers (answer_for a (spec_live s)) (with_objs <[i := in_phase Idle a]> s))
  | S_spurious i a fd n : spec_objs s !! i = Some a -> phase_of a = Waiting fd -> kernel_timer n fd = ReadFailed EAGAIN ->
      spec_step s (Ready fd) Done (with_objs <[i := in_phase Lapsed a]> s)
  | S_unread i a fd n : spec_objs s !! i = Some a -> phase_of a = Waiting fd ->
      (forall k, kernel_timer n fd <> Wakeups k) -> kernel_timer n fd <> ReadFailed EAGAIN ->
      spec_step s (Ready fd) Terminated s
  | S_lapses i a fd : spec_objs s !! i = Some a -> phase_of a = Disarmed fd ->
      spec_step s (Ready fd) Done (with_objs <[i := in_phase Lapsed a]> s)
  | S_left fd : fd ∈ leftover s -> spec_step s (Ready fd) Done (with_leftover (.∖ {[fd]}) s)
  | S_other fd : fd ∉ leftover s -> (forall i a, spec_objs s !! i = Some a -> timer_of (phase_of a) <> Some fd) ->
      spec_step s (Ready fd) Done s
  | S_queued : spec_step s Queued Done s
  | S_leave p : spec_step s (Leave p) Done (with_live (.∖ {[p]}) s).

(** Up to the end of the program. *)
Inductive spec_run : Spec -> list op -> list outcome -> Spec -> Prop :=
  | run_end s : spec_run s [] [] s
  | run_step s o r s' ops rs s'' : spec_step s o r s' -> goes_on r = true -> spec_run s' ops rs s'' ->
      spec_run s (o :: ops) (r :: rs) s''
  | run_stop s o r s' ops : spec_step s o r s' -> goes_on r = false -> spec_run s (o :: ops) [r] s'.

(** ** The use the machine describes *)

(** An active timer would answer for the object. *)
Definition pending (o : Timeout) (t : gmap Fd TimerEntry) : bool :=
  armed o && match timerFd o ≫= (t !!.) with Some e => active e | None => false end.
Definition live_obj (i : Id) (test : Timeout -> bool) (w : World) : bool :=
  match objects w !! i with Some o => test o | None => false end.
Definition free_at (i : Id) (w : World) : bool := bool_decide (objects w !! i = None).
Definition unarmed (o : Timeout) : bool := negb (armed o).

(** Addresses and descriptors that are given out are not in use; objects are used while they live. *)
Definition proper (o : op) (w : World) : bool :=
  match o with
  | New this _ _ => free_at this w
  | Move this other | Copy this other => free_at this w && live_obj other unarmed w
  | MoveAssign this other => bool_decide (this <> other) && live_obj this unarmed w && live_obj other unarmed w
  | Arm isInRightThread this created _ =>
      isInRightThread && live_obj this (fun o => negb (pending o (timers (tr w)))) w
      && match created with Some fd => bool_decide (fd ∉ open_fds w) | None => true end
  | Disarm this | Destroy this => live_obj this (fun _ => true) w
  | Ready _ | Queued | Leave _ => true
  end.
Fixpoint proper_run (ops : list op) (w : World) : bool :=
  match ops with
  | [] => true
  | o :: ops' => proper o w && let '(w', r) := step o w in if goes_on r then proper_run ops' w' else true
  end.

(** ** What each call does *)

Lemma obj_at_eval i o w : objects w !! i = Some o -> obj_at i w = (w, Ok o).
Proof. intros E. unfold obj_at, mbind, M_bind, get. by rewrite E. Qed.

Lemma on_obj_eval i f o w : objects w !! i = Some o -> on_obj i f w = (set_objects <[i := f o]> w, Ok tt).
Proof. intros E. unfold on_obj. by rewrite (bind_Ok _ _ _ _ _ (obj_at_eval i o w E)). Qed.

Lemma set_tr_same w : set_tr (tr w) w = w.
Proof. by destruct w. Qed.

Lemma settle_eval es l w : events (tr w) = es ++ l -> settle (length es) w = settle_events l w.
Proof. intros E. unfold settle, mbind, M_bind, get. by rewrite E, drop_app_length. Qed.

Lemma settle_nothing w : settle (length (events (tr w))) w = (w, Ok tt).
Proof. by rewrite (settle_eval (events (tr w)) []) by by rewrite app_nil_r. Qed.

Lemma disarm_unarmed i o w : objects w !! i = Some o -> armed o = false -> disarm i w = (w, Ok tt).
Proof. intros E Ea. unfold disarm. by rewrite (bind_Ok _ _ _ _ _ (obj_at_eval i o w E)), Ea, andb_false_r. Qed.

Lemma disarm_armed i o fd e w :
  objects w !! i = Some o -> transport o = true -> armed o = true -> timerFd o = Some fd -> timers (tr w) !! fd = Some e ->
  disarm i w = (set_tr (set_timers (alter disable fd) (tr w)) w, Ok tt).
Proof.
  intros E Et Ea Ef Ee. unfold disarm. rewrite (bind_Ok _ _ _ _ _ (obj_at_eval i o w E)), Et, Ea, Ef. simpl.
  unfold zoom, Transport.disarmTimer, isTimerFd, mbind, M_bind, get, mret, M_ret.
  by rewrite bool_decide_eq_true_2 by by rewrite Ee.
Qed.

Lemma disarm_lapsed i o w :
  objects w !! i = Some o -> transport o = true -> armed o = true ->
  (forall fd, timerFd o = Some fd -> timers (tr w) !! fd = None) ->
  disarm i w = (w, Throw (RuntimeError (B "Timer has not been armed"))).
Proof.
  intros E Et Ea Ef. unfold disarm. rewrite (bind_Ok _ _ _ _ _ (obj_at_eval i o w E)), Et, Ea. simpl.
  unfold zoom, disarmTimer_of, Transport.disarmTimer, isTimerFd, mbind, M_bind, get, mret, M_ret, throw.
  destruct (timerFd o) as [fd|]; [|by rewrite set_tr_same].
  rewrite bool_decide_eq_false_2 by (rewrite (Ef fd eq_refl); by intros [? [=]]). by rewrite set_tr_same.
Qed.

(** Arming with a new descriptor. *)
Lemma arm_eval i fd ns o w :
  objects w !! i = Some o -> timers (tr w) !! fd = None ->
  exists n w' r, arm true i (Some fd) ns w = (w', r)
  /\ answers w' = answers w /\ live_peers w' = live_peers w /\ timersQueue (tr w') = timersQueue (tr w)
  /\ open_fds w' = {[fd]} ∪ open_fds w /\ promises w' = S (promises w)
  /\ closures w' = <[promises w := i]> (closures w)
  /\ if kernel_settime n fd then
       r = Ok tt /\ objects w' = <[i := set_armed true (set_timerFd (Some fd) o)]> (objects w)
       /\ timers (tr w') = <[fd := {| timer_fd := fd; timer_value := Z.quot ns 1000000; timer_deferred := promises w;
                                      active := true |}]> (timers (tr w))
     else (exists e, r = Throw e) /\ objects w' = <[i := set_timerFd (Some fd) o]> (objects w)
          /\ timers (tr w') = timers (tr w).
Proof.
  intros E Et. exists (calls (tr w)). unfold arm.
  rewrite (bind_Ok (modify _) _ w (set_open ({[fd]} ∪.) w) tt eq_refl).
  rewrite (bind_Ok _ _ _ _ _ (on_obj_eval i (set_timerFd (Some fd)) o (set_open ({[fd]} ∪.) w) E)).
  unfold zoom, armTimer, armTimerMs, armTimerMsImpl, isTimerFd, call, timer_spec, emit, modify, add_event, mbind, M_bind, get, put,
    mret, M_ret. simpl.
  rewrite bool_decide_eq_false_2 by (rewrite Et; by intros [? [=]]).
  destruct (Z.quot ns 1000000 <? 1000), (kernel_settime (calls (tr w)) fd) eqn:Ek; simpl.
  all: rewrite <- ?(assoc_L (++)); erewrite (settle_eval (events (tr w))) by reflexivity; simpl.
  all: unfold mbind, M_bind, get, mret, M_ret; simpl.
  1,3: erewrite on_obj_eval by apply lookup_insert_eq; eexists _, _; split_and!; try reflexivity;
    simpl; by rewrite insert_insert_eq.
  all: rewrite lookup_insert_eq; eexists _, _; split_and!; try reflexivity; by eexists.
Qed.

Lemma ready_none fd w : timers (tr w) !! fd = None -> timerReady fd w = (w, Ok tt).
Proof. intros E. unfold timerReady, mbind, M_bind, get. by rewrite E. Qed.

Lemma ready_inactive fd e w :
  timers (tr w) !! fd = Some e -> active e = false ->
  timerReady fd w = (set_tr (set_timers (delete fd) (tr w)) w, Ok tt).
Proof.
  intros E Ea. unfold timerReady. rewrite (bind_Ok get _ w w w eq_refl), E.
  assert (zoom (handleTimer e) w = (w, Ok tt)) as Eh.
  { unfold zoom, handleTimer. rewrite Ea. unfold mret, M_ret. by rewrite set_tr_same. }
  rewrite (bind_Ok _ _ _ _ _ Eh). by rewrite (bind_Ok _ _ _ _ _ (settle_nothing w)).
Qed.

(** The closure of a timeout that is there. *)
Lemma resolved_eval i o w :
  objects w !! i = Some o ->
  exists w', resolved i w = (w', Ok tt)
  /\ answers w' = answers w ++ timeout_answers o w /\ live_peers w' = live_peers w /\ tr w' = tr w
  /\ closures w' = closures w /\ promises w' = promises w /\ open_fds w' = close_fd (timerFd o) (open_fds w)
  /\ objects w' = <[i := set_timerFd None (set_armed false o)]> (objects w).
Proof.
  intros E. unfold resolved. rewrite (bind_Ok _ _ _ _ _ (on_obj_eval i (set_armed false) o w E)).
  unfold onTimeout, close_timerFd, on_obj, obj_at, mbind, M_bind, get, put, modify, lift. simpl.
  repeat (rewrite lookup_insert_eq; simpl).
  eexists. split; [reflexivity|]. split_and!; try reflexivity. simpl. by rewrite insert_insert_eq.
Qed.

(** What reading an active timer tells its promise. *)
Definition timer_event (d : nat) (r : timer_read) : option event :=
  match r with
  | Wakeups n => Some (ResolveTimer d n)
  | ShortRead => Some (RejectTimer d (B "Read invalid number of bytes for timer fd: "))
  | ReadFailed EAGAIN => None
  | ReadFailed _ => Some (RejectTimer d (B "Could not read timerfd"))
  end.
Definition add_option (ev : option event) (t : Transport) : Transport :=
  match ev with Some ev => add_event ev t | None => t end.

Lemma zoom_handleTimer e w :
  active e = true ->
  zoom (handleTimer e) w
  = (set_tr (add_option (timer_event (timer_deferred e) (kernel_timer (calls (tr w)) (timer_fd e)))
       (set_calls (S (calls (tr w))) (tr w))) w, Ok tt).
Proof.
  intros Ea. unfold zoom, handleTimer. rewrite Ea. unfold call, emit, modify, mbind, M_bind, get, put, mret, M_ret.
  by destruct (kernel_timer (calls (tr w)) (timer_fd e)) as [k| |[]].
Qed.

Lemma ready_active fd e i o w :
  timers (tr w) !! fd = Some e -> timer_fd e = fd -> active e = true -> closures w !! timer_deferred e = Some i ->
  objects w !! i = Some o ->
  exists n w' r, timerReady fd w = (w', r)
  /\ live_peers w' = live_peers w /\ timersQueue (tr w') = timersQueue (tr w)
  /\ promises w' = promises w /\ closures w' = closures w
  /\ match kernel_timer n fd with
     | Wakeups _ => r = Ok tt /\ answers w' = answers w ++ timeout_answers o w
         /\ objects w' = <[i := set_timerFd None (set_armed false o)]> (objects w)
         /\ timers (tr w') = delete fd (timers (tr w)) /\ open_fds w' = close_fd (timerFd o) (open_fds w)
     | ReadFailed EAGAIN => r = Ok tt /\ answers w' = answers w /\ objects w' = objects w
         /\ timers (tr w') = delete fd (timers (tr w)) /\ open_fds w' = open_fds w
     | _ => answers w' = answers w /\ exists e, r = Throw e
     end.
Proof.
  intros E Ef Ea Ec Eo. exists (calls (tr w)). unfold timerReady. rewrite (bind_Ok get _ w w w eq_refl), E.
  rewrite (bind_Ok _ _ _ _ _ (zoom_handleTimer e w Ea)), Ef.
  set (w1 := set_tr (set_calls (S (calls (tr w))) (tr w)) w).
  assert (forall ev, settle (length (events (tr w))) (set_tr (add_event ev (tr w1)) w)
    = settle_events [ev] (set_tr (add_event ev (tr w1)) w)) as Hs by (intros; by apply settle_eval).
  destruct (kernel_timer (calls (tr w)) fd) as [k| |[]] eqn:Ek; simpl.
  3: { rewrite (bind_Ok _ _ w1 w1 tt (settle_nothing w1)). eexists _, _. split; [reflexivity|]. by split_and!. }
  all: unfold mbind at 1, M_bind at 1; rewrite (Hs _); simpl; unfold mbind, M_bind, get, mret, M_ret, throw; simpl; rewrite Ec.
  1: { lazymatch goal with |- context [resolved i ?v] => destruct (resolved_eval i o v Eo)
      as (w' & -> & ? & ? & Et & ? & ? & ? & ?) end. eexists _, _. split; [reflexivity|]. simpl. rewrite Et. by split_and!. }
  all: eexists _, _; split; [reflexivity|]; split_and!; try reflexivity; by eexists.
Qed.

(** ** The simulation *)

Definition agrees (a : spec_obj) (o : Timeout) : Prop :=
  transport o = true /\ version o = spec_version a /\ peer o = spec_peer a.

(** What a phase says of the object, of the transport's timer and of its closure. *)
Definition phase_ok (p : phase) (i : Id) (o : Timeout) (w : World) : Prop :=
  match p with
  | Idle => armed o = false
  | Waiting fd => armed o = true /\ timerFd o = Some fd
      /\ exists e, timers (tr w) !! fd = Some e /\ active e = true /\ closures w !! timer_deferred e = Some i
  | Disarmed fd => armed o = true /\ timerFd o = Some fd /\ exists e, timers (tr w) !! fd = Some e /\ active e = false
  | Lapsed => armed o = true /\ forall fd, timerFd o = Some fd -> timers (tr w) !! fd = None /\ fd ∈ open_fds w
  end.

Record Rel (s : Spec) (w : World) : Prop := {
  rel_answers : answers w = spec_answers s;
  rel_live : live_peers w = spec_live s;
  rel_queue : timersQueue (tr w) = [];
  rel_dom : forall i, spec_objs s !! i = None <-> objects w !! i = None;
  rel_obj : forall i a o, spec_objs s !! i = Some a -> objects w !! i = Some o ->
    agrees a o /\ phase_ok (phase_of a) i o w;
  rel_timer : forall fd e, timers (tr w) !! fd = Some e ->
    timer_fd e = fd /\ fd ∈ open_fds w /\ (timer_deferred e < promises w)%nat
    /\ (fd ∈ leftover s \/ exists i a, spec_objs s !! i = Some a /\ timer_of (phase_of a) = Some fd);
  rel_left : forall fd, fd ∈ leftover s -> exists e, timers (tr w) !! fd = Some e /\ active e = false;
  rel_own : forall i a fd, spec_objs s !! i = Some a -> timer_of (phase_of a) = Some fd ->
    (fd ∉ leftover s) /\ forall j b, spec_objs s !! j = Some b -> timer_of (phase_of b) = Some fd -> i = j }.

Lemma Rel_new live : Rel (Spec_new live) (World_new live).
Proof. constructor; intros *; simpl; rewrite ?lookup_empty; try done; set_solver. Qed.

Lemma phase_ok_frame p i o w w' :
  phase_ok p i o w ->
  (forall fd, timer_of p = Some fd -> timers (tr w') !! fd = timers (tr w) !! fd) ->
  (forall fd e, timer_of p = Some fd -> timers (tr w) !! fd = Some e ->
    closures w' !! timer_deferred e = closures w !! timer_deferred e) ->
  (forall fd, timers (tr w) !! fd = None -> fd ∈ open_fds w -> timers (tr w') !! fd = None /\ fd ∈ open_fds w') ->
  phase_ok p i o w'.
Proof.
  intros Hp Ht Hc Hl. destruct p as [|fd|fd|]; simpl in *; [done| | |naive_solver].
  - destruct Hp as (? & ? & e & E & ? & ?). rewrite (Ht fd eq_refl), E. split_and!; try done. exists e.
    by rewrite (Hc fd e eq_refl E).
  - by rewrite (Ht fd eq_refl).
Qed.

Lemma Rel_object s w i o : Rel s w -> objects w !! i = Some o ->
  exists a, spec_objs s !! i = Some a /\ agrees a o /\ phase_ok (phase_of a) i o w.
Proof.
  intros HR E. destruct (spec_objs s !! i) as [a|] eqn:Es; [|apply (rel_dom _ _ HR) in Es; congruence].
  exists a. split; [done|]. by apply (rel_obj _ _ HR).
Qed.

(** The phase of a timer that there is. *)
Lemma phase_unarmed s w i o : Rel s w -> objects w !! i = Some o -> armed o = false ->
  exists a, spec_objs s !! i = Some a /\ agrees a o /\ phase_of a = Idle.
Proof.
  intros HR E Ea. destruct (Rel_object _ _ _ _ HR E) as (a & Es & Ha & Hp). exists a. split_and!; [done..|].
  destruct (phase_of a); simpl in Hp; destruct_and?; try done; naive_solver congruence.
Qed.

(** *** Objects without a timer *)

Lemma Rel_idle s w i a o :
  Rel s w -> (forall b, spec_objs s !! i = Some b -> phase_of b = Idle) -> phase_of a = Idle -> agrees a o -> armed o = false ->
  Rel (with_objs <[i := a]> s) (set_objects <[i := o]> w).
Proof.
  intros HR Hb Ha Hag Ho. destruct HR as [? ? ? Hd Hobj Ht Hl Hown].
  assert (forall j b, spec_objs s !! j = Some b -> timer_of (phase_of b) <> None -> i <> j) as Hne.
  { intros j b Ej Eb <-. by rewrite (Hb _ Ej) in Eb. }
  constructor; simpl; try done.
  - intros j. by destruct (decide (i = j)) as [<-|]; simplify_map_eq.
  - intros j b o' Ej Eo. destruct (decide (i = j)) as [<-|]; simplify_map_eq; [|by apply (Hobj j)].
    split; [done|]. by rewrite Ha.
  - intros fd e Ee. destruct (Ht fd e Ee) as (? & ? & ? & [?|(j & b & Ej & Eb)]); split_and!; try done; [by left|right].
    exists j, b. split; [|done]. rewrite lookup_insert_ne; [done|]. apply (Hne _ _ Ej). by rewrite Eb.
  - intros j b fd Ej Eb. destruct (decide (i = j)) as [<-|]; simplify_map_eq; [by rewrite Ha in Eb|].
    destruct (Hown j b fd Ej Eb) as [? Hj]. split; [done|]. intros k c Ek Ec.
    destruct (decide (i = k)) as [<-|]; simplify_map_eq; [by rewrite Ha in Ec|]. by apply (Hj k c).
Qed.

(** *** Disarming and destroying *)

Lemma Rel_disarm s w i a fd :
  Rel s w -> spec_objs s !! i = Some a -> timer_of (phase_of a) = Some fd ->
  Rel (with_objs <[i := in_phase (Disarmed fd) a]> s) (set_tr (set_timers (alter disable fd) (tr w)) w).
Proof.
  intros HR Es Ep. destruct (rel_own _ _ HR i a fd Es Ep) as [Hnl Hi].
  destruct HR as [? ? ? Hd Hobj Ht Hl Hown].
  constructor; simpl; try done.
  - intros j. rewrite <- Hd. destruct (decide (i = j)) as [<-|]; simplify_map_eq; naive_solver.
  - intros j b o Ej Eo. destruct (decide (i = j)) as [<-|]; simplify_map_eq.
    + destruct (Hobj i a o Es Eo) as [Hag Hp]. split; [done|]. simpl.
      assert (armed o = true /\ timerFd o = Some fd /\ exists e, timers (tr w) !! fd = Some e) as (? & ? & e & Ee).
      { destruct (phase_of a); simplify_eq/=; naive_solver. }
      split_and!; [done..|]. exists (disable e). by rewrite Ee.
    + destruct (Hobj j b o Ej Eo) as [Hag Hp]. split; [done|]. apply (phase_ok_frame _ _ _ w); simpl; try done.
      * intros fd' Eb. apply lookup_alter_ne. intros <-. by apply (Hi j b) in Eb.
      * intros fd' E' Ho. split; [|done]. destruct (decide (fd = fd')) as [<-|].
        -- by rewrite lookup_alter_eq, E'.
        -- by rewrite lookup_alter_ne.
  - intros fd' e' E'.
    assert (exists e, timers (tr w) !! fd' = Some e /\ timer_fd e' = timer_fd e /\ timer_deferred e' = timer_deferred e)
      as (e & Ee & -> & ->).
    { destruct (decide (fd = fd')) as [<-|]; [rewrite lookup_alter_eq in E'|rewrite lookup_alter_ne in E' by done; eauto].
      destruct (timers (tr w) !! fd) as [e|]; simplify_eq/=. by exists e. }
    destruct (Ht fd' e Ee) as (? & ? & ? & [?|(j & b & Ej & Eb)]); split_and!; try done; [by left|right].
    destruct (decide (i = j)) as [<-|]; [|exists j, b; by simplify_map_eq].
    exists i, (in_phase (Disarmed fd) a). simplify_map_eq. split; [done|]. simpl. congruence.
  - intros fd' [e [Ee Ea]]%Hl. destruct (decide (fd = fd')) as [<-|].
    + exists (disable e). by rewrite lookup_alter_eq, Ee.
    + exists e. by rewrite lookup_alter_ne.
  - assert (forall j b fd', <[i := in_phase (Disarmed fd) a]> (spec_objs s) !! j = Some b -> timer_of (phase_of b) = Some fd' ->
      exists c, spec_objs s !! j = Some c /\ timer_of (phase_of c) = Some fd') as Hback.
    { intros j b fd' Ej Eb. destruct (decide (i = j)) as [<-|]; simplify_map_eq; eauto. }
    intros j b fd' Ej Eb. destruct (Hback _ _ _ Ej Eb) as (c & Ec & Efc). destruct (Hown j c fd' Ec Efc) as [? Hj].
    split; [done|]. intros k d Ek Ed. destruct (Hback _ _ _ Ek Ed) as (c' & ? & ?). by apply (Hj k c').
Qed.

Lemma Rel_drop s w i a :
  Rel s w -> spec_objs s !! i = Some a -> phase_of a = Idle \/ (exists fd, phase_of a = Disarmed fd) ->
  Rel (to_left (phase_of a) (with_objs (delete i) s)) (set_objects (delete i) w).
Proof.
  intros HR Es Hp.
  assert (forall fd, fd ∈ leftover (to_left (phase_of a) (with_objs (delete i) s)) <->
    fd ∈ leftover s \/ timer_of (phase_of a) = Some fd) as Hleft.
  { intros fd. unfold to_left. destruct (timer_of (phase_of a)) as [fd'|]; simpl; [|naive_solver].
    rewrite elem_of_union, elem_of_singleton. naive_solver. }
  assert (spec_objs (to_left (phase_of a) (with_objs (delete i) s)) = delete i (spec_objs s)) as Eobjs
    by (unfold to_left; by destruct (timer_of (phase_of a))).
  assert (spec_answers (to_left (phase_of a) (with_objs (delete i) s)) = spec_answers s
    /\ spec_live (to_left (phase_of a) (with_objs (delete i) s)) = spec_live s) as [Ea El]
    by (unfold to_left; by destruct (timer_of (phase_of a))).
  pose proof (rel_obj _ _ HR) as Hobj. pose proof (rel_own _ _ HR) as Hown.
  destruct HR as [? ? ? Hd _ Ht Hl _].
  constructor; rewrite ?Eobjs, ?Ea, ?El; simpl; try done.
  - intros j. destruct (decide (i = j)) as [<-|]; by simplify_map_eq.
  - intros j b o [Hij Ej]%lookup_delete_Some [_ Eo]%lookup_delete_Some. by apply (Hobj j).
  - intros fd e E'. destruct (Ht fd e E') as (? & ? & ? & Ho). split_and!; try done. rewrite Hleft.
    destruct Ho as [?|(j & b & Ej & Eb)]; [by left; left|]. destruct (decide (i = j)) as [<-|]; simplify_map_eq; [by left; right|].
    right. exists j, b. by simplify_map_eq.
  - intros fd [?|Et]%Hleft; [by apply Hl|]. destruct (objects w !! i) as [o|] eqn:Eo; [|apply Hd in Eo; congruence].
    destruct (Hobj i a o Es Eo) as [_ Hph]. destruct Hp as [E|[fd' E]]; rewrite E in *; simplify_eq/=. naive_solver.
  - intros j b fd [Hij Ej]%lookup_delete_Some Eb. destruct (Hown j b fd Ej Eb) as [? Hj]. rewrite Hleft. split.
    + intros [?|Et]; [done|]. apply Hij. symmetry. by apply (Hj i a).
    + intros k c [? Ek]%lookup_delete_Some Ec. by apply (Hj k c).
Qed.

(** *** Arming *)

(** What is left behind when a timeout that waits no more is armed again. *)
Lemma to_left_fields p s f :
  spec_objs (to_left p (with_objs f s)) = f (spec_objs s) /\ spec_answers (to_left p (with_objs f s)) = spec_answers s
  /\ spec_live (to_left p (with_objs f s)) = spec_live s
  /\ forall fd, fd ∈ leftover (to_left p (with_objs f s)) <-> fd ∈ leftover s \/ timer_of p = Some fd.
Proof.
  unfold to_left. destruct (timer_of p) as [fd'|]; simpl; split_and!; try done; [|naive_solver].
  intros fd. rewrite elem_of_union, elem_of_singleton. naive_solver.
Qed.

Lemma Rel_leave_timer s w i a o a' o' w' fd :
  Rel s w -> spec_objs s !! i = Some a -> objects w !! i = Some o ->
  (forall fd', phase_of a <> Waiting fd') -> agrees a' o' ->
  fd ∉ open_fds w ->
  answers w' = answers w -> live_peers w' = live_peers w -> timersQueue (tr w') = timersQueue (tr w) ->
  open_fds w' = {[fd]} ∪ open_fds w -> promises w' = S (promises w) ->
  closures w' = <[promises w := i]> (closures w) -> objects w' = <[i := o']> (objects w) ->
  phase_ok (phase_of a') i o' w' ->
  (timers (tr w') = timers (tr w) /\ timer_of (phase_of a') = None
   \/ timer_of (phase_of a') = Some fd
      /\ exists e, timers (tr w') = <[fd := e]> (timers (tr w)) /\ timer_fd e = fd /\ timer_deferred e = promises w) ->
  Rel (to_left (phase_of a) (with_objs <[i := a']> s)) w'.
Proof.
  intros HR Es Eo Hnw Hag' Hfd Eans Elive Eq Eopen Eprom Ecl Eobj Hp' Htm.
  destruct (to_left_fields (phase_of a) s <[i := a']>) as (F1 & F2 & F3 & Hleft).
  assert (forall fd' e, timers (tr w) !! fd' = Some e -> fd <> fd') as Hfresh.
  { intros fd' e E ->. by apply (rel_timer _ _ HR) in E as (_ & ? & _). }
  assert (forall fd', fd <> fd' -> timers (tr w') !! fd' = timers (tr w) !! fd') as Hsame.
  { intros fd' Hne. destruct Htm as [[-> _]|(_ & e & -> & _)]; by simplify_map_eq. }
  assert (forall j b fd', spec_objs s !! j = Some b -> timer_of (phase_of b) = Some fd' -> exists e, timers (tr w) !! fd' = Some e)
    as Howned.
  { intros j b fd' Ej Eb. destruct (objects w !! j) as [ob|] eqn:Eob; [|apply (rel_dom _ _ HR) in Eob; congruence].
    destruct (rel_obj _ _ HR j b ob Ej Eob) as [_ Hb]. destruct (phase_of b); simplify_eq/=; naive_solver. }
  pose proof (rel_own _ _ HR) as Hown. destruct HR as [Ra Rl Rq Hd Hobj Ht Hl _].
  constructor; rewrite ?F1, ?F2, ?F3, ?Eans, ?Elive, ?Eq, ?Eopen, ?Eprom, ?Eobj; try done.
  - intros j. destruct (decide (i = j)) as [<-|]; simplify_map_eq; [done|apply Hd].
  - intros j b ob Ej Eob. destruct (decide (i = j)) as [<-|]; simplify_map_eq; [done|].
    destruct (Hobj j b ob Ej Eob) as [? Hb]. split; [done|]. apply (phase_ok_frame _ _ _ w); try done.
    + intros fd' Eb. destruct (Howned _ _ _ Ej Eb) as [e Ee]. apply Hsame. by apply (Hfresh _ e).
    + intros fd' e Eb Ee. rewrite Ecl. apply lookup_insert_ne. destruct (Ht fd' e Ee) as (_ & _ & ? & _). lia.
    + intros fd' En Hin. rewrite Eopen. split; [|set_solver]. rewrite Hsame; [done|]. by intros <-.
  - intros fd' e Ee. setoid_rewrite Hleft. destruct (decide (fd = fd')) as [<-|Hne].
    + destruct Htm as [[Et Ep]|(Ep & e' & Et & Ef & Ed)]; rewrite Et in Ee; [by destruct (Hfresh _ _ Ee)|]. simplify_map_eq.
      rewrite Ed. split_and!; [done|set_solver|lia|]. right. exists i, a'. by simplify_map_eq.
    + rewrite (Hsame _ Hne) in Ee. destruct (Ht fd' e Ee) as (? & ? & ? & Ho). split_and!; [done|set_solver|lia|].
      destruct Ho as [?|(j & b & Ej & Eb)]; [by left; left|]. destruct (decide (i = j)) as [<-|]; simplify_map_eq; [by left; right|].
      right. exists j, b. by simplify_map_eq.
  - intros fd' Hin%Hleft. assert (exists e, timers (tr w) !! fd' = Some e /\ active e = false) as (e & Ee & ?).
    { destruct Hin as [?|Ep]; [by apply Hl|]. destruct (Hobj i a o Es Eo) as [_ Hph].
      destruct (phase_of a) as [|fd2|fd2|] eqn:Ea; simplify_eq/=; [by destruct (Hnw fd')|naive_solver]. }
    exists e. split; [|done]. rewrite Hsame; [done|]. by apply (Hfresh _ e).
  - assert (forall j b, i <> j -> spec_objs s !! j = Some b -> timer_of (phase_of b) <> Some fd) as Hnot.
    { intros j b _ Ej Eb. destruct (Howned _ _ _ Ej Eb) as [e Ee]. by destruct (Hfresh _ _ Ee). }
    assert (forall fd', fd' ∈ leftover s \/ timer_of (phase_of a) = Some fd' -> fd' <> fd) as Hnotl.
    { intros fd' [(e & Ee & _)%Hl|Ep] ->; [by destruct (Hfresh _ _ Ee)|].
      destruct (Howned _ _ _ Es Ep) as [e Ee]. by destruct (Hfresh _ _ Ee). }
    assert (forall fd', timer_of (phase_of a') = Some fd' -> fd' = fd) as Hnew by naive_solver.
    intros j b fd' Ej Eb. rewrite Hleft. destruct (decide (i = j)) as [<-|]; simplify_map_eq.
    + pose proof (Hnew _ Eb) as ->. split; [intros Hin; by apply Hnotl in Hin|]. intros k c Ek Ec.
      destruct (decide (i = k)) as [|]; simplify_map_eq; [done|]. by destruct (Hnot k c).
    + destruct (Hown j b fd' Ej Eb) as [? Hj]. split.
      * intros [?|Ep]; [done|]. by destruct (Hj i a Es Ep).
      * intros k c Ek Ec. destruct (decide (i = k)) as [<-|]; simplify_map_eq; [|by apply (Hj k c)].
        pose proof (Hnew _ Ec) as ->. by destruct (Hnot j b).
Qed.

(** *** Expiration *)

(** The timer's entry is erased, and its owner has no timer any more. *)
Lemma Rel_erase s w w' i a a' o' fd l :
  Rel s w -> spec_objs s !! i = Some a -> timer_of (phase_of a) = Some fd ->
  timer_of (phase_of a') = None -> agrees a' o' -> phase_ok (phase_of a') i o' w' ->
  answers w' = answers w ++ l -> live_peers w' = live_peers w -> timersQueue (tr w') = timersQueue (tr w) ->
  open_fds w ∖ {[fd]} ⊆ open_fds w' -> promises w' = promises w -> closures w' = closures w ->
  objects w' = <[i := o']> (objects w) -> timers (tr w') = delete fd (timers (tr w)) ->
  Rel (with_answers l (with_objs <[i := a']> s)) w'.
Proof.
  intros HR Es Ep Ep' Hag' Hp' Eans Elive Eq Hopen Eprom Ecl Eobj Etm.
  destruct (rel_own _ _ HR i a fd Es Ep) as [Hnl Hi].
  assert (forall j b fd', i <> j -> spec_objs s !! j = Some b -> timer_of (phase_of b) = Some fd' -> fd <> fd') as Hother.
  { intros j b fd' Hne Ej Eb ->. by destruct (Hi j b Ej Eb). }
  destruct HR as [Ra Rl Rq Hd Hobj Ht Hl Hown].
  constructor; simpl; rewrite ?Eans, ?Elive, ?Eq, ?Eprom, ?Eobj, ?Etm; try done; [by rewrite Ra|..].
  - intros j. destruct (decide (i = j)) as [<-|]; simplify_map_eq; [naive_solver|apply Hd].
  - intros j b ob Ej Eob. destruct (decide (i = j)) as [<-|]; simplify_map_eq; [done|].
    destruct (Hobj j b ob Ej Eob) as [? Hb]. split; [done|].
    assert (exists e, timers (tr w) !! fd = Some e) as [e Ee].
    { destruct (objects w !! i) as [o|] eqn:Eo; [|apply Hd in Eo; congruence].
      destruct (Hobj i a o Es Eo) as [_ Hph]. destruct (phase_of a); simplify_eq/=; naive_solver. }
    apply (phase_ok_frame _ _ _ w); try done; rewrite ?Ecl, ?Etm; try done.
    + intros fd' Eb. apply lookup_delete_ne. by apply (Hother j b).
    + intros fd' En Hin. assert (fd <> fd') by (intros <-; congruence). split; [by simplify_map_eq|set_solver].
  - intros fd' e [Hne Ee]%lookup_delete_Some. destruct (Ht fd' e Ee) as (? & ? & ? & Ho). split_and!; [done|set_solver|done|].
    destruct Ho as [?|(j & b & Ej & Eb)]; [by left|right]. destruct (decide (i = j)) as [<-|]; [congruence|exists j, b; by simplify_map_eq].
  - intros fd' Hin. destruct (Hl fd' Hin) as (e & Ee & ?). exists e. split; [|done].
    rewrite lookup_delete_ne; [done|]. by intros <-.
  - intros j b fd' Ej Eb. destruct (decide (i = j)) as [<-|]; simplify_map_eq.
    destruct (Hown j b fd' Ej Eb) as [? Hj]. split; [done|]. intros k c Ek Ec.
    destruct (decide (i = k)) as [<-|]; simplify_map_eq. by apply (Hj k c).
Qed.

Lemma Rel_erase_left s w fd :
  Rel s w -> fd ∈ leftover s ->
  Rel (with_leftover (.∖ {[fd]}) s) (set_tr (set_timers (delete fd) (tr w)) w).
Proof.
  intros HR Hin.
  assert (forall j b, spec_objs s !! j = Some b -> timer_of (phase_of b) <> Some fd) as Hnot.
  { intros j b Ej Eb. by destruct (rel_own _ _ HR j b fd Ej Eb) as [? _]. }
  destruct HR as [Ra Rl Rq Hd Hobj Ht Hl Hown].
  constructor; simpl; try done.
  - intros j b ob Ej Eob. destruct (Hobj j b ob Ej Eob) as [? Hb]. split; [done|].
    apply (phase_ok_frame _ _ _ w); simpl; try done.
    + intros fd' Eb. apply lookup_delete_ne. intros <-. by apply (Hnot j b).
    + intros fd' En Ho. split; [|done]. apply lookup_delete_None. by right.
  - intros fd' e [Hne Ee]%lookup_delete_Some. destruct (Ht fd' e Ee) as (? & ? & ? & [?|?]); split_and!; try done; [left; set_solver|by right].
  - intros fd' [Hin' Hne]%elem_of_difference. destruct (Hl fd' Hin') as (e & Ee & ?). exists e. split; [|done].
    rewrite lookup_delete_ne; [done|]. set_solver.
  - intros j b fd' Ej Eb. destruct (Hown j b fd' Ej Eb). set_solver.
Qed.

(** *** One step *)

Definition simulated (s : Spec) (o : op) (w : World) : Prop :=
  let '(w', r) := step o w in exists s', spec_step s o r s' /\ answers w' = spec_answers s' /\ (goes_on r = true -> Rel s' w').

Lemma sim_done s s' o w w' : call_op o w = (w', Ok tt) -> spec_step s o Done s' -> Rel s' w' -> simulated s o w.
Proof. intros E Hs HR. unfold simulated, step. rewrite E. simpl. exists s'. split_and!; [done|apply HR|done]. Qed.

Lemma live_obj_inv i test w : live_obj i test w = true -> exists o, objects w !! i = Some o /\ test o = true.
Proof. unfold live_obj. destruct (objects w !! i) as [o|]; [by exists o|done]. Qed.

Lemma free_inv s w i : Rel s w -> free_at i w = true -> spec_objs s !! i = None /\ objects w !! i = None.
Proof. intros HR E%bool_decide_eq_true. split; [by apply (rel_dom _ _ HR)|done]. Qed.

Lemma unarmed_inv s w i : Rel s w -> live_obj i unarmed w = true ->
  exists a o, spec_objs s !! i = Some a /\ objects w !! i = Some o /\ agrees a o /\ phase_of a = Idle /\ armed o = false.
Proof.
  intros HR (o & Eo & Ea%negb_true_iff)%live_obj_inv.
  destruct (phase_unarmed s w i o HR Eo Ea) as (a & ? & ? & ?). by exists a, o.
Qed.

Lemma sim_move s w i j : Rel s w -> proper (Move i j) w = true -> simulated s (Move i j) w.
Proof.
  intros HR [Hi Hj]%andb_true_iff. destruct (free_inv _ _ _ HR Hi) as [Ei Eio].
  destruct (unarmed_inv _ _ _ HR Hj) as (a & o & Ej & Ejo & Hag & Hp & Ho).
  assert (i <> j) by (intros ->; congruence).
  apply (sim_done _ (with_objs <[j := without_peer a]> (with_objs <[i := without_version a]> s)) _ _
    (set_objects <[j := moved_from o]> (set_objects <[i := Timeout_moved o]> w))).
  - simpl. unfold Timeout_move. rewrite (bind_Ok _ _ _ _ _ (obj_at_eval j o w Ejo)).
    rewrite (bind_Ok (modify _) _ w (set_objects <[i := Timeout_moved o]> w) tt eq_refl).
    apply on_obj_eval. simpl. by rewrite lookup_insert_ne.
  - exact (S_move s i j a Ei Ej Hp).
  - destruct Hag as (? & ? & ?). apply Rel_idle; [apply Rel_idle; [done|congruence|done|by split_and!|done]|..]; simpl; try done.
    by intros b [[? _]|[_ ?]]%lookup_insert_Some; simplify_eq.
Qed.

Lemma sim_assign s w i j : Rel s w -> proper (MoveAssign i j) w = true -> simulated s (MoveAssign i j) w.
Proof.
  intros HR [[Hne%bool_decide_eq_true Hi]%andb_true_iff Hj]%andb_true_iff.
  destruct (unarmed_inv _ _ _ HR Hi) as (b & x & Ei & Eio & _ & Hpb & Hx).
  destruct (unarmed_inv _ _ _ HR Hj) as (a & o & Ej & Ejo & Hag & Hp & Ho).
  apply (sim_done _ (with_objs <[j := without_peer a]> (with_objs <[i := a]> s)) _ _
    (set_objects <[j := moved_from o]> (set_objects <[i := o]> w))).
  - simpl. unfold Timeout_move_assign. rewrite (bind_Ok _ _ _ _ _ (obj_at_eval j o w Ejo)).
    rewrite (bind_Ok _ _ _ _ _ (on_obj_eval i _ x w Eio)).
    erewrite (bind_Ok (on_obj j _)); [|apply (on_obj_eval j _ o); simpl; by rewrite lookup_insert_ne].
    erewrite (bind_Ok (obj_at j)); [|apply obj_at_eval; simpl; apply lookup_insert_eq].
    erewrite (bind_Ok (on_obj j _)); [|apply on_obj_eval; simpl; apply lookup_insert_eq].
    erewrite on_obj_eval by (simpl; rewrite !lookup_insert_ne by done; apply lookup_insert_eq).
    unfold set_objects; simpl. f_equal. f_equal. rewrite insert_insert_eq, (insert_insert_ne _ i j), insert_insert_eq by done. by destruct o.
  - exact (S_assign s i j a b Hne Ei Ej Hp Hpb).
  - destruct Hag as (? & ? & ?). apply Rel_idle; [apply Rel_idle; [done|congruence|done|by split_and!|done]|..]; simpl; try done.
    intros c [[? _]|[_ ?]]%lookup_insert_Some; congruence.
Qed.

Lemma sim_objects s w o :
  Rel s w -> proper o w = true -> match o with Arm _ _ _ _ | Disarm _ | Destroy _ | Ready _ => False | _ => True end ->
  simulated s o w.
Proof.
  intros HR Hp Ho. destruct o as [i v p|i j|i j|i j| | | | | |p]; try done.
  - destruct (free_inv _ _ _ HR Hp) as [Ei Eio].
    eapply sim_done; [reflexivity|by apply S_new|]. apply Rel_idle; [done|congruence|done|by split_and!|done].
  - by apply sim_move.
  - by apply sim_assign.
  - apply andb_true_iff in Hp as [Hi Hj]. destruct (free_inv _ _ _ HR Hi) as [Ei Eio].
    destruct (unarmed_inv _ _ _ HR Hj) as (a & o & Ej & Ejo & Hag & Hp & Ho').
    apply (sim_done _ (with_objs <[i := a]> s) _ _ (set_objects <[i := o]> w)); [|by apply (S_copy _ _ j a)|].
    + simpl. unfold Timeout_copy. by rewrite (bind_Ok _ _ _ _ _ (obj_at_eval j o w Ejo)).
    + apply Rel_idle; [done|congruence|done..].
  - apply (sim_done s s _ w w); [|constructor|done]. simpl. unfold timersQueued, mbind, M_bind, get.
    by rewrite (rel_queue _ _ HR).
  - eapply sim_done; [reflexivity|constructor|]. destruct HR as [? Hl]. constructor; simpl; try done. by rewrite Hl.
Qed.

Lemma sim_arm s w isInRightThread i created ns :
  Rel s w -> proper (Arm isInRightThread i created ns) w = true -> simulated s (Arm isInRightThread i created ns) w.
Proof.
  intros HR [[Hr Hi]%andb_true_iff Hc]%andb_true_iff. destruct isInRightThread; [|done].
  apply live_obj_inv in Hi as (o & Eo & Hpend%negb_true_iff).
  destruct (Rel_object _ _ _ _ HR Eo) as (a & Es & Hag & Hp).
  destruct created as [fd|].
  2: { unfold simulated, step. simpl. exists s. split_and!; [constructor|apply HR|done]. }
  apply bool_decide_eq_true in Hc.
  assert (timers (tr w) !! fd = None) as Et.
  { destruct (timers (tr w) !! fd) as [e|] eqn:E; [|done]. by apply (rel_timer _ _ HR) in E as (_ & ? & _). }
  assert (forall fd', phase_of a <> Waiting fd') as Hnw.
  { intros fd' E. rewrite E in Hp. destruct Hp as (Ha & Ef & e & Ee & Hact & _).
    unfold pending in Hpend. rewrite Ha, Ef in Hpend. simpl in Hpend. by rewrite Ee, Hact in Hpend. }
  destruct (arm_eval i fd ns o w Eo Et) as (n & w' & r & Earm & ? & ? & ? & ? & ? & Ecl & Hk).
  unfold simulated, step, call_op. rewrite Earm.
  destruct (kernel_settime n fd) eqn:Ek; [destruct Hk as (-> & Eobj & Etm)|destruct Hk as ([e ->] & Eobj & Etm)]; simpl.
  - assert (Rel (to_left (phase_of a) (with_objs <[i := in_phase (Waiting fd) a]> s)) w') as HR'.
    { eapply (Rel_leave_timer s w i a o _ (set_armed true (set_timerFd (Some fd) o))); try done.
      - simpl. rewrite Etm. split_and!; [done..|]. eexists. rewrite lookup_insert_eq. split_and!; [done..|]. simpl.
        by rewrite Ecl, lookup_insert_eq.
      - right. split; [done|]. eexists. by split_and!. }
    eexists. split_and!; [exact (S_arm s i a fd ns n Es Hnw Ek)|apply HR'|done].
  - assert (Rel (to_left (phase_of a) (with_objs <[i := in_phase (refused (phase_of a)) a]> s)) w') as HR'.
    { eapply (Rel_leave_timer s w i a o _ (set_timerFd (Some fd) o)); try done.
      - destruct (phase_of a); simpl in *; destruct_and?; try done; split; try done;
          intros ? [= <-]; (split; [congruence|set_solver]).
      - left. split; [done|]. by destruct (phase_of a). }
    eexists. split_and!; [exact (S_refused s i a fd ns n Es Hnw Ek)|apply HR'|done].
Qed.

(** The outcome of [disarm] in each phase. *)
Lemma sim_disarm_phase s w i a o :
  Rel s w -> spec_objs s !! i = Some a -> objects w !! i = Some o ->
  match timer_of (phase_of a) with
  | Some fd => exists w', disarm i w = (w', Ok tt) /\ Rel (with_objs <[i := in_phase (Disarmed fd) a]> s) w'
      /\ objects w' = objects w
  | None => match phase_of a with
            | Lapsed => disarm i w = (w, Throw (RuntimeError (B "Timer has not been armed")))
            | _ => disarm i w = (w, Ok tt)
            end
  end.
Proof.
  intros HR Es Eo. destruct (rel_obj _ _ HR i a o Es Eo) as [(Ht & _) Hp].
  destruct (timer_of (phase_of a)) as [fd|] eqn:Efd.
  - assert (armed o = true /\ timerFd o = Some fd /\ exists e, timers (tr w) !! fd = Some e) as (? & ? & e & Ee)
      by (destruct (phase_of a); simplify_eq/=; naive_solver).
    eexists. split; [by apply (disarm_armed i o fd e)|]. split; [by apply Rel_disarm|done].
  - destruct (phase_of a); simplify_eq/=.
    + by apply (disarm_unarmed i o).
    + apply (disarm_lapsed i o); naive_solver.
Qed.

(** What [HttpResponse] has of a timeout: the state that [disarm] depends on. *)
Definition timer_state (p : phase) : HttpResponse.TimeoutState :=
  match p with
  | Idle => HttpResponse.TimerIdle
  | Waiting _ => HttpResponse.TimerWaiting
  | Disarmed _ => HttpResponse.TimerDisarmed
  | Lapsed => HttpResponse.TimerGone
  end.

Lemma timeout_disarm_agrees s w i a :
  Rel s w -> spec_objs s !! i = Some a ->
  match HttpResponse.timeout_disarm (timer_state (phase_of a)) with
  | Ok t => exists w' p', disarm i w = (w', Ok tt) /\ t = timer_state p' /\ Rel (with_objs <[i := in_phase p' a]> s) w'
  | Throw e => disarm i w = (w, Throw e)
  | _ => False
  end.
Proof.
  intros HR Es. destruct (objects w !! i) as [o|] eqn:Eo; [|apply (rel_dom _ _ HR) in Eo; congruence].
  pose proof (sim_disarm_phase s w i a o HR Es Eo) as Hd.
  destruct (phase_of a) as [|fd|fd|] eqn:Ea; simpl in *;
    [|destruct Hd as (w' & ? & ? & _); by exists w', (Disarmed fd)..|done].
  exists w, Idle. split_and!; [done..|].
  assert (in_phase Idle a = a) as -> by (clear -Ea; destruct a; unfold in_phase; simpl in *; by subst).
  unfold with_objs. rewrite insert_id by done. by destruct s.
Qed.

Lemma sim_disarm s w i : Rel s w -> proper (Disarm i) w = true -> simulated s (Disarm i) w.
Proof.
  intros HR (o & Eo & _)%live_obj_inv. destruct (Rel_object _ _ _ _ HR Eo) as (a & Es & _).
  pose proof (sim_disarm_phase s w i a o HR Es Eo) as Hd. destruct (phase_of a) as [|fd|fd|] eqn:Ea; simpl in Hd.
  - eapply sim_done; [exact Hd| |exact HR]. by apply (S_disarm_idle _ _ a).
  - destruct Hd as (w' & Hd & HR' & _). eapply sim_done; [exact Hd| |exact HR']. apply S_disarm; [done|by rewrite Ea].
  - destruct Hd as (w' & Hd & HR' & _). eapply sim_done; [exact Hd| |exact HR']. apply S_disarm; [done|by rewrite Ea].
  - unfold simulated, step, call_op. rewrite Hd. simpl. exists s. split_and!; [by apply (S_disarm_lapsed _ _ a)|apply HR|done].
Qed.

Lemma sim_destroy s w i : Rel s w -> proper (Destroy i) w = true -> simulated s (Destroy i) w.
Proof.
  intros HR (o & Eo & _)%live_obj_inv. destruct (Rel_object _ _ _ _ HR Eo) as (a & Es & _).
  pose proof (sim_disarm_phase s w i a o HR Es Eo) as Hd.
  assert (phase_of a = Lapsed \/ phase_of a <> Lapsed) as [Ea|Ea] by (destruct (phase_of a); naive_solver).
  { rewrite Ea in Hd. simpl in Hd. unfold simulated, step, call_op, Timeout_destroy, mbind, M_bind. rewrite Hd. simpl.
    exists s. split_and!; [by apply (S_destroy_lapsed _ _ a)|apply HR|done]. }
  destruct (timer_of (phase_of a)) as [fd|] eqn:Efd.
  - destruct Hd as (w' & Hd & HR' & Eobj).
    apply (Rel_drop _ _ i (in_phase (Disarmed fd) a)) in HR'; [|simpl; apply lookup_insert_eq|right; by exists fd].
    eapply sim_done; [|by apply (S_destroy _ _ a)|].
    + simpl. unfold Timeout_destroy. by rewrite (bind_Ok _ _ _ _ _ Hd).
    + unfold to_left in *. rewrite Efd. simpl in HR'. unfold with_objs, with_leftover in *. simpl in *.
      by rewrite delete_insert_eq in HR'.
  - assert (phase_of a = Idle) as Ei by (destruct (phase_of a); naive_solver). rewrite Ei in Hd.
    eapply sim_done; [|by apply (S_destroy _ _ a)|apply Rel_drop; [done..|by left]].
    simpl. unfold Timeout_destroy. by rewrite (bind_Ok _ _ _ _ _ Hd).
Qed.

Lemma with_answers_nil s : with_answers [] s = s.
Proof. destruct s. unfold with_answers. simpl. by rewrite app_nil_r. Qed.

Lemma answers_agree s w a o : Rel s w -> agrees a o -> timeout_answers o w = answer_for a (spec_live s).
Proof.
  intros HR (_ & Hv & Hp). unfold timeout_answers, lock, answer_for. rewrite Hp, Hv, (rel_live _ _ HR).
  destruct (spec_peer a) as [p|]; simpl; [|done]. by case_decide.
Qed.

(** The timer lapses: the entry is erased, and the object takes itself for armed. *)
Lemma Rel_lapse s w w' i a o fd :
  Rel s w -> spec_objs s !! i = Some a -> objects w !! i = Some o -> timer_of (phase_of a) = Some fd ->
  answers w' = answers w -> live_peers w' = live_peers w -> timersQueue (tr w') = timersQueue (tr w) ->
  open_fds w' = open_fds w -> promises w' = promises w -> closures w' = closures w ->
  objects w' = objects w -> timers (tr w') = delete fd (timers (tr w)) ->
  Rel (with_objs <[i := in_phase Lapsed a]> s) w'.
Proof.
  intros HR Es Eo Ep ? ? ? Hop ? ? Hob Htm. destruct (rel_obj _ _ HR i a o Es Eo) as [Hag Hp].
  assert (armed o = true /\ timerFd o = Some fd /\ fd ∈ open_fds w) as (Ha & Ef & Hin).
  { assert (exists e, timers (tr w) !! fd = Some e) as [e Ee] by (destruct (phase_of a); simplify_eq/=; naive_solver).
    apply (rel_timer _ _ HR) in Ee as (_ & ? & _). destruct (phase_of a); simplify_eq/=; naive_solver. }
  rewrite <- (with_answers_nil (with_objs _ s)).
  apply (Rel_erase s w w' i a _ o fd); rewrite ?app_nil_r; try done.
  - simpl. split; [done|]. intros fd' E. rewrite Ef in E. simplify_eq. by rewrite Htm, lookup_delete_eq, Hop.
  - rewrite Hop. set_solver.
  - by rewrite insert_id.
Qed.

Lemma sim_ready_waiting s w i a fd :
  Rel s w -> spec_objs s !! i = Some a -> phase_of a = Waiting fd -> simulated s (Ready fd) w.
Proof.
  intros HR Es Ep. destruct (objects w !! i) as [o|] eqn:Eo; [|apply (rel_dom _ _ HR) in Eo; congruence].
  destruct (rel_obj _ _ HR i a o Es Eo) as [Hag Hp]. rewrite Ep in Hp. destruct Hp as (Harm & Ef & e & Ee & Hact & Hcl).
  destruct (rel_timer _ _ HR fd e Ee) as (Efd & _).
  destruct (ready_active fd e i o w Ee Efd Hact Hcl Eo) as (n & w' & r & E & Hl & Hq & Hpr & Hc & Hk).
  unfold simulated, step, call_op. rewrite E.
  destruct (kernel_timer n fd) as [k| |er] eqn:Ek.
  - destruct Hk as (-> & Ha & Ho & Ht & Hop). rewrite (answers_agree _ _ _ _ HR Hag) in Ha.
    eexists. split_and!; [exact (S_answers s i a fd n k Es Ep Ek)|simpl; by rewrite Ha, (rel_answers _ _ HR)|intros _].
    apply (Rel_erase s w w' i a _ (set_timerFd None (set_armed false o)) fd); try done; [by rewrite Ep|].
    rewrite Hop, Ef. simpl. set_solver.
  - destruct Hk as (Ha & x & ->). exists s. split_and!; [|by rewrite Ha, (rel_answers _ _ HR)|done].
    apply (S_unread s i a fd n Es Ep); congruence.
  - assert (er = EAGAIN \/ er <> EAGAIN) as [->|Her] by (destruct er; naive_solver).
    + destruct Hk as (-> & Ha & Ho & Ht & Hop). eexists.
      split_and!; [exact (S_spurious s i a fd n Es Ep Ek)|simpl; by rewrite Ha, (rel_answers _ _ HR)|intros _].
      apply (Rel_lapse s w w' i a o fd); try done. by rewrite Ep.
    + assert (answers w' = answers w /\ exists x, r = Throw x) as (Ha & x & ->) by by destruct er.
      exists s. split_and!; [|by rewrite Ha, (rel_answers _ _ HR)|done]. apply (S_unread s i a fd n Es Ep); congruence.
Qed.

Lemma sim_ready s w fd : Rel s w -> simulated s (Ready fd) w.
Proof.
  intros HR. destruct (timers (tr w) !! fd) as [e|] eqn:Ee.
  2: { apply (sim_done s s _ w w); [by apply ready_none| |done]. apply S_other.
    - intros (e & E & _)%(rel_left _ _ HR). congruence.
    - intros i a Es Ep. destruct (objects w !! i) as [o|] eqn:Eo; [|apply (rel_dom _ _ HR) in Eo; congruence].
      destruct (rel_obj _ _ HR i a o Es Eo) as [_ Hp]. destruct (phase_of a); simplify_eq/=; naive_solver congruence. }
  destruct (rel_timer _ _ HR fd e Ee) as (Efd & Hopen & Hlt & [Hleft|(i & a & Es & Ep)]).
  { destruct (rel_left _ _ HR fd Hleft) as (e' & Ee' & Ea). simplify_eq.
    eapply sim_done; [by apply (ready_inactive _ e)|by apply S_left|by apply Rel_erase_left]. }
  destruct (phase_of a) as [|fd'|fd'|] eqn:Eph; simplify_eq/=; [by eapply sim_ready_waiting|].
  destruct (objects w !! i) as [o|] eqn:Eo; [|apply (rel_dom _ _ HR) in Eo; congruence].
  destruct (rel_obj _ _ HR i a o Es Eo) as [_ Hp]. rewrite Eph in Hp. destruct Hp as (_ & _ & e' & Ee' & Hact). simplify_eq.
  eapply sim_done; [by apply (ready_inactive _ e)|by apply (S_lapses _ i a)|].
  apply (Rel_lapse s w _ i a o (timer_fd e)); try done. by rewrite Eph.
Qed.

Lemma step_simulated s w o : Rel s w -> proper o w = true -> simulated s o w.
Proof.
  intros HR Hp. destruct o; try by apply sim_objects.
  - by apply sim_arm.
  - by apply sim_disarm.
  - by apply sim_destroy.
  - by apply sim_ready.
Qed.

Lemma run_simulated ops : forall s w, Rel s w -> proper_run ops w = true ->
  exists s', spec_run s ops (run ops w).2 s' /\ answers (run ops w).1 = spec_answers s'.
Proof.
  induction ops as [|o ops IH]; intros s w HR Hp; [exists s; split; [constructor|apply HR]|].
  simpl in Hp. apply andb_true_iff in Hp as [Ho Hp]. pose proof (step_simulated s w o HR Ho) as Hs.
  unfold simulated in Hs. simpl. destruct (step o w) as [w' r]. destruct Hs as (s' & Hs & Ha & HR').
  destruct (goes_on r) eqn:Er; [|exists s'; split; [by apply run_stop|done]].
  destruct (IH s' w' (HR' eq_refl) Hp) as (s'' & Hrun & Hans). destruct (run ops w') as [w'' rs].
  exists s''. split; [by apply (run_step _ _ _ s')|done].
Qed.

(** C11. Response timeouts implement the machine of four phases.  For every sequence of
    calls and events in which a timeout is armed by its worker and not again while it
    waits, and moved, assigned or copied only while it is not armed, each outcome (a normal return, an
    exception, the end of the program) is one the machine has, nothing is undefined, and
    the 408 responses are those of the machine, each to the peer of a waiting timeout: one
    that was disarmed or destroyed answers no more, and one that answered is armed no more. *)
Theorem timeout_refines live ops :
  proper_run ops (World_new live) = true ->
  exists s, spec_run (Spec_new live) ops (run ops (World_new live)).2 s
    /\ answers (run ops (World_new live)).1 = spec_answers s.
Proof. intros Hp. apply run_simulated; [apply Rel_new|done]. Qed.

(** ** Moving an armed timeout *)

(** C26. A timeout that is moved while it waits, as [ResponseWriter::stream] and moving the
    writer do, is lost: the descriptor's closure is for the object it was moved from, which has no
    peer any more.  Destroying that object ends the program as long as the timer has not expired;
    and when it expires, nothing is answered, and destroying the object it was moved to ends the
    program.  Its version is unspecified. *)
Theorem moved_timeout_ends_program w this other o fd e :
  objects w !! this = None -> objects w !! other = Some o ->
  transport o = true -> armed o = true -> timerFd o = Some fd ->
  timers (tr w) !! fd = Some e -> timer_fd e = fd -> active e = true -> closures w !! timer_deferred e = Some other ->
  (forall n, exists k, kernel_timer n fd = Wakeups k) ->
  exists w1 w2, step (Move this other) w = (w1, Done)
  /\ (version <$> objects w1 !! this) = Some None
  /\ (step (Destroy other) w1).2 = Terminated
  /\ step (Ready fd) w1 = (w2, Done) /\ answers w2 = answers w
  /\ (step (Destroy this) w2).2 = Terminated.
Proof.
  intros Et Eo Htr Ha Ef Ee Efd Hact Hcl Hk. assert (this <> other) as Hne by congruence.
  set (w1 := set_objects <[other := moved_from o]> (set_objects <[this := Timeout_moved o]> w)).
  assert (objects w1 !! other = Some (moved_from o)) as Eo1 by apply lookup_insert_eq.
  assert (objects w1 !! this = Some (Timeout_moved o)) as Et1 by (simpl; by simplify_map_eq).
  destruct (ready_active fd e other (moved_from o) w1 Ee Efd Hact Hcl Eo1) as (n & w2 & r & Er & _ & _ & _ & _ & Hr).
  destruct (Hk n) as [k Ek]. rewrite Ek in Hr. destruct Hr as (-> & Hans & Hobj & Htm & _).
  exists w1, w2. split_and!.
  - unfold step. simpl. unfold Timeout_move. rewrite (bind_Ok _ _ _ _ _ (obj_at_eval other o w Eo)).
    rewrite (bind_Ok (modify _) _ w (set_objects <[this := Timeout_moved o]> w) tt eq_refl).
    erewrite on_obj_eval; [done|]. simpl. by rewrite lookup_insert_ne.
  - by rewrite Et1.
  - unfold step, call_op, Timeout_destroy, mbind, M_bind. by rewrite (disarm_lapsed other (moved_from o)).
  - unfold step, call_op. by rewrite Er.
  - rewrite Hans. unfold timeout_answers. simpl. by rewrite app_nil_r.
  - unfold step, call_op, Timeout_destroy, mbind, M_bind.
    rewrite (disarm_lapsed this (Timeout_moved o)); [done|..]; try done.
    + rewrite Hobj. by rewrite lookup_insert_ne.
    + intros fd' E. simpl in E. rewrite Ef in E. simplify_eq. rewrite Htm. apply lookup_delete_eq.
Qed.

(** ** Arming from another thread *)

(** Until the worker has looked at its queue the timer is not in the transport's table: disarming
    throws, and destroying ends the program. *)
Theorem queued_timeout_ends_program w i o fd ns :
  objects w !! i = Some o -> transport o = true -> timers (tr w) !! fd = None ->
  exists w1, step (Arm false i (Some fd) ns) w = (w1, Done)
  /\ (step (Disarm i) w1).2 = Raised /\ (step (Destroy i) w1).2 = Terminated.
Proof.
  intros Eo Htr Et. unfold step at 1, call_op, arm.
  rewrite (bind_Ok (modify _) _ w (set_open ({[fd]} ∪.) w) tt eq_refl).
  rewrite (bind_Ok _ _ _ _ _ (on_obj_eval i (set_timerFd (Some fd)) o (set_open ({[fd]} ∪.) w) Eo)).
  unfold mbind, M_bind, get, zoom, armTimer, armTimerMs, put, modify, settle. simpl.
  unfold mbind, M_bind. simpl. rewrite drop_all. simpl. erewrite on_obj_eval by (simpl; apply lookup_insert_eq).
  eexists. split; [reflexivity|]. unfold step, call_op, Timeout_destroy, mbind, M_bind.
  erewrite disarm_lapsed; [by split|simpl; apply lookup_insert_eq|done|done|].
  simpl. by intros ? [= <-].
Qed.
End Machine.

(** ** Witnesses *)

Module Demo.
(** A system whose calls succeed, with timers that expire once. *)
Program Definition system : Kernel :=
  {| kernel_send _ _ n := Sent n; kernel_timer _ _ := Wakeups 1; kernel_settime _ _ := true; kernel_recv _ _ := inl [];
     file_contents _ := [] |}.
Next Obligation. intros n fd avail k E. simpl in E. injection E. lia. Qed.

(** A writer is moved to its handler, armed, and answers; another is armed, sent and destroyed
    before its timer expires. *)
Definition served : list op :=
  [New 0 Http11 7; Move 1 0; Destroy 0; Arm true 1 (Some 5%nat) 2000000000; Ready 5; Destroy 1;
   New 2 Http11 8; Arm true 2 (Some 5%nat) 500000000; Disarm 2; Destroy 2; Ready 5;
   New 3 Http10 9; Arm true 3 (Some 6%nat) 500000000; Disarm 3; Ready 6; Disarm 3; Destroy 3].

(** One that waits. *)
Definition waiting : World :=
  (@run system [New 0 Http11 7; Arm true 0 (Some 5%nat) 2000000000] (World_new {[7%nat]})).1.
End Demo.

Lemma timeout_refines_witness :
  @proper_run Demo.system Demo.served (World_new {[7%nat; 8%nat; 9%nat]}) = true
  /\ (@run Demo.system Demo.served (World_new {[7%nat; 8%nat; 9%nat]})).2
     = [Done; Done; Done; Done; Done; Done; Done; Done; Done; Done; Done; Done; Done; Done; Done; Raised; Terminated]
  /\ answers (@run Demo.system Demo.served (World_new {[7%nat; 8%nat; 9%nat]})).1
     = [{| answer_peer := 7; answer_version := None |}]
  /\ exists s, @spec_run Demo.system (Spec_new {[7%nat; 8%nat; 9%nat]}) Demo.served
      (@run Demo.system Demo.served (World_new {[7%nat; 8%nat; 9%nat]})).2 s
    /\ answers (@run Demo.system Demo.served (World_new {[7%nat; 8%nat; 9%nat]})).1 = spec_answers s.
Proof.
  split; [by vm_compute|]. split; [by vm_compute|]. split; [by vm_compute|].
  apply (@timeout_refines Demo.system). by vm_compute.
Defined.

Lemma moved_timeout_ends_program_witness :
  exists w1 w2, @step Demo.system (Move 1 0) Demo.waiting = (w1, Done)
  /\ (version <$> objects w1 !! 1%nat) = Some None
  /\ (@step Demo.system (Destroy 0) w1).2 = Terminated
  /\ @step Demo.system (Ready 5) w1 = (w2, Done) /\ answers w2 = answers Demo.waiting
  /\ (@step Demo.system (Destroy 1) w2).2 = Terminated.
Proof.
  eapply (@moved_timeout_ends_program Demo.system Demo.waiting 1 0 _ 5); try by vm_compute.
  intros n. by exists 1.
Defined.
