(* ===== verification/Peer.v ===== *)
(** * Peers: [src/common/peer.cc], [include/pistache/peer.h]

    The other end of a connection: its descriptor, its address and name, the data others
    keep with it, and the transport it belongs to. *)

From S2P Require Import Prelude Cxx Net.

Local Open Scope Z_scope.

(** [transport_] is the transport's name; [data_] has pointers, which may be null. *)
Record Peer : Type := {
  transport_ : option nat; fd_ : option Z; addr : Address; hostname_ : bytes; data_ : gmap bytes (option nat);
  id_ : Z; isIdle_ : bool }.

(** What closing a peer calls. *)
Inductive close_call : Set := TransportCloseFd (transport : nat) (fd : Z) | CloseFd (fd : Z).

(** [getUniqueId]: a counter that all peers share. *)
Definition getUniqueId : M Z Z := fun idCounter => (wrapu 64 (idCounter + 1), Ok idCounter).

Definition Peer_new (fd : Z) (address : Address) : M Z Peer :=
  id ← getUniqueId;
  mret {| transport_ := None; fd_ := Some fd; addr := address; hostname_ := []; data_ := ∅; id_ := id; isIdle_ := false |}.

Definition set_fd (fd : option Z) (p : Peer) : Peer :=
  {| transport_ := transport_ p; fd_ := fd; addr := addr p; hostname_ := hostname_ p; data_ := data_ p; id_ := id_ p;
     isIdle_ := isIdle_ p |}.
Definition set_hostname (name : bytes) (p : Peer) : Peer :=
  {| transport_ := transport_ p; fd_ := fd_ p; addr := addr p; hostname_ := name; data_ := data_ p; id_ := id_ p;
     isIdle_ := isIdle_ p |}.
Definition set_data (d : gmap bytes (option nat)) (p : Peer) : Peer :=
  {| transport_ := transport_ p; fd_ := fd_ p; addr := addr p; hostname_ := hostname_ p; data_ := d; id_ := id_ p;
     isIdle_ := isIdle_ p |}.
Definition setIdle (b : bool) (p : Peer) : Peer :=
  {| transport_ := transport_ p; fd_ := fd_ p; addr := addr p; hostname_ := hostname_ p; data_ := data_ p; id_ := id_ p;
     isIdle_ := b |}.
Definition associateTransport (t : nat) (p : Peer) : Peer :=
  {| transport_ := Some t; fd_ := fd_ p; addr := addr p; hostname_ := hostname_ p; data_ := data_ p; id_ := id_ p;
     isIdle_ := isIdle_ p |}.

Definition actualFd (p : Peer) : Z := default (-1) (fd_ p).

Definition transport (p : Peer) : result nat :=
  match transport_ p with Some t => Ok t | None => Throw (LogicError (B "Orphaned peer")) end.

(** The descriptor is forgotten first; the destructor does this too. *)
Definition closeFd (p : Peer) : Peer * option close_call :=
  match fd_ p with
  | None => (p, None)
  | Some fd =>
      (set_fd None p, Some (match transport_ p with Some t => TransportCloseFd t fd | None => CloseFd fd end))
  end.

(** ** Data *)

Definition putData (name : bytes) (data : option nat) : M Peer unit := fun p =>
  match data_ p !! name with
  | Some _ => (p, Throw (RuntimeError (B "The data already exists")))
  | None => (set_data (<[name := data]> (data_ p)) p, Ok tt)
  end.
Definition tryGetData (name : bytes) (p : Peer) : option nat := default None (data_ p !! name).
Definition getData (name : bytes) (p : Peer) : result nat :=
  match tryGetData name p with Some d => Ok d | None => Throw (RuntimeError (B "The data does not exist")) end.

(** [Peer::send]: the arguments of the transport's [asyncWrite]. *)
Definition send {Buffer : Type} (buffer : Buffer) (flags : Z) (p : Peer) : result (nat * option Z * Buffer * Z) :=
  t ← transport p; Ok (t, fd_ p, buffer, flags).

(** ** [hostname] *)

(** [inet_pton(AF_INET)] and [getnameinfo] with [NI_NAMEREQD] of what it made. *)
Class HostNames := { inet4 : bytes -> option (list Z); host_name : list Z -> option bytes }.

Section Hostname.
Context `{Resolver, HostNames}.

(** A name that was found is kept. *)
Definition hostname : M Peer bytes :=
  p ← get;
  if negb (bool_decide (hostname_ p = [])) then mret (hostname_ p)
  else
    name ← (match getFamily (ip_ (addr p)) with
            | AF_UNIX => mret (B "localhost")
            | _ =>
                host ← lift (IP_toString (ip_ (addr p)));
                match inet4 host with
                | None => lift (IP_toString (ip_ (addr p)))
                | Some a => mret (default [] (host_name a))
                end
            end);
    _ ← modify (set_hostname name);
    mret name.
End Hostname.

(** ** What is kept with a peer *)

(** Data is put once, and what was put is what is found, by its name alone. *)
Lemma putData_spec name data p :
  match putData name data p with
  | (p', Ok _) => data_ p !! name = None /\ tryGetData name p' = data
      /\ forall other, other <> name -> tryGetData other p' = tryGetData other p
  | (p', Throw e) => is_Some (data_ p !! name) /\ p' = p
  | _ => False
  end.
Proof.
  unfold putData. destruct (data_ p !! name) eqn:E; [by split|]. split; [done|]. unfold tryGetData. cbn.
  split; [by rewrite lookup_insert_eq|]. intros other Hn. by rewrite lookup_insert_ne.
Qed.

(** A descriptor is closed once. *)
Lemma closeFd_once p : (closeFd (closeFd p).1).2 = None.
Proof. unfold closeFd. by destruct (fd_ p) eqn:E; cbn; rewrite ?E. Qed.
