(* ===== verification/Listener.v ===== *)
(** * The listener: [src/server/listener.cc], [include/pistache/listener.h], [tcp.h]

    A socket that is bound and polled; what is accepted becomes a peer, which is given to
    the transport of one of the reactor's workers.  The build without TLS, on Linux.  What
    the system calls answer is a parameter. *)

From S2P Require Import Prelude Cxx Net Poller Reactor ReactorDispatch.

Local Open Scope Z_scope.

(** ** Options *)

Module Options.
Definition None : Z := 0.
Definition NoDelay : Z := 1.
Definition Linger : Z := Z.shiftl NoDelay 1.
Definition FastOpen : Z := Z.shiftl Linger 1.
Definition QuickAck : Z := Z.shiftl FastOpen 1.
Definition ReuseAddr : Z := Z.shiftl QuickAck 1.
Definition ReusePort : Z := Z.shiftl ReuseAddr 1.
Definition CloseOnExec : Z := Z.shiftl ReusePort 1.
End Options.

(** [setsockopt]'s option, with the value it is set to. *)
Inductive sockopt : Set := SO_REUSEADDR (v : Z) | SO_REUSEPORT (v : Z) | SO_LINGER (onoff linger : Z) | TCP_FASTOPEN (v : Z) | TCP_NODELAY (v : Z).

(** An element of what [getaddrinfo] gives. *)
Record addrinfo : Set := { ai_family : Family; ai_protocol : Z; ai_addr : IP }.

(** What the system answers: [socket] a descriptor or -1, the others whether they succeed. *)
Class ListenSystem := {
  sys_socket : addrinfo -> bool -> Z;
  sys_setsockopt : Z -> sockopt -> bool;
  sys_bind : Z -> IP -> bool;
  sys_listen : Z -> Z -> bool;
  sys_eventfd : nat -> Z;
  sys_addrinfo : Address -> list addrinfo + bytes;
  sys_error : bytes }.

(** What the listener does to its sockets. *)
Inductive sys_call : Set := SetOption (fd : Z) (o : sockopt) | Listening (fd : Z) (backlog : Z) | NonBlocking (fd : Z) | Close (fd : Z).

(** [transportFactory_] gives a handler, by name, or throws; a reactor whose [init] threw
    has no implementation. *)
Record Listener : Type := {
  addr_ : Address; listen_fd : Z; backlog_ : Z; l_shutdownFd : NotifyFd; l_poller : Epoll; options_ : Z; workers_ : nat;
  transportFactory_ : result nat; reactor_ : option (option AsyncImpl); transportKey : Z; sys_calls : list sys_call }.

Definition Listener_new (address : Address) (factory : result nat) : Listener :=
  {| addr_ := address; listen_fd := PS_FD_EMPTY; backlog_ := 128; l_shutdownFd := NotifyFd_new; l_poller := [];
     options_ := Options.None; workers_ := 1; transportFactory_ := factory; reactor_ := None; transportKey := 0; sys_calls := [] |}.

Definition init (workers : nat) (options backlog : Z) (l : Listener) : Listener :=
  {| addr_ := addr_ l; listen_fd := listen_fd l; backlog_ := backlog; l_shutdownFd := l_shutdownFd l; l_poller := l_poller l;
     options_ := options; workers_ := workers; transportFactory_ := transportFactory_ l; reactor_ := reactor_ l;
     transportKey := transportKey l; sys_calls := sys_calls l |}.
Definition setTransportFactory (factory : result nat) (l : Listener) : Listener :=
  {| addr_ := addr_ l; listen_fd := listen_fd l; backlog_ := backlog_ l; l_shutdownFd := l_shutdownFd l; l_poller := l_poller l;
     options_ := options_ l; workers_ := workers_ l; transportFactory_ := factory; reactor_ := reactor_ l;
     transportKey := transportKey l; sys_calls := sys_calls l |}.
Definition set_address (a : Address) (l : Listener) : Listener :=
  {| addr_ := a; listen_fd := listen_fd l; backlog_ := backlog_ l; l_shutdownFd := l_shutdownFd l; l_poller := l_poller l;
     options_ := options_ l; workers_ := workers_ l; transportFactory_ := transportFactory_ l; reactor_ := reactor_ l;
     transportKey := transportKey l; sys_calls := sys_calls l |}.
Definition set_listen_fd (fd : Z) (l : Listener) : Listener :=
  {| addr_ := addr_ l; listen_fd := fd; backlog_ := backlog_ l; l_shutdownFd := l_shutdownFd l; l_poller := l_poller l;
     options_ := options_ l; workers_ := workers_ l; transportFactory_ := transportFactory_ l; reactor_ := reactor_ l;
     transportKey := transportKey l; sys_calls := sys_calls l |}.
Definition set_reactor (r : option AsyncImpl) (key : Z) (l : Listener) : Listener :=
  {| addr_ := addr_ l; listen_fd := listen_fd l; backlog_ := backlog_ l; l_shutdownFd := l_shutdownFd l; l_poller := l_poller l;
     options_ := options_ l; workers_ := workers_ l; transportFactory_ := transportFactory_ l; reactor_ := Some r;
     transportKey := key; sys_calls := sys_calls l |}.
Definition set_polling (n : NotifyFd) (e : Epoll) (l : Listener) : Listener :=
  {| addr_ := addr_ l; listen_fd := listen_fd l; backlog_ := backlog_ l; l_shutdownFd := n; l_poller := e;
     options_ := options_ l; workers_ := workers_ l; transportFactory_ := transportFactory_ l; reactor_ := reactor_ l;
     transportKey := transportKey l; sys_calls := sys_calls l |}.
Definition did (c : sys_call) : M Listener unit := modify (fun l =>
  {| addr_ := addr_ l; listen_fd := listen_fd l; backlog_ := backlog_ l; l_shutdownFd := l_shutdownFd l; l_poller := l_poller l;
     options_ := options_ l; workers_ := workers_ l; transportFactory_ := transportFactory_ l; reactor_ := reactor_ l;
     transportKey := transportKey l; sys_calls := sys_calls l ++ [c] |}).

Section Listener.
Context `{EpollKernel, ListenSystem}.
Context (registerPoller : nat -> M Epoll unit) (clone : HandlerObj -> HandlerObj) (handler_objects : Objects) (next_object : nat).

(** ** Binding *)

Definition TRY {S} (ok : bool) : M S unit := if ok then mret tt else throw (RuntimeError sys_error).

Definition set_option (fd options flag : Z) (o : sockopt) : M Listener unit :=
  if hasFlag flag options then _ ← did (SetOption fd o); TRY (sys_setsockopt fd o) else mret tt.

Definition setSocketOptions (fd options : Z) : M Listener unit :=
  _ ← set_option fd options Options.ReuseAddr (SO_REUSEADDR 1);
  _ ← set_option fd options Options.ReusePort (SO_REUSEPORT 1);
  _ ← set_option fd options Options.Linger (SO_LINGER 1 1);
  _ ← set_option fd options Options.FastOpen (TCP_FASTOPEN 5);
  set_option fd options Options.NoDelay (TCP_NODELAY 1).

Definition on_l_poller (m : M Epoll unit) : M Listener unit := fun l =>
  let '(e, r) := m (l_poller l) in (set_polling (l_shutdownFd l) e l, r).

(** The reactor and its transport; the transport is made before the reactor. *)
Definition make_reactor : M Listener unit := fun l =>
  match transportFactory_ l with
  | Ok transport =>
      match AsyncImpl_new (map sys_eventfd (seq 0 (workers_ l))) handler_objects next_object with
      | Ok r =>
          match Async_addHandler registerPoller clone transport r with
          | (r', Ok key) => (set_reactor (Some r') key l, Ok tt)
          | (r', Throw e) => (set_reactor (Some r') (transportKey l) l, Throw e)
          | (_, UB) => (l, UB)
          | (_, OutOfFuel) => (l, OutOfFuel)
          end
      | Throw e => (set_reactor None (transportKey l) l, Throw e)
      | UB => (l, UB)
      | OutOfFuel => (l, OutOfFuel)
      end
  | Throw e => (l, Throw e)
  | UB => (l, UB)
  | OutOfFuel => (l, OutOfFuel)
  end.

Definition bindListener (a : addrinfo) : M Listener bool :=
  l ← get;
  let fd := sys_socket a (hasFlag Options.CloseOnExec (options_ l)) in
  if fd <? 0 then mret false
  else
    _ ← setSocketOptions fd (options_ l);
    if negb (sys_bind fd (ai_addr a)) then _ ← did (Close fd); mret false
    else
      _ ← did (Listening fd (backlog_ l)); _ ← TRY (sys_listen fd (backlog_ l));
      _ ← did (NonBlocking fd);
      _ ← on_l_poller (addFd fd NotifyOn.Read (wrapu 64 fd) Level);
      _ ← modify (set_listen_fd fd);
      _ ← make_reactor;
      mret true.

Fixpoint bind_any (l : list addrinfo) : M Listener bool :=
  match l with [] => mret false | a :: l' => found ← bindListener a; if found : bool then mret true else bind_any l' end.

Definition bind (address : Address) : M Listener unit :=
  _ ← modify (set_address address);
  found ← (match getFamily (ip_ address) with
           | AF_UNIX => bindListener {| ai_family := AF_UNIX; ai_protocol := 0; ai_addr := ip_ address |}
           | _ => match sys_addrinfo address with inl l => bind_any l | inr e => throw (RuntimeError e) end
           end);
  if found : bool then mret tt else throw (RuntimeError sys_error).

Definition isBound (l : Listener) : bool := negb (listen_fd l =? PS_FD_EMPTY).

(** [name]: what [getsockname] gives. *)
Definition getPort (name : option IP) (l : Listener) : Z :=
  if negb (isBound l) then 0 else match name with Some (IP_inet _ port) | Some (IP_inet6 _ port) => port | _ => 0 end.

(** ** Accepting *)

(** What the listener did with connections: handlers and descriptors, in order. *)
Record Accepting : Set := { dispatched : list (nat * Z); closed : list Z; logged : list bytes }.

(** [fd]: the peer's descriptor. *)
Definition dispatchPeer (l : Listener) (fd : Z) : M Accepting unit :=
  if fd =? -1 then mret tt
  else
    match reactor_ l with
    | None => lift UB
    | Some None => throw (RuntimeError (B "Invalid object state, you should call init() before."))
    | Some (Some r) =>
        handlers ← lift (Async_handlers (transportKey l) r);
        match handlers with
        | [] => lift UB
        | _ =>
            match handlers !! Z.to_nat (fd mod Z.of_nat (length handlers)) with
            | Some (Some h) =>
                modify (fun a => {| dispatched := dispatched a ++ [(h, fd)]; closed := closed a; logged := logged a |})
            | _ => lift UB
            end
        end
    end.

(** [accept4]: a descriptor and the other's address, and whether the descriptor can be made
    non-blocking; or an error, with whether it is one of the listener's own socket. *)
Inductive accept_answer : Set := Accepted (fd : Z) (from : IP) (non_blocking : bool) | AcceptFailed (own_socket : bool) (what : bytes).

Definition handleNewConnection (l : Listener) (answer : accept_answer) : M Accepting unit :=
  match answer with
  | AcceptFailed true w => throw (ServerError w)
  | AcceptFailed false w => throw (SocketError w)
  | Accepted fd from non_blocking =>
      if negb non_blocking
      then modify (fun a => {| dispatched := dispatched a; closed := closed a ++ [fd]; logged := logged a |})
      else _ ← lift (Address_fromUnix from); dispatchPeer l fd
  end.

(** [catch (SocketError&)]: logged, and the loop goes on. *)
Definition catch_socket_error (m : M Accepting unit) : M Accepting unit := fun a =>
  match m a with
  | (a', Throw (SocketError w)) => ({| dispatched := dispatched a'; closed := closed a'; logged := logged a' ++ [w] |}, Ok tt)
  | r => r
  end.

(** The events of one poll: [true] once the shutdown descriptor is among them.  The answers
    of [accept4] are used one by one. *)
Fixpoint run_events (l : Listener) (events : list Event) (accepts : list accept_answer)
  : M Accepting (bool * list accept_answer) :=
  match events with
  | [] => mret (false, accepts)
  | event :: events' =>
      if tag event =? wrapu 64 (event_fd (l_shutdownFd l)) then mret (true, accepts)
      else if isReadable event && (wraps 32 (tag event) =? listen_fd l) then
        match accepts with
        | [] => lift OutOfFuel
        | answer :: accepts' =>
            _ ← catch_socket_error (handleNewConnection l answer); run_events l events' accepts'
        end
      else run_events l events' accepts
  end.

(** What [run] does first, once: with [runThreaded] it is done before the thread starts.
    [eventfd] is the system call's answer. *)
Definition bind_shutdownFd (eventfd : Z) : M Listener unit := fun l =>
  let '((n, e), r) := Poller.bind eventfd (l_shutdownFd l, l_poller l) in (set_polling n e l, _ ← r; Ok tt).
Definition run_start (eventfd : Z) : M Listener unit := fun l =>
  if Poller.isBound (l_shutdownFd l) then (l, Ok tt) else bind_shutdownFd eventfd l.

(** The loop of [run], over what each poll gives. *)
Fixpoint run (l : Listener) (polls : list (option (list Event))) (accepts : list accept_answer) : M Accepting unit :=
  match polls with
  | [] => lift OutOfFuel
  | None :: _ => throw (RuntimeError (B "Polling"))
  | Some events :: polls' =>
      '(stop, accepts') ← run_events l events accepts;
      if stop : bool then mret tt else run l polls' accepts'
  end.

(** [bound]: whether [shutdownFd] is bound; the reactor is told after it. *)
Definition shutdown (l : Listener) : Listener * result unit :=
  let '(n, r) := if Poller.isBound (l_shutdownFd l) then notify (l_shutdownFd l) else (l_shutdownFd l, Ok tt) in
  let l' := set_polling n (l_poller l) l in
  match r, reactor_ l with
  | Ok _, Some (Some a) => let '(a', r') := Async_shutdown a in (set_reactor (Some a') (transportKey l') l', r')
  | _, _ => (l', r)
  end.
End Listener.
