(* ===== verification/ListenerDispatch.v ===== *)
(** * What becomes of a connection that is accepted

    The listener's loop gives each connection to one worker's transport, chosen by the
    descriptor; that transport registers it with the worker's own poller, whose events
    come back to it. *)

From S2P Require Import Prelude Cxx Net Poller Reactor ReactorDispatch Listener.

Local Open Scope Z_scope.

(** ** The reactor the listener makes *)

Section Served.
Context `{EpollKernel, ListenSystem}.
Context (registerPoller : nat -> M Epoll unit) (clone : HandlerObj -> HandlerObj) (handler_objects : Objects) (next_object : nat).
Hypothesis registers : forall h e, snd (registerPoller h e) = Ok tt.
Hypothesis descriptors : forall i, 0 <= sys_eventfd i.
Hypothesis accepts_eventfd : forall fd, epoll_accepts [] (CTL_ADD fd {| ev_events := edge Edge (toEpollEvents NotifyOn.Read); ev_data := fd |}) = true.

Abbreviation make_reactor := (Listener.make_reactor registerPoller clone handler_objects next_object).

Lemma SyncImpl_new_ok fd : 0 <= fd -> exists s, SyncImpl_new fd = Ok s /\ handlers_ s = HandlerList.new.
Proof.
  intros Hfd. unfold SyncImpl_new, Poller.bind, TRY_RET. rewrite (proj2 (Z.ltb_ge _ _)) by lia.
  unfold addFd, TRY_ctl, mbind, M_bind, get, mret, M_ret. cbv beta iota. rewrite accepts_eventfd. by eexists.
Qed.

Lemma make_workers_ok fds : Forall (fun fd => 0 <= fd) fds ->
  exists l, make_workers fds = Ok l /\ uniform 0 l /\ length l = length fds.
Proof.
  induction 1 as [|fd fds Hfd Hf (l & E & Hu & Hl)]; [exists []; split_and!; [done|constructor|done]|]. destruct (SyncImpl_new_ok fd Hfd) as (s & Es & Eh).
  exists (s :: l). cbn [make_workers]. rewrite Es. unfold mbind, result_bind. rewrite E. split; [done|]. split; [|cbn; lia].
  constructor; [|done]. rewrite Eh. split; [apply wf_new|done].
Qed.

Lemma AsyncImpl_new_ok n o k :
  (n <= HandlerList.MaxHandlers)%nat ->
  exists r, AsyncImpl_new (map sys_eventfd (seq 0 n)) o k = Ok r /\ uniform 0 (workers r) /\ length (workers r) = n
  /\ objects r = o /\ next r = k.
Proof.
  intros Hn. unfold AsyncImpl_new. rewrite length_map, length_seq, (proj2 (Nat.ltb_ge _ _)) by lia.
  destruct (make_workers_ok (map sys_eventfd (seq 0 n))) as (l & -> & Hu & Hl).
  { apply list.Forall_forall. intros fd (i & -> & _)%list_elem_of_fmap. apply descriptors. }
  eexists. split; [reflexivity|]. split_and!; try done. cbn. by rewrite Hl, length_map, length_seq.
Qed.

(** ** One connection *)

(** C8. A listener with [n] workers, and the reactor it makes: a connection with
    descriptor [fd] is given to the transport of worker [fd mod n]; where that transport
    registers the descriptor with its own key, it is the poller of this worker, and no
    other, that has it, and what this poller reports goes to this transport with the
    descriptor as its tag.  With no workers the choice divides by zero. *)
Theorem connection_has_one_worker transport fd flags mode l a :
  transportFactory_ l = Ok transport -> (transport < next_object)%nat -> (workers_ l <= HandlerList.MaxHandlers)%nat ->
  0 <= fd < 2 ^ 31 ->
  let n := workers_ l in
  let i := Z.to_nat (fd mod Z.of_nat n) in
  exists l' r, make_reactor l = (l', Ok tt) /\ reactor_ l' = Some (Some r)
  /\ if (n =? 0)%nat then dispatchPeer l' fd a = (a, UB)
     else dispatchPeer l' fd a
          = ({| dispatched := dispatched a ++ [((next_object + i)%nat, fd)]; closed := closed a; logged := logged a |}, Ok tt)
          /\ exists x s, objects r !! (next_object + i)%nat = Some x /\ workers r !! i = Some s
          /\ match Async_registerFd (key_ x) fd flags fd mode r with
             | (r', Ok _) =>
                 exists s' ev, workers r' = <[i := s']> (workers r)
                 /\ interest (poller s') = <[fd := ev]> (interest (poller s))
                 /\ (forall mask, Event_of {| ev_events := mask; ev_data := ev_data ev |} = {| event_flags := toNotifyOn mask; tag := fd |})
                 /\ forall W (onReady : nat -> list Event -> M W unit) events w,
                      handleFds onReady (handlers_ s') events w = onReady (next_object + i)%nat events w
             | (r', Throw e) => r' = r /\ e = RuntimeError system_error
             | _ => False
             end.
Proof.
  intros Hf Ht Hn Hfd n i. unfold Listener.make_reactor. rewrite Hf.
  destruct (AsyncImpl_new_ok (workers_ l) handler_objects next_object Hn) as (r0 & -> & Hu & Hl & Ho & Hx).
  destruct (Nat.eqb_spec n 0) as [E0|Hne].
  - unfold n in E0. rewrite E0 in *. unfold Async_addHandler, mbind, M_bind, get. rewrite Hl. cbn.
    eexists _, r0. split; [reflexivity|]. split; [done|]. unfold dispatchPeer. cbn [reactor_ set_reactor transportKey].
    rewrite (proj2 (Z.eqb_neq fd (-1))) by lia. unfold Async_handlers, mbind, M_bind, lift.
    change (decodeKey (encodeKey 0 KeyMarker)) with (0, KeyMarker). cbv beta iota. rewrite Z.eqb_refl. cbn [negb].
    by destruct (workers r0).
  - assert (0 <= fd mod Z.of_nat n < Z.of_nat n) as Hm by (apply Z.mod_pos_bound; lia).
    destruct (clone_reached registerPoller clone registers transport r0 fd flags mode i Hu ltac:(unfold i; lia) ltac:(lia) Hfd)
      as (r & x & s & Ea & Eh & Hox & _ & Hs & Hreg). rewrite Ea.
    rewrite Hx, Hl in *. eexists _, r. split; [reflexivity|]. split; [done|]. split; [|].
    + unfold dispatchPeer. cbn [reactor_ set_reactor transportKey]. rewrite (proj2 (Z.eqb_neq fd (-1))) by lia.
      unfold mbind, M_bind, lift. rewrite Eh. fold n. rewrite length_map, length_seq.
      destruct (map Some (seq next_object n)) eqn:El.
      { apply (f_equal length) in El. rewrite length_map, length_seq in El. cbn in El. lia. }
      rewrite <- El. fold i. rewrite list_lookup_fmap, lookup_seq_lt by (unfold i; lia). done.
    + exists x, s. split; [done|]. split; [done|].
      destruct (Async_registerFd _ _ _ _ _ _) as [r' [u|e| |]]; try done.
      destruct Hreg as (s' & ev & Hw & _ & Hrest). exists s', ev. split; [done|]. exact Hrest.
Qed.
End Served.

(** ** The accepting loop *)

Section Loop.
Context (l : Listener) (r : AsyncImpl) (first n : nat).
Hypothesis has_reactor : reactor_ l = Some (Some r).
Hypothesis has_handlers : Async_handlers (transportKey l) r = Ok (map Some (seq first n)).
Hypothesis has_workers : (0 < n)%nat.
Hypothesis listening : 0 <= listen_fd l < 2 ^ 31.

(** What an answer of [accept4] adds. *)
Definition accept_effect (a : Accepting) (answer : accept_answer) : Accepting :=
  match answer with
  | Accepted fd _ true =>
      {| dispatched := dispatched a ++ [((first + Z.to_nat (fd mod Z.of_nat n))%nat, fd)]; closed := closed a; logged := logged a |}
  | Accepted fd _ false => {| dispatched := dispatched a; closed := closed a ++ [fd]; logged := logged a |}
  | AcceptFailed _ w => {| dispatched := dispatched a; closed := closed a; logged := logged a ++ [w] |}
  end.

(** A connection from somewhere, or an error that is not the listening socket's. *)
Definition tolerable (answer : accept_answer) : Prop :=
  match answer with Accepted fd from _ => 0 <= fd /\ from <> IP_unspec | AcceptFailed own _ => own = false end.

Definition is_listen (e : Event) : bool := isReadable e && (wraps 32 (tag e) =? listen_fd l).
Definition is_shutdown (e : Event) : bool := tag e =? wrapu 64 (event_fd (l_shutdownFd l)).
Definition connections (events : list Event) : nat := length (filter (fun e => is_listen e = true) events).

Lemma accept_one answer a :
  tolerable answer -> catch_socket_error (handleNewConnection l answer) a = (accept_effect a answer, Ok tt).
Proof.
  intros Ht. destruct answer as [fd from [|]|own w]; [|done|].
  - destruct Ht as [Hfd Hfrom]. unfold catch_socket_error, handleNewConnection. cbn [negb].
    unfold mbind at 1, M_bind at 1, lift.
    assert (exists ad, Address_fromUnix from = Ok ad) as [ad ->] by (destruct from; try done; by eexists).
    unfold dispatchPeer. rewrite (proj2 (Z.eqb_neq fd (-1))) by lia. rewrite has_reactor.
    unfold mbind, M_bind, lift. rewrite has_handlers, length_map, length_seq.
    assert (0 <= fd mod Z.of_nat n < Z.of_nat n) as Hm by (apply Z.mod_pos_bound; lia).
    destruct (map Some (seq first n)) eqn:El.
    { apply (f_equal length) in El. rewrite length_map, length_seq in El. cbn in El. lia. }
    rewrite <- El, list_lookup_fmap, lookup_seq_lt by lia. done.
  - cbn in Ht. by subst own.
Qed.

Lemma run_events_accept events accepts a :
  Forall (fun e => is_shutdown e = false) events -> (connections events <= length accepts)%nat ->
  Forall tolerable (take (connections events) accepts) -> forall rest,
  run_events l (events ++ rest) accepts a
  = run_events l rest (drop (connections events) accepts)
      (fold_left accept_effect (take (connections events) accepts) a).
Proof.
  intros Hs. revert accepts a. induction Hs as [|e events He Hs IH]; intros accepts a Hc Ht rest; [done|].
  cbn [app run_events]. unfold is_shutdown in He. rewrite He.
  assert (connections (e :: events) = (if is_listen e then S (connections events) else connections events)) as Ec.
  { unfold connections. rewrite filter_cons. by destruct (is_listen e). }
  rewrite Ec in *. unfold is_listen in *. destruct (isReadable e && (wraps 32 (tag e) =? listen_fd l)).
  - destruct accepts as [|answer accepts]; [cbn in Hc; lia|]. cbn [take] in Ht. inversion Ht; subst.
    unfold mbind, M_bind. rewrite accept_one by done. cbn [take drop fold_left]. apply IH; [cbn in Hc; lia|done].
  - by apply IH.
Qed.

(** C24. The loop of the listener accepts a connection for each time its socket is reported
    ready, in order, and gives it to the transport of the worker its descriptor selects;
    an error of one connection is logged, a descriptor that cannot be used is closed, and
    the loop goes on until the shutdown descriptor is reported, which ends it with what
    comes after that left alone. *)
Theorem accept_loop before events stop rest later accepts a :
  Forall (Forall (fun e => is_shutdown e = false)) before -> Forall (fun e => is_shutdown e = false) events ->
  is_shutdown stop = true ->
  let k := connections (concat before ++ events) in
  (k <= length accepts)%nat -> Forall tolerable (take k accepts) ->
  run l (map Some before ++ Some (events ++ stop :: rest) :: later) accepts a
  = (fold_left accept_effect (take k accepts) a, Ok tt).
Proof.
  intros Hb He Hstop. revert accepts a. induction Hb as [|evs before Hv Hb IH]; intros accepts a k Hk Ht; subst k.
  - cbn [map app concat run] in *. unfold mbind, M_bind. rewrite (run_events_accept events accepts a He Hk Ht (stop :: rest)).
    cbn [run_events]. unfold is_shutdown in Hstop. by rewrite Hstop.
  - cbn [map concat] in *. rewrite <- app_assoc in *.
    assert (connections (evs ++ concat before ++ events) = (connections evs + connections (concat before ++ events))%nat) as Ec.
    { unfold connections. by rewrite list.filter_app, length_app. }
    rewrite Ec in *. rewrite <- take_take_drop in Ht |- *. apply list.Forall_app in Ht as [Ht1 Ht2]. cbn [app run].
    unfold mbind, M_bind. rewrite <- (app_nil_r evs) at 1. rewrite run_events_accept by (done || lia). cbn [run_events].
    unfold mret, M_ret. cbv beta iota. rewrite fold_left_app. apply IH; [|done]. rewrite length_drop. lia.
Qed.
End Loop.

(** ** Witnesses *)

#[local] Instance accepting_kernel : EpollKernel := {| epoll_accepts _ _ := true; system_error := B "error" |}.
#[local] Instance quiet_system : ListenSystem :=
  {| sys_socket _ _ := 3; sys_setsockopt _ _ := true; sys_bind _ _ := true; sys_listen _ _ := true;
     sys_eventfd i := 10 + Z.of_nat i; sys_addrinfo _ := inl []; sys_error := B "error" |}.

(** Two workers; the transport is object 0, and its clones are objects 1 and 2. *)
Definition two_worker_listener : Listener :=
  init 2 Options.ReuseAddr 128 (Listener_new Address_default (Ok 0%nat)).

Definition nothing_accepted : Accepting := {| dispatched := []; closed := []; logged := [] |}.

Lemma eventfds_ok i : 0 <= sys_eventfd i.
Proof. cbn. lia. Qed.

Lemma connection_has_one_worker_witness :
  exists l' r, make_reactor no_registration (fun x => x) {[ 0%nat := HandlerObj_new ]} 1 two_worker_listener = (l', Ok tt)
  /\ reactor_ l' = Some (Some r)
  /\ dispatchPeer l' 7 nothing_accepted = ({| dispatched := [(2%nat, 7)]; closed := []; logged := [] |}, Ok tt).
Proof.
  destruct (connection_has_one_worker (H := accepting_kernel) (H0 := quiet_system) no_registration (fun x => x) {[ 0%nat := HandlerObj_new ]} 1 (fun _ _ => eq_refl)
              eventfds_ok (fun _ => eq_refl) 0 7 NotifyOn.Read Edge two_worker_listener nothing_accepted)
    as (l' & r & E & Er & Hd & _).
  - reflexivity.
  - lia.
  - cbn. unfold HandlerList.MaxHandlers. lia.
  - lia.
  - exists l', r. split; [exact E|]. split; [exact Er|]. exact Hd.
Defined.

Definition with_clone (h : nat) : Sync :=
  {| handlers_ := pushed HandlerList.new h; shutdown_ := false; shutdownFd := NotifyFd_new; poller := [] |}.
Definition running_listener : Listener :=
  set_polling {| event_fd := 8; counter := 0 |} []
    (set_listen_fd 3 (set_reactor (Some {| objects := ∅; next := 3; workers := [with_clone 1; with_clone 2] |})
      (encodeKey 0 KeyMarker) two_worker_listener)).

Lemma accept_loop_witness :
  run running_listener
    (map Some [[readable 3]; [readable 3; readable 3]] ++ Some ([] ++ readable 8 :: [readable 3]) :: [])
    [Accepted 20 (IP_v4 127 0 0 1) true; AcceptFailed false (B "Too many open files"); Accepted 21 (IP_v4 127 0 0 1) true]
    nothing_accepted
  = ({| dispatched := [(1%nat, 20); (2%nat, 21)]; closed := []; logged := [B "Too many open files"] |}, Ok tt).
Proof.
  rewrite (accept_loop running_listener _ 1 2 eq_refl eq_refl ltac:(lia) ltac:(cbn; lia)
             [[readable 3]; [readable 3; readable 3]] [] (readable 8) [readable 3] []).
  - reflexivity.
  - repeat constructor.
  - constructor.
  - reflexivity.
  - apply Nat.leb_le. reflexivity.
  - repeat constructor; cbn; (lia || done).
Defined.
