(* ===== verification/Description.v ===== *)
(** * The API description: [include/pistache/description.h], [src/common/description.cc]

    An application describes its interface: paths with their methods, parameters,
    responses and handlers, grouped by the path's text.  The description is what the
    router is filled from, and its paths are printed as Swagger has them. *)

From S2P Require Import Prelude Cxx HttpDefs Mime SegmentTree RouteTable Router.

Local Open Scope Z_scope.

Inductive Scheme : Set := Http | Https | Ws | Wss.
Definition schemeString (s : Scheme) : bytes :=
  match s with Http => B "http" | Https => B "https" | Ws => B "ws" | Wss => B "wss" end.

(** The data types, by their names in the source. *)
Inductive DataType : Set :=
  | Integer | Long | Float | Double | String | Byte | Binary | Bool | Date | Datetime | Password | Array.
Definition typeName (t : DataType) : bytes :=
  match t with
  | Integer | Long => B "integer" | Float | Double => B "number" | Bool => B "boolean" | Array => B "array"
  | String | Byte | Binary | Date | Datetime | Password => B "string"
  end.
Definition format (t : DataType) : bytes :=
  match t with
  | Integer => B "int32" | Long => B "int64" | Float => B "float" | Double => B "double" | String | Bool => []
  | Byte => B "byte" | Binary => B "binary" | Date => B "date" | Datetime => B "date-time" | Password => B "password"
  | Array => B "array"
  end.
Definition validate (_ : DataType) (_ : bytes) : bool := true.

(** ** Schema *)

Record ProduceConsume : Type := { produce : list MediaType; consume : list MediaType }.
Record Contact : Set := { contact_name : bytes; contact_url : bytes; email : bytes }.
Record License : Set := { license_name : bytes; license_url : bytes }.
Record Info : Set := {
  title : bytes; version : bytes; info_description : bytes; termsOfService_ : bytes; contact_ : option Contact; license_ : option License }.
Definition Info_new (title version description : bytes) : Info :=
  {| title := title; version := version; info_description := description; termsOfService_ := []; contact_ := None; license_ := None |}.

Definition termsOfService (value : bytes) (i : Info) : Info :=
  {| title := title i; version := version i; info_description := info_description i; termsOfService_ := value;
     contact_ := contact_ i; license_ := license_ i |}.
Definition contact (name url email : bytes) (i : Info) : Info :=
  {| title := title i; version := version i; info_description := info_description i; termsOfService_ := termsOfService_ i;
     contact_ := Some {| contact_name := name; contact_url := url; email := email |}; license_ := license_ i |}.
Definition license (name url : bytes) (i : Info) : Info :=
  {| title := title i; version := version i; info_description := info_description i; termsOfService_ := termsOfService_ i;
     contact_ := contact_ i; license_ := Some {| license_name := name; license_url := url |} |}.

Record Parameter_t : Set := { parameter_name : bytes; parameter_description : bytes; required : bool; type : option DataType }.
Definition Parameter_create (t : DataType) (name description : bytes) : Parameter_t :=
  {| parameter_name := name; parameter_description := description; required := true; type := Some t |}.
Record Response : Set := { statusCode : Z; response_description : bytes }.
Definition Response_new (code : Z) (description : bytes) : Response := {| statusCode := code; response_description := description |}.
Record PathDecl : Set := { decl_value : bytes; decl_method : Method.t }.

(** ** [Path::swaggerFormat] *)

(** The fragments [std::getline] reads: an empty last one is not read. *)
Fixpoint getlines (current path : bytes) : list bytes :=
  match path with
  | [] => if decide (current = []) then [] else [current]
  | c :: path' => if decide (c = slash) then current :: getlines [] path' else getlines (current ++ [c]) path'
  end.

Definition colon : Ascii.ascii := chr 58.

(** The first question mark is erased, wherever it is. *)
Definition processFragment (fragment : bytes) : bytes :=
  let fragment := match find_char question fragment with
                  | Some pos => take pos fragment ++ drop (S pos) fragment
                  | None => fragment
                  end in
  match fragment with
  | c :: name => if decide (c = colon) then B "{" ++ name ++ B "}" else fragment
  | [] => []
  end.

Fixpoint write_fragments (fragments : list bytes) : bytes :=
  match fragments with
  | [] => []
  | [last] => if decide (last = []) then [slash] else processFragment last
  | frag :: fragments' => processFragment frag ++ slash :: write_fragments fragments'
  end.

Definition swaggerFormat (path : bytes) : result bytes :=
  match path with
  | [] => Ok []
  | c :: _ =>
      if decide (c = slash) then Ok (write_fragments (getlines [] path))
      else Throw (InvalidArgument (B "Invalid path, should start with a '/'"))
  end.

Section Description.
Context {Handler : Type}.

Record Path : Type := {
  value : bytes; method : Method.t; description : bytes; hidden : bool; path_pc : ProduceConsume;
  parameters : list Parameter_t; responses : list Response; handler : option Handler }.
Definition Path_new (value : bytes) (method : Method.t) (description : bytes) : Path :=
  {| value := value; method := method; description := description; hidden := false;
     path_pc := {| produce := []; consume := [] |}; parameters := []; responses := []; handler := None |}.
Definition isBound (p : Path) : bool := bool_decide (is_Some (handler p)).

Definition isHidden (group : list Path) : bool :=
  match group with [] => false | _ => forallb hidden group end.

(** ** [PathGroup] *)

Abbreviation PathGroup := (gmap bytes (list Path)).

Definition paths (name : bytes) (g : PathGroup) : list Path := default [] (g !! name).
Definition has_method (m : Method.t) (p : Path) : bool := bool_decide (method p = m).
Definition hasPath (name : bytes) (m : Method.t) (g : PathGroup) : bool := existsb (has_method m) (paths name g).
Definition path (name : bytes) (m : Method.t) (g : PathGroup) : option Path := List.find (has_method m) (paths name g).

(** Where a path is; none is the iterator that points to nothing. *)
Abbreviation group_iterator := (option (bytes * nat)).
Definition add (p : Path) : M PathGroup group_iterator := fun g =>
  if hasPath (value p) (method p) g then (g, Ok None)
  else (<[value p := paths (value p) g ++ [p]]> g, Ok (Some (value p, length (paths (value p) g)))).

(** [&*it] *)
Definition dereference (it : group_iterator) : result (bytes * nat) :=
  match it with Some at_ => Ok at_ | None => UB end.

(** ** [PathBuilder]: the path it was made for, which stays where it is while no path is
    added to its group *)

Definition on_path (at_ : bytes * nat) (f : Path -> Path) : M PathGroup unit := modify (alter (alter f at_.2) at_.1).

Definition set_pc (pc : ProduceConsume) (p : Path) : Path :=
  {| value := value p; method := method p; description := description p; hidden := hidden p; path_pc := pc;
     parameters := parameters p; responses := responses p; handler := handler p |}.
Definition produces (mimes : list MediaType) (at_ : bytes * nat) : M PathGroup unit :=
  on_path at_ (fun p => set_pc {| produce := produce (path_pc p) ++ mimes; consume := consume (path_pc p) |} p).
Definition consumes (mimes : list MediaType) (at_ : bytes * nat) : M PathGroup unit :=
  on_path at_ (fun p => set_pc {| produce := produce (path_pc p); consume := consume (path_pc p) ++ mimes |} p).
Definition add_parameters (l : list Parameter_t) (p : Path) : Path :=
  {| value := value p; method := method p; description := description p; hidden := hidden p; path_pc := path_pc p;
     parameters := parameters p ++ l; responses := responses p; handler := handler p |}.
Definition parameter (t : DataType) (name description : bytes) (at_ : bytes * nat) : M PathGroup unit :=
  on_path at_ (add_parameters [Parameter_create t name description]).
Definition response (r : Response) (at_ : bytes * nat) : M PathGroup unit :=
  on_path at_ (fun p =>
    {| value := value p; method := method p; description := description p; hidden := hidden p; path_pc := path_pc p;
       parameters := parameters p; responses := responses p ++ [r]; handler := handler p |}).
Definition set_handler (h : Handler) (p : Path) : Path :=
  {| value := value p; method := method p; description := description p; hidden := hidden p; path_pc := path_pc p;
     parameters := parameters p; responses := responses p; handler := Some h |}.
Definition bind (h : Handler) (at_ : bytes * nat) : M PathGroup unit := on_path at_ (set_handler h).
Definition hide (b : bool) (at_ : bytes * nat) : M PathGroup unit :=
  on_path at_ (fun p =>
    {| value := value p; method := method p; description := description p; hidden := b; path_pc := path_pc p;
       parameters := parameters p; responses := responses p; handler := handler p |}).

(** ** [SubPath] *)

Record SubPath : Type := { prefix : bytes; sub_parameters : list Parameter_t }.
Definition SubPath_new (prefix : bytes) : SubPath := {| prefix := prefix; sub_parameters := [] |}.

Definition SubPath_route (s : SubPath) (name : bytes) (m : Method.t) (description : bytes) : M PathGroup (bytes * nat) :=
  it ← add (add_parameters (sub_parameters s) (Path_new (prefix s ++ name) m description)); lift (dereference it).
Definition SubPath_route_decl (s : SubPath) (fragment : PathDecl) (description : bytes) : M PathGroup (bytes * nat) :=
  SubPath_route s (decl_value fragment) (decl_method fragment) description.
(** The parameters stay behind. *)
Definition SubPath_path (s : SubPath) (pth_prefix : bytes) : SubPath := SubPath_new (prefix s ++ pth_prefix).
Definition SubPath_parameter (t : DataType) (name description : bytes) (s : SubPath) : SubPath :=
  {| prefix := prefix s; sub_parameters := sub_parameters s ++ [Parameter_create t name description] |}.

(** ** [Description] *)

Record Description : Type := {
  info_ : Info; host_ : bytes; basePath_ : bytes; schemes_ : list Scheme; pc : ProduceConsume; paths_ : PathGroup }.
Definition Description_new (title version description : bytes) : Description :=
  {| info_ := Info_new title version description; host_ := []; basePath_ := []; schemes_ := [];
     pc := {| produce := []; consume := [] |}; paths_ := ∅ |}.

Definition host (v : bytes) (d : Description) : Description :=
  {| info_ := info_ d; host_ := v; basePath_ := basePath_ d; schemes_ := schemes_ d; pc := pc d; paths_ := paths_ d |}.
Definition basePath (v : bytes) (d : Description) : Description :=
  {| info_ := info_ d; host_ := host_ d; basePath_ := v; schemes_ := schemes_ d; pc := pc d; paths_ := paths_ d |}.
Definition schemes (l : list Scheme) (d : Description) : Description :=
  {| info_ := info_ d; host_ := host_ d; basePath_ := basePath_ d; schemes_ := schemes_ d ++ l; pc := pc d; paths_ := paths_ d |}.
Definition Description_produces (mimes : list MediaType) (d : Description) : Description :=
  {| info_ := info_ d; host_ := host_ d; basePath_ := basePath_ d; schemes_ := schemes_ d;
     pc := {| produce := produce (pc d) ++ mimes; consume := consume (pc d) |}; paths_ := paths_ d |}.
Definition Description_consumes (mimes : list MediaType) (d : Description) : Description :=
  {| info_ := info_ d; host_ := host_ d; basePath_ := basePath_ d; schemes_ := schemes_ d;
     pc := {| produce := produce (pc d); consume := consume (pc d) ++ mimes |}; paths_ := paths_ d |}.
Definition on_info (f : Info -> Info) (d : Description) : Description :=
  {| info_ := f (info_ d); host_ := host_ d; basePath_ := basePath_ d; schemes_ := schemes_ d; pc := pc d; paths_ := paths_ d |}.
Definition on_paths {A} (m : M PathGroup A) : M Description A := fun d =>
  let '(g, r) := m (paths_ d) in
  ({| info_ := info_ d; host_ := host_ d; basePath_ := basePath_ d; schemes_ := schemes_ d; pc := pc d; paths_ := g |}, r).

Definition route (name : bytes) (m : Method.t) (description : bytes) : M PathGroup (bytes * nat) :=
  it ← add (Path_new name m description); lift (dereference it).
Definition Description_options (name : bytes) : PathDecl := {| decl_value := name; decl_method := Method.Options |}.
Definition Description_get (name : bytes) : PathDecl := {| decl_value := name; decl_method := Method.Get |}.
Definition Description_post (name : bytes) : PathDecl := {| decl_value := name; decl_method := Method.Post |}.
Definition Description_head (name : bytes) : PathDecl := {| decl_value := name; decl_method := Method.Head |}.
Definition Description_put (name : bytes) : PathDecl := {| decl_value := name; decl_method := Method.Put |}.
Definition Description_patch (name : bytes) : PathDecl := {| decl_value := name; decl_method := Method.Patch |}.
Definition Description_del (name : bytes) : PathDecl := {| decl_value := name; decl_method := Method.Delete |}.
Definition Description_trace (name : bytes) : PathDecl := {| decl_value := name; decl_method := Method.Trace |}.
Definition Description_connect (name : bytes) : PathDecl := {| decl_value := name; decl_method := Method.Connect |}.
Definition route_decl (decl : PathDecl) (description : bytes) : M PathGroup (bytes * nat) :=
  route (decl_value decl) (decl_method decl) description.

Definition Description_path (name : bytes) : SubPath := SubPath_new name.

(** ** [Router::initFromDescription]: the groups in the order of their map *)

Context {World : Type} (to_route : Handler -> Router.Handler World).
Context (group_order : PathGroup -> list (bytes * list Path)).

Definition not_bound (p : Path) : exn := RuntimeError (B "Path '" ++ value p ++ B "' is not bound").

Fixpoint add_routes (l : list Path) : M (Router World) unit :=
  match l with
  | [] => mret tt
  | p :: l' =>
      match handler p with
      | None => throw (not_bound p)
      | Some h => _ ← Router_addRoute (method p) (value p) (to_route h); add_routes l'
      end
  end.
Fixpoint add_groups (groups : list (bytes * list Path)) : M (Router World) unit :=
  match groups with [] => mret tt | (_, l) :: groups' => _ ← add_routes l; add_groups groups' end.
Definition initFromDescription (d : Description) : M (Router World) unit := add_groups (group_order (paths_ d)).
End Description.
