(* ===== verification/DescriptionRoutes.v ===== *)
(** * What a description says and what the router does

    The Swagger text of a path names the parameters of the pattern the router makes of it;
    a router filled from a description has its routes and no others; and a route that is
    described is found again. *)

From S2P Require Import Prelude Cxx HttpDefs Mime SegmentTree RouteTable Router Description.

Local Open Scope Z_scope.

(** ** Swagger paths *)

(** A segment of a pattern as Swagger has it: a parameter's key has its colon. *)
Definition shown (s : pseg) : bytes :=
  match s with
  | Named Param (_ :: name) | Named Optional (_ :: name) => B "{" ++ name ++ B "}"
  | Named _ key => key
  | Star => B "*"
  end.

Definition slashed (l : list bytes) : bytes := concat (map (cons slash) l).

Lemma getlines_word w cur rest : slash ∉ w -> getlines cur (w ++ rest) = getlines (cur ++ w) rest.
Proof.
  revert cur. induction w as [|c w IH]; intros cur Hw; [by rewrite app_nil_r|]. cbn [app getlines].
  rewrite decide_False by set_solver. rewrite IH by set_solver. by rewrite <- app_assoc.
Qed.

Lemma getlines_slashed w ws :
  Forall (fun w => w <> [] /\ slash ∉ w) (w :: ws) -> getlines [] (w ++ slashed ws) = w :: ws.
Proof.
  revert w. induction ws as [|w' ws IH]; intros w Hw; inversion Hw as [|? ? [Hne Hs] Hws]; subst; cbn [slashed map concat].
  - rewrite getlines_word by done. cbn [getlines app]. by rewrite decide_False.
  - rewrite getlines_word by done. cbn [app getlines]. rewrite decide_True by done. f_equal. by apply IH.
Qed.

Lemma getlines_trailing w ws :
  Forall (fun w => w <> [] /\ slash ∉ w) (w :: ws) -> getlines [] (w ++ slashed ws ++ [slash]) = w :: ws.
Proof.
  revert w. induction ws as [|w' ws IH]; intros w Hw; inversion Hw as [|? ? [Hne Hs] Hws]; subst; cbn [slashed map concat app].
  - rewrite getlines_word by done. cbn [getlines app]. by rewrite decide_True.
  - rewrite getlines_word by done. cbn [app getlines]. rewrite decide_True by done. f_equal.
    rewrite <- app_assoc. by apply IH.
Qed.

Lemma processFragment_shown w s :
  w <> [] -> pattern_segment w = Ok s -> processFragment w = shown s.
Proof.
  intros Hw. destruct w as [|c name]; [done|]. unfold pattern_segment, getSegmentType. cbv zeta.
  destruct (decide (c = chr 58)) as [->|Hc].
  - destruct (find_char question (chr 58 :: name)) as [n|] eqn:Ef.
    + case_decide as Hn; [done|]. intros [= <-]. cbn [length] in Hn. unfold processFragment. rewrite Ef.
      cbn [shown segment_key length]. rewrite (drop_ge (chr 58 :: name)) by (cbn [length]; lia). rewrite app_nil_r.
      replace (length name - 0)%nat with n by lia. destruct n as [|n]; [|cbn [firstn]; by rewrite decide_True].
      apply find_char_Some in Ef as [El _]. by injection El as [= ? _].
    + intros [= <-]. unfold processFragment. rewrite Ef. by rewrite decide_True.
  - destruct (decide (c = chr 42)) as [->|Hc'].
    + case_decide as Hl; [done|]. intros [= <-]. destruct name; [done|]. cbn in Hl. lia.
    + destruct (find_char question (c :: name)) eqn:Ef; [done|]. intros [= <-]. unfold processFragment. rewrite Ef.
      by rewrite decide_False.
Qed.

Lemma write_shown ws q :
  Forall (fun w => w <> [] /\ slash ∉ w) ws -> pattern_of ws = Ok q -> ws <> [] ->
  slash :: write_fragments ws = slashed (map shown q).
Proof.
  intros Hw. revert q. induction Hw as [|w ws [Hne Hs] Hw IH]; intros q Hq Hws; [done|].
  cbn [pattern_of] in Hq. destruct (pattern_segment w) as [s| | |] eqn:Es; try done. cbn in Hq.
  destruct (pattern_of ws) as [q'| | |] eqn:Eq; try done. cbn in Hq. injection Hq as <-.
  unfold slashed. cbn [map concat app]. rewrite <- (processFragment_shown w s Hne Es).
  destruct ws as [|w' ws].
  - cbn [write_fragments]. rewrite decide_False by done. injection Eq as <-. cbn. by rewrite app_nil_r.
  - change (concat (map (cons slash) (map shown q'))) with (slashed (map shown q')).
    rewrite <- (IH q' eq_refl) by done. done.
Qed.

(** C39. The Swagger text of a path is the router's pattern, segment by segment: what is
    fixed stays, and each parameter, optional or not, is named in braces as the router
    binds it.  A slash at the end, which the router ignores, is left out. *)
Theorem swagger_agrees ws q :
  ws <> [] -> Forall (fun w => w <> [] /\ slash ∉ w) ws -> pattern_of ws = Ok q ->
  swaggerFormat (slashed ws) = Ok (slashed (map shown q))
  /\ swaggerFormat (slashed ws ++ [slash]) = Ok (slashed (map shown q)).
Proof.
  intros Hne Hw Hq. pose proof (write_shown ws q Hw Hq Hne) as E. destruct ws as [|w ws]; [done|].
  assert (forall l, swaggerFormat (slash :: w ++ l) = Ok (write_fragments ([] :: getlines [] (w ++ l)))) as Hf.
  { intros l. unfold swaggerFormat. rewrite decide_True by done. cbn [getlines]. by rewrite decide_True. }
  change (slashed (w :: ws)) with (slash :: w ++ slashed ws). cbn [app]. rewrite <- app_assoc, !Hf, getlines_slashed, getlines_trailing by done.
  change (write_fragments ([] :: w :: ws)) with (slash :: write_fragments (w :: ws)). by rewrite E.
Qed.

(** ** Paths that are described *)

Section Found.
Context {Handler : Type}.
Implicit Type g : gmap bytes (list (Path (Handler := Handler))).

Lemma path_insert (name : bytes) (p : Path (Handler := Handler)) g n m :
  hasPath name (method p) g = false ->
  path n m (<[name := paths name g ++ [p]]> g)
  = if decide (n = name /\ m = method p) then Some p else path n m g.
Proof.
  intros Hn. unfold path, paths. destruct (decide (n = name)) as [->|Hne].
  - rewrite lookup_insert_eq. cbn [default from_option id]. change (default [] (g !! name)) with (paths name g) in *.
    assert (forall l, List.find (has_method m) (l ++ [p])
              = match List.find (has_method m) l with Some x => Some x | None => if has_method m p then Some p else None end) as E.
    { clear. intros l. induction l as [|x l IH]; [done|]. cbn. by destruct (has_method m x). }
    rewrite E. unfold has_method at 2. destruct (decide (m = method p)) as [->|Hm].
    + rewrite (decide_True (P := _ /\ _)) by done. rewrite bool_decide_eq_true_2 by done.
      destruct (List.find _ _) as [x|] eqn:Ef; [|done]. apply find_some in Ef as [Hx Hmx].
      unfold hasPath in Hn. assert (existsb (has_method (method p)) (paths name g) = true); [|congruence]. apply existsb_exists. eauto.
    + rewrite decide_False by naive_solver. rewrite bool_decide_eq_false_2 by done. by destruct (List.find _ _).
  - rewrite lookup_insert_ne by done. by rewrite decide_False by naive_solver.
Qed.

Lemma hasPath_path name m g : hasPath name m g = bool_decide (is_Some (path name m g)).
Proof.
  unfold hasPath, path. generalize (paths name g). intros l. induction l as [|p l IH]; [done|]. cbn. by destruct (has_method m p).
Qed.

Lemma bind_added name p h g :
  bind h (name, length (paths name g)) (<[name := paths name g ++ [p]]> g) = (<[name := paths name g ++ [set_handler h p]]> g, Ok tt).
Proof.
  unfold bind, on_path, modify. cbn [fst snd]. f_equal. apply map_eq. intros n. destruct (decide (n = name)) as [->|Hn].
  - rewrite lookup_alter_eq, !lookup_insert_eq. cbn. f_equal. induction (paths name g) as [|x l IH]; [done|]. cbn. by f_equal.
  - by rewrite lookup_alter_ne, !lookup_insert_ne.
Qed.

(** A path that is described and bound is found by its name and method, with its
    handler and the parameters of the sub path it was made in, and no other path is
    changed; describing the same name and method again dereferences an iterator that
    points to nothing. *)
Theorem described_found (s : SubPath) name m text h g :
  hasPath (prefix s ++ name) m g = false ->
  exists g', (at_ ← SubPath_route s name m text; bind h at_) g = (g', Ok tt)
  /\ path (prefix s ++ name) m g'
     = Some (set_handler h (add_parameters (sub_parameters s) (Path_new (prefix s ++ name) m text)))
  /\ (forall n m', ~ (n = prefix s ++ name /\ m' = m) -> path n m' g' = path n m' g)
  /\ forall s' name' text', prefix s' ++ name' = prefix s ++ name -> SubPath_route s' name' m text' g' = (g', UB).
Proof.
  intros Hn. set (full := prefix s ++ name) in *.
  set (p := add_parameters (sub_parameters s) (Path_new full m text)).
  exists (<[full := paths full g ++ [set_handler h p]]> g).
  pose proof (path_insert full (set_handler h p) g) as Hp. change (method (set_handler h p)) with m in Hp.
  split; [|split; [|split]].
  - unfold SubPath_route, add. fold full p. unfold mbind, M_bind. change (value p) with full. change (method p) with m. rewrite Hn.
    cbn [lift dereference]. apply bind_added.
  - rewrite Hp by done. by rewrite decide_True.
  - intros n m' Hne. rewrite Hp by done. by rewrite decide_False.
  - intros s' name' text' E. unfold SubPath_route, add. rewrite E. unfold mbind, M_bind. cbn [value method add_parameters Path_new].
    rewrite hasPath_path, Hp by done. by rewrite decide_True.
Qed.
End Found.

(** ** Routes that are described *)

Section Described.
Context {Handler World : Type} (to_route : Handler -> Router.Handler World).

Definition registered (r : Router World) (m : Method.t) (q : pattern) : option (Router.Handler World) :=
  t ← routes r !! m; lookup_route q t.

Lemma add_registers m v h (r : Router World) q :
  pattern_of (words [] v) = Ok q -> registered r m q = None ->
  exists r', Router_addRoute m (slash :: v) h r = (r', Ok tt)
  /\ forall m' q', registered r' m' q' = if decide (m' = m /\ q' = q) then Some h else registered r m' q'.
Proof.
  intros Hq Hn. unfold Router_addRoute.
  destruct (on_tree_slash m v (fun path => addRoute path h) r) as (path & _ & Es & E). rewrite E. clear E.
  set (t0 := default _ _). pose proof (addRoute_loop_spec (length path) path h t0 (le_n _)) as Hadd.
  change (addRoute_loop (length path) path h t0) with (addRoute path h t0) in Hadd. rewrite Es, Hq in Hadd. unfold added in Hadd.
  assert (forall q', lookup_route q' t0 = registered r m q') as Et0.
  { intros q'. unfold t0, registered. destruct (routes r !! m); [done|]. apply lookup_new. }
  rewrite Et0, Hn in Hadd. destruct (addRoute path h t0) as [t res]. cbn [fst snd] in Hadd. destruct Hadd as [-> Hl].
  eexists. split; [done|]. intros m' q'. unfold registered at 1. cbn [routes set_routes].
  destruct (decide (m' = m)) as [->|Hm].
  - rewrite lookup_insert_eq. cbn. rewrite Hl, Et0. destruct (decide (q' = q)) as [->|].
    + by rewrite decide_True.
    + by rewrite decide_False by naive_solver.
  - rewrite lookup_insert_ne by done. by rewrite decide_False by naive_solver.
Qed.

(** What a path of a description is for the router: it has a handler, starts with a slash
    and has valid segments. *)
Definition planned (p : Path (Handler := Handler)) : option (Method.t * pattern * Handler) :=
  match handler p, value p with
  | Some h, c :: v =>
      match pattern_of (words [] v) with
      | Ok q => if decide (c = slash) then Some (method p, q, h) else None
      | _ => None
      end
  | _, _ => None
  end.

Lemma add_routes_registers l rs (r : Router World) :
  Forall2 (fun p x => planned p = Some x) l rs -> NoDup rs.*1 ->
  (forall x, x ∈ rs -> registered r x.1.1 x.1.2 = None) ->
  exists r', add_routes to_route l r = (r', Ok tt)
  /\ forall m q h, registered r' m q = Some h <->
       registered r m q = Some h \/ exists x, (m, q, x) ∈ rs /\ h = to_route x.
Proof.
  intros Hp. revert r. induction Hp as [|p [[m q] x] l rs Hpx Hp IH]; intros r Hd Hn.
  { exists r. split; [done|]. set_solver. }
  cbn in Hd. apply list.NoDup_cons in Hd as [Hni Hd]. cbn [add_routes].
  unfold planned in Hpx. destruct (handler p) as [h|]; [|done]. destruct (value p) as [|c v]; [done|].
  destruct (pattern_of (words [] v)) as [q'| | |] eqn:Eq; try done. destruct (decide (c = slash)) as [->|]; [|done].
  injection Hpx as <- -> ->.
  destruct (add_registers (method p) v (to_route x) r q Eq (Hn (method p, q, x) ltac:(set_solver))) as (r1 & E1 & Hr1).
  destruct (IH r1 Hd) as (r' & E & Hr').
  { intros [[m' q''] y] Hy. cbn [fst snd]. rewrite Hr1. rewrite decide_False.
    - apply (Hn (m', q'', y)). set_solver.
    - intros [-> ->]. apply Hni, list_elem_of_fmap. by exists (method p, q, y). }
  exists r'. split; [by rewrite (bind_Ok _ _ _ _ _ E1)|]. intros m' q'' h. rewrite Hr', Hr1.
  assert (forall y, (method p, q, y) ∉ rs) as Hnot.
  { intros y Hy. apply Hni, list_elem_of_fmap. by exists (method p, q, y). }
  assert (registered r (method p) q = None) as Hnone by apply (Hn (method p, q, x) ltac:(set_solver)).
  case_decide as Hd'.
  - destruct Hd' as [-> ->]. split.
    + intros [[= <-]|(y & Hy & _)]; [|by destruct (Hnot y)]. right. exists x. set_solver.
    + intros [?|(y & Hy & ->)]; [congruence|]. left. apply elem_of_cons in Hy as [[= ->]|Hy]; [done|by destruct (Hnot y)].
  - split; (intros [?|(y & Hy & ->)]; [by left|right; exists y; split; [|done]]); [set_solver|].
    apply elem_of_cons in Hy as [[= -> -> ->]|Hy]; [by destruct Hd'|done].
Qed.

Lemma add_groups_flat (groups : list (bytes * list Path)) (r : Router World) :
  add_groups to_route groups r = add_routes to_route (concat (map snd groups)) r.
Proof.
  revert r. induction groups as [|[k l] groups IH]; intros r; [done|]. cbn [add_groups map concat snd].
  assert (forall l1 l2 s, add_routes to_route (l1 ++ l2) s = (_ ← add_routes to_route l1; add_routes to_route l2) s) as Happ.
  { clear. intros l1 l2. induction l1 as [|p l1 IH]; intros s; [done|]. cbn [app add_routes].
    destruct (handler p); [|done]. unfold mbind, M_bind in *. destruct (Router_addRoute _ _ _ _) as [s' [[]| | |]]; try done. }
  rewrite Happ. unfold mbind, M_bind. by destruct (add_routes to_route l r) as [s [[]| | |]].
Qed.

Context (group_order : gmap bytes (list (Path (Handler := Handler))) -> list (bytes * list (Path (Handler := Handler)))).
Hypothesis group_order_ok : forall m, group_order m ≡ₚ map_to_list m.

(** C20. A router filled from a description has exactly the description's routes: where each
    path has a handler and a valid pattern, and no two of one method have the same
    pattern, every route is added, and a method and a pattern lead to a handler exactly
    if a path of the description says so, in whatever order its groups come. *)
Theorem description_routes (d : Description (Handler := Handler)) rs :
  Forall2 (fun p x => planned p = Some x) (concat (map snd (group_order (paths_ d)))) rs -> NoDup rs.*1 ->
  exists r, initFromDescription to_route group_order d Router_new = (r, Ok tt)
  /\ forall m q h, registered r m q = Some h <->
       exists name l p x, paths_ d !! name = Some l /\ p ∈ l /\ planned p = Some (m, q, x) /\ h = to_route x.
Proof.
  intros Hp Hd. unfold initFromDescription. rewrite add_groups_flat.
  assert (forall m q, registered (Router_new (World := World)) m q = None) as Hnew.
  { intros m q. unfold registered. cbn. by rewrite lookup_empty. }
  destruct (add_routes_registers _ rs Router_new Hp Hd ltac:(intros; apply Hnew)) as (r & E & Hr).
  exists r. split; [done|]. intros m q h. rewrite Hr, Hnew.
  assert (forall y, y ∈ rs <-> exists name l p, paths_ d !! name = Some l /\ p ∈ l /\ planned p = Some y) as Hin.
  { intros y. transitivity (exists p, p ∈ concat (map snd (group_order (paths_ d))) /\ planned p = Some y).
    - clear -Hp. induction Hp as [|p x l rs Hpx Hp IH]; [set_solver|]. rewrite elem_of_cons, IH. split.
      + intros [->|(p' & ? & ?)]; [exists p|exists p']; set_solver.
      + intros (p' & [->|?]%elem_of_cons & ?); [left; congruence|right; by exists p'].
    - split.
      + intros (p & Hl & Ep). apply list_elem_of_In, in_concat in Hl as (l & Hl & Hpl). apply in_map_iff in Hl as ([name l'] & <- & Hl).
        apply list_elem_of_In in Hl. rewrite group_order_ok in Hl. apply elem_of_map_to_list in Hl.
        exists name, l', p. split; [done|]. split; [by apply list_elem_of_In|done].
      + intros (name & l & p & Hl & Hpl & Ep). exists p. split; [|done]. apply list_elem_of_In, in_concat. exists l.
        split; [|by apply list_elem_of_In]. apply in_map_iff. exists (name, l). split; [done|]. apply list_elem_of_In.
        rewrite group_order_ok. by apply elem_of_map_to_list. }
  setoid_rewrite Hin. naive_solver.
Qed.
End Described.

Definition a_word (w : bytes) : bool := match w with [] => false | _ => negb (existsb (fun c => bool_decide (c = slash)) w) end.

Lemma a_words ws : forallb a_word ws = true -> Forall (fun w => w <> [] /\ slash ∉ w) ws.
Proof.
  intros H. apply List.Forall_forall. intros w Hw. rewrite forallb_forall in H. specialize (H w Hw). unfold a_word in H.
  destruct w as [|c w]; [done|]. split; [done|]. intros Hs%list_elem_of_In. apply negb_true_iff in H.
  assert (existsb (fun c => bool_decide (c = slash)) (c :: w) = true) as E; [|congruence].
  apply existsb_exists. exists slash. split; [done|by apply bool_decide_eq_true].
Qed.

Lemma swagger_agrees_witness :
  swaggerFormat (B "/users/:id/posts/:page?/*/") = Ok (B "/users/{id}/posts/{page}/*").
Proof.
  exact (proj2 (swagger_agrees [B "users"; B ":id"; B "posts"; B ":page?"; B "*"]
    [Named Fixed (B "users"); Named Param (B ":id"); Named Fixed (B "posts"); Named Optional (B ":page"); Star]
    ltac:(done) ltac:(by apply a_words) ltac:(reflexivity))).
Defined.

(** Two groups, by the names of handlers. *)
Definition shop : Description (Handler := bytes) :=
  fst (on_paths (at1 ← route_decl (Description_get (B "/items")) (B "all"); _ ← bind (B "list") at1;
                 at2 ← route_decl (Description_post (B "/items")) (B "one more"); _ ← bind (B "add") at2;
                 at3 ← SubPath_route (SubPath_new (B "/items")) (B "/:id") Method.Get (B "one"); bind (B "show") at3)
         (Description_new (B "Shop") (B "1") [])).

Lemma description_routes_witness :
  exists r, initFromDescription logging map_to_list shop Router_new = (r, Ok tt)
  /\ forall m q h, registered r m q = Some h <->
       exists name l p x, paths_ shop !! name = Some l /\ p ∈ l /\ planned p = Some (m, q, x) /\ h = logging x.
Proof.
  refine (description_routes logging map_to_list (fun m => reflexivity _) shop
    [(Method.Get, [Named Fixed (B "items")], B "list");
     (Method.Post, [Named Fixed (B "items")], B "add");
     (Method.Get, [Named Fixed (B "items"); Named Param (B ":id")], B "show")] _ _).
  - vm_compute. repeat constructor.
  - by apply (bool_decide_eq_true_1 (NoDup _)).
Defined.

Lemma described_found_witness :
  exists g', (at_ ← SubPath_route {| prefix := B "/items"; sub_parameters := [Parameter_create String (B "id") []] |}
                 (B "/:id") Method.Put (B "change"); bind (B "change") at_) (paths_ shop) = (g', Ok tt)
  /\ path (B "/items/:id") Method.Put g'
     = Some (set_handler (B "change") (add_parameters [Parameter_create String (B "id") []]
         (Path_new (B "/items/:id") Method.Put (B "change"))))
  /\ (forall n m', ~ (n = B "/items/:id" /\ m' = Method.Put) -> path n m' g' = path n m' (paths_ shop))
  /\ forall s' name' text', prefix s' ++ name' = B "/items/:id" -> SubPath_route s' name' Method.Put text' g' = (g', UB).
Proof.
  apply (described_found {| prefix := B "/items"; sub_parameters := [Parameter_create String (B "id") []] |} (B "/:id")
    Method.Put (B "change") (B "change") (paths_ shop)). reflexivity.
Defined.
