(* ===== verification/Swagger.v ===== *)
(** * Files and the Swagger pages: [Http::serveFile] of [src/common/http.cc] and [Swagger]
      of [src/common/description.cc]

    [serveFile] hands the transport a head and then a file's name.  [Swagger::install] adds
    a custom handler that serves the files of a directory and the description's text.  The
    file system is a parameter. *)

From S2P Require Import Prelude Cxx Stream HttpDefs QValue Mime Net HttpHeader HttpHeaders HttpMessage HttpResponse SegmentTree RouteTable Router Description.

Local Open Scope Z_scope.

(** What [open] and [fstat] say: a failure with the error's text, or the size if [fstat]
    has it.  [canonical] throws for a path that does not exist. *)
Inductive opened : Set :=
  | NotOpened (no_entry : bool) (reason : bytes)
  | Opened (st_size : option Z).
Class FileSystem := {
  open_file : bytes -> opened;
  canonical : bytes -> result bytes }.

(** ** [serveFile] *)

(** Beside a rejected promise: [asyncWrite] of the head, and when that is written, of the
    file. *)
Inductive file_outcome : Type :=
  | FileRejected (reason : bytes)
  | WriteThenFile (fd : Z) (head : RawBuffer) (fileName : bytes).

Section ServeFile.
Context `{DateLib, Iteration, FileSystem}.

Definition file_type (fileName : bytes) (contentType : MediaType) : MediaType :=
  if MediaType_isValid contentType then contentType else MediaType_fromFile fileName.

(** The status line and the headers are written through streams of their own, which the
    macro does not test. *)
Definition serveFile (fileName : bytes) (contentType : MediaType) : M ResponseWriter file_outcome :=
  match open_file fileName with
  | NotOpened true reason => throw (HttpError (Code.value Code.Not_Found) reason)
  | NotOpened false reason => throw (HttpError (Code.value Code.Internal_Server_Error) reason)
  | Opened None => throw (HttpError (Code.value Code.Internal_Server_Error) [])
  | Opened (Some st_size) =>
      w ← get;
      _ ← on_buf (writeStatusLine (version_ (response_ w)) (Code.value Code.Ok));
      _ ← (if MediaType_isValid (file_type fileName contentType) then setMime (file_type fileName contentType) else mret tt);
      w ← get;
      _ ← on_buf (writeHeaders (headers_ (response_ w)));
      ok ← on_buf (put_all (writeHeader (HContentLength (wrapu 64 st_size)) ++ [Ok [crlf]]));
      if negb ok then mret (FileRejected exceeded)
      else
        w ← get;
        match peer_ w with
        | None => throw (RuntimeError (B "Write failed: Broken pipe"))
        | Some fd => mret (WriteThenFile fd (DynamicStreamBuf_buffer (buf_ w)) fileName)
        end
  end.
End ServeFile.

(** ** [Swagger] *)

Section Swagger.
Context {Handler : Type}.

Record Swagger : Type := {
  description_ : Description (Handler := Handler); uiPath_ : bytes; uiDirectory_ : bytes; apiPath_ : bytes;
  serializer_ : option (Description (Handler := Handler) -> bytes) }.

Definition Swagger_new (d : Description) : Swagger :=
  {| description_ := d; uiPath_ := []; uiDirectory_ := []; apiPath_ := []; serializer_ := None |}.
Definition uiPath (path : bytes) (s : Swagger) : Swagger :=
  {| description_ := description_ s; uiPath_ := path; uiDirectory_ := uiDirectory_ s; apiPath_ := apiPath_ s; serializer_ := serializer_ s |}.
Definition uiDirectory `{FileSystem} (dir : bytes) : M Swagger unit :=
  d ← lift (canonical dir);
  modify (fun s => {| description_ := description_ s; uiPath_ := uiPath_ s; uiDirectory_ := d; apiPath_ := apiPath_ s; serializer_ := serializer_ s |}).
Definition apiPath (path : bytes) (s : Swagger) : Swagger :=
  {| description_ := description_ s; uiPath_ := uiPath_ s; uiDirectory_ := uiDirectory_ s; apiPath_ := path; serializer_ := serializer_ s |}.
Definition serializer (serialize : Description -> bytes) (s : Swagger) : Swagger :=
  {| description_ := description_ s; uiPath_ := uiPath_ s; uiDirectory_ := uiDirectory_ s; apiPath_ := apiPath_ s; serializer_ := Some serialize |}.

(** *** The handler's [struct Path] *)

(** [back() == '/']. *)
Definition hasTrailingSlash (res : bytes) : result bool :=
  match list.last res with Some c => Ok (bool_decide (c = slash)) | None => UB end.
Definition trailingSlashValue (value : bytes) : bytes :=
  if decide (list.last value = Some slash) then value else value ++ [slash].
Definition isPrefix (value res : bytes) : bool := bool_decide (take (length value) res = value).
Definition stripPrefix (value res : bytes) : bytes := if isPrefix value res then drop (length value) res else res.
Definition matches (value res : bytes) : bool := bool_decide (value = res) || bool_decide (res = trailingSlashValue value).
Definition join (value value_parm : bytes) : bytes :=
  trailingSlashValue value ++ match value_parm with c :: l => if decide (c = slash) then l else value_parm | [] => [] end.

Context {World : Type}.
Context `{DateLib, Iteration, ContentEncodings, Compressors, FileSystem}.
Context (sent : outcome -> M World unit) (file_sent : file_outcome -> M World unit) (setIdle : Z -> bool -> M World unit).

(** [response.send(code, body, mime)]. *)
Definition send_typed (code : Z) (body : bytes) (mime : MediaType) (response : ResponseWriter) : M World unit :=
  _ ← (match peer_ response with Some fd => setIdle fd true | None => mret tt end);
  o ← lift (snd (send code body mime response)); sent o.
Definition serve (fileName : bytes) (response : ResponseWriter) : M World unit :=
  o ← lift (snd (serveFile fileName MediaType_default response)); file_sent o.

Definition json : MediaType := MediaType_of Type_.Application Subtype.Json Suffix.None.

Definition uiHandler (s : Swagger) : Router.Handler World := fun req response =>
  let res := resource_ (http_request req) in
  if matches (uiPath_ s) res then
    trailing ← lift (hasTrailingSlash res);
    _ ← (if negb trailing then
           send_typed (Code.value Code.Moved_Permanently) [] MediaType_default
             (on_headers (Collection_add (HLocation (uiPath_ s ++ [slash]))) response)
         else serve (join (uiDirectory_ s) (B "index.html")) response);
    mret RouteOk
  else if isPrefix (uiPath_ s) res then
    path ← lift (canonical (join (uiDirectory_ s) (stripPrefix (uiPath_ s) res)));
    if isPrefix (uiDirectory_ s) path then _ ← serve path response; mret RouteOk
    else _ ← send_typed (Code.value Code.Not_Found) [] MediaType_default response; mret RouteFailure
  else if decide (res = apiPath_ s) then
    text ← match serializer_ s with Some f => mret (f (description_ s)) | None => throw BadFunctionCall end;
    _ ← send_typed (Code.value Code.Ok) text json response; mret RouteOk
  else mret RouteFailure.

Definition install (s : Swagger) (r : Router World) : Router World := addCustomHandler (uiHandler s) r.
End Swagger.

(** ** The text that goes before a file *)

Definition typed_headers (fileName : bytes) (contentType : MediaType) (c : Collection) : Collection :=
  if MediaType_isValid (file_type fileName contentType) then Collection_setMime (file_type fileName contentType) c else c.

Definition file_head `{DateLib, Iteration} (m : Message) (size : Z) (hs : list bytes) : bytes :=
  status_text (set_code 200 m) ++ mjoin hs ++ B "Content-Length: " ++ to_string size ++ crlf ++ crlf.

Section Served.
Context `{DateLib, Iteration, FileSystem}.

Lemma head_tail_text size :
  puts_text (writeHeader (HContentLength size) ++ [Ok [crlf]]) = Some (B "Content-Length: " ++ to_string size ++ crlf ++ crlf).
Proof. cbn. by rewrite ?app_nil_r, <- ?app_assoc. Qed.

(** [serveFile] hands over the head of a 200, whatever code the response was given and
    without its cookies: the status line, the headers with the file's type and the size
    [fstat] gave, and then the file; unless the head does not fit, or the peer has gone. *)
Theorem served_file w fileName contentType size hs :
  dyn_wf (buf_ w) -> content (buf_ w) = [] -> open_file fileName = Opened (Some size) ->
  mapM header_line_text (Collection_list header_order (typed_headers fileName contentType (headers_ (response_ w)))) = Some hs ->
  let head := file_head (response_ w) (wrapu 64 size) hs in
  (serveFile fileName contentType w).2
  = if bool_decide (Z.of_nat (length head) <= maxSize_ (buf_ w)) then
      match peer_ w with
      | Some fd => Ok (WriteThenFile fd (Stream.Raw head (length head)) fileName)
      | None => Throw (RuntimeError (B "Write failed: Broken pipe"))
      end
    else Ok (FileRejected exceeded).
Proof.
  intros Hd Hc Ho Hh head. unfold serveFile. rewrite Ho.
  destruct (put_all_append _ _ _ Hd (status_line_text (set_code 200 (response_ w)))) as (ok1 & d1 & E1 & A1).
  destruct (put_all_append _ d1 _ (app_wf _ _ _ _ A1) (headers_puts_text _ _ Hh)) as (ok2 & d2 & E2 & A2).
  destruct (put_all_append _ d2 _ (app_wf _ _ _ _ A2) (head_tail_text (wrapu 64 size))) as (ok3 & d3 & E3 & A3).
  assert (appended head (buf_ w) ok3 d3) as A.
  { unfold head, file_head. eapply appended_app; [done|exact A1| |].
    - eapply appended_app; [apply A1|exact A2|exact A3|]. intros _. right. done.
    - intros _. right. intros En%(f_equal length). rewrite !length_app in En.
      change (length (B "Content-Length: ")) with 16%nat in En. cbn in En. lia. }
  set (w1 := set_buf d1 w).
  set (w2 := if MediaType_isValid (file_type fileName contentType)
             then on_headers (Collection_setMime (file_type fileName contentType)) w1 else w1).
  rewrite (bind_Ok get _ w w w) by done.
  rewrite (bind_Ok (on_buf (writeStatusLine (version_ (response_ w)) (Code.value Code.Ok))) _ w w1 ok1).
  2: { unfold on_buf, writeStatusLine. change (version_ (response_ w)) with (version_ (set_code 200 (response_ w))).
       change (Code.value Code.Ok) with (code_ (set_code 200 (response_ w))). by rewrite E1. }
  rewrite (bind_Ok _ _ w1 w2 tt).
  2: { unfold w2. by destruct (MediaType_isValid _). }
  rewrite (bind_Ok get _ w2 w2 w2) by done.
  assert (headers_ (response_ w2) = typed_headers fileName contentType (headers_ (response_ w))) as Eh.
  { unfold w2, typed_headers. by destruct (MediaType_isValid _). }
  assert (buf_ w2 = d1) as Eb by (unfold w2; by destruct (MediaType_isValid _)).
  rewrite (bind_Ok (on_buf (writeHeaders (headers_ (response_ w2)))) _ w2 (set_buf d2 w2) ok2).
  2: { unfold on_buf, writeHeaders. by rewrite Eh, Eb, E2. }
  rewrite (bind_Ok (on_buf _) _ (set_buf d2 w2) (set_buf d3 w2) ok3).
  2: { unfold on_buf. cbn [buf_ set_buf]. by rewrite E3. }
  assert (peer_ w2 = peer_ w) as Ep by (unfold w2; by destruct (MediaType_isValid _)).
  destruct A as [W Em C O]. rewrite Hc in C, O. cbn [length app] in C, O. rewrite Nat.sub_0_r in C.
  change (0 + length head)%nat with (length head) in O. rewrite <- O. destruct ok3; [|done].
  symmetry in O. apply bool_decide_eq_true in O. rewrite take_ge in C by lia. cbn [negb].
  rewrite (bind_Ok get _ _ _ (set_buf d3 w2)) by done. cbn [peer_ set_buf buf_]. rewrite Ep.
  destruct (peer_ w); [|done]. cbn [snd]. by rewrite buffer_content, C.
Qed.
End Served.

(** ** What the handler serves *)

Lemma isPrefix_spec value res : isPrefix value res = true <-> exists rest, res = value ++ rest.
Proof.
  unfold isPrefix. rewrite bool_decide_eq_true. split.
  - intros E. exists (drop (length value) res). by rewrite <- E at 1; rewrite take_drop.
  - intros [rest ->]. by rewrite take_app_length.
Qed.

Lemma stripPrefix_app value rest : stripPrefix value (value ++ rest) = rest.
Proof.
  unfold stripPrefix. assert (isPrefix value (value ++ rest) = true) as -> by (apply isPrefix_spec; eauto).
  apply drop_app_length.
Qed.

(** A path is the directory, or below it. *)
Definition inside (d p : bytes) : Prop := p = d \/ exists rest, p = trailingSlashValue d ++ rest.

Lemma isPrefix_inside d p :
  list.last d <> Some slash ->
  isPrefix d p = true <-> inside d p \/ exists c rest, c <> slash /\ p = d ++ c :: rest.
Proof.
  intros Hd. rewrite isPrefix_spec. unfold inside, trailingSlashValue. rewrite decide_False by done. split.
  - intros [[|c rest] ->]; [left; left; by rewrite app_nil_r|].
    destruct (decide (c = slash)) as [->|Hc]; [|right; eauto]. left. right. exists rest. by rewrite <- app_assoc.
  - intros [[->|[rest ->]]|(c & rest & _ & ->)]; [exists []; by rewrite app_nil_r|exists (slash :: rest); by rewrite <- app_assoc|eauto].
Qed.

Section UI.
Context {Handler World : Type}.
Context `{DateLib, Iteration, ContentEncodings, Compressors, FileSystem}.
Context (sent : outcome -> M World unit) (file_sent : file_outcome -> M World unit) (setIdle : Z -> bool -> M World unit).

Abbreviation handle := (uiHandler (Handler := Handler) sent file_sent setIdle).
Abbreviation serve := (serve file_sent).
Abbreviation send_typed := (send_typed sent setIdle).

Lemma uiHandler_file (s : Swagger (Handler := Handler)) req response rest w p :
  resource_ (http_request req) = uiPath_ s ++ rest -> matches (uiPath_ s) (uiPath_ s ++ rest) = false ->
  canonical (join (uiDirectory_ s) rest) = Ok p ->
  handle s req response w
  = (if isPrefix (uiDirectory_ s) p then _ ← serve p response; mret RouteOk
     else _ ← send_typed (Code.value Code.Not_Found) [] MediaType_default response; mret RouteFailure) w.
Proof.
  intros Hr Hm Hp. unfold uiHandler. rewrite Hr, Hm.
  assert (isPrefix (uiPath_ s) (uiPath_ s ++ rest) = true) as -> by (apply isPrefix_spec; eauto).
  rewrite stripPrefix_app, Hp. rewrite (bind_Ok (lift (Ok p)) _ w w p) by done. done.
Qed.

(** A request below the UI's path is for the file that the rest of it names under the
    UI's directory.  What the canonical path says decides: a file inside the directory is
    served; one whose path does not start with the directory's is answered 404 and the
    handler says it failed; but a file beside the directory is served too, where its name
    only continues the directory's. *)
Theorem ui_files (s : Swagger (Handler := Handler)) req response rest w p :
  resource_ (http_request req) = uiPath_ s ++ rest -> matches (uiPath_ s) (uiPath_ s ++ rest) = false ->
  list.last (uiDirectory_ s) <> Some slash ->
  canonical (join (uiDirectory_ s) rest) = Ok p ->
  (inside (uiDirectory_ s) p \/ (exists c name, c <> slash /\ p = uiDirectory_ s ++ c :: name) ->
     handle s req response w = (_ ← serve p response; mret RouteOk) w)
  /\ (~ (exists more, p = uiDirectory_ s ++ more) ->
     handle s req response w
     = (_ ← send_typed (Code.value Code.Not_Found) [] MediaType_default response; mret RouteFailure) w).
Proof.
  intros Hr Hm Hd Hp. rewrite (uiHandler_file s req response rest w p Hr Hm Hp). split.
  - intros Hin. by rewrite (proj2 (isPrefix_inside _ p Hd) Hin).
  - intros Hn. destruct (isPrefix _ p) eqn:E; [|done]. by apply isPrefix_spec in E.
Qed.

(** Without [uiPath] and [uiDirectory], every request but the one for the root is for
    the file of that name on the whole file system, and the API's text is never sent. *)
Theorem ui_not_set (s : Swagger (Handler := Handler)) req response c rest w :
  uiPath_ s = [] -> uiDirectory_ s = [] ->
  resource_ (http_request req) = slash :: c :: rest -> 
  handle s req response w
  = (p ← lift (canonical (slash :: c :: rest)); _ ← serve p response; mret RouteOk) w.
Proof.
  intros Hu Hd Hr. unfold uiHandler. rewrite Hu, Hd, Hr. unfold join, stripPrefix, trailingSlashValue.
  change (isPrefix [] (slash :: c :: rest)) with true. cbn [matches length drop list.last]. cbv beta iota.
  rewrite decide_False by done. rewrite decide_True by done. cbn [app].
  assert (matches [] (slash :: c :: rest) = false) as -> by done.
  destruct (canonical (slash :: c :: rest)) as [p| | |]; try done.
Qed.

(** A request for a file outside the directory is answered twice: the handler sends a
    404 and says it failed, and the router sends its own. *)
Theorem outside_answered_twice (order : gmap bytes (node (Router.Handler World)) -> list (bytes * node (Router.Handler World)))
    (method_order : gmap Method.t (node (Router.Handler World)) -> list (Method.t * node (Router.Handler World)))
    (s : Swagger (Handler := Handler)) request response path rest w p :
  method_order ∅ = [] -> resource_ request = slash :: path ->
  resource_ request = uiPath_ s ++ rest -> matches (uiPath_ s) (uiPath_ s ++ rest) = false ->
  canonical (join (uiDirectory_ s) rest) = Ok p -> ~ (exists more, p = uiDirectory_ s ++ more) ->
  Router.route order method_order sent setIdle (install sent file_sent setIdle s Router_new) request response w
  = (_ ← send_typed (Code.value Code.Not_Found) [] MediaType_default (ResponseWriter_clone response);
     _ ← send_response sent setIdle 404 (B "Could not find a matching route") response;
     mret NotFound) w.
Proof.
  intros Ho Hs Hr Hm Hp Hn. unfold Router.route. rewrite Hs. cbn [middlewares install addCustomHandler Router_new run_middlewares].
  rewrite sanitize_slash. do 2 (rewrite (bind_Ok _ _ w w _ eq_refl); cbv beta iota).
  unfold install. cbn [routes addCustomHandler Router_new]. rewrite lookup_empty. rewrite (bind_Ok _ _ w w None eq_refl). cbv beta iota.
  cbn [customHandlers notFoundHandler addCustomHandler Router_new app run_custom].
  set (req := {| http_request := request; params_ := []; splats_ := [] |}).
  assert (isPrefix (uiDirectory_ s) p = false) as Hf.
  { destruct (isPrefix _ p) eqn:E; [|done]. by apply isPrefix_spec in E. }
  pose proof (uiHandler_file s req (ResponseWriter_clone response) rest w p Hr Hm Hp) as E. rewrite Hf in E.
  rewrite Ho. unfold mbind, M_bind in E |- *. fold req. rewrite E.
  destruct (send_typed _ _ _ _ w) as [w1 [[]| | |]]; done.
Qed.
End UI.

(** ** Witnesses *)

Definition small_files : FileSystem := {|
  open_file _ := Opened (Some 3);
  canonical p :=
    match List.find (fun x => bool_decide (x.1 = p))
            [(B "/srv/ui/a.png", B "/srv/ui/a.png"); (B "/srv/ui/../ui-old/b.png", B "/srv/ui-old/b.png");
             (B "/srv/ui/../../etc/passwd", B "/etc/passwd"); (B "/etc/passwd", B "/etc/passwd")] with
    | Some x => Ok x.2
    | None => Throw (RuntimeError (B "filesystem error: cannot make canonical path: No such file or directory"))
    end |}.

Definition docs : Swagger (Handler := bytes) :=
  {| description_ := Description_new (B "Shop") (B "1") []; uiPath_ := B "/doc"; uiDirectory_ := B "/srv/ui";
     apiPath_ := B "/api.json"; serializer_ := None |}.

Definition log_sent (o : outcome) : M (list bytes) unit := fun w => (w ++ [B "sent"], Ok tt).
Definition log_file (o : file_outcome) : M (list bytes) unit := fun w =>
  (w ++ [match o with WriteThenFile _ _ f => f | FileRejected r => r end], Ok tt).
Definition log_idle (fd : Z) (b : bool) : M (list bytes) unit := fun w => (w ++ [B "idle"], Ok tt).
Definition logged_ui (s : Swagger (Handler := bytes)) : Router.Handler (list bytes) :=
  uiHandler (H := no_dates) (H0 := plain_order) (H1 := no_encodings) (H2 := no_compressors) (H3 := small_files)
    log_sent log_file log_idle s.
Definition asked (resource : bytes) : RestRequest := {| http_request := get_request resource; params_ := []; splats_ := [] |}.

Lemma served_file_witness :
  (serveFile (H := no_dates) (H0 := plain_order) (H1 := small_files) (B "/srv/ui/a.png") MediaType_default small_writer).2
  = Ok (WriteThenFile 7 (Stream.Raw (B "HTTP/1.1 200 OK" ++ crlf ++ B "Server: pistache" ++ crlf
        ++ B "Content-Type: image/png" ++ crlf ++ B "Content-Length: 3" ++ crlf ++ crlf) 81) (B "/srv/ui/a.png")).
Proof.
  rewrite (served_file (H := no_dates) (H0 := plain_order) (H1 := small_files) small_writer (B "/srv/ui/a.png") MediaType_default 3
    [B "Server: pistache" ++ crlf; B "Content-Type: image/png" ++ crlf]); [vm_compute; reflexivity|..].
  - apply new_wf. vm_compute. split; discriminate.
  - reflexivity.
  - reflexivity.
  - vm_compute. reflexivity.
Defined.

Lemma ui_files_witness :
  logged_ui docs (asked (B "/doc/../ui-old/b.png")) fresh_response [] = ([B "/srv/ui-old/b.png"], Ok RouteOk)
  /\ logged_ui docs (asked (B "/doc/a.png")) fresh_response [] = ([B "/srv/ui/a.png"], Ok RouteOk).
Proof.
  split; unfold logged_ui.
  - etransitivity.
    + apply (proj1 (ui_files (H := no_dates) (H0 := plain_order) (H1 := no_encodings) (H2 := no_compressors) (H3 := small_files)
        log_sent log_file log_idle docs (asked (B "/doc/../ui-old/b.png")) fresh_response (B "/../ui-old/b.png") []
        (B "/srv/ui-old/b.png") eq_refl eq_refl ltac:(done) ltac:(vm_compute; reflexivity))).
      right. by exists (chr 45), (B "old/b.png").
    + vm_compute. reflexivity.
  - etransitivity.
    + apply (proj1 (ui_files (H := no_dates) (H0 := plain_order) (H1 := no_encodings) (H2 := no_compressors) (H3 := small_files)
        log_sent log_file log_idle docs (asked (B "/doc/a.png")) fresh_response (B "/a.png") []
        (B "/srv/ui/a.png") eq_refl eq_refl ltac:(done) ltac:(vm_compute; reflexivity))).
      left. right. by exists (B "a.png").
    + vm_compute. reflexivity.
Defined.

Lemma ui_not_set_witness :
  logged_ui (apiPath (B "/api.json") (Swagger_new (Description_new (B "Shop") (B "1") []))) (asked (B "/etc/passwd")) fresh_response []
  = ([B "/etc/passwd"], Ok RouteOk).
Proof.
  unfold logged_ui. rewrite (ui_not_set (H := no_dates) (H0 := plain_order) (H1 := no_encodings) (H2 := no_compressors)
    (H3 := small_files) log_sent log_file log_idle (apiPath (B "/api.json") (Swagger_new (Description_new (B "Shop") (B "1") [])))
    (asked (B "/etc/passwd")) fresh_response (chr 101) (B "tc/passwd") []
    eq_refl eq_refl eq_refl). vm_compute. reflexivity.
Defined.

Lemma outside_answered_twice_witness :
  Router.route (H := no_dates) (H0 := plain_order) (H1 := no_encodings) (H2 := no_compressors) map_to_list map_to_list
    log_sent log_idle
    (install (H := no_dates) (H0 := plain_order) (H1 := no_encodings) (H2 := no_compressors) (H3 := small_files)
       log_sent log_file log_idle docs Router_new)
    (get_request (B "/doc/../../etc/passwd")) fresh_response []
  = ([B "idle"; B "sent"; B "idle"; B "sent"], Ok NotFound).
Proof.
  rewrite (outside_answered_twice (H := no_dates) (H0 := plain_order) (H1 := no_encodings) (H2 := no_compressors)
    (H3 := small_files) log_sent log_file log_idle map_to_list map_to_list docs (get_request (B "/doc/../../etc/passwd"))
    fresh_response (B "doc/../../etc/passwd") (B "/../../etc/passwd") [] (B "/etc/passwd")); [vm_compute; reflexivity|..].
  - reflexivity.
  - reflexivity.
  - reflexivity.
  - reflexivity.
  - vm_compute. reflexivity.
  - intros [more Hm]. vm_compute in Hm. discriminate.
Defined.
