(* ===== verification/EmEvents.v ===== *)
(** * The events of the emulated poller: [src/common/eventmeth.cc]

    Where there is no epoll the code emulates it over libevent: an event is an object
    that libevent watches, or a counter in place of an eventfd or a timerfd, and an
    [EventMethEpollEquivImpl] keeps the events it was given.  Events and pollers are
    objects in a store.  What libevent and the system answer is a parameter, and the
    calls made to them are a trace. *)

From S2P Require Import Prelude Cxx.

Local Open Scope Z_scope.

(** ** Flags and types *)

(** The flags of libevent, and of [EVM_...]. *)
Definition EVM_TIMEOUT : Z := 1.
Definition EVM_READ : Z := 2.
Definition EVM_WRITE : Z := 4.
Definition EVM_SIGNAL : Z := 8.
Definition EVM_PERSIST : Z := 16.
Definition EVM_ET : Z := 32.
Definition EV_FINALIZE : Z := 64.
Definition EVM_CLOSED : Z := 128.
Definition EV_FEATURE_ET : Z := 1.
Definition EV_FEATURE_EARLY_CLOSE : Z := 8.

(** [flags & flag], as a condition. *)
Definition has (flag flags : Z) : bool := negb (Z.land flags flag =? 0).
(** [flags & ~flag] *)
Definition without (flag flags : Z) : Z := Z.ldiff flags flag.

Inductive EvCtlAction : Set := Add | Mod | Del.
Inductive EmEventType : Set := EmEvReg | EmEvEventFd | EmEvTimer.
#[export] Instance EvCtlAction_eq_dec : EqDecision EvCtlAction.
Proof. solve_decision. Defined.
#[export] Instance EmEventType_eq_dec : EqDecision EmEventType.
Proof. solve_decision. Defined.

Definition F_SETFDL_NOTHING : Z := 35458.
Definition PST_O_NONBLOCK : Z := 2048.
Definition PST_FD_CLOEXEC : Z := 1.
(** What [PST_FCNTL] answers where it can not tell. *)
Definition PST_FCNTL_GETFL_UNKNOWN : Z := -3468.
Definition F_GETFD : Z := 1.
Definition F_SETFD : Z := 2.
Definition F_GETFL : Z := 3.
Definition F_SETFL : Z := 4.

Definition EPERM : Z := 1.
Definition EBADF : Z := 9.
Definition EAGAIN : Z := 11.
Definition EEXIST : Z := 17.
Definition EINVAL : Z := 22.

(** The greatest value of a counter. *)
Definition counter_max : Z := 2 ^ 64 - 2.

Record timeval : Set := { tv_sec : Z; tv_usec : Z }.

(** How [ctl] and [setPriorTv] convert milliseconds. *)
Definition timeval_of (ms : Z) : timeval :=
  if ms <? 1000 then {| tv_sec := 0; tv_usec := ms * 1000 |} else {| tv_sec := Z.quot ms 1000; tv_usec := 0 |}.

(** ** Objects *)

(** A [struct event] of libevent; [event_new] fixes its descriptor. *)
Record event : Set := { ev_id : nat; ev_fd : Z }.

(** An [EmEvent] or an object of a derived class.  [prior_tv_] is [None] where
    [prior_tv_cptr_] is null.  Of an [EmEventCtr]: the counter, whether the condition
    variables are set, and whether a thread that waits holds [counter_val_mutex_]. *)
Record EmEvent : Set := {
  kind : EmEventType;
  ev_ : option event;
  flags_ : Z;
  add_was_artificial_ : bool;
  event_meth_epoll_equiv_impl_ : option nat;
  ready_flags_ : Z;
  user_data_ : Z;
  requested_f_setfd_flags_ : Z;
  requested_f_setfl_flags_ : Z;
  requested_actual_fd_ : Z;
  prior_tv_ : option timeval;
  counter_val_ : Z;
  blocking : bool;
  counter_held : bool }.

Definition set_ev (x : option event) (e : EmEvent) : EmEvent :=
  Build_EmEvent (kind e) x (flags_ e) (add_was_artificial_ e) (event_meth_epoll_equiv_impl_ e) (ready_flags_ e) (user_data_ e) (requested_f_setfd_flags_ e) (requested_f_setfl_flags_ e) (requested_actual_fd_ e) (prior_tv_ e) (counter_val_ e) (blocking e) (counter_held e).
Definition set_flags_ (x : Z) (e : EmEvent) : EmEvent :=
  Build_EmEvent (kind e) (ev_ e) x (add_was_artificial_ e) (event_meth_epoll_equiv_impl_ e) (ready_flags_ e) (user_data_ e) (requested_f_setfd_flags_ e) (requested_f_setfl_flags_ e) (requested_actual_fd_ e) (prior_tv_ e) (counter_val_ e) (blocking e) (counter_held e).
Definition set_artificial (x : bool) (e : EmEvent) : EmEvent :=
  Build_EmEvent (kind e) (ev_ e) (flags_ e) x (event_meth_epoll_equiv_impl_ e) (ready_flags_ e) (user_data_ e) (requested_f_setfd_flags_ e) (requested_f_setfl_flags_ e) (requested_actual_fd_ e) (prior_tv_ e) (counter_val_ e) (blocking e) (counter_held e).
Definition set_impl (x : option nat) (e : EmEvent) : EmEvent :=
  Build_EmEvent (kind e) (ev_ e) (flags_ e) (add_was_artificial_ e) x (ready_flags_ e) (user_data_ e) (requested_f_setfd_flags_ e) (requested_f_setfl_flags_ e) (requested_actual_fd_ e) (prior_tv_ e) (counter_val_ e) (blocking e) (counter_held e).
Definition setReadyFlags (x : Z) (e : EmEvent) : EmEvent :=
  Build_EmEvent (kind e) (ev_ e) (flags_ e) (add_was_artificial_ e) (event_meth_epoll_equiv_impl_ e) x (user_data_ e) (requested_f_setfd_flags_ e) (requested_f_setfl_flags_ e) (requested_actual_fd_ e) (prior_tv_ e) (counter_val_ e) (blocking e) (counter_held e).
Definition setUserData (x : Z) (e : EmEvent) : EmEvent :=
  Build_EmEvent (kind e) (ev_ e) (flags_ e) (add_was_artificial_ e) (event_meth_epoll_equiv_impl_ e) (ready_flags_ e) x (requested_f_setfd_flags_ e) (requested_f_setfl_flags_ e) (requested_actual_fd_ e) (prior_tv_ e) (counter_val_ e) (blocking e) (counter_held e).
Definition set_setfd (x : Z) (e : EmEvent) : EmEvent :=
  Build_EmEvent (kind e) (ev_ e) (flags_ e) (add_was_artificial_ e) (event_meth_epoll_equiv_impl_ e) (ready_flags_ e) (user_data_ e) x (requested_f_setfl_flags_ e) (requested_actual_fd_ e) (prior_tv_ e) (counter_val_ e) (blocking e) (counter_held e).
Definition set_setfl (x : Z) (e : EmEvent) : EmEvent :=
  Build_EmEvent (kind e) (ev_ e) (flags_ e) (add_was_artificial_ e) (event_meth_epoll_equiv_impl_ e) (ready_flags_ e) (user_data_ e) (requested_f_setfd_flags_ e) x (requested_actual_fd_ e) (prior_tv_ e) (counter_val_ e) (blocking e) (counter_held e).
Definition set_actual_fd (x : Z) (e : EmEvent) : EmEvent :=
  Build_EmEvent (kind e) (ev_ e) (flags_ e) (add_was_artificial_ e) (event_meth_epoll_equiv_impl_ e) (ready_flags_ e) (user_data_ e) (requested_f_setfd_flags_ e) (requested_f_setfl_flags_ e) x (prior_tv_ e) (counter_val_ e) (blocking e) (counter_held e).
Definition set_prior_tv (x : option timeval) (e : EmEvent) : EmEvent :=
  Build_EmEvent (kind e) (ev_ e) (flags_ e) (add_was_artificial_ e) (event_meth_epoll_equiv_impl_ e) (ready_flags_ e) (user_data_ e) (requested_f_setfd_flags_ e) (requested_f_setfl_flags_ e) (requested_actual_fd_ e) x (counter_val_ e) (blocking e) (counter_held e).
Definition set_counter (x : Z) (e : EmEvent) : EmEvent :=
  Build_EmEvent (kind e) (ev_ e) (flags_ e) (add_was_artificial_ e) (event_meth_epoll_equiv_impl_ e) (ready_flags_ e) (user_data_ e) (requested_f_setfd_flags_ e) (requested_f_setfl_flags_ e) (requested_actual_fd_ e) (prior_tv_ e) x (blocking e) (counter_held e).
Definition set_blocking (x : bool) (e : EmEvent) : EmEvent :=
  Build_EmEvent (kind e) (ev_ e) (flags_ e) (add_was_artificial_ e) (event_meth_epoll_equiv_impl_ e) (ready_flags_ e) (user_data_ e) (requested_f_setfd_flags_ e) (requested_f_setfl_flags_ e) (requested_actual_fd_ e) (prior_tv_ e) (counter_val_ e) x (counter_held e).
Definition set_held (x : bool) (e : EmEvent) : EmEvent :=
  Build_EmEvent (kind e) (ev_ e) (flags_ e) (add_was_artificial_ e) (event_meth_epoll_equiv_impl_ e) (ready_flags_ e) (user_data_ e) (requested_f_setfd_flags_ e) (requested_f_setfl_flags_ e) (requested_actual_fd_ e) (prior_tv_ e) (counter_val_ e) (blocking e) x.

Definition resetReadyFlags : EmEvent -> EmEvent := setReadyFlags 0.
Definition orIntoReadyFlags (flags : Z) (e : EmEvent) : EmEvent := setReadyFlags (Z.lor (ready_flags_ e) flags) e.
Definition resetAddWasArtificial : EmEvent -> EmEvent := set_artificial false.

(** What the constructors leave. *)
Definition EmEvent_new (k : EmEventType) (initval : Z) : EmEvent :=
  {| kind := k; ev_ := None; flags_ := 0; add_was_artificial_ := false; event_meth_epoll_equiv_impl_ := None;
     ready_flags_ := 0; user_data_ := 0; requested_f_setfd_flags_ := F_SETFDL_NOTHING;
     requested_f_setfl_flags_ := F_SETFDL_NOTHING; requested_actual_fd_ := -1; prior_tv_ := None;
     counter_val_ := initval; blocking := false; counter_held := false |}.

Definition getActualFdPrv (e : EmEvent) : Z :=
  match ev_ e with Some v => if ev_fd v <? 0 then -1 else ev_fd v | None => requested_actual_fd_ e end.

(** An [EventMethEpollEquivImpl], and whether [getReadyEmEvents] left its
    [interest_mutex_] locked. *)
Record EMEE : Set := {
  interest_ : gset nat;
  ready_ : gset nat;
  int_mut_locked_by_get_ready_em_events_ : bool }.
Definition EMEE_new : EMEE := {| interest_ := ∅; ready_ := ∅; int_mut_locked_by_get_ready_em_events_ := false |}.
Definition set_interest (f : gset nat -> gset nat) (m : EMEE) : EMEE :=
  {| interest_ := f (interest_ m); ready_ := ready_ m;
     int_mut_locked_by_get_ready_em_events_ := int_mut_locked_by_get_ready_em_events_ m |}.
Definition set_ready (f : gset nat -> gset nat) (m : EMEE) : EMEE :=
  {| interest_ := interest_ m; ready_ := f (ready_ m);
     int_mut_locked_by_get_ready_em_events_ := int_mut_locked_by_get_ready_em_events_ m |}.
Definition set_locked (b : bool) (m : EMEE) : EMEE :=
  {| interest_ := interest_ m; ready_ := ready_ m; int_mut_locked_by_get_ready_em_events_ := b |}.

(** ** The calls to libevent and to the system *)

Inductive call : Set :=
  | event_base_new
  | event_new (base : nat) (fd flags : Z) (arg : nat)
  | event_add (ev : event) (tv : option timeval)
  | event_del (ev : event)
  | event_active (ev : event) (flags : Z)
  | event_free (ev : event)
  | event_free_finalize (ev : event)
  | event_base_loop (base : nat)
  | event_base_loopbreak (base : nat)
  | fcntl (fd cmd arg : Z)
  | sock_close (fd : Z)
  | sock_read (fd : Z) (count : nat)
  | sock_write (fd : Z) (buf : bytes).

(** What libevent's backend can do; what a call returns after the calls before it, where a
    negative result is -1 or a null pointer; the text of an error. *)
Class LibEvent := {
  event_base_features : Z;
  call_result : list call -> call -> Z;
  system_error : bytes }.

(** Whether every call succeeds. *)
Definition no_failures `{LibEvent} : Prop := forall t c, 0 <= call_result t c.

(** The store: events and pollers by address ([emee_cptr_set_] has the addresses of
    [emees]), the next address, the trace, [errno]. *)
Record World : Set := {
  events : gmap nat EmEvent;
  emees : gmap nat EMEE;
  next : nat;
  trace : list call;
  errno : Z }.
Definition World_new : World := {| events := ∅; emees := ∅; next := 1; trace := []; errno := 0 |}.

Definition set_events (f : gmap nat EmEvent -> gmap nat EmEvent) (w : World) : World :=
  {| events := f (events w); emees := emees w; next := next w; trace := trace w; errno := errno w |}.
Definition set_emees (f : gmap nat EMEE -> gmap nat EMEE) (w : World) : World :=
  {| events := events w; emees := f (emees w); next := next w; trace := trace w; errno := errno w |}.
Definition set_next (n : nat) (w : World) : World :=
  {| events := events w; emees := emees w; next := n; trace := trace w; errno := errno w |}.
Definition add_trace (c : call) (w : World) : World :=
  {| events := events w; emees := emees w; next := next w; trace := trace w ++ [c]; errno := errno w |}.
Definition set_errno (n : Z) (w : World) : World :=
  {| events := events w; emees := emees w; next := next w; trace := trace w; errno := n |}.

(** The object at an address, if it is alive. *)
Definition event_at (p : nat) : M World EmEvent :=
  w ← get; match events w !! p with Some e => mret e | None => lift UB end.
Definition emee_at (m : nat) : M World EMEE :=
  w ← get; match emees w !! m with Some e => mret e | None => lift UB end.
Definition update (p : nat) (f : EmEvent -> EmEvent) : M World unit :=
  _ ← event_at p; modify (set_events (alter f p)).
Definition update_emee (m : nat) (f : EMEE -> EMEE) : M World unit :=
  _ ← emee_at m; modify (set_emees (alter f m)).
(** Return -1 with [errno] set. *)
Definition error (n : Z) : M World Z := _ ← modify (set_errno n); mret (-1).

(** A thread that waits for ever does not return. *)
Definition waits {A} : M World A := lift OutOfFuel.
(** Locking [interest_mutex_].  The thread that polls holds it from [getReadyEmEvents] on,
    and to lock a mutex one holds is undefined. *)
Definition guard (m : nat) : M World unit :=
  e ← emee_at m; if int_mut_locked_by_get_ready_em_events_ e then lift UB else mret tt.
(** Locking [counter_val_mutex_]. *)
Definition guard_counter (p : nat) : M World unit :=
  e ← event_at p; if counter_held e then waits else mret tt.

(** The addresses of a [std::set] of pointers in the order of the set. *)
Class Addresses := {
  in_order : gset nat -> list nat;
  in_order_perm X : in_order X ≡ₚ elements X }.

Section Operations.
Context `{LibEvent, Addresses}.

(** The call of a function of libevent or of the system. *)
Definition do_call (c : call) : M World Z :=
  w ← get; _ ← modify (add_trace c); mret (call_result (trace w) c).
(** [TRY_RET] *)
Definition TRY_RET (ret : Z) : M World Z := if ret <? 0 then throw (RuntimeError system_error) else mret ret.

(** ** Finding an event *)

Definition findFdInInterest (m : nat) (fd : nat) : M World bool :=
  _ ← guard m; e ← emee_at m; mret (bool_decide (fd ∈ interest_ e)).

Fixpoint find_in (l : list nat) (arg : nat) : M World (option nat) :=
  match l with
  | [] => mret None
  | m :: l' => found ← findFdInInterest m arg; if (found : bool) then mret (Some m) else find_in l' arg
  end.
(** The poller with this event; the argument is not null. *)
Definition findEmEventInAnInterestSet (arg : nat) : M World (option nat) :=
  w ← get; find_in (in_order (dom (emees w))) arg.

Definition getEventMethEpollEquivImplFromEmeeSet (m : nat) : M World (option nat) :=
  w ← get; mret (if bool_decide (m ∈ dom (emees w)) then Some m else None).

Definition getEventMethEpollEquivImpl (p : nat) : M World (option nat) :=
  e ← event_at p;
  match event_meth_epoll_equiv_impl_ e with
  | None => mret None
  | Some m =>
      found ← getEventMethEpollEquivImplFromEmeeSet m;
      match found with
      | None => _ ← update p (set_impl None); mret None
      | Some _ => mret (Some m)
      end
  end.

(** ** [EmEvent] *)

Definition setFlags (p : nat) (flgs : Z) : M World unit :=
  let flgs := without EVM_TIMEOUT flgs in
  e ← event_at p;
  _ ← match event_meth_epoll_equiv_impl_ e with
      | Some m =>
          if has EVM_CLOSED flgs then
            _ ← emee_at m;
            if negb (has EV_FEATURE_EARLY_CLOSE event_base_features)
            then throw (RuntimeError (B "No early close: Operation not supported")) else mret tt
          else mret tt
      | None => mret tt
      end;
  update p (set_flags_ flgs).

Definition setFdlFlagsHelper (actual_fd get_cmd set_cmd f_setfdl_flags : Z) : M World unit :=
  let set flags :=
    fcntl_res ← do_call (fcntl actual_fd set_cmd flags);
    if fcntl_res =? -1 then throw (RuntimeError (B "fcntl set failed")) else mret tt in
  if f_setfdl_flags =? F_SETFDL_NOTHING then mret tt
  else if 0 <=? f_setfdl_flags then
    if negb (actual_fd =? -1) || negb (f_setfdl_flags =? 0) then
      if actual_fd =? -1 then throw (InvalidArgument (B "actual_fd not set")) else set f_setfdl_flags
    else mret tt
  else if actual_fd =? -1 then throw (InvalidArgument (B "actual_fd not set"))
  else
    old_setfdl_flags ← do_call (fcntl actual_fd get_cmd 0);
    let f_setfdl_flags := 0 - f_setfdl_flags in
    if negb (old_setfdl_flags =? f_setfdl_flags) then
      set (if negb (old_setfdl_flags =? PST_FCNTL_GETFL_UNKNOWN) then Z.lor f_setfdl_flags old_setfdl_flags else f_setfdl_flags)
    else mret tt.

Definition setFdlFlagsIfNeededAndActualFd (p : nat) (actual_fd : Z) : M World unit :=
  if actual_fd <? 0 then mret tt
  else
    e ← event_at p;
    _ ← (if negb (requested_f_setfd_flags_ e =? F_SETFDL_NOTHING) then
           _ ← setFdlFlagsHelper actual_fd F_GETFD F_SETFD (requested_f_setfd_flags_ e);
           update p (set_setfd F_SETFDL_NOTHING)
         else mret tt);
    if negb (requested_f_setfl_flags_ e =? F_SETFDL_NOTHING) then
      _ ← setFdlFlagsHelper actual_fd F_GETFL F_SETFL (requested_f_setfl_flags_ e);
      update p (set_setfl F_SETFDL_NOTHING)
    else mret tt.

Definition init (p : nat) (actual_fd flags f_setfd_flags f_setfl_flags : Z) : M World unit :=
  if has EVM_SIGNAL flags && has (Z.lor EVM_READ EVM_WRITE) flags
  then throw (InvalidArgument (B "event for signal, but also read/write - can't be both"))
  else if has EVM_SIGNAL flags && (actual_fd =? -1)
  then throw (InvalidArgument (B "actual_fd not set, must be a signal number"))
  else
    _ ← update p (set_setfd f_setfd_flags);
    _ ← update p (set_setfl f_setfl_flags);
    _ ← update p (set_actual_fd actual_fd);
    _ ← setFdlFlagsIfNeededAndActualFd p actual_fd;
    _ ← setFlags p flags;
    update p resetReadyFlags.

(** [new]: an object at a fresh address. *)
Definition alloc (e : EmEvent) : M World nat :=
  w ← get;
  _ ← modify (set_next (S (next w)));
  _ ← modify (set_events <[next w := e]>);
  mret (next w).

Definition make_new (actual_fd flags f_setfd_flags f_setfl_flags : Z) : M World nat :=
  p ← alloc (EmEvent_new EmEvReg 0);
  _ ← init p actual_fd flags f_setfd_flags f_setfl_flags;
  mret p.

Definition setPriorTv (p : nat) (timeval_cptr : option Z) : M World unit :=
  update p (set_prior_tv (option_map timeval_of timeval_cptr)).

(** The part the two [settime]s share: the poller of the event, which can not be changed. *)
Definition settime_emee (p : nat) (emee : option nat) : M World (option nat) :=
  e ← event_at p;
  match emee with
  | Some m =>
      if bool_decide (event_meth_epoll_equiv_impl_ e = Some m) then mret emee
      else match event_meth_epoll_equiv_impl_ e with
           | Some _ => throw (InvalidArgument (B "EmEventTmrFd EMEE cannot be changed"))
           | None => _ ← update p (set_impl emee); mret emee
           end
  | None => mret (event_meth_epoll_equiv_impl_ e)
  end.

Definition EmEvent_settime (p : nat) (new_timeval_cptr : option Z) (emee : option nat) : M World Z :=
  e ← event_at p;
  match ev_ e, event_meth_epoll_equiv_impl_ e with
  | Some _, Some _ => throw (RuntimeError (B "trying to settime after ev_ created and EMEE assigned"))
  | _, _ => _ ← settime_emee p emee; _ ← setPriorTv p new_timeval_cptr; mret 0
  end.

Definition disarm (p : nat) : M World Z :=
  e ← event_at p;
  match ev_ e with None => mret 0 | Some v => r ← do_call (event_del v); TRY_RET r end.

Definition deactivate (p : nat) : M World Z :=
  e ← event_at p;
  match ev_ e with
  | None => mret 0
  | Some v =>
      r ← do_call (event_del v);
      event_del_res ← TRY_RET r;
      if negb (event_del_res =? 0) then mret event_del_res
      else do_call (event_add v (prior_tv_ e))
  end.

Definition deactivateAfterTriggerIfNeeded (p : nat) : M World Z :=
  e ← event_at p;
  if negb (has EVM_ET (flags_ e)) then
    if negb (has EVM_PERSIST (flags_ e)) then disarm p else mret 0
  else if has EVM_PERSIST (flags_ e) then deactivate p
  else disarm p.

(** [EmEvent::close], which the destructor calls. *)
Definition close (p : nat) : M World Z :=
  e ← event_at p;
  let actual_fd := getActualFdPrv e in
  finalize_res ← match ev_ e with
                 | None => mret 0
                 | Some v => _ ← update p (set_ev None); do_call (event_free_finalize v)
                 end;
  _ ← update p (set_actual_fd (-1));
  actual_fd_close_res ← (if 0 <? actual_fd then do_call (sock_close actual_fd) else mret 0);
  if finalize_res <? 0 then mret (-1)
  else if actual_fd_close_res <? 0 then mret (-1)
  else mret 0.

(** [delete] *)
Definition delete_event (p : nat) : M World unit := _ ← close p; modify (set_events (delete p)).

Definition detachEventMethEpollEquivImmedFree (p : nat) : M World unit :=
  e ← event_at p;
  _ ← match ev_ e with
      | Some v => _ ← update p (set_ev None); _ ← do_call (event_free v); mret tt
      | None => mret tt
      end;
  update p (set_impl None).

(** The flags [event_new] is called with. *)
Definition getFlagsToActuallyUseWithLibEvEventNew (candidate_flags : Z) : Z :=
  let flags := Z.lor candidate_flags EV_FINALIZE in
  let flags := if negb (has EV_FEATURE_ET event_base_features) then without EVM_ET flags else flags in
  without EVM_TIMEOUT flags.

(** The poller of the event in [EmEvent::ctl]. *)
Definition ctl_emee (p : nat) (emee : option nat) : M World unit :=
  e ← event_at p;
  match emee with
  | Some m =>
      if bool_decide (event_meth_epoll_equiv_impl_ e = Some m) then mret tt
      else
        _ ← match event_meth_epoll_equiv_impl_ e with
            | Some _ =>
                owning_emee ← findEmEventInAnInterestSet p;
                match owning_emee with
                | Some m' => if (m' =? m)%nat then mret tt else throw (RuntimeError (B "Unsupported emee change"))
                | None => mret tt
                end
            | None => mret tt
            end;
        update p (set_impl (Some m))
  | None =>
      owning_emee ← findEmEventInAnInterestSet p;
      match owning_emee with
      | Some m => update p (set_impl (Some m))
      | None => throw (InvalidArgument (B "emee null and owning_emee null"))
      end
  end.

(** [event_new], or nothing where it returns null. *)
Definition new_ev (p : nat) (actual_fd flags : Z) : M World (option event) :=
  e ← event_at p;
  match event_meth_epoll_equiv_impl_ e with
  | None => lift UB
  | Some m =>
      _ ← emee_at m;
      w ← get;
      r ← do_call (event_new m actual_fd (getFlagsToActuallyUseWithLibEvEventNew flags) p);
      mret (if r <? 0 then None else Some {| ev_id := length (trace w); ev_fd := actual_fd |})
  end.

(** The [ev_] of [Add] and [Mod]; the result is whether [ctl] goes on. *)
Definition ctl_ev (p : nat) (actual_fd events : Z) : M World bool :=
  e ← event_at p;
  match ev_ e with
  | None =>
      _ ← setFlags p events;
      e ← event_at p;
      let requested := (actual_fd =? -1) && negb (requested_actual_fd_ e =? -1) in
      let actual_fd := if requested then requested_actual_fd_ e else actual_fd in
      _ ← (if requested then update p (set_actual_fd (-1)) else mret tt);
      if (actual_fd =? -1) && has (Z.lor EVM_READ EVM_WRITE) (flags_ e)
         && (has EVM_WRITE (flags_ e) || (has EVM_READ (flags_ e) && bool_decide (kind e = EmEvReg)))
      then _ ← error EBADF; mret false
      else
        v ← new_ev p actual_fd (flags_ e);
        match v with
        | None => throw (RuntimeError system_error)
        | Some v => _ ← update p (set_ev (Some v)); mret true
        end
  | Some old_ev =>
      if negb (events =? 0) && negb (events =? flags_ e) then
        _ ← update p (set_ev None);
        _ ← do_call (event_free_finalize old_ev);
        v ← new_ev p actual_fd events;
        match v with
        | None => throw (RuntimeError (B "new replacement_ev is NULL"))
        | Some v => _ ← update p (set_ev (Some v)); _ ← setFlags p events; mret true
        end
      else mret true
  end.

Definition EmEvent_ctl (op : EvCtlAction) (p : nat) (emee : option nat) (events : Z) (timeval_cptr : option Z)
    : M World Z :=
  _ ← ctl_emee p emee;
  e ← event_at p;
  let tv := match timeval_cptr with Some ms => Some (timeval_of ms) | None => prior_tv_ e end in
  go ← (if bool_decide (op = Del) then mret true else ctl_ev p (getActualFdPrv e) events);
  if negb go then mret (-1)
  else
    _ ← match timeval_cptr with Some ms => update p (set_prior_tv (Some (timeval_of ms))) | None => mret tt end;
    _ ← update p resetReadyFlags;
    e ← event_at p;
    match ev_ e with
    | None => lift UB
    | Some v => do_call (match op with Add | Mod => event_add v tv | Del => event_del v end)
    end.

(** ** The interest list *)

(** [ctlEx], with the [ctl] it calls. *)
Definition ctlEx_with (em_ctl : EvCtlAction -> nat -> option nat -> Z -> option Z -> M World Z)
    (op : EvCtlAction) (m : nat) (em_event : option nat) (events : Z) (timeval_cptr : option Z) : M World Z :=
  match em_event with
  | None => error EINVAL
  | Some p =>
      eme_found_in_interest ← findFdInInterest m p;
      refused ← (if bool_decide (op = Add) && eme_found_in_interest
                 then e ← event_at p; mret (negb (add_was_artificial_ e)) else mret false);
      if (refused : bool) then error EEXIST
      else
        ctl_res ← em_ctl op p (Some m) events timeval_cptr;
        if negb (ctl_res =? 0) then mret ctl_res
        else
          _ ← guard m;
          match op with
          | Add | Mod =>
              if negb eme_found_in_interest then
                e ← emee_at m;
                if bool_decide (p ∈ interest_ e) then error EPERM
                else _ ← update_emee m (set_interest (fun i => i ∪ {[ p ]})); mret 0
              else mret 0
          | Del =>
              _ ← update_emee m (set_interest (fun i => i ∖ {[ p ]}));
              _ ← update_emee m (set_ready (fun r => r ∖ {[ p ]}));
              mret 0
          end
  end.

(** ** [EmEventCtr]: counters *)

Definition is_timer (e : EmEvent) : bool := bool_decide (kind e = EmEvTimer).

(** The flags that should be active. *)
Definition active_read (e : EmEvent) : bool := has EVM_READ (flags_ e) && (0 <? counter_val_ e).
Definition active_write (e : EmEvent) : bool :=
  negb (is_timer e) && has EVM_WRITE (flags_ e) && (counter_val_ e <? counter_max).
Definition evfd_flags (e : EmEvent) : Z :=
  Z.lor (if active_read e then EVM_READ else 0) (if active_write e then EVM_WRITE else 0).

Definition EmEventCtr_ctl (op : EvCtlAction) (p : nat) (emee : option nat) (events : Z) (timeval_cptr : option Z)
    : M World Z :=
  old ← event_at p;
  res ← EmEvent_ctl op p emee events timeval_cptr;
  if negb (res =? 0) then mret res
  else
    e ← event_at p;
    match ev_ e with
    | None => mret res
    | Some v =>
        _ ← guard_counter p;
        let chgd flag := bool_decide (ev_ old = None) || negb (has flag (flags_ old)) in
        if (active_read e && chgd EVM_READ) || (active_write e && chgd EVM_WRITE)
        then _ ← do_call (event_active v (evfd_flags e)); mret res
        else mret res
    end.

(** The virtual [ctl]. *)
Definition em_ctl (op : EvCtlAction) (p : nat) (emee : option nat) (events : Z) (timeval_cptr : option Z) : M World Z :=
  e ← event_at p;
  match kind e with
  | EmEvReg => EmEvent_ctl op p emee events timeval_cptr
  | EmEvEventFd | EmEvTimer => EmEventCtr_ctl op p emee events timeval_cptr
  end.

Definition ctlEx (op : EvCtlAction) (m : nat) (em_event : option nat) (events : Z) (timeval_cptr : option Z)
    (forceEmEventCtlOnly : bool) : M World Z :=
  ctlEx_with (if forceEmEventCtlOnly then EmEvent_ctl else em_ctl) op m em_event events timeval_cptr.

Definition ctl (op : EvCtlAction) (m : nat) (em_event : option nat) (events : Z) (timeval_cptr : option Z) : M World Z :=
  ctl_res ← ctlEx op m em_event events timeval_cptr false;
  if ctl_res =? 0 then
    match em_event with
    | Some p => _ ← update p resetAddWasArtificial; mret ctl_res
    | None => lift UB
    end
  else mret ctl_res.

(** The static [ctl], behind [EventMethFns::ctl]: the overload it calls is itself. *)
Fixpoint static_ctl (fuel : nat) (op : EvCtlAction) (epoll_equiv : option nat) (event : option nat) (events : Z)
    (timeval_cptr : option Z) : M World Z :=
  match fuel with
  | O => lift OutOfFuel
  | S fuel =>
      match epoll_equiv with
      | None => throw (InvalidArgument (B "epoll_equiv null"))
      | Some _ => static_ctl fuel op epoll_equiv event events timeval_cptr
      end
  end.

Definition renewEv (p : nat) : M World unit :=
  e ← event_at p;
  let old_flags := flags_ e in
  emee ← getEventMethEpollEquivImpl p;
  ev_in_emee ← match ev_ e with
    | None => mret false
    | Some _ =>
        ev_in_emee ← match emee with
          | Some m =>
              found ← findFdInInterest m p;
              if (found : bool) then
                ctl_res ← ctlEx Del m (Some p) 0 None true;
                if negb (ctl_res =? 0) then throw (RuntimeError (B "EvCtlAction::Del failed")) else mret true
              else mret false
          | None => mret false
          end;
        e ← event_at p;
        _ ← match ev_ e with
            | Some v => _ ← do_call (event_free v); update p (set_ev None)
            | None => mret tt
            end;
        mret ev_in_emee
    end;
  _ ← match emee with
      | Some m =>
          if (ev_in_emee : bool) then
            ctl_res ← ctlEx Add m (Some p) old_flags None true;
            if negb (ctl_res =? 0) then throw (RuntimeError (B "EvCtlAction::Add failed"))
            else e ← event_at p; match ev_ e with None => throw (RuntimeError (B "ev_ null")) | Some _ => mret tt end
          else mret tt
      | None => mret tt
      end;
  e ← event_at p;
  if negb (evfd_flags e =? 0) then
    match ev_ e with
    | None => throw (RuntimeError (B "ev_ null"))
    | Some v => _ ← do_call (event_active v (evfd_flags e)); mret tt
    end
  else mret tt.

(** Waking the threads that wait changes nothing here. *)
Definition resetCounterValMutexAlreadyLocked (p : nat) : M World Z :=
  e ← event_at p;
  let old_counter_val := counter_val_ e in
  if negb (old_counter_val =? 0) then
    _ ← update p (set_counter 0);
    _ ← match ev_ e with
        | None => mret tt
        | Some v =>
            if has EVM_READ (flags_ e) then renewEv p
            else if negb (is_timer e) && has EVM_WRITE (flags_ e) && (counter_max <=? old_counter_val)
            then _ ← do_call (event_active v EVM_WRITE); mret tt
            else mret tt
        end;
    mret old_counter_val
  else mret old_counter_val.

Definition resetCounterVal (p : nat) : M World Z := _ ← guard_counter p; resetCounterValMutexAlreadyLocked p.

(** A thread that waits for the counter keeps [counter_val_mutex_]. *)
Definition read_counter (p : nat) : M World (Z * Z) :=
  _ ← guard_counter p;
  old_counter_val ← resetCounterValMutexAlreadyLocked p;
  if negb (old_counter_val =? 0) then mret (8, old_counter_val)
  else
    e ← event_at p;
    if negb (blocking e) then r ← error EAGAIN; mret (r, 0)
    else _ ← update p (set_held true); waits.

Definition writeProt (p : nat) (val : Z) : M World Z :=
  if val =? 0 then mret 8
  else if val =? 2 ^ 64 - 1 then error EINVAL
  else
    _ ← guard_counter p;
    e ← event_at p;
    let old_counter_val := counter_val_ e in
    if counter_max - old_counter_val <? val then
      if negb (blocking e && negb (is_timer e)) then error EAGAIN else _ ← update p (set_held true); waits
    else
      _ ← update p (set_counter (old_counter_val + val));
      e ← event_at p;
      _ ← match ev_ e with
          | None => mret tt
          | Some v =>
              if negb (is_timer e) && (old_counter_val <? counter_max) && has EVM_WRITE (flags_ e)
                 && (counter_max <=? counter_val_ e)
              then renewEv p
              else if has EVM_READ (flags_ e) && (old_counter_val =? 0)
              then _ ← do_call (event_active v (Z.lor EVM_READ (if active_write e then EVM_WRITE else 0))); mret tt
              else mret tt
          end;
      mret 8.

(** Bytes of memory as an integer, the least significant first, and back. *)
Fixpoint from_bytes (l : bytes) : Z := match l with [] => 0 | a :: l' => uchar a + 256 * from_bytes l' end.
Fixpoint to_bytes (n : nat) (z : Z) : bytes := match n with O => [] | S n' => chr z :: to_bytes n' (z / 256) end.

(** [read] into a buffer of [count] bytes, with what is in it then. *)
Definition read_buf (p : nat) (count : nat) : M World (Z * bytes) :=
  if (count <? 8)%nat then r ← error EINVAL; mret (r, [])
  else
    '(r, val) ← read_counter p;
    mret (r, if r =? 8 then to_bytes 8 val ++ replicate (count - 8) (chr 0) else []).
Definition writeProt_buf (p : nat) (buf : bytes) : M World Z := writeProt p (from_bytes (take 8 buf)).

Definition makeBlocking (p : nat) : M World unit := update p (set_blocking true).
Definition makeNonBlocking (p : nat) : M World unit := update p (set_blocking false).
Definition isBlocking (p : nat) : M World bool := e ← event_at p; mret (blocking e).

Definition EmEventFd_make_new (initval f_setfd_flags f_setfl_flags : Z) : M World nat :=
  p ← alloc (EmEvent_new EmEvEventFd initval);
  _ ← (if negb (has PST_O_NONBLOCK f_setfl_flags) then makeBlocking p else mret tt);
  _ ← init p (-1) 0 f_setfd_flags f_setfl_flags;
  mret p.

(** ** [EmEventTmrFd] *)

(** The clocks of Linux by number: [true] for those that are treated as the monotonic one. *)
Definition clock_known (clock_id : Z) : result unit :=
  if existsb (Z.eqb clock_id) [0; 8; 5; 11]
  then Throw (InvalidArgument (B "clock_id realtime clock not supported"))
  else if existsb (Z.eqb clock_id) [1; 4; 6; 7; 9] then Ok tt
  else if clock_id =? 2 then Throw (InvalidArgument (B "clock_id = CLOCK_PROCESS_CPUTIME_ID not supported"))
  else if clock_id =? 3 then Throw (InvalidArgument (B "clock_id = CLOCK_THREAD_CPUTIME_ID not supported"))
  else Throw (InvalidArgument (B "Unrecognized clock_id")).

Definition EmEventTmrFd_make_new (clock_id f_setfd_flags f_setfl_flags : Z) (emee : option nat) : M World nat :=
  _ ← lift (clock_known clock_id);
  p ← alloc (set_impl emee (EmEvent_new EmEvTimer 0));
  _ ← (if negb (has PST_O_NONBLOCK f_setfl_flags) then makeBlocking p else mret tt);
  _ ← init p (-1) EVM_READ f_setfd_flags f_setfl_flags;
  mret p.

(** [settime] without a time. *)
Definition settime_stop (p : nat) (emee : option nat) : M World Z :=
  e ← event_at p;
  match ev_ e, emee with
  | Some _, Some m =>
      ctl_res ← ctlEx Del m (Some p) 0 None true;
      if negb (ctl_res =? 0) then throw (RuntimeError (B "EvCtlAction::Del failed"))
      else _ ← update p (set_artificial false); mret 0
  | _, _ => mret 0
  end.

Definition EmEventTmrFd_settime (p : nat) (new_timeval_cptr : option Z) (emee : option nat) : M World Z :=
  _ ← resetCounterVal p;
  _ ← setPriorTv p new_timeval_cptr;
  emee ← settime_emee p emee;
  e ← event_at p;
  match new_timeval_cptr with
  | Some ms =>
      if negb (ms =? 0) then
        match emee with
        | None => _ ← update p (set_artificial false); mret 0
        | Some m =>
            ctl_res ← ctlEx Add m (Some p) (flags_ e) None true;
            if negb (ctl_res =? 0) then throw (RuntimeError (B "EvCtlAction::Add failed"))
            else _ ← update p (set_artificial true); mret 0
        end
      else settime_stop p emee
  | None => settime_stop p emee
  end.

(** [handleEventCallback]: the flags it leaves. *)
Definition EmEventTmrFd_handleEventCallback (p : nat) (ev_flags : Z) : M World Z :=
  _ ← (if has EVM_TIMEOUT ev_flags then _ ← writeProt p 1; mret tt else mret tt);
  e ← event_at p;
  mret (if has EVM_READ (flags_ e) then Z.lor ev_flags EVM_READ else ev_flags).
Definition EmEvent_handleEventCallback (p : nat) (ev_flags : Z) : M World Z :=
  e ← event_at p; if is_timer e then EmEventTmrFd_handleEventCallback p ev_flags else mret ev_flags.

(** ** What the rest of Pistache calls

    The static members of [EventMethEpollEquivImpl], which [EventMethFns] passes calls on
    to; an argument [None] is a null pointer. *)

Definition getActualFd (em_event : option nat) : M World Z :=
  match em_event with
  | None => mret (-1)
  | Some p =>
      e ← event_at p;
      match kind e with
      | EmEvReg => mret (getActualFdPrv e)
      | EmEvEventFd | EmEvTimer => throw (RuntimeError (B "No actual-fd allowed for EmEventCtr"))
      end
  end.

(** The [dynamic_cast] of [writeEfd] and [readEfd]. *)
Definition as_efd (efd : option nat) : M World (option nat) :=
  match efd with
  | None => mret None
  | Some p => e ← event_at p; mret (if bool_decide (kind e = EmEvEventFd) then Some p else None)
  end.
Definition writeEfd (efd : option nat) (val : Z) : M World Z :=
  this ← as_efd efd; match this with None => mret (-1) | Some p => writeProt p val end.
Definition readEfd (efd : option nat) : M World (Z * Z) :=
  this ← as_efd efd; match this with None => mret (-1, 0) | Some p => read_counter p end.

(** What the system reads is not modelled. *)
Definition read (fd : option nat) (count : nat) : M World (Z * bytes) :=
  match fd with
  | None => r ← error EINVAL; mret (r, [])
  | Some p =>
      e ← event_at p;
      match kind e with
      | EmEvReg => actual_fd ← getActualFd fd; r ← do_call (sock_read actual_fd count); mret (r, [])
      | EmEvEventFd | EmEvTimer => read_buf p count
      end
  end.
Definition write (fd : option nat) (buf : bytes) : M World Z :=
  match fd with
  | None => error EINVAL
  | Some p =>
      e ← event_at p;
      match kind e with
      | EmEvReg => actual_fd ← getActualFd fd; do_call (sock_write actual_fd buf)
      | EmEvEventFd => writeProt_buf p buf
      | EmEvTimer => error EBADF
      end
  end.

(** The accessors throw on a null pointer. *)
Definition not_null {A} (fd : option nat) (k : nat -> M World A) : M World A :=
  match fd with None => throw (RuntimeError (B "Null fd")) | Some p => k p end.
Definition getEmEventUserData (fd : option nat) : M World Z := not_null fd (fun p => e ← event_at p; mret (user_data_ e)).
Definition setEmEventUserData (fd : option nat) (user_data : Z) : M World unit :=
  not_null fd (fun p => update p (setUserData user_data)).
Definition resetEmEventReadyFlags (fd : option nat) : M World unit := not_null fd (fun p => update p resetReadyFlags).

Definition setEmEventTime (fd : option nat) (new_timeval_cptr : option Z) (emee : option nat) : M World Z :=
  match fd with
  | None => error EINVAL
  | Some p =>
      e ← event_at p;
      if is_timer e then EmEventTmrFd_settime p new_timeval_cptr emee else EmEvent_settime p new_timeval_cptr emee
  end.

(** [None] is [EmEvNone]. *)
Definition getEmEventType (fd : option nat) : M World (option EmEventType) :=
  match fd with None => mret None | Some p => e ← event_at p; mret (Some (kind e)) end.

(** [closeEvent]: closes and deletes. *)
Definition closeEvent (em_event : option nat) : M World Z :=
  match em_event with
  | None => error EINVAL
  | Some p =>
      emeei ← getEventMethEpollEquivImpl p;
      found ← match emeei with
              | Some m => found ← findFdInInterest m p; mret (if (found : bool) then Some m else None)
              | None => mret None
              end;
      close_res ← close p;
      if close_res =? 0 then
        _ ← match found with
            | Some m =>
                _ ← update_emee m (set_interest (fun i => i ∖ {[ p ]}));
                update_emee m (set_ready (fun r => r ∖ {[ p ]}))
            | None => mret tt
            end;
        _ ← delete_event p;
        mret close_res
      else mret close_res
  end.

(** ** Pollers *)

(** The constructor. *)
Definition EventMethEpollEquivImpl_new (size : Z) : M World nat :=
  r ← do_call event_base_new;
  if r <? 0 then throw (RuntimeError system_error)
  else if size <=? 0 then throw (InvalidArgument (B "size non-positive"))
  else
    w ← get;
    _ ← modify (set_next (S (next w)));
    _ ← modify (set_emees <[next w := EMEE_new]>);
    mret (next w).

Fixpoint detach_all (l : list nat) : M World unit :=
  match l with
  | [] => mret tt
  | p :: l' => _ ← detachEventMethEpollEquivImmedFree p; detach_all l'
  end.

(** The destructor. *)
Definition EventMethEpollEquivImpl_delete (m : nat) : M World unit :=
  _ ← do_call (event_base_loopbreak m);
  e ← emee_at m;
  _ ← guard m;
  _ ← modify (set_emees (delete m));
  _ ← detach_all (in_order (interest_ e));
  detach_all (in_order (ready_ e)).
End Operations.
