(* ===== verification/EpollEquiv.v ===== *)
(** * Polling over libevent: [src/common/eventmeth.cc], [src/common/os.cc]

    The callback libevent calls, [getReadyEmEvents], and [Epoll] and [NotifyFd] of the
    build with libevent.  What libevent calls back before [event_base_loop] returns is an
    argument. *)

From S2P Require Import Prelude Cxx Poller EmEvents.

Local Open Scope Z_scope.

(** What a call of [event_base_loop] does: the callbacks, each with its argument ([None]
    for null and -1) and its flags, and the result. *)
Record dispatch : Set := { callbacks : list (option nat * Z); dispatch_res : Z }.

Section Operations.
Context `{LibEvent, Addresses}.

(** ** The callback *)

Definition addEventToReadyInterestAlrdyLocked (m : nat) (fd : nat) (ev_flags : Z) : M World unit :=
  e ← emee_at m;
  if bool_decide (fd ∉ interest_ e) then mret tt
  else
    _ ← update fd (orIntoReadyFlags ev_flags);
    update_emee m (set_ready (fun r => r ∪ {[ fd ]})).

Definition handleEventCallback (m : nat) (cb_arg : nat) (ev_flags : Z) : M World unit :=
  _ ← guard m;
  e ← emee_at m;
  if bool_decide (cb_arg ∉ interest_ e) then mret tt
  else
    ev_flags ← EmEvent_handleEventCallback cb_arg ev_flags;
    _ ← (if negb (has EV_FEATURE_ET event_base_features)
         then _ ← deactivateAfterTriggerIfNeeded cb_arg; mret tt else mret tt);
    addEventToReadyInterestAlrdyLocked m cb_arg ev_flags.

Definition eventCallbackFn (cb_arg : option nat) (ev_flags : Z) : M World unit :=
  match cb_arg with
  | None => mret tt
  | Some p =>
      epoll_equiv ← findEmEventInAnInterestSet p;
      match epoll_equiv with
      | None => mret tt
      | Some m => handleEventCallback m p ev_flags
      end
  end.

Fixpoint run_callbacks (l : list (option nat * Z)) : M World unit :=
  match l with
  | [] => mret tt
  | (cb_arg, ev_flags) :: l' => _ ← eventCallbackFn cb_arg ev_flags; run_callbacks l'
  end.

(** ** [getReadyEmEvents] *)

Definition unlockInterestMutexIfLocked (m : nat) : M World unit := update_emee m (set_locked false).
Definition lockInterestMutex (m : nat) : M World unit := _ ← guard m; update_emee m (set_locked true).

(** Found in [ready_]: 1; only in [interest_]: 0; neither: -1.  With what remains ready. *)
Definition removeSpecialTimerFromInterestAndReady (m : nat) (loop_timer_eme : nat) : M World (Z * nat) :=
  _ ← guard m;
  e ← emee_at m;
  _ ← update_emee m (set_ready (fun r => r ∖ {[ loop_timer_eme ]}));
  _ ← update_emee m (set_interest (fun i => i ∖ {[ loop_timer_eme ]}));
  mret (if bool_decide (loop_timer_eme ∈ ready_ e) then 1
        else if bool_decide (loop_timer_eme ∈ interest_ e) then 0 else -1,
        size (ready_ e ∖ {[ loop_timer_eme ]})).

(** What runs when a scope is left, also by an exception. *)
Definition finally {S A} (m : M S A) (f : M S unit) : M S A := fun s =>
  match m s with
  | (s', Ok a) => let '(s'', r) := f s' in (s'', _ ← r; Ok a)
  | (s', Throw e) => let '(s'', r) := f s' in (s'', _ ← r; Throw e)
  | (s', r) => (s', r)
  end.

(** The wait; [Some] is an early return. *)
Definition wait (m : nat) (loop_timer_eme : option nat) (d : dispatch) : M World (option Z) :=
  _ ← do_call (event_base_loop m);
  _ ← run_callbacks (callbacks d);
  if dispatch_res d <? 0 then mret (Some (dispatch_res d))
  else if dispatch_res d =? 1 then mret (Some 0)
  else
    match loop_timer_eme with
    | Some p =>
        '(remove_loop_timer_res, remaining_ready_size) ← removeSpecialTimerFromInterestAndReady m p;
        mret (if (remove_loop_timer_res =? 1) && (remaining_ready_size =? 0)%nat then Some 0 else None)
    | None => mret None
    end.

(** The wait with the timer it makes, deleted when the scope is left. *)
Definition timed_wait (m : nat) (timeout : Z) (d : dispatch) : M World (option Z) :=
  if 0 <? timeout then
    p ← make_new (-1) 0 F_SETFDL_NOTHING F_SETFDL_NOTHING;
    finally
      (ctl_res ← ctl Add m (Some p) 0 (Some timeout);
       if negb (ctl_res =? 0) then throw (RuntimeError (B "Failed to add loop_timer_eme"))
       else wait m (Some p) d)
      (delete_event p)
  else wait m None d.

(** One-shot events leave the interest list. *)
Fixpoint drop_not_persistent (m : nat) (l : list nat) : M World unit :=
  match l with
  | [] => mret tt
  | p :: l' =>
      e ← event_at p;
      _ ← (if negb (has EVM_PERSIST (flags_ e)) then update_emee m (set_interest (fun i => i ∖ {[ p ]})) else mret tt);
      drop_not_persistent m l'
  end.

Definition getReadyEmEventsHelper (m : nat) (timeout : Z) (d : dispatch) : M World (Z * gset nat) :=
  early ← timed_wait m timeout d;
  match early with
  | Some r => mret (r, ∅)
  | None =>
      _ ← lockInterestMutex m;
      e ← emee_at m;
      if bool_decide (ready_ e = ∅) then mret (0, ∅)
      else
        let ready_evm_events_out := ready_ e in
        _ ← update_emee m (set_ready (fun _ => ∅));
        _ ← drop_not_persistent m (in_order ready_evm_events_out);
        mret (Z.of_nat (size ready_evm_events_out), ready_evm_events_out)
  end.

(** The loop, over what [event_base_loop] does each time. *)
Fixpoint getReadyEmEvents (m : nat) (timeout : Z) (ds : list dispatch) : M World (Z * gset nat) :=
  match ds with
  | [] => lift OutOfFuel
  | d :: ds' =>
      '(num_ready_out, out) ← getReadyEmEventsHelper m timeout d;
      if num_ready_out <? 0 then getReadyEmEvents m timeout ds' else mret (num_ready_out, out)
  end.

(** ** Interests *)

Definition toEvEvents (interest : Z) : Z :=
  let events := 0 in
  let events := if hasFlag NotifyOn.Read interest then Z.lor events EVM_READ else events in
  let events := if hasFlag NotifyOn.Write interest then Z.lor events EVM_WRITE else events in
  if has EV_FEATURE_EARLY_CLOSE event_base_features then
    let events := if hasFlag NotifyOn.Hangup interest then Z.lor events EVM_CLOSED else events in
    if hasFlag NotifyOn.Shutdown interest then Z.lor events EVM_CLOSED else events
  else events.

(** What a signal counts as, by its number on Linux. *)
Definition signal_flags (signal flags : Z) : Z :=
  if signal =? 23 then setFlag NotifyOn.Hangup flags
  else if existsb (Z.eqb signal) [18; 17; 29; 28] then flags
  else setFlag NotifyOn.Shutdown flags.

Definition ready_NotifyOn (evm_events : Z) : Z :=
  let flags := NotifyOn.None in
  let flags := if has EVM_READ evm_events then setFlag NotifyOn.Read flags else flags in
  let flags := if has EVM_WRITE evm_events then setFlag NotifyOn.Write flags else flags in
  if has EVM_CLOSED evm_events then setFlag NotifyOn.Hangup flags else flags.

Definition toNotifyOn (fd : option nat) : M World Z :=
  match fd with
  | None => throw (RuntimeError (B "fd is NULL"))
  | Some p =>
      e ← event_at p;
      let flags := ready_NotifyOn (ready_flags_ e) in
      if has EVM_SIGNAL (ready_flags_ e) then
        actual_fd_num ← getActualFd fd;
        mret (signal_flags actual_fd_num flags)
      else mret flags
  end.

(** ** [Epoll] *)

Definition edge (mode : Mode) (events : Z) : Z := match mode with Edge => Z.lor events EVM_ET | Level => events end.
Definition TRY (ret : Z) : M World unit := _ ← TRY_RET ret; mret tt.

Definition addFd (m : nat) (fd : option nat) (interest tag : Z) (mode : Mode) : M World unit :=
  _ ← setEmEventUserData fd tag;
  r ← ctl Add m fd (edge mode (Z.lor (toEvEvents interest) EVM_PERSIST)) None;
  TRY r.
Definition addFdOneShot (m : nat) (fd : option nat) (interest tag : Z) (mode : Mode) : M World unit :=
  _ ← setEmEventUserData fd tag;
  r ← ctl Add m fd (edge mode (toEvEvents interest)) None;
  TRY r.
Definition removeFd (m : nat) (fd : option nat) : M World unit := r ← ctl Del m fd 0 None; TRY r.
Definition rearmFd (m : nat) (fd : option nat) (interest tag : Z) (mode : Mode) : M World unit :=
  _ ← setEmEventUserData fd tag;
  r ← ctl Mod m fd (edge mode (Z.lor (toEvEvents interest) EVM_PERSIST)) None;
  TRY r.

(** What is made of the ready events: the vector of events grows until an exception. *)
Fixpoint report (l : list nat) (events : list Event) : M World (list Event * bool) :=
  match l with
  | [] => mret (events, true)
  | p :: l' => fun w =>
      match (tag ← getEmEventUserData (Some p); flags ← toNotifyOn (Some p); mret {| event_flags := flags; tag := tag |}) w with
      | (w', Ok event) => (_ ← resetEmEventReadyFlags (Some p); report l' (events ++ [event])) w'
      | (w', Throw _) => (w', Ok (events, false))
      | (w', UB) => (w', UB)
      | (w', OutOfFuel) => (w', OutOfFuel)
      end
  end.

(** The result of [poll] and the vector; what is thrown while polling is caught. *)
Definition poll (m : nat) (timeout : Z) (ds : list dispatch) (events : list Event) : M World (Z * list Event) := fun w =>
  match getReadyEmEvents m timeout ds w with
  | (w', Ok (ready_evs, out)) =>
      ('(events, _) ← (if (0 <? ready_evs) && negb (bool_decide (out = ∅)) then report (in_order out) events
                       else mret (events, true));
       _ ← unlockInterestMutexIfLocked m;
       mret (if ready_evs <=? 0 then (ready_evs, events)
             else if bool_decide (out = ∅) then (0, events)
             else (Z.of_nat (length events), events))) w'
  | (w', Throw _) => (_ ← unlockInterestMutexIfLocked m; mret (-1, events)) w'
  | (w', UB) => (w', UB)
  | (w', OutOfFuel) => (w', OutOfFuel)
  end.

(** ** [NotifyFd] *)

Definition WRITE_EFD (fd : option nat) (val : Z) : M World Z := r ← writeEfd fd val; mret (if r =? 8 then 0 else -1).
Definition READ_EFD (fd : option nat) : M World Z := '(r, _) ← readEfd fd; mret (if r =? 8 then 0 else -1).

(** [bind] returns the descriptor, which is its tag too. *)
Definition notify_bind (m : nat) : M World nat :=
  event_fd ← EmEventFd_make_new 0 PST_FD_CLOEXEC PST_O_NONBLOCK;
  _ ← addFd m (Some event_fd) NotifyOn.Read (Z.of_nat event_fd) Edge;
  mret event_fd.
Definition notify_unbind (m : nat) (event_fd : option nat) : M World (option nat) :=
  match event_fd with
  | Some p => _ ← removeFd m event_fd; _ ← closeEvent event_fd; mret None
  | None => mret None
  end.
Definition notify (event_fd : option nat) : M World unit :=
  match event_fd with
  | None => throw (RuntimeError (B "Can not notify an unbound fd"))
  | Some _ => r ← WRITE_EFD event_fd 1; TRY r
  end.
Definition notify_read (event_fd : option nat) : M World unit :=
  match event_fd with
  | None => throw (RuntimeError (B "Can not read an unbound fd"))
  | Some _ => r ← READ_EFD event_fd; TRY r
  end.
Definition notify_tryRead (event_fd : option nat) : M World bool :=
  match event_fd with
  | None => throw (RuntimeError (B "Can not try to read if unbound"))
  | Some _ =>
      r ← READ_EFD event_fd;
      res ← TRY_RET r;
      if negb (res =? 0) then
        w ← get;
        if errno w =? EAGAIN then mret false else throw (RuntimeError (B "Failed to read eventfd"))
      else mret true
  end.
End Operations.
