(* ===== verification/EmInvariant.v ===== *)
(** * The interest lists of the emulated poller

    The invariant of the store of [EmEvents], and that what the code does with it keeps
    it: what is registered exists, and is registered with one poller, the one it points
    to; what is ready is registered. *)

From S2P Require Import Prelude Cxx Poller EmEvents EpollEquiv.

Local Open Scope Z_scope.

(** ** The invariant *)

(** The poller an event points to. *)
Definition impl_of (w : World) (p : nat) : option nat := events w !! p ≫= event_meth_epoll_equiv_impl_.
Definition interested (w : World) (m p : nat) : Prop := exists em, emees w !! m = Some em /\ p ∈ interest_ em.
(** In no interest list. *)
Definition free (p : nat) (w : World) : Prop := forall m, ~ interested w m p.

Record wf (w : World) : Prop := {
  wf_ready : forall m em, emees w !! m = Some em -> ready_ em ⊆ interest_ em;
  wf_impl : forall m p, interested w m p -> impl_of w p = Some m;
  wf_next : forall p, (next w <= p)%nat -> events w !! p = None /\ emees w !! p = None }.

Lemma wf_World_new : wf World_new.
Proof.
  split; cbn; [by intros m em; rewrite lookup_empty|intros m p (em & E & _); cbn in E; by rewrite lookup_empty in E|].
  intros p _. by rewrite !lookup_empty.
Qed.

(** ** Steps that leave the lists alone

    [calm T m]: [m] changes no interest list and no link from an event to its poller, and
    keeps the invariant; it throws only if [T]. *)

Definition similar (w w' : World) : Prop :=
  next w = next w' /\ (forall p, event_meth_epoll_equiv_impl_ <$> events w !! p = event_meth_epoll_equiv_impl_ <$> events w' !! p)
  /\ (forall m, interest_ <$> emees w !! m = interest_ <$> emees w' !! m) /\ (wf w -> wf w').

#[export] Instance similar_preorder : PreOrder similar.
Proof.
  split; [by intros w|]. intros w1 w2 w3 (N1 & I1 & L1 & W1) (N2 & I2 & L2 & W2).
  split; [congruence|]. split; [intros p; by rewrite I1|]. split; [intros m; by rewrite L1|]. auto.
Qed.

Lemma similar_impl w w' p : similar w w' -> impl_of w' p = impl_of w p.
Proof. intros (_ & I & _). unfold impl_of. specialize (I p). by destruct (events w !! p), (events w' !! p); simplify_eq/=. Qed.

Lemma similar_interested w w' m p : similar w w' -> interested w' m p <-> interested w m p.
Proof.
  intros (_ & _ & L & _). unfold interested. specialize (L m).
  destruct (emees w !! m), (emees w' !! m); simplify_eq/=; split; intros (em & ? & ?); simplify_eq; eexists; split; eauto; congruence.
Qed.

Lemma similar_free w w' p : similar w w' -> free p w -> free p w'.
Proof. intros S F m Hi. apply (F m). by apply (similar_interested _ _ _ _ S). Qed.

Lemma similar_wf w w' : similar w w' -> wf w -> wf w'.
Proof. by intros (_ & _ & _ & W). Qed.

(** Worlds with the same pollers and links. *)
Lemma similar_links w w' :
  next w = next w' -> (forall p, event_meth_epoll_equiv_impl_ <$> events w !! p = event_meth_epoll_equiv_impl_ <$> events w' !! p) ->
  emees w = emees w' -> similar w w'.
Proof.
  intros N I L. split; [done|]. split; [done|]. split; [by rewrite L|]. intros [R Im Nx]. split.
  - by rewrite <- L.
  - intros m p (em & E & Hin). rewrite <- (Im m p) by (exists em; by rewrite L).
    unfold impl_of. specialize (I p). by destruct (events w !! p), (events w' !! p); simplify_eq/=.
  - intros p Hp. rewrite <- N in Hp. destruct (Nx p Hp) as [E1 E2]. rewrite <- L. split; [|done].
    specialize (I p). rewrite E1 in I. by destruct (events w' !! p).
Qed.

Definition calm {A} (T : Prop) (m : M World A) : Prop := forall w,
  match m w with (w', Ok _) => similar w w' | (w', Throw _) => T /\ similar w w' | _ => True end.

Section Calm.
Context (T : Prop).

Lemma calm_ret {A} (a : A) : calm T (mret a).
Proof. by intros w. Qed.
Lemma calm_throw {A} e : T -> calm T (throw (A := A) e).
Proof. by intros ? w. Qed.
Lemma calm_stuck {A} (r : result A) : (forall e, r <> Throw e) -> calm T (lift r).
Proof. intros Hr w. cbn. destruct r; [done|by destruct (Hr e)|done|done]. Qed.
Lemma calm_bind {A C} (m : M World A) (k : A -> M World C) : calm T m -> (forall a, calm T (k a)) -> calm T (m ≫= k).
Proof.
  intros Hm Hk w. unfold mbind, M_bind. specialize (Hm w). destruct (m w) as [w1 [a|e| |]]; try done.
  specialize (Hk a w1). destruct (k a w1) as [w2 [c|e| |]]; try done; [by transitivity w1|].
  destruct Hk as [Ht Hk]. split; [done|by transitivity w1].
Qed.
Lemma calm_get : calm T get.
Proof. by intros w. Qed.
Lemma calm_modify f : (forall w, similar w (f w)) -> calm T (modify f).
Proof. intros Hf w. apply Hf. Qed.

Lemma calm_event_at p : calm T (event_at p).
Proof. intros w. unfold event_at, mbind, M_bind, get. by destruct (events w !! p). Qed.
Lemma calm_emee_at m : calm T (emee_at m).
Proof. intros w. unfold emee_at, mbind, M_bind, get. by destruct (emees w !! m). Qed.

Lemma similar_alter p f w :
  (forall e, event_meth_epoll_equiv_impl_ (f e) = event_meth_epoll_equiv_impl_ e) -> similar w (set_events (alter f p) w).
Proof.
  intros Hf. apply similar_links; [done| |done]. intros q. cbn. destruct (decide (q = p)) as [->|Hn].
  - rewrite lookup_alter_eq. destruct (events w !! p); [cbn; by rewrite Hf|done].
  - by rewrite lookup_alter_ne.
Qed.
Lemma calm_update p f :
  (forall e, event_meth_epoll_equiv_impl_ (f e) = event_meth_epoll_equiv_impl_ e) -> calm T (update p f).
Proof. intros Hf. apply calm_bind; [apply calm_event_at|]. intros _. apply calm_modify. intros w. by apply similar_alter. Qed.
Lemma calm_modify_links f :
  (forall w, next w = next (f w) /\ events w = events (f w) /\ emees w = emees (f w)) -> calm T (modify f).
Proof. intros Hf. apply calm_modify. intros w. destruct (Hf w) as (N & E & L). by apply similar_links; [|rewrite E|]. Qed.
Lemma calm_weaken {A} (m : M World A) : calm False m -> calm T m.
Proof. intros Hm w. specialize (Hm w). destruct (m w) as [w' [a|e| |]]; try done. tauto. Qed.
End Calm.

Create HintDb calm.
#[export] Hint Resolve Logic.I calm_ret calm_get calm_event_at calm_emee_at : calm.

(** By the structure of the computation. *)
Ltac calm :=
  repeat first
    [ solve [auto with calm nocore]
    | lazymatch goal with
      | |- calm _ (_ ≫= _) => apply calm_bind; [|intros ?]
      | |- calm _ (update _ _) => apply calm_update; done
      | |- calm _ (modify _) => apply calm_modify_links; done
      | |- calm _ (lift _) => apply calm_stuck; done
      | |- calm _ (throw _) => apply calm_throw; solve [auto]
      | |- calm _ (match ?x with _ => _ end) => destruct x
      end ].

Section Calm_operations.
Context `{LibEvent, Addresses} (T : Prop).

Lemma do_call_run c w : do_call c w = (add_trace c w, Ok (call_result (trace w) c)).
Proof. done. Qed.
Lemma calm_do_call c : calm T (do_call c).
Proof. unfold do_call. calm. Qed.
Lemma calm_error n : calm T (error n).
Proof. unfold error. calm. Qed.
Lemma calm_guard m : calm T (guard m).
Proof. unfold guard. calm. Qed.
Lemma calm_guard_counter p : calm T (guard_counter p).
Proof. unfold guard_counter, waits. calm. Qed.
Hint Resolve calm_do_call calm_error calm_guard calm_guard_counter : calm.

Lemma calm_findFdInInterest m p : calm T (findFdInInterest m p).
Proof. unfold findFdInInterest. calm. Qed.
Hint Resolve calm_findFdInInterest : calm.
Lemma calm_find_in l p : calm T (find_in l p).
Proof. induction l; cbn [find_in]; calm. Qed.
Hint Resolve calm_find_in : calm.
Lemma calm_find p : calm T (findEmEventInAnInterestSet p).
Proof. unfold findEmEventInAnInterestSet. calm. Qed.
Hint Resolve calm_find : calm.

(** A call whose result is checked. *)
Lemma calm_TRY_call c : T \/ no_failures -> calm T (r ← do_call c; TRY_RET r).
Proof.
  intros Ht w. rewrite (bind_Ok _ _ _ _ _ (do_call_run c w)). unfold TRY_RET.
  assert (similar w (add_trace c w)) by (by apply similar_links). destruct (_ <? 0) eqn:E; [|done].
  split; [|done]. destruct Ht as [Ht|Ht]; [done|]. specialize (Ht (trace w) c). bool_to_prop. lia.
Qed.
Lemma calm_disarm p : T \/ no_failures -> calm T (disarm p).
Proof. intros. unfold disarm. apply calm_bind; [calm|intros e]. destruct (ev_ e); [by apply calm_TRY_call|calm]. Qed.
Lemma calm_deactivate p : T \/ no_failures -> calm T (deactivate p).
Proof.
  intros Ht. unfold deactivate. apply calm_bind; [calm|intros e]. destruct (ev_ e) as [v|]; [|calm].
  assert (forall (k : Z -> M World Z), (r ← do_call (event_del v); event_del_res ← TRY_RET r; k event_del_res)
    = ((r ← do_call (event_del v); TRY_RET r) ≫= k)) as ->; [|apply calm_bind; [by apply calm_TRY_call|intros]; calm].
  intros k. unfold mbind, M_bind, do_call, get, modify, mret, M_ret. done.
Qed.
Lemma calm_trigger p : T \/ no_failures -> calm T (deactivateAfterTriggerIfNeeded p).
Proof. intros. unfold deactivateAfterTriggerIfNeeded. calm; by first [apply calm_disarm|apply calm_deactivate]. Qed.

Lemma calm_close p : calm T (close p).
Proof. unfold close. calm. Qed.

Context (HT : T).
Lemma calm_setFlags p f : calm T (setFlags p f).
Proof. unfold setFlags. calm. Qed.
Lemma calm_setFdlFlagsHelper fd g s f : calm T (setFdlFlagsHelper fd g s f).
Proof. unfold setFdlFlagsHelper. calm. Qed.
Hint Resolve calm_setFlags calm_setFdlFlagsHelper : calm.
Lemma calm_init p fd flags f1 f2 : calm T (init p fd flags f1 f2).
Proof. unfold init, setFdlFlagsIfNeededAndActualFd. calm. Qed.
Lemma calm_new_ev p fd flags : calm T (new_ev p fd flags).
Proof. unfold new_ev. calm. Qed.
Hint Resolve calm_new_ev : calm.
Lemma calm_ctl_ev p fd events : calm T (ctl_ev p fd events).
Proof. unfold ctl_ev. calm. Qed.
End Calm_operations.
#[export] Hint Resolve calm_do_call calm_error calm_guard calm_guard_counter calm_findFdInInterest calm_find calm_close
  calm_setFlags calm_init calm_ctl_ev : calm.

(** ** Steps that change the lists

    [run E m Q w]: from [w], [m] returns with [Q] or throws with [E], where it goes on. *)

Definition run {A} (E : World -> Prop) (m : M World A) (Q : A -> World -> Prop) (w : World) : Prop :=
  match m w with (w', Ok a) => Q a w' | (w', Throw _) => E w' | _ => True end.
Definition keeps {A} (m : M World A) : Prop := forall w, wf w -> run wf m (fun _ => wf) w.
(** The same interest lists. *)
Definition same_lists (w w' : World) : Prop := forall m p, interested w' m p <-> interested w m p.

#[export] Instance same_lists_preorder : PreOrder same_lists.
Proof. split; [by intros w m p|]. intros w1 w2 w3 H1 H2 m p. transitivity (interested w2 m p); [apply H2|apply H1]. Qed.
Lemma similar_same_lists w w' : similar w w' -> same_lists w w'.
Proof. intros S m p. by apply similar_interested. Qed.
Lemma same_lists_free w w' p : same_lists w w' -> free p w -> free p w'.
Proof. intros S F m Hi. by apply (F m), S. Qed.

Section Run.
Context (E : World -> Prop).

Lemma run_ret {A} (a : A) (Q : A -> World -> Prop) w : Q a w -> run E (mret a) Q w.
Proof. done. Qed.
Lemma run_throw {A} e (Q : A -> World -> Prop) w : E w -> run E (throw e) Q w.
Proof. done. Qed.
Lemma run_bind {A C} (m : M World A) (k : A -> M World C) Q w :
  run E m (fun a => run E (k a) Q) w -> run E (m ≫= k) Q w.
Proof. unfold run, mbind, M_bind. by destruct (m w) as [w' [a|e| |]]. Qed.
Lemma run_mono {A} (E' : World -> Prop) (m : M World A) (Q Q' : A -> World -> Prop) w :
  run E' m Q w -> (forall w', E' w' -> E w') -> (forall a w', Q a w' -> Q' a w') -> run E m Q' w.
Proof. unfold run. destruct (m w) as [w' [a|e| |]]; auto. Qed.
Lemma run_get_world (Q : World -> World -> Prop) w : Q w w -> run E get Q w.
Proof. done. Qed.
Lemma run_modify f (Q : unit -> World -> Prop) w : Q tt (f w) -> run E (modify f) Q w.
Proof. done. Qed.
Lemma run_event_at p (Q : EmEvent -> World -> Prop) w :
  (forall e, events w !! p = Some e -> Q e w) -> run E (event_at p) Q w.
Proof. unfold run, event_at, mbind, M_bind, get. destruct (events w !! p); [|done]. intros HQ. by apply HQ. Qed.
Lemma run_emee_at m (Q : EMEE -> World -> Prop) w :
  (forall e, emees w !! m = Some e -> Q e w) -> run E (emee_at m) Q w.
Proof. unfold run, emee_at, mbind, M_bind, get. destruct (emees w !! m); [|done]. intros HQ. by apply HQ. Qed.
Lemma run_update p f (Q : unit -> World -> Prop) w :
  (forall e, events w !! p = Some e -> Q tt (set_events (alter f p) w)) -> run E (update p f) Q w.
Proof. intros HQ. apply run_bind, run_event_at. intros e He. apply run_modify. by apply (HQ e). Qed.
Lemma run_update_emee m f (Q : unit -> World -> Prop) w :
  (forall e, emees w !! m = Some e -> Q tt (set_emees (alter f m) w)) -> run E (update_emee m f) Q w.
Proof. intros HQ. apply run_bind, run_emee_at. intros e He. apply run_modify. by apply (HQ e). Qed.
Lemma run_calm {A} T (m : M World A) (Q : A -> World -> Prop) w :
  calm T m -> (forall w', T -> similar w w' -> E w') -> (forall a w', similar w w' -> Q a w') -> run E m Q w.
Proof. intros Hm HE HQ. unfold run. specialize (Hm w). destruct (m w) as [w' [a|e| |]]; try done; [by apply HQ|]. destruct Hm. by apply HE. Qed.
Lemma run_stuck {A} (r : result A) Q w : (forall a, r <> Ok a) -> (forall e, r <> Throw e) -> run E (lift r) Q w.
Proof. unfold run, lift. destruct r; naive_solver. Qed.
End Run.

(** [keeps] follows the structure too. *)
Section Keeps.
Lemma keeps_calm {A} (m : M World A) : calm True m -> keeps m.
Proof. intros Hm w Hw. eapply run_calm; [done| |]; intros; by eapply similar_wf. Qed.
Lemma keeps_bind {A C} (m : M World A) (k : A -> M World C) : keeps m -> (forall a, keeps (k a)) -> keeps (m ≫= k).
Proof. intros Hm Hk w Hw. apply run_bind. eapply run_mono; [by apply Hm|done|]. intros a w' Hw'. by apply Hk. Qed.
End Keeps.

(** ** The changes *)

Lemma interested_events w f m p : interested (set_events f w) m p <-> interested w m p.
Proof. done. Qed.

Lemma wf_set_impl p o w :
  wf w -> (forall m, interested w m p -> o = Some m) -> wf (set_events (alter (set_impl o) p) w).
Proof.
  intros [R I N] Ho. split; [done| |].
  - intros m q Hi. assert (interested w m q) as Hi' by done. specialize (I m q Hi'). unfold impl_of in *. cbn.
    destruct (decide (q = p)) as [->|Hn]; [|by rewrite lookup_alter_ne].
    rewrite lookup_alter_eq. destruct (events w !! p); [cbn; by apply Ho|done].
  - intros q Hq. destruct (N q Hq) as [E1 E2]. split; [|done]. cbn.
    destruct (decide (q = p)) as [->|Hn]; [by rewrite lookup_alter_eq, E1|by rewrite lookup_alter_ne].
Qed.

Lemma impl_of_set_impl p o w e : events w !! p = Some e -> impl_of (set_events (alter (set_impl o) p) w) p = o.
Proof. intros E. unfold impl_of. cbn. by rewrite lookup_alter_eq, E. Qed.

Lemma interested_alter w m f q p :
  interested (set_emees (alter f m) w) q p
  <-> if decide (q = m) then exists em, emees w !! m = Some em /\ p ∈ interest_ (f em) else interested w q p.
Proof.
  unfold interested. cbn. case_decide as E; [subst|by rewrite lookup_alter_ne]. rewrite lookup_alter_eq.
  destruct (emees w !! m); cbn; naive_solver.
Qed.

(** A change of one poller that keeps the invariant. *)
Lemma wf_alter_emee m f w :
  wf w ->
  (forall em, emees w !! m = Some em ->
     ready_ (f em) ⊆ interest_ (f em) /\ forall p, p ∈ interest_ (f em) -> impl_of w p = Some m) ->
  wf (set_emees (alter f m) w).
Proof.
  intros [R I N] Hf. split.
  - intros q em. cbn. destruct (decide (q = m)) as [->|Hn]; [|rewrite lookup_alter_ne by done; apply R].
    rewrite lookup_alter_eq. destruct (emees w !! m) as [em'|] eqn:E; [|done]. intros [= <-]. by apply Hf.
  - intros q p Hi. apply interested_alter in Hi. case_decide as E; [subst|by apply I].
    destruct Hi as (em & E & Hin). by apply (Hf em).
  - intros p Hp. destruct (N p Hp) as [E1 E2]. split; [done|]. cbn.
    destruct (decide (p = m)) as [->|Hn]; [by rewrite lookup_alter_eq, E2|by rewrite lookup_alter_ne].
Qed.

Lemma wf_member w m em p : wf w -> emees w !! m = Some em -> p ∈ interest_ em -> impl_of w p = Some m.
Proof. intros Hw E Hp. apply (wf_impl _ Hw). by exists em. Qed.

Lemma wf_add_interest w m p : wf w -> impl_of w p = Some m -> wf (set_emees (alter (set_interest (fun i => i ∪ {[ p ]})) m) w).
Proof.
  intros Hw Hp. apply wf_alter_emee; [done|]. intros em E. cbn. split.
  - pose proof (wf_ready _ Hw _ _ E). set_solver.
  - intros q [Hq|Hq]%elem_of_union; [by eapply wf_member|]. apply elem_of_singleton in Hq as ->. done.
Qed.

(** Erased from both sets. *)
Definition erase (p : nat) (em : EMEE) : EMEE := set_ready (fun r => r ∖ {[ p ]}) (set_interest (fun i => i ∖ {[ p ]}) em).
Lemma wf_erase w m p : wf w -> wf (set_emees (alter (erase p) m) w).
Proof.
  intros Hw. apply wf_alter_emee; [done|]. intros em E. cbn. split.
  - pose proof (wf_ready _ Hw _ _ E). set_solver.
  - intros q [Hq _]%elem_of_difference. by eapply wf_member.
Qed.
Lemma alter_emees_alter w m f g :
  set_emees (alter g m) (set_emees (alter f m) w) = set_emees (alter (fun em => g (f em)) m) w.
Proof.
  unfold set_emees. cbn. f_equal. apply map_eq. intros q. destruct (decide (q = m)) as [->|Hn].
  - rewrite !lookup_alter_eq. by destruct (emees w !! m).
  - by rewrite !lookup_alter_ne.
Qed.

Lemma free_erase w m p : wf w -> impl_of w p = Some m -> free p (set_emees (alter (erase p) m) w).
Proof.
  intros Hw Hp q Hi. apply interested_alter in Hi. case_decide as E.
  - destruct Hi as (em & _ & Hin). cbn in Hin. set_solver.
  - pose proof (wf_impl _ Hw _ _ Hi). congruence.
Qed.

(** The two erasures, in either order. *)
Lemma run_erase E m p (Q : unit -> World -> Prop) w :
  Q tt (set_emees (alter (erase p) m) w) ->
  run E (_ ← update_emee m (set_interest (fun i => i ∖ {[ p ]})); update_emee m (set_ready (fun r => r ∖ {[ p ]}))) Q w.
Proof. intros HQ. apply run_bind, run_update_emee. intros _ _. apply run_update_emee. intros _ _. by rewrite alter_emees_alter. Qed.

Lemma wf_delete w p : wf w -> free p w -> wf (set_events (delete p) w).
Proof.
  intros [R I N] Hf. split; [done| |].
  - intros m q Hi. assert (interested w m q) as Hi' by done. specialize (I m q Hi'). unfold impl_of in *. cbn.
    rewrite lookup_delete_ne; [done|]. intros ->. by apply (Hf m).
  - intros q Hq. destruct (N q Hq). split; [|done]. cbn. by rewrite lookup_delete_None; right.
Qed.

(** ** The operations *)

Ltac run :=
  repeat first
    [ lazymatch goal with
      | |- run _ (mret _) _ _ => apply run_ret
      | |- run _ (throw _) _ _ => apply run_throw
      | |- run _ (_ ≫= _) _ _ => apply run_bind
      | |- run _ (event_at _) _ _ => apply run_event_at; intros ? ?
      | |- run _ (emee_at _) _ _ => apply run_emee_at; intros ? ?
      | |- run _ get _ _ => apply run_get_world
      | |- run _ (modify _) _ _ => apply run_modify
      | |- run _ (update_emee _ _) _ _ => apply run_update_emee; intros ? ?
      | |- run _ (lift UB) _ _ => exact Logic.I
      | |- run _ (lift OutOfFuel) _ _ => exact Logic.I
      end ].

Section Structure.
Context `{LibEvent, Addresses}.

Lemma run_findFdInInterest E m p (Q : bool -> World -> Prop) w :
  (interested w m p -> Q true w) -> (~ interested w m p -> Q false w) -> run E (findFdInInterest m p) Q w.
Proof.
  intros H1 H2. unfold findFdInInterest, guard. run. destruct (int_mut_locked_by_get_ready_em_events_ _); run.
  simplify_eq. case_bool_decide as Hp; [apply H1; by eexists|]. apply H2. intros (em & ? & ?). by simplify_eq.
Qed.

Lemma run_find_in E l p (Q : option nat -> World -> Prop) w :
  (forall m, interested w m p -> Q (Some m) w) ->
  ((forall m, m ∈ l -> ~ interested w m p) -> Q None w) -> run E (find_in l p) Q w.
Proof.
  intros H1. induction l as [|m l IH]; intros H2; cbn [find_in].
  - run. apply H2. by intros m ?%elem_of_nil.
  - run. apply run_findFdInInterest; intros Hi; run; [by apply H1|]. apply IH. intros Hl. apply H2.
    intros q [->|Hq]%elem_of_cons; [done|by apply Hl].
Qed.

Lemma run_find E p (Q : option nat -> World -> Prop) w :
  (forall m, interested w m p -> Q (Some m) w) -> (free p w -> Q None w) -> run E (findEmEventInAnInterestSet p) Q w.
Proof.
  intros H1 H2. unfold findEmEventInAnInterestSet. run. apply run_find_in; [done|]. intros Hl. apply H2.
  intros m Hi. apply (Hl m); [|done]. rewrite in_order_perm, elem_of_elements, elem_of_dom.
  destruct Hi as (em & E1 & _). by exists em.
Qed.

Definition frame (w w' : World) : Prop := wf w' /\ same_lists w w'.
Lemma frame_similar w w1 w2 : frame w w1 -> similar w1 w2 -> frame w w2.
Proof.
  intros [Hw Hs] S. split; [exact (similar_wf _ _ S Hw)|]. transitivity w1; [exact Hs|]. exact (similar_same_lists _ _ S).
Qed.
Lemma frame_refl w : wf w -> frame w w.
Proof. intros Hw. split; [exact Hw|reflexivity]. Qed.
Lemma run_calm_frame {A} (m : M World A) (Q : A -> World -> Prop) w0 w :
  frame w0 w -> calm True m -> (forall a w', similar w w' -> frame w0 w' -> Q a w') -> run (frame w0) m Q w.
Proof.
  intros Hf Hm HQ. eapply run_calm; [done| |].
  - intros w' _ S. by eapply frame_similar.
  - intros a w' S. apply HQ; [done|]. by eapply frame_similar.
Qed.

Lemma run_getEventMethEpollEquivImpl p w (Q : option nat -> World -> Prop) :
  wf w ->
  (forall w', frame w w' -> (forall m, impl_of w p = Some m -> m ∈ dom (emees w) -> impl_of w' p = Some m) ->
     Q (match impl_of w p with Some m => if bool_decide (m ∈ dom (emees w)) then Some m else None | None => None end) w') ->
  run (frame w) (getEventMethEpollEquivImpl p) Q w.
Proof.
  intros Hw HQ. unfold getEventMethEpollEquivImpl, getEventMethEpollEquivImplFromEmeeSet. apply run_bind, run_event_at. intros a Ha.
  assert (impl_of w p = event_meth_epoll_equiv_impl_ a) as Ei by (unfold impl_of; by rewrite Ha).
  rewrite Ei in HQ. destruct (event_meth_epoll_equiv_impl_ a) as [m|] eqn:Em; run.
  - case_bool_decide as Hd; run; [apply HQ; [by apply frame_refl|naive_solver]|].
    apply run_update. intros e He. run. apply HQ.
    + split; [|done]. apply wf_set_impl; [done|]. intros q Hi. pose proof (wf_impl _ Hw _ _ Hi) as E.
      rewrite Ei in E. simplify_eq. destruct Hd. destruct Hi as (em & E & _). apply elem_of_dom. by exists em.
    + naive_solver.
  - apply HQ; [by apply frame_refl|done].
Qed.

Lemma run_ctl_emee p m w (Q : unit -> World -> Prop) :
  wf w -> (forall w', frame w w' -> impl_of w' p = Some m -> Q tt w') -> run (frame w) (ctl_emee p (Some m)) Q w.
Proof.
  intros Hw HQ. unfold ctl_emee. apply run_bind, run_event_at. intros a Ha.
  assert (impl_of w p = event_meth_epoll_equiv_impl_ a) as Ei by (unfold impl_of; by rewrite Ha).
  case_bool_decide as Em; run.
  - apply HQ; [by apply frame_refl|congruence].
  - assert ((forall q, interested w q p -> q = m) ->
      run (frame w) (update p (set_impl (Some m))) Q w) as Hup.
    { intros Hi. apply run_update. intros e He. apply HQ; [|by eapply impl_of_set_impl].
      split; [|done]. apply wf_set_impl; [done|]. intros q Hq. by rewrite (Hi q). }
    destruct (event_meth_epoll_equiv_impl_ a) as [m0|] eqn:E0; run.
    + apply run_find; [intros m1 H1|intros Hfree].
      * destruct (Nat.eqb_spec m1 m) as [->|Hn]; run; [|by apply frame_refl]. apply Hup. intros q Hq.
        pose proof (wf_impl _ Hw _ _ Hq). pose proof (wf_impl _ Hw _ _ H1). congruence.
      * run. apply Hup. intros q Hq. by destruct (Hfree q).
    + apply Hup. intros q Hq. pose proof (wf_impl _ Hw _ _ Hq). congruence.
Qed.

(** [ctl] points the event to the poller, and changes no list. *)
Definition links_only (em_ctl : EvCtlAction -> nat -> option nat -> Z -> option Z -> M World Z) : Prop :=
  forall op p m ev tv w, wf w ->
  run (frame w) (em_ctl op p (Some m) ev tv) (fun _ w' => frame w w' /\ impl_of w' p = Some m) w.

Lemma EmEvent_ctl_links : links_only EmEvent_ctl.
Proof.
  intros op p m ev tv w Hw. unfold EmEvent_ctl. apply run_bind. apply run_ctl_emee; [done|]. intros w' Hf Hi.
  apply run_calm_frame; [done| |].
  - calm.
  - intros r w2 S Hf2. split; [done|]. by rewrite (similar_impl _ _ _ S).
Qed.

Lemma em_ctl_links : links_only em_ctl.
Proof.
  intros op p m ev tv w Hw. unfold em_ctl. apply run_bind, run_event_at. intros a _. destruct (kind a); [by apply EmEvent_ctl_links| |].
  all: unfold EmEventCtr_ctl; apply run_bind, run_event_at; intros old _; apply run_bind; eapply run_mono; [by apply EmEvent_ctl_links|done|].
  all: intros r w1 (Hf & Hi); apply run_calm_frame; [done|by calm|].
  all: intros r2 w2 S Hf2; split; [done|]; by rewrite (similar_impl _ _ _ S).
Qed.

Lemma frame_trans w w1 w2 : frame w w1 -> frame w1 w2 -> frame w w2.
Proof. intros [_ S1] [W S2]. split; [exact W|]. by transitivity w1. Qed.
Lemma run_frame {A} (m : M World A) Q w w1 : frame w w1 -> run (frame w1) m Q w1 -> run (frame w) m Q w1.
Proof. intros Hf Hr. eapply run_mono; [exact Hr| |done]. intros w2. by apply frame_trans. Qed.

(** What a [ctlEx] that returned [r] leaves. *)
Definition ctl_post (p m : nat) (w : World) (r : Z) (w' : World) : Prop :=
  wf w' /\ if r =? 0 then impl_of w' p = Some m else same_lists w w'.

Lemma run_error n p m w w1 : frame w w1 -> run (frame w) (error n) (ctl_post p m w) w1.
Proof.
  intros Hf. unfold error. run. assert (similar w1 (set_errno n w1)) as S by by apply similar_links.
  destruct (frame_similar _ _ _ Hf S). by split.
Qed.

(** A [ctlEx] that fails changes no list. *)
Lemma run_ctlEx_with c op m p ev tv w :
  links_only c -> wf w -> run (frame w) (ctlEx_with c op m (Some p) ev tv) (ctl_post p m w) w.
Proof.
  intros Hc Hw. unfold ctlEx_with. apply run_bind. apply run_calm_frame; [by apply frame_refl|by calm|].
  intros found w1 S1 Hf1. apply run_bind. apply run_calm_frame; [done|by calm|]. intros refused w2 S2 Hf2.
  destruct refused; [by apply run_error|]. apply run_bind. apply run_frame; [done|].
  eapply run_mono; [apply Hc, Hf2|done|]. intros r w3 [Hf3 Hi]. assert (frame w w3) as Hf by by eapply frame_trans.
  destruct (r =? 0) eqn:Er; cbn [negb]; [|run; split; [apply Hf|rewrite Er; apply Hf]].
  apply run_bind, run_calm_frame; [done|by calm|]. intros _ w4 S4 Hf4.
  rewrite <- (similar_impl _ _ _ S4) in Hi.
  assert (forall b : bool,
    run (frame w) (if b then
           (e ← emee_at m;
            if bool_decide (p ∈ interest_ e) then error EPERM
            else _ ← update_emee m (set_interest (fun i => i ∪ {[ p ]})); mret 0)
         else mret 0) (ctl_post p m w) w4) as Hadd.
  { intros [|]; [|by run; split; [apply Hf4|]]. run. case_bool_decide; [by apply run_error|]. run.
    split; [|done]. apply wf_add_interest; [apply Hf4|done]. }
  destruct op; [apply Hadd|apply Hadd|]. run. rewrite alter_emees_alter. split; [|done].
  apply (wf_erase _ _ p), Hf4.
Qed.

Lemma ctlEx_links (force : bool) : links_only (if force then EmEvent_ctl else em_ctl).
Proof. destruct force; [apply EmEvent_ctl_links|apply em_ctl_links]. Qed.
Lemma run_ctlEx op m p ev tv force w :
  wf w -> run (frame w) (ctlEx op m (Some p) ev tv force) (ctl_post p m w) w.
Proof. intros. apply run_ctlEx_with; [apply ctlEx_links|done]. Qed.
Lemma run_ctl op m p ev tv w : wf w -> run (frame w) (ctl op m (Some p) ev tv) (ctl_post p m w) w.
Proof.
  intros Hw. unfold ctl. apply run_bind. eapply run_mono; [by apply run_ctlEx|done|]. intros r w1 [Hw1 Hr].
  unfold ctl_post. destruct (r =? 0) eqn:Er; run; [|by rewrite Er]. apply run_update. intros e He. run. rewrite Er.
  assert (similar w1 (set_events (alter resetAddWasArtificial p) w1)) as S by by apply similar_alter.
  split; [by eapply similar_wf|by rewrite (similar_impl _ _ _ S)].
Qed.

(** ** Everything keeps the invariant *)

Lemma keeps_ctlEx op m em ev tv force : keeps (ctlEx op m em ev tv force).
Proof.
  intros w Hw. destruct em as [p|]; [|by apply (keeps_calm (error EINVAL) (calm_error True EINVAL))].
  eapply run_mono; [by apply run_ctlEx|by intros ? []|by intros ? ? []].
Qed.
Lemma keeps_ctl op m em ev tv : keeps (ctl op m em ev tv).
Proof.
  intros w Hw. destruct em as [p|].
  - eapply run_mono; [by apply run_ctl|by intros ? []|by intros ? ? []].
  - by apply (similar_wf w); [apply similar_links|].
Qed.
Lemma keeps_get_emee p : keeps (getEventMethEpollEquivImpl p).
Proof.
  intros w Hw. eapply run_mono; [apply (run_getEventMethEpollEquivImpl p w (fun _ => wf)); [done|]| |done];
    by intros ? [].
Qed.
Lemma keeps_settime_emee p emee : keeps (settime_emee p emee).
Proof.
  intros w Hw. unfold settime_emee. apply run_bind, run_event_at. intros e He. destruct emee as [m|]; [|by run].
  case_bool_decide; [by run|]. destruct (event_meth_epoll_equiv_impl_ e) eqn:Ei; [by run|]. apply run_bind, run_update.
  intros e' He'. run. apply wf_set_impl; [done|]. intros q Hq. pose proof (wf_impl _ Hw _ _ Hq) as Hi.
  unfold impl_of in Hi. rewrite He in Hi. cbn in Hi. congruence.
Qed.
End Structure.

Create HintDb keeps.
#[export] Hint Resolve keeps_ctlEx keeps_ctl keeps_get_emee keeps_settime_emee : keeps.
(** A computation that is not calm as a whole, by its parts. *)
Ltac keeps :=
  repeat first
    [ solve [auto with keeps nocore]
    | solve [apply keeps_calm; calm]
    | lazymatch goal with
      | |- keeps (_ ≫= _) => apply keeps_bind; [|intros ?]
      | |- keeps (match ?x with _ => _ end) => destruct x
      end ].

Section Keep.
Context `{LibEvent, Addresses}.

Lemma keeps_renewEv p : keeps (renewEv p).
Proof. unfold renewEv. keeps. Qed.
Hint Resolve keeps_renewEv : keeps.
Lemma keeps_resetCounterVal p : keeps (resetCounterVal p).
Proof. unfold resetCounterVal, resetCounterValMutexAlreadyLocked. keeps. Qed.
Hint Resolve keeps_resetCounterVal : keeps.
Lemma keeps_read_counter p : keeps (read_counter p).
Proof. unfold read_counter, resetCounterValMutexAlreadyLocked, waits. keeps. Qed.
Lemma keeps_writeProt p v : keeps (writeProt p v).
Proof. unfold writeProt, waits. keeps. Qed.
Hint Resolve keeps_read_counter keeps_writeProt : keeps.

Lemma keeps_setEmEventTime fd tv emee : keeps (setEmEventTime fd tv emee).
Proof. unfold setEmEventTime, EmEventTmrFd_settime, EmEvent_settime, settime_stop, setPriorTv. keeps. Qed.
Lemma keeps_readEfd fd : keeps (readEfd fd).
Proof. unfold readEfd, as_efd. keeps. Qed.
Lemma keeps_writeEfd fd v : keeps (writeEfd fd v).
Proof. unfold writeEfd, as_efd. keeps. Qed.
Lemma keeps_read fd n : keeps (EmEvents.read fd n).
Proof. unfold EmEvents.read, read_buf, getActualFd. keeps. Qed.
Lemma keeps_write fd b : keeps (EmEvents.write fd b).
Proof. unfold EmEvents.write, writeProt_buf, getActualFd. keeps. Qed.

(** *** New objects *)

Lemma run_alloc E e (Q : nat -> World -> Prop) w :
  wf w -> (forall w', frame w w' -> free (next w) w' -> events w' !! next w = Some e -> Q (next w) w') -> run E (alloc e) Q w.
Proof.
  intros Hw HQ. unfold alloc. run. destruct (wf_next _ Hw (next w)) as [Ne Nm]; [done|]. apply HQ.
  - split; [|by intros m q]. destruct Hw as [R I N]. split; [done| |].
    + intros m q Hi. rewrite <- (I m q Hi). unfold impl_of. cbn. rewrite lookup_insert_ne; [done|].
      intros <-. pose proof (I m _ Hi) as E1. unfold impl_of in E1. by rewrite Ne in E1.
    + cbn. intros q Hq. rewrite lookup_insert_ne by lia. apply N. lia.
  - intros m Hi. pose proof (wf_impl _ Hw m (next w) Hi) as E1. unfold impl_of in E1. by rewrite Ne in E1.
  - cbn. by rewrite lookup_insert_eq.
Qed.

Lemma run_make_new fd flags f1 f2 w (Q : nat -> World -> Prop) :
  wf w -> (forall p w', frame w w' -> free p w' -> Q p w') -> run (frame w) (make_new fd flags f1 f2) Q w.
Proof.
  intros Hw HQ. unfold make_new. apply run_bind, run_alloc; [done|]. intros w1 Hf1 Hfr _.
  apply run_bind, run_calm_frame; [done|by calm|]. intros _ w2 S Hf2. run. apply HQ; [done|]. by eapply similar_free.
Qed.
Lemma keeps_alloc e : keeps (alloc e).
Proof. intros w Hw. apply run_alloc; [done|]. by intros w' []. Qed.
Hint Resolve keeps_alloc : keeps.
Lemma keeps_make_new fd flags f1 f2 : keeps (make_new fd flags f1 f2).
Proof. unfold make_new. keeps. Qed.
Lemma keeps_EmEventFd_make_new v f1 f2 : keeps (EmEventFd_make_new v f1 f2).
Proof. unfold EmEventFd_make_new, makeBlocking. keeps. Qed.
Lemma keeps_EmEventTmrFd_make_new c f1 f2 emee : keeps (EmEventTmrFd_make_new c f1 f2 emee).
Proof.
  unfold EmEventTmrFd_make_new, makeBlocking. apply keeps_bind; [|intros; keeps]. intros w Hw.
  unfold run, lift. by destruct (clock_known c).
Qed.

Lemma wf_new_emee w : wf w -> wf (set_emees <[next w := EMEE_new]> (set_next (S (next w)) w)).
Proof.
  intros [R I N]. split.
  - intros m em. cbn. destruct (decide (m = next w)) as [->|Hn].
    + rewrite lookup_insert_eq. by intros [= <-].
    + rewrite lookup_insert_ne by done. apply R.
  - intros m q (em & E & Hin). cbn in E. destruct (decide (m = next w)) as [->|Hn].
    + rewrite lookup_insert_eq in E. injection E as <-. cbn in Hin. set_solver.
    + rewrite lookup_insert_ne in E by done. apply I. by exists em.
  - cbn. intros q Hq. rewrite lookup_insert_ne by lia. apply N. lia.
Qed.
Lemma keeps_new_emee size : keeps (EventMethEpollEquivImpl_new size).
Proof.
  unfold EventMethEpollEquivImpl_new. apply keeps_bind; [keeps|intros r]. destruct (r <? 0); [keeps|].
  destruct (size <=? 0); [keeps|]. intros w Hw. run. by apply wf_new_emee.
Qed.

(** *** Objects that go *)

(** Deleting what is in no list. *)
Lemma run_delete E p (Q : unit -> World -> Prop) w :
  wf w -> free p w -> (forall w', wf w' -> same_lists w w' -> Q tt w') -> run E (delete_event p) Q w.
Proof.
  intros Hw Hfr HQ. unfold delete_event. apply run_bind. eapply (run_calm _ False); [apply calm_close|done|].
  intros r w1 S. run. apply HQ.
  - apply wf_delete; [by eapply similar_wf|by eapply similar_free].
  - intros m q. rewrite interested_events. by apply similar_interested.
Qed.

Lemma keeps_closeEvent em : keeps (closeEvent em).
Proof.
  intros w Hw. destruct em as [p|]; [|by apply (similar_wf w); [apply similar_links|]].
  unfold closeEvent. apply run_bind.
  eapply run_mono; [apply (run_getEventMethEpollEquivImpl p w
    (fun o w' => frame w w' /\ (forall m, interested w' m p -> o = Some m /\ impl_of w' p = Some m)))| |].
  - done.
  - intros w' Hf Hi. split; [done|]. intros m Hm. destruct Hf as [Hw' Hs]. pose proof (wf_impl _ Hw _ _ (proj1 (Hs m p) Hm)) as E1.
    rewrite E1. assert (m ∈ dom (emees w)) by (destruct (proj1 (Hs m p) Hm) as (em & E2 & _); apply elem_of_dom; by exists em).
    rewrite bool_decide_eq_true_2 by done. split; [done|]. by apply Hi.
  - by intros ? [].
  - intros o w1 [[Hw1 _] Ho]. cbn.
    apply run_bind. apply (run_mono _ wf _ (fun o' w' => similar w1 w' /\
      match o' with Some m => impl_of w' p = Some m | None => free p w' end)); [|done|].
    + destruct o as [m|]; [|run; split; [done|intros m Hm; by destruct (Ho m Hm)]].
      apply run_bind, run_findFdInInterest; intros Hi; run; (split; [done|]); [by apply Ho|].
      intros q Hq. destruct (Ho q Hq) as [[= ->] _]. done.
    + clear Ho o. intros o w2 [S2 Ho]. pose proof (similar_wf _ _ S2 Hw1) as Hw2. cbn.
      apply run_bind. eapply (run_calm _ False); [apply calm_close|done|]. intros r w3 S3.
      pose proof (similar_wf _ _ S3 Hw2) as Hw3. destruct (r =? 0); [|by run].
      apply run_bind. destruct o as [m|].
      * apply run_erase. rewrite <- (similar_impl _ _ _ S3) in Ho.
        apply run_bind, run_delete; [by apply wf_erase|by apply free_erase|]. intros; by run.
      * run. apply run_delete; [done|by eapply similar_free|]. intros; by run.
Qed.

Lemma wf_delete_emee w m : wf w -> wf (set_emees (delete m) w).
Proof.
  intros [R I N]. split.
  - intros q em. cbn. destruct (decide (q = m)) as [->|Hn]; [by rewrite lookup_delete_eq|]. rewrite lookup_delete_ne by done. apply R.
  - intros q p (em & E & Hin). cbn in E. destruct (decide (q = m)) as [->|Hn]; [by rewrite lookup_delete_eq in E|].
    rewrite lookup_delete_ne in E by done. apply I. by exists em.
  - intros p Hp. destruct (N p Hp). split; [done|]. cbn. by rewrite lookup_delete_None; right.
Qed.
Lemma free_delete_emee w m p : wf w -> impl_of w p = Some m -> free p (set_emees (delete m) w).
Proof.
  intros Hw Hp q (em & E & Hin). cbn in E. destruct (decide (q = m)) as [->|Hn]; [by rewrite lookup_delete_eq in E|].
  rewrite lookup_delete_ne in E by done. pose proof (wf_member _ _ _ _ Hw E Hin). congruence.
Qed.

Lemma run_detach E p (Q : unit -> World -> Prop) w :
  wf w -> free p w -> (forall w', frame w w' -> Q tt w') -> run E (detachEventMethEpollEquivImmedFree p) Q w.
Proof.
  intros Hw Hfr HQ. unfold detachEventMethEpollEquivImmedFree. apply run_bind, run_event_at. intros e _.
  apply run_bind, (run_calm _ False); [by calm|done|]. intros _ w1 S. apply run_update. intros e' _. apply HQ. split.
  - apply wf_set_impl; [by eapply similar_wf|]. intros m Hm. destruct (similar_free _ _ _ S Hfr m Hm).
  - intros m q. rewrite interested_events. by apply similar_interested.
Qed.
Lemma run_detach_all E l (Q : unit -> World -> Prop) w :
  wf w -> (forall p, p ∈ l -> free p w) -> (forall w', frame w w' -> Q tt w') -> run E (detach_all l) Q w.
Proof.
  revert w. induction l as [|p l IH]; intros w Hw Hl HQ; cbn [detach_all]; [run; apply HQ; by apply frame_refl|].
  apply run_bind, run_detach; [done|apply Hl; by left|]. intros w1 [Hw1 Hs1]. apply IH; [done| |].
  - intros q Hq. eapply same_lists_free; [done|]. apply Hl. by right.
  - intros w2 Hf. apply HQ. by eapply frame_trans.
Qed.

(** The destructor of a poller. *)
Lemma keeps_delete_emee m : keeps (EventMethEpollEquivImpl_delete m).
Proof.
  intros w Hw. unfold EventMethEpollEquivImpl_delete. apply run_bind, (run_calm _ False); [by calm|done|].
  intros _ w1 S. pose proof (similar_wf _ _ S Hw) as Hw1. clear w Hw S. apply run_bind, run_emee_at. intros em Em.
  unfold guard. run. destruct (int_mut_locked_by_get_ready_em_events_ _); run.
  assert (forall p, p ∈ interest_ em -> free p (set_emees (delete m) w1)) as Hfr.
  { intros p Hp. apply free_delete_emee; [done|]. exact (wf_member _ _ _ _ Hw1 Em Hp). }
  apply run_detach_all; [by apply wf_delete_emee| |].
  - intros p. rewrite in_order_perm, elem_of_elements. apply Hfr.
  - intros w2 [Hw2 Hs2]. apply run_detach_all; [done| |by intros ? []].
    intros p. rewrite in_order_perm, elem_of_elements. intros Hp. eapply same_lists_free; [done|]. apply Hfr.
    by apply (wf_ready _ Hw1 _ _ Em).
Qed.
End Keep.
#[export] Hint Resolve keeps_read_counter keeps_writeProt : keeps.

(** ** Polling *)

Section Polling.
Context `{LibEvent, Addresses}.

(** A timer that expires counts, and is never renewed. *)
Lemma run_timer_write p v w e :
  events w !! p = Some e -> is_timer e = true -> run (fun _ => False) (writeProt p v) (fun _ => similar w) w.
Proof.
  intros He Ht. unfold writeProt, waits. destruct (v =? 0); [by run|].
  destruct (v =? 2 ^ 64 - 1); [by apply (run_calm _ False); [calm|..]|].
  apply run_bind. unfold guard_counter. apply run_bind, run_event_at. intros ? _. destruct (counter_held _); [exact Logic.I|apply run_ret].
  apply run_bind, run_event_at. intros e1 E1. rewrite He in E1. injection E1 as <-. rewrite Ht, andb_false_r. cbn [negb].
  destruct (_ <? v); [by apply (run_calm _ False); [calm|..]|]. apply run_bind, run_update. intros _ _.
  assert (similar w (set_events (alter (set_counter (counter_val_ e + v)) p) w)) as S by by apply similar_alter.
  apply run_bind, run_event_at. cbn. rewrite lookup_alter_eq, He. cbn. intros e' [= <-].
  apply run_bind, (run_calm _ False); [|done|intros _ w' S'; run; by etransitivity].
  cbn [ev_ set_counter]. destruct (ev_ e) as [ev|]; [|calm].
  replace (is_timer (set_counter (counter_val_ e + v) e)) with true by (symmetry; exact Ht). cbn. calm.
Qed.

Lemma calm_handleEventCallback_virtual T p f : calm T (EmEvent_handleEventCallback p f).
Proof.
  apply calm_weaken. intros w. unfold EmEvent_handleEventCallback, EmEventTmrFd_handleEventCallback.
  change (run (fun w' => False /\ similar w w') (e ← event_at p;
    (if is_timer e then _ ← (if has EVM_TIMEOUT f then _ ← writeProt p 1; mret tt else mret tt);
       e0 ← event_at p; mret (if has EVM_READ (flags_ e0) then Z.lor f EVM_READ else f) else mret f))
    (fun _ w' => similar w w') w).
  apply run_bind, run_event_at. intros e He. destruct (is_timer e) eqn:Et; [|by run].
  apply run_bind. apply (run_mono _ (fun _ => False) _ (fun _ => similar w)); [|done|].
  - destruct (has EVM_TIMEOUT f); [|by run]. apply run_bind.
    apply (run_mono _ (fun _ => False) _ (fun _ => similar w)); [by eapply run_timer_write|done|].
    intros ? w1 S. by run.
  - intros ? w1 S. apply run_bind, run_event_at. intros e' _. by run.
Qed.

Lemma similar_ready w m p : (exists em, emees w !! m = Some em /\ p ∈ interest_ em) ->
  similar w (set_emees (alter (set_ready (fun r => r ∪ {[ p ]})) m) w).
Proof.
  intros (em & E & Hp). split; [done|]. split; [done|]. split.
  - intros q. cbn. destruct (decide (q = m)) as [->|Hn]; [|by rewrite lookup_alter_ne].
    rewrite lookup_alter_eq. by destruct (emees w !! m).
  - intros Hw. apply wf_alter_emee; [done|]. intros em' E'. simplify_eq. cbn. split.
    + pose proof (wf_ready _ Hw _ _ E). set_solver.
    + intros q. by eapply wf_member.
Qed.

Lemma calm_addEventToReady T m p f : calm T (addEventToReadyInterestAlrdyLocked m p f).
Proof.
  apply calm_weaken. intros w.
  change (run (fun w' => False /\ similar w w') (addEventToReadyInterestAlrdyLocked m p f) (fun _ w' => similar w w') w).
  unfold addEventToReadyInterestAlrdyLocked. apply run_bind, run_emee_at. intros em E.
  case_bool_decide as Hp; [by run|]. apply run_bind, run_update. intros e He.
  apply run_update_emee. intros _ _.
  etransitivity; [by apply (similar_alter p (orIntoReadyFlags f))|]. apply similar_ready. by exists em.
Qed.

Lemma similar_locked w m b : similar w (set_emees (alter (set_locked b) m) w).
Proof.
  split; [done|]. split; [done|]. split.
  - intros q. cbn. destruct (decide (q = m)) as [->|Hn]; [|by rewrite lookup_alter_ne].
    rewrite lookup_alter_eq. by destruct (emees w !! m).
  - intros Hw. apply wf_alter_emee; [done|]. intros em' E'. split; [exact (wf_ready _ Hw _ _ E')|].
    intros q Hq. exact (wf_member _ _ _ _ Hw E' Hq).
Qed.
Lemma calm_locked T m b : calm T (update_emee m (set_locked b)).
Proof. apply calm_bind; [calm|intros _]. apply calm_modify. intros. apply similar_locked. Qed.

(** No callback throws: the backend has edges, or its calls succeed. *)
Definition quiet : Prop := has EV_FEATURE_ET event_base_features = true \/ no_failures.

Lemma calm_callback T arg f : T \/ quiet -> calm T (eventCallbackFn arg f).
Proof.
  intros Ht. unfold eventCallbackFn, handleEventCallback.
  destruct arg as [p|]; [|calm]. apply calm_bind; [calm|]. intros [m|]; [|calm].
  apply calm_bind; [calm|intros _]. apply calm_bind; [calm|intros em]. case_bool_decide; [calm|].
  apply calm_bind; [apply calm_handleEventCallback_virtual|intros fl].
  apply calm_bind; [|intros _; apply calm_addEventToReady].
  destruct (has EV_FEATURE_ET event_base_features) eqn:Ef; cbn [negb]; [calm|].
  apply calm_bind; [apply calm_trigger|intros; calm]. destruct Ht as [?|[?|?]]; [by left|congruence|by right].
Qed.
Lemma calm_callbacks T l : T \/ quiet -> calm T (run_callbacks l).
Proof.
  intros Ht. induction l as [|[arg f] l IH]; cbn [run_callbacks]; [calm|].
  apply calm_bind; [by apply calm_callback|done].
Qed.

Lemma run_finally {A} E (m : M World A) f Q w :
  run (fun w' => run E f (fun _ => E) w') m (fun a w' => run E f (fun _ => Q a) w') w -> run E (finally m f) Q w.
Proof. unfold run, finally. destruct (m w) as [w' [a|e| |]]; try done; destruct (f w') as [w'' [[]|e'| |]]; done. Qed.

(** The timer of a wait is gone after it. *)
Lemma run_timed_wait m timeout d w :
  timeout <= 0 \/ (quiet /\ dispatch_res d = 0) -> wf w -> run wf (timed_wait m timeout d) (fun _ => wf) w.
Proof.
  intros Hd Hw. unfold timed_wait. destruct (Z.ltb_spec 0 timeout) as [Ht|Ht].
  - destruct Hd as [?|[Hq Hr]]; [lia|]. apply run_bind.
    eapply run_mono; [apply (run_make_new _ _ _ _ w (fun p w' => wf w' /\ free p w')); [done|]| |].
    + by intros p w' [].
    + by intros w' [].
    + intros p w1 [Hw1 Hfr]. apply run_finally.
      assert (forall (Q : World -> Prop) w', wf w' -> free p w' -> (forall w'', wf w'' -> Q w'') -> run wf (delete_event p) (fun _ => Q) w') as Hdel.
      { intros Q w' Hw' Hf HQ. apply run_delete; auto. }
      assert (forall w', frame w1 w' -> run wf (delete_event p) (fun _ => wf) w') as Hdel1.
      { intros w' [Hw' Hs]. apply Hdel; [done| |done]. by eapply same_lists_free. }
      apply run_bind. eapply run_mono; [by apply run_ctl|done|]. intros r w2 [Hw2 Hp].
      destruct (r =? 0); cbn [negb]; [|run; by apply Hdel1]. unfold wait.
      apply run_bind, (run_calm _ False); [calm|done|]. intros _ w3 S3.
      apply run_bind, (run_calm _ False); [apply calm_callbacks; by right|done|]. intros _ w4 S4.
      rewrite Hr. cbn. unfold removeSpecialTimerFromInterestAndReady. apply run_bind.
      apply run_bind, (run_calm _ False); [calm|done|]. intros _ w5 S5.
      assert (similar w2 w5) as S by (transitivity w4; [by transitivity w3|done]).
      run. rewrite alter_emees_alter. apply Hdel; [|  |done].
      * apply (wf_erase _ m p). by eapply similar_wf.
      * apply (free_erase _ m p); [by eapply similar_wf|]. by rewrite (similar_impl _ _ _ S).
  - apply keeps_calm; [|done]. unfold wait. apply calm_bind; [calm|intros _].
    apply calm_bind; [apply calm_callbacks; by left|intros _]. calm.
Qed.

Definition none_ready (m : nat) (w : World) : Prop := forall em, emees w !! m = Some em -> ready_ em = ∅.
Lemma run_drop m l w :
  wf w -> none_ready m w -> run wf (drop_not_persistent m l) (fun _ => wf) w.
Proof.
  revert w. induction l as [|p l IH]; intros w Hw Hn; cbn [drop_not_persistent]; [by run|].
  apply run_bind, run_event_at. intros e _. apply run_bind. destruct (negb _); [|run; by apply IH].
  apply run_update_emee. intros em Em. apply IH.
  - apply wf_alter_emee; [done|]. intros em' E'. cbn. rewrite (Hn _ E'). split; [set_solver|].
    intros q [Hq _]%elem_of_difference. by eapply wf_member.
  - intros em'. cbn. rewrite lookup_alter_eq, Em. intros [= <-]. cbn. by apply Hn.
Qed.

Lemma run_helper m timeout d w :
  timeout <= 0 \/ (quiet /\ dispatch_res d = 0) -> wf w -> run wf (getReadyEmEventsHelper m timeout d) (fun _ => wf) w.
Proof.
  intros Hd Hw. unfold getReadyEmEventsHelper. apply run_bind. eapply run_mono; [by apply run_timed_wait|done|].
  intros [r|] w1 Hw1; [by run|]. unfold lockInterestMutex.
  apply run_bind, (run_calm _ False); [apply calm_bind; [calm|intros _; apply calm_locked]|done|]. intros _ w2 S2.
  pose proof (similar_wf _ _ S2 Hw1) as Hw2. apply run_bind, run_emee_at. intros em Em. case_bool_decide; [by run|].
  apply run_bind, run_update_emee. intros _ _. apply run_bind.
  eapply run_mono; [apply run_drop|done|by intros; run].
  - apply wf_alter_emee; [done|]. intros em' E'. cbn. split; [set_solver|]. intros q. by eapply wf_member.
  - intros em'. cbn. rewrite lookup_alter_eq, Em. by intros [= <-].
Qed.

Lemma run_getReadyEmEvents m timeout ds w :
  timeout <= 0 \/ (quiet /\ Forall (fun d => dispatch_res d = 0) ds) -> wf w ->
  run wf (getReadyEmEvents m timeout ds) (fun _ => wf) w.
Proof.
  intros Hd. revert w. induction ds as [|d ds IH]; intros w Hw; cbn [getReadyEmEvents]; [done|].
  apply run_bind. eapply run_mono; [apply run_helper; [|done]|done|].
  - destruct Hd as [?|[? Hd]]; [by left|right]. apply list.Forall_cons in Hd. tauto.
  - intros [r out] w1 Hw1. destruct (r <? 0); [|by run]. apply IH; [|done].
    destruct Hd as [?|[? Hd]]; [by left|right]. apply list.Forall_cons in Hd. tauto.
Qed.

Lemma calm_report T l evs : calm T (report l evs).
Proof.
  revert evs. induction l as [|p l IH]; intros evs; cbn [report]; [calm|]. intros w.
  assert (calm True (tag ← getEmEventUserData (Some p); flags ← toNotifyOn (Some p);
    mret {| event_flags := flags; tag := tag |})) as Hc by (unfold getEmEventUserData, not_null, toNotifyOn, getActualFd; calm).
  specialize (Hc w). match goal with |- context [(?m ≫= ?k) w] => destruct ((m ≫= k) w) as [w1 [ev|e| |]] end; try done;
    [|by destruct Hc].
  assert (calm T (_ ← resetEmEventReadyFlags (Some p); report l (evs ++ [ev]))) as Hc2.
  { apply calm_bind; [|done]. unfold resetEmEventReadyFlags, not_null. calm. }
  specialize (Hc2 w1). match goal with |- context [(?m ≫= ?k) w1] => destruct ((m ≫= k) w1) as [w2 [r|e| |]] end; try done;
    [by transitivity w1|].
  split; [by destruct Hc2|]. transitivity w1; [done|by destruct Hc2].
Qed.

Lemma run_poll m timeout ds evs w :
  timeout <= 0 \/ (quiet /\ Forall (fun d => dispatch_res d = 0) ds) -> wf w ->
  run wf (poll m timeout ds evs) (fun _ => wf) w.
Proof.
  intros Hd Hw. pose proof (run_getReadyEmEvents m timeout ds w Hd Hw) as Hr. unfold run, poll in *.
  destruct (getReadyEmEvents m timeout ds w) as [w1 [[r out]|e| |]]; try done.
  - apply (keeps_calm (A := Z * list Event)); [|done]. apply calm_bind; [case_match; [apply calm_report|calm]|intros [evs' b]].
    apply calm_bind; [apply calm_locked|intros _; calm].
  - apply (keeps_calm (A := Z * list Event)); [|done]. apply calm_bind; [apply calm_locked|intros _; calm].
Qed.
End Polling.
