(* ===== verification/EmPolled.v ===== *)
(** * What the emulated poller promises

    The theorems about [EmEvents] and [EpollEquiv]: the interest lists in every run, what
    [poll] reports, the counters against an eventfd, and where the emulation does
    something else. *)

From S2P Require Import Prelude Cxx Poller EmEvents EpollEquiv EmInvariant.

Local Open Scope Z_scope.

(** ** Runs *)

(** What the rest of Pistache does with events and pollers. *)
Inductive op : Set :=
  | NewPoller (size : Z) | DeletePoller (m : nat)
  | NewEvent (fd flags f_setfd f_setfl : Z) | NewEventFd (initval f_setfd f_setfl : Z)
  | NewTimer (clock_id f_setfd f_setfl : Z) (emee : option nat)
  | Ctl (action : EvCtlAction) (m : nat) (em : option nat) (events : Z) (ms : option Z)
  | SetTime (em : option nat) (ms : option Z) (emee : option nat)
  | ReadEfd (em : option nat) | WriteEfd (em : option nat) (val : Z)
  | Read (em : option nat) (count : nat) | Write (em : option nat) (buf : bytes)
  | SetUserData (em : option nat) (data : Z)
  | Close (em : option nat)
  | Poll (m : nat) (timeout : Z) (ds : list dispatch).

Section Runs.
Context `{LibEvent, Addresses}.

Definition run_op (o : op) : M World unit :=
  match o with
  | NewPoller size => _ ← EventMethEpollEquivImpl_new size; mret tt
  | DeletePoller m => EventMethEpollEquivImpl_delete m
  | NewEvent fd flags f1 f2 => _ ← make_new fd flags f1 f2; mret tt
  | NewEventFd v f1 f2 => _ ← EmEventFd_make_new v f1 f2; mret tt
  | NewTimer c f1 f2 emee => _ ← EmEventTmrFd_make_new c f1 f2 emee; mret tt
  | Ctl action m em events ms => _ ← ctl action m em events ms; mret tt
  | SetTime em ms emee => _ ← setEmEventTime em ms emee; mret tt
  | ReadEfd em => _ ← readEfd em; mret tt
  | WriteEfd em val => _ ← writeEfd em val; mret tt
  | Read em count => _ ← EmEvents.read em count; mret tt
  | Write em buf => _ ← EmEvents.write em buf; mret tt
  | SetUserData em data => setEmEventUserData em data
  | Close em => _ ← closeEvent em; mret tt
  | Poll m timeout ds => _ ← poll m timeout ds []; mret tt
  end.

(** Where a wait with a timeout is left early, its timer stays behind. *)
Definition allowed (o : op) : Prop :=
  match o with
  | Poll _ timeout ds => timeout <= 0 \/ (quiet /\ Forall (fun d => dispatch_res d = 0) ds)
  | _ => True
  end.

(** The store after some operations, each of which returned or threw. *)
Inductive reachable : World -> Prop :=
  | reachable_new : reachable World_new
  | reachable_op o w w' r :
      reachable w -> allowed o -> run_op o w = (w', r) -> r = Ok tt \/ (exists e, r = Throw e) -> reachable w'.

(** Operations in a row. *)
Fixpoint after (l : list op) (w : World) : World := match l with [] => w | o :: l' => after l' (run_op o w).1 end.
Fixpoint returns (l : list op) (w : World) : bool :=
  match l with
  | [] => true
  | o :: l' => match (run_op o w).2 with Ok _ | Throw _ => returns l' (run_op o w).1 | _ => false end
  end.
Lemma reachable_after l w : reachable w -> Forall allowed l -> returns l w = true -> reachable (after l w).
Proof.
  intros Hw Hl. revert w Hw. induction Hl as [|o l Ho Hl IH]; intros w Hw Hr; cbn in *; [done|].
  destruct (run_op o w) as [w' r] eqn:E. cbn in Hr. apply IH.
  - eapply reachable_op; [done..|]. destruct r as [[]|e| |]; [by left|right; by exists e|done|done].
  - by destruct r.
Qed.

Lemma keeps_op o : allowed o -> keeps (run_op o).
Proof.
  intros Ho. destruct o; cbn [run_op]; first [apply keeps_delete_emee
    | solve [apply keeps_calm; unfold setEmEventUserData, not_null; calm]
    | apply keeps_bind; [|intros; apply keeps_calm; calm]].
  all: try first [apply keeps_new_emee | apply keeps_make_new | apply keeps_EmEventFd_make_new | apply keeps_EmEventTmrFd_make_new
    | apply keeps_ctl | apply keeps_setEmEventTime | apply keeps_readEfd | apply keeps_writeEfd | apply keeps_read
    | apply keeps_write | apply keeps_closeEvent].
  intros w Hw. by apply run_poll.
Qed.

Lemma reachable_wf w : reachable w -> wf w.
Proof.
  induction 1 as [|o w w' r _ IH Ho Er Hr]; [apply wf_World_new|]. pose proof (keeps_op o Ho w IH) as Hk.
  unfold run in Hk. rewrite Er in Hk. by destruct Hr as [->|[e ->]].
Qed.

(** C28. Whatever is done with events and pollers, in any order, but for the waits that
    [em_stale_timer] is about: what a poller has in its interest list exists and points
    back to it, nothing is in the lists of two pollers, and what is ready is registered. *)
Theorem em_interest_lists w m em :
  reachable w -> emees w !! m = Some em ->
  ready_ em ⊆ interest_ em
  /\ forall p, p ∈ interest_ em ->
     (exists e, events w !! p = Some e /\ event_meth_epoll_equiv_impl_ e = Some m)
     /\ forall m' em', emees w !! m' = Some em' -> p ∈ interest_ em' -> m' = m.
Proof.
  intros Hr Em. pose proof (reachable_wf w Hr) as Hw. split; [by apply (wf_ready _ Hw _ _ Em)|]. intros p Hp.
  pose proof (wf_member _ _ _ _ Hw Em Hp) as Hi. split.
  - unfold impl_of in Hi. destruct (events w !! p) as [e|]; [by exists e|done].
  - intros m' em' Em' Hp'. pose proof (wf_member _ _ _ _ Hw Em' Hp'). congruence.
Qed.
End Runs.

(** Instances for examples: a backend with edges and early close whose calls succeed. *)
Module Demo.
#[local] Instance libevent : LibEvent :=
  {| event_base_features := 9; call_result := fun _ _ => 0; system_error := B "error" |}.
#[local] Instance addresses : Addresses.
Proof. refine {| in_order := elements |}. done. Defined.
End Demo.

Lemma em_interest_lists_witness :
  let w := @after Demo.libevent Demo.addresses
    [NewPoller 128; NewEventFd 0 1 2048; Ctl Add 1 (Some 2%nat) 50 None; WriteEfd (Some 2%nat) 1;
     Poll 1 500 [{| callbacks := [(Some 2%nat, 2)]; dispatch_res := 0 |}]] World_new in
  exists em, emees w !! 1%nat = Some em /\ 2%nat ∈ interest_ em /\ ready_ em ⊆ interest_ em.
Proof.
  intros w. eexists. split; [vm_compute; reflexivity|]. split; [apply (bool_decide_unpack (_ ∈ _)); vm_compute; exact Logic.I|].
  eapply (@em_interest_lists Demo.libevent Demo.addresses w 1); [|vm_compute; reflexivity].
  apply reachable_after; [apply reachable_new| |vm_compute; reflexivity].
  repeat apply Forall_cons_2; try exact Logic.I; [|apply Forall_nil_2]. right. split; [left; reflexivity|repeat constructor].
Defined.

(** ** What is reported *)

(** How the stores before and after compare: the ready flags of an event go through [F],
    its counter may change, and nothing else of it does. *)
Definition flagged (F : nat -> Z -> Z) (w w' : World) : Prop :=
  next w = next w' /\ forall q,
  set_counter 0 <$> events w' !! q = (fun e => setReadyFlags (F q (ready_flags_ e)) (set_counter 0 e)) <$> events w !! q.
Definition quietly (w w' : World) : Prop := emees w = emees w' /\ flagged (fun _ x => x) w w'.

Lemma setReadyFlags_same e : setReadyFlags (ready_flags_ e) e = e.
Proof. by destruct e. Qed.

Lemma flagged_trans F G w1 w2 w3 : flagged F w1 w2 -> flagged G w2 w3 -> flagged (fun q x => G q (F q x)) w1 w3.
Proof.
  intros [N1 E1] [N2 E2]. split; [congruence|]. intros q. specialize (E1 q). specialize (E2 q).
  destruct (events w1 !! q) as [e1|], (events w2 !! q) as [e2|], (events w3 !! q) as [e3|]; try done.
  cbn in *. apply (inj Some) in E1, E2. f_equal. rewrite E2.
  assert (ready_flags_ e2 = F q (ready_flags_ e1)) as -> by apply (f_equal ready_flags_ E1). by rewrite E1.
Qed.
Lemma flagged_ext F G w w' : (forall q x, F q x = G q x) -> flagged F w w' -> flagged G w w'.
Proof. intros HF [N E]. split; [done|]. intros q. rewrite E. destruct (events w !! q); cbn; [by rewrite HF|done]. Qed.
Lemma flagged_event F w w' q e :
  flagged F w w' -> events w !! q = Some e ->
  exists c, events w' !! q = Some (set_counter c (setReadyFlags (F q (ready_flags_ e)) e)).
Proof.
  intros [_ E] Hq. specialize (E q). rewrite Hq in E. cbn in E. destruct (events w' !! q) as [e'|] eqn:E'; [|done].
  apply (inj Some) in E. exists (counter_val_ e'). f_equal.
  transitivity (set_counter (counter_val_ e') (set_counter 0 e')); [by destruct e'|by rewrite E].
Qed.

#[export] Instance quietly_preorder : PreOrder quietly.
Proof.
  split.
  - intros w. split; [done|]. split; [done|]. intros q. destruct (events w !! q) as [e|]; [|done]. by destruct e.
  - intros w1 w2 w3 [L1 F1] [L2 F2]. split; [congruence|]. eapply flagged_ext; [|by eapply flagged_trans]. done.
Qed.

Lemma quietly_trace w c : quietly w (add_trace c w).
Proof. by destruct (reflexivity (R := quietly) w). Qed.
Lemma quietly_errno w n : quietly w (set_errno n w).
Proof. by destruct (reflexivity (R := quietly) w). Qed.
Lemma quietly_counter w p n : quietly w (set_events (alter (set_counter n) p) w).
Proof.
  split; [done|]. split; [done|]. intros q. cbn. destruct (decide (q = p)) as [->|Hn].
  - rewrite lookup_alter_eq. destruct (events w !! p) as [e|]; [|done]. by destruct e.
  - rewrite lookup_alter_ne by done. destruct (events w !! q) as [e|]; [|done]. by destruct e.
Qed.

Definition all_unlocked (w : World) : Prop :=
  forall m em, emees w !! m = Some em -> int_mut_locked_by_get_ready_em_events_ em = false.

Section Reported.
Context `{LibEvent, Addresses}.

Lemma event_at_run p e w : events w !! p = Some e -> event_at p w = (w, Ok e).
Proof. intros E. unfold event_at, mbind, M_bind, get. by rewrite E. Qed.
Lemma emee_at_run m em w : emees w !! m = Some em -> emee_at m w = (w, Ok em).
Proof. intros E. unfold emee_at, mbind, M_bind, get. by rewrite E. Qed.
Lemma update_run p e f w : events w !! p = Some e -> update p f w = (set_events (alter f p) w, Ok tt).
Proof. intros E. unfold update. by rewrite (bind_Ok _ _ _ _ _ (event_at_run _ _ _ E)). Qed.
Lemma update_emee_run m em f w : emees w !! m = Some em -> update_emee m f w = (set_emees (alter f m) w, Ok tt).
Proof. intros E. unfold update_emee. by rewrite (bind_Ok _ _ _ _ _ (emee_at_run _ _ _ E)). Qed.
Lemma guard_run m em w :
  emees w !! m = Some em -> int_mut_locked_by_get_ready_em_events_ em = false -> guard m w = (w, Ok tt).
Proof. intros E L. unfold guard. rewrite (bind_Ok _ _ _ _ _ (emee_at_run _ _ _ E)). by rewrite L. Qed.
Lemma guard_counter_run p e w : events w !! p = Some e -> counter_held e = false -> guard_counter p w = (w, Ok tt).
Proof. intros E L. unfold guard_counter. rewrite (bind_Ok _ _ _ _ _ (event_at_run _ _ _ E)). by rewrite L. Qed.

Lemma find_in_run l p w :
  all_unlocked w -> (forall m, m ∈ l -> is_Some (emees w !! m)) ->
  exists o, find_in l p w = (w, Ok o)
    /\ match o with Some m => interested w m p | None => forall m, m ∈ l -> ~ interested w m p end.
Proof.
  intros Hu. induction l as [|m l IH]; intros Hl; cbn [find_in]; [exists None; split; [done|by intros m ?%elem_of_nil]|].
  destruct (Hl m) as [em Em]; [by left|]. unfold findFdInInterest.
  assert (forall k : bool -> M World (option nat), (found ← (_ ← guard m; e ← emee_at m; mret (bool_decide (p ∈ interest_ e))); k found) w
    = k (bool_decide (p ∈ interest_ em)) w) as ->.
  { intros k. apply bind_Ok. rewrite (bind_Ok _ _ _ _ _ (guard_run _ _ _ Em (Hu _ _ Em))).
    by rewrite (bind_Ok _ _ _ _ _ (emee_at_run _ _ _ Em)). }
  case_bool_decide as Hp; [exists (Some m); split; [done|by exists em]|].
  destruct IH as (o & Eo & Ho); [intros; apply Hl; by right|]. exists o. split; [done|]. destruct o; [done|].
  intros q [->|Hq]%elem_of_cons; [|by apply Ho]. intros (em' & ? & ?). by simplify_eq.
Qed.

Lemma find_run p w :
  all_unlocked w ->
  exists o, findEmEventInAnInterestSet p w = (w, Ok o)
    /\ match o with Some m => interested w m p | None => free p w end.
Proof.
  intros Hu. destruct (find_in_run (in_order (dom (emees w))) p w Hu) as (o & Eo & Ho).
  { intros m. rewrite in_order_perm, elem_of_elements. apply elem_of_dom. }
  exists o. split; [done|]. destruct o; [done|]. intros m Hm. apply (Ho m); [|done].
  rewrite in_order_perm, elem_of_elements. destruct Hm as (em & E & _). apply elem_of_dom. by exists em.
Qed.

(** The flags the event itself makes of those of a callback. *)
Definition own_flags (e : EmEvent) (f : Z) : Z :=
  if is_timer e && has EVM_READ (flags_ e) then Z.lor f EVM_READ else f.

Lemma timer_write_run p e w :
  events w !! p = Some e -> is_timer e = true -> counter_held e = false ->
  exists w' r, writeProt p 1 w = (w', Ok r) /\ quietly w w'.
Proof.
  intros He Ht Hh. unfold writeProt. change (1 =? 0) with false. change (1 =? 2 ^ 64 - 1) with false. cbv iota.
  rewrite (bind_Ok _ _ _ _ _ (guard_counter_run _ _ _ He Hh)).
  rewrite (bind_Ok _ _ _ _ _ (event_at_run _ _ _ He)). rewrite Ht, andb_false_r. cbn [negb].
  destruct (_ <? 1); [eexists _, _; split; [reflexivity|apply quietly_errno]|].
  rewrite (bind_Ok _ _ _ _ _ (update_run _ _ _ _ He)). set (w1 := set_events _ w).
  assert (events w1 !! p = Some (set_counter (counter_val_ e + 1) e)) as E1 by (cbn; by rewrite lookup_alter_eq, He).
  rewrite (bind_Ok _ _ _ _ _ (event_at_run _ _ _ E1)). assert (quietly w w1) as Hq by apply quietly_counter.
  cbn [ev_ set_counter]. destruct (ev_ e) as [v|]; [|by eexists _, _].
  replace (is_timer (set_counter (counter_val_ e + 1) e)) with true by (symmetry; exact Ht). cbn [negb andb].
  destruct (_ && _); [|by eexists _, _]. eexists _, _. split; [reflexivity|]. etransitivity; [exact Hq|]. apply quietly_trace.
Qed.

Lemma own_callback_run p e f w :
  events w !! p = Some e -> counter_held e = false ->
  exists w', EmEvent_handleEventCallback p f w = (w', Ok (own_flags e f)) /\ quietly w w'.
Proof.
  intros He Hh. unfold EmEvent_handleEventCallback, own_flags. rewrite (bind_Ok _ _ _ _ _ (event_at_run _ _ _ He)).
  destruct (is_timer e) eqn:Et; [|by exists w]. unfold EmEventTmrFd_handleEventCallback. cbn [andb].
  assert (exists w1, (if has EVM_TIMEOUT f then _ ← writeProt p 1; mret tt else mret tt) w = (w1, Ok tt) /\ quietly w w1)
    as (w1 & E1 & Hq).
  { destruct (has EVM_TIMEOUT f); [|by exists w]. destruct (timer_write_run p e w He Et Hh) as (w' & r & E' & Hq).
    exists w'. split; [|done]. by rewrite (bind_Ok _ _ _ _ _ E'). }
  rewrite (bind_Ok _ _ _ _ _ E1). destruct (flagged_event _ _ _ p e (proj2 Hq) He) as [c Ec].
  rewrite (bind_Ok _ _ _ _ _ (event_at_run _ _ _ Ec)). exists w1. split; [|done]. by rewrite setReadyFlags_same.
Qed.

Lemma trigger_run p e w :
  has EV_FEATURE_ET event_base_features = true \/ no_failures -> events w !! p = Some e ->
  exists w', (if negb (has EV_FEATURE_ET event_base_features) then _ ← deactivateAfterTriggerIfNeeded p; mret tt
              else mret tt) w = (w', Ok tt) /\ quietly w w'.
Proof.
  intros Hq He. destruct (has EV_FEATURE_ET event_base_features) eqn:Ef; cbn [negb]; [by exists w|].
  destruct Hq as [?|Hn]; [done|].
  assert (forall v (k : Z -> M World Z), exists w', quietly w w' /\ events w' = events w /\
    (r ← do_call (event_del v); x ← TRY_RET r; k x) w = k (call_result (trace w) (event_del v)) w') as Hdel.
  { intros v k. exists (add_trace (event_del v) w). split; [apply quietly_trace|]. split; [done|].
    rewrite (bind_Ok _ _ _ _ _ (do_call_run _ _)). apply bind_Ok. unfold TRY_RET.
    by rewrite (proj2 (Z.ltb_ge _ _) (Hn _ _)). }
  assert (forall v, exists w', quietly w w' /\ exists r, (r ← do_call (event_del v); TRY_RET r) w = (w', Ok r)) as Hdel'.
  { intros v. exists (add_trace (event_del v) w). split; [apply quietly_trace|]. eexists.
    rewrite (bind_Ok _ _ _ _ _ (do_call_run _ _)). unfold TRY_RET. by rewrite (proj2 (Z.ltb_ge _ _) (Hn _ _)). }
  assert (exists w' r, deactivateAfterTriggerIfNeeded p w = (w', Ok r) /\ quietly w w') as (w' & r & E & Hq').
  { unfold deactivateAfterTriggerIfNeeded, disarm, deactivate. rewrite (bind_Ok _ _ _ _ _ (event_at_run _ _ _ He)).
    destruct (has EVM_ET (flags_ e)), (has EVM_PERSIST (flags_ e)); cbn [negb];
      try rewrite (bind_Ok _ _ _ _ _ (event_at_run _ _ _ He)); destruct (ev_ e) as [v|]; try by eexists _, _.
    all: try (destruct (Hdel' v) as (w' & Hq' & r & E); by exists w', r).
    destruct (Hdel v (fun x => if negb (x =? 0) then mret x else do_call (event_add v (prior_tv_ e)))) as (w' & Hq' & _ & E).
    rewrite E. destruct (negb _); [by eexists _, _|]. eexists _, _. split; [reflexivity|].
    etransitivity; [done|]. apply quietly_trace. }
  exists w'. split; [|done]. by rewrite (bind_Ok _ _ _ _ _ E).
Qed.

Definition no_waiter (w : World) : Prop := forall p e, events w !! p = Some e -> counter_held e = false.

(** The callbacks of what is in [I]: the flags for one event, and the events. *)
Definition flags_for (I : gset nat) (q : nat) (cbs : list (option nat * Z)) : list Z :=
  omap (fun '(arg, f) => if bool_decide (arg = Some q /\ q ∈ I) then Some f else None) cbs.
Definition called (I : gset nat) (cbs : list (option nat * Z)) : gset nat :=
  list_to_set (omap (fun '(arg, _) => match arg with Some p => if bool_decide (p ∈ I) then Some p else None | None => None end) cbs).
(** How they change its ready flags. *)
Definition with_flags (e : option EmEvent) (fs : list Z) (x : Z) : Z :=
  fold_left (fun acc f => Z.lor acc (match e with Some e => own_flags e f | None => f end)) fs x.

Lemma own_flags_flagged e c r f : own_flags (set_counter c (setReadyFlags r e)) f = own_flags e f.
Proof. done. Qed.
Lemma with_flags_flagged F w w' q fs x :
  flagged F w w' -> with_flags (events w' !! q) fs x = with_flags (events w !! q) fs x.
Proof.
  intros Hf. destruct (events w !! q) as [e|] eqn:E.
  - destruct (flagged_event _ _ _ _ _ Hf E) as [c ->]. done.
  - destruct Hf as [_ Hf]. specialize (Hf q). rewrite E in Hf. destruct (events w' !! q); [discriminate Hf|done].
Qed.

Record ready_state (w : World) : Prop := {
  rs_wf : wf w;
  rs_unlocked : all_unlocked w;
  rs_no_waiter : no_waiter w }.

Lemma flagged_no_waiter F w w' : flagged F w w' -> no_waiter w -> no_waiter w'.
Proof.
  intros Hf Hn p e E. destruct (events w !! p) as [e0|] eqn:E0.
  - destruct (flagged_event _ _ _ _ _ Hf E0) as [c Ec]. rewrite E in Ec. apply (inj Some) in Ec as ->. exact (Hn p e0 E0).
  - destruct Hf as [_ Hf]. specialize (Hf p). rewrite E0, E in Hf. discriminate Hf.
Qed.

Lemma flagged_ready w w' p f :
  w' = set_events (alter (orIntoReadyFlags f) p) w -> flagged (fun q x => if bool_decide (q = p) then Z.lor x f else x) w w'.
Proof.
  intros ->. split; [done|]. intros q. cbn. destruct (decide (q = p)) as [->|Hn].
  - rewrite lookup_alter_eq, bool_decide_eq_true_2 by done. by destruct (events w !! p) as [[]|].
  - rewrite lookup_alter_ne, bool_decide_eq_false_2 by done. by destruct (events w !! q) as [[]|].
Qed.

Lemma callback_run m em arg f w :
  quiet -> ready_state w -> emees w !! m = Some em -> (forall p, arg = Some p -> p ∈ interest_ em \/ free p w) ->
  exists w', eventCallbackFn arg f w = (w', Ok tt)
    /\ emees w' = alter (set_ready (fun r => r ∪ called (interest_ em) [(arg, f)])) m (emees w)
    /\ flagged (fun q x => with_flags (events w !! q) (flags_for (interest_ em) q [(arg, f)]) x) w w'.
Proof.
  intros Hq [Hw Hu Hn] Em Harg.
  assert (called (interest_ em) [(arg, f)] = ∅ -> (forall q, flags_for (interest_ em) q [(arg, f)] = []) ->
    emees w = alter (set_ready (fun r => r ∪ called (interest_ em) [(arg, f)])) m (emees w)
    /\ flagged (fun q x => with_flags (events w !! q) (flags_for (interest_ em) q [(arg, f)]) x) w w) as Hno.
  { intros -> Hfl. split.
    - apply map_eq. intros q. destruct (decide (q = m)) as [->|Hd]; [|by rewrite lookup_alter_ne].
      rewrite lookup_alter_eq, Em. cbn. f_equal. destruct em. unfold set_ready. cbn. f_equal. set_solver.
    - eapply flagged_ext; [|apply (reflexivity (R := quietly) w)]. intros q x. by rewrite Hfl. }
  destruct arg as [p|]; [|exists w; split; [done|]; by apply Hno].
  unfold eventCallbackFn. destruct (find_run p w Hu) as (o & Eo & Ho). rewrite (bind_Ok _ _ _ _ _ Eo).
  destruct (decide (p ∈ interest_ em)) as [Hp|Hp].
  2: { destruct (Harg p) as [?|Hfree]; [done|done|]. destruct o as [m'|]; [by destruct (Hfree m')|].
       exists w. split; [done|]. apply Hno.
       - unfold called. cbn. by rewrite bool_decide_eq_false_2.
       - intros q. unfold flags_for. cbn. rewrite bool_decide_eq_false_2; [done|]. intros [[= ->] ?]. done. }
  assert (o = Some m) as ->.
  { destruct o as [m'|]; [|destruct (Ho m); by exists em]. f_equal.
    pose proof (wf_impl _ Hw _ _ Ho). pose proof (wf_member _ _ _ _ Hw Em Hp). congruence. }
  pose proof (wf_member _ _ _ _ Hw Em Hp) as E. unfold impl_of in E. destruct (events w !! p) as [e|] eqn:Ep; [clear E|done].
  unfold handleEventCallback. rewrite (bind_Ok _ _ _ _ _ (guard_run _ _ _ Em (Hu _ _ Em))).
  rewrite (bind_Ok _ _ _ _ _ (emee_at_run _ _ _ Em)). rewrite bool_decide_eq_false_2 by (by intros ?).
  destruct (own_callback_run p e f w Ep (Hn _ _ Ep)) as (w1 & E1 & Q1). rewrite (bind_Ok _ _ _ _ _ E1).
  destruct (flagged_event _ _ _ p e (proj2 Q1) Ep) as [c1 Ep1].
  destruct (trigger_run p _ w1 Hq Ep1) as (w2 & E2 & Q2). rewrite (bind_Ok _ _ _ _ _ E2).
  assert (quietly w w2) as Q by (by transitivity w1). clear w1 E1 Q1 c1 Ep1 E2 Q2. destruct Q as [L Q].
  destruct (flagged_event _ _ _ p e Q Ep) as [c2 Ep2]. unfold addEventToReadyInterestAlrdyLocked.
  assert (emees w2 !! m = Some em) as Em2 by (by rewrite <- L).
  rewrite (bind_Ok _ _ _ _ _ (emee_at_run _ _ _ Em2)). rewrite bool_decide_eq_false_2 by (by intros ?).
  rewrite (bind_Ok _ _ _ _ _ (update_run _ _ _ _ Ep2)). rewrite (update_emee_run _ em); [|done].
  eexists. split; [reflexivity|]. cbn. split.
  - rewrite L. unfold called. cbn. rewrite bool_decide_eq_true_2 by done. cbn. apply map_eq. intros q.
    destruct (decide (q = m)) as [->|Hd]; [|by rewrite !lookup_alter_ne]. rewrite !lookup_alter_eq, Em2. cbn. f_equal.
    unfold set_ready. f_equal. set_solver.
  - pose proof (flagged_trans _ _ _ _ _ Q (flagged_ready w2 _ p (own_flags e f) eq_refl)) as [N F]. split; [exact N|].
    intros q. cbn in F |- *. rewrite F. destruct (events w !! q) as [eq|] eqn:Eq; [|done]. cbn. f_equal. f_equal.
    unfold flags_for. cbn. destruct (decide (q = p)) as [->|Hd].
    + rewrite !bool_decide_eq_true_2 by done. cbn. congruence.
    + rewrite !bool_decide_eq_false_2; [done|by intros [[= ->] ?]|done].
Qed.

Lemma with_flags_app e fs fs' x : with_flags e (fs ++ fs') x = with_flags e fs' (with_flags e fs x).
Proof. apply fold_left_app. Qed.
Lemma flags_for_cons I q c cbs : flags_for I q (c :: cbs) = flags_for I q [c] ++ flags_for I q cbs.
Proof. destruct c as [arg f]. unfold flags_for. cbn. by case_bool_decide. Qed.
Lemma called_cons I c cbs : called I (c :: cbs) = called I [c] ∪ called I cbs.
Proof.
  destruct c as [[p|] f]; unfold called; cbn; [case_bool_decide; cbn|]; set_solver.
Qed.

Lemma ready_state_callback arg f w w' u : ready_state w -> eventCallbackFn arg f w = (w', Ok u) ->
  emees w' = emees w \/ (exists m g, emees w' = alter (set_ready g) m (emees w)) ->
  (exists F, flagged F w w') -> ready_state w' /\ similar w w'.
Proof.
  intros [Hw Hu Hn] E He [F HF]. pose proof (calm_callback True arg f (or_introl Logic.I) w) as Hc. rewrite E in Hc.
  split; [|done]. split; [by eapply similar_wf| |by eapply flagged_no_waiter].
  intros m em Em. destruct He as [He|(m0 & g & He)]; rewrite He in Em; [by apply (Hu m)|].
  destruct (decide (m = m0)) as [->|Hd]; [|rewrite lookup_alter_ne in Em by done; by apply (Hu m)].
  rewrite lookup_alter_eq in Em. destruct (emees w !! m0) as [em0|] eqn:E0; [|done]. cbn in Em. simplify_eq. cbn. by apply (Hu m0).
Qed.

Lemma alter_emee_twice (ms : gmap nat EMEE) m em f g :
  ms !! m = Some em -> alter g m (alter f m ms) = alter (fun em => g (f em)) m ms.
Proof.
  intros Em. apply map_eq. intros q. destruct (decide (q = m)) as [->|Hd]; [|by rewrite !lookup_alter_ne].
  by rewrite !lookup_alter_eq, Em.
Qed.

Lemma callbacks_run m em cbs w :
  quiet -> ready_state w -> emees w !! m = Some em -> (forall p f, (Some p, f) ∈ cbs -> p ∈ interest_ em \/ free p w) ->
  exists w', run_callbacks cbs w = (w', Ok tt) /\ ready_state w'
    /\ emees w' = alter (set_ready (fun r => r ∪ called (interest_ em) cbs)) m (emees w)
    /\ flagged (fun q x => with_flags (events w !! q) (flags_for (interest_ em) q cbs) x) w w'.
Proof.
  intros Hq. revert w em. induction cbs as [|[arg f] cbs IH]; intros w em Hr Em Hc; cbn [run_callbacks].
  - exists w. split; [done|]. split; [done|]. split; [|apply (reflexivity (R := quietly) w)].
    apply map_eq. intros q. destruct (decide (q = m)) as [->|Hd]; [|by rewrite lookup_alter_ne].
    rewrite lookup_alter_eq, Em. cbn. destruct em. unfold set_ready. cbn. do 2 f_equal. set_solver.
  - destruct (callback_run m em arg f w Hq Hr Em) as (w1 & E1 & L1 & F1).
    { intros p ->. apply (Hc p f). by left. }
    rewrite (bind_Ok _ _ _ _ _ E1).
    destruct (ready_state_callback _ _ _ _ _ Hr E1) as [Hr1 S1]; [right; by eexists _, _|by eexists|].
    assert (emees w1 !! m = Some (set_ready (fun r => r ∪ called (interest_ em) [(arg, f)]) em)) as Em1
      by by rewrite L1, lookup_alter_eq, Em.
    destruct (IH w1 _ Hr1 Em1) as (w2 & E2 & Hr2 & L2 & F2).
    { intros p g Hin. destruct (Hc p g) as [?|Hf]; [by right|by left|right]. by eapply similar_free. }
    cbn in L2, F2. exists w2. split; [done|]. split; [done|]. split.
    + rewrite L2, L1. erewrite alter_emee_twice by done. apply map_eq. intros q.
      destruct (decide (q = m)) as [->|Hd]; [|by rewrite !lookup_alter_ne]. rewrite !lookup_alter_eq, Em, (called_cons _ (arg, f) cbs).
      unfold set_ready. cbn [fmap option_fmap option_map interest_ ready_ int_mut_locked_by_get_ready_em_events_].
      do 2 f_equal. set_solver.
    + eapply flagged_ext; [|by eapply flagged_trans]. intros q x. cbv beta.
      by rewrite (with_flags_flagged _ _ _ _ _ _ F1), (flags_for_cons _ _ (arg, f) cbs), with_flags_app.
Qed.

Lemma drop_run m l w :
  is_Some (emees w !! m) -> (forall p, p ∈ l -> is_Some (events w !! p)) ->
  exists w', drop_not_persistent m l w = (w', Ok tt) /\ events w' = events w /\ next w' = next w
    /\ exists X, emees w' = alter (set_interest (fun i => i ∖ X)) m (emees w)
    /\ forall p, p ∈ X <-> p ∈ l /\ forall e, events w !! p = Some e -> has EVM_PERSIST (flags_ e) = false.
Proof.
  revert w. induction l as [|p l IH]; intros w [em Em] Hl; cbn [drop_not_persistent].
  - exists w. split; [done|]. split; [done|]. split; [done|]. exists ∅. split; [|set_solver].
    apply map_eq. intros q. destruct (decide (q = m)) as [->|Hd]; [|by rewrite lookup_alter_ne].
    rewrite lookup_alter_eq, Em. cbn. destruct em. unfold set_interest. cbn. do 2 f_equal. set_solver.
  - destruct (Hl p) as [e Ep]; [by left|]. rewrite (bind_Ok _ _ _ _ _ (event_at_run _ _ _ Ep)).
    destruct (has EVM_PERSIST (flags_ e)) eqn:Ef; cbn [negb].
    + destruct (IH w) as (w' & E & Ev & N & X & L & HX); [by exists em|intros; apply Hl; by right|].
      exists w'. split; [done|]. split; [done|]. split; [done|]. exists X. split; [done|]. intros q. rewrite HX, elem_of_cons.
      split; [intros []; split; [by right|done]|]. intros [[->|?] Hq]; [|done]. by rewrite (Hq _ Ep) in Ef.
    + rewrite (bind_Ok _ _ _ _ _ (update_emee_run _ _ _ _ Em)). set (w1 := set_emees _ w).
      destruct (IH w1) as (w' & E & Ev & N & X & L & HX).
      { cbn. rewrite lookup_alter_eq, Em. by eexists. }
      { intros q Hq. apply (Hl q). by right. }
      exists w'. split; [done|]. split; [done|]. split; [done|]. exists ({[ p ]} ∪ X). split.
      * rewrite L. cbn. apply map_eq. intros q. destruct (decide (q = m)) as [->|Hd]; [|by rewrite !lookup_alter_ne].
        rewrite !lookup_alter_eq, Em. cbn. unfold set_interest. cbn. do 2 f_equal. set_solver.
      * intros q. rewrite elem_of_union, elem_of_singleton, elem_of_cons, HX. cbn. split.
        -- intros [->|[? ?]]; [|split; [by right|done]]. split; [by left|]. intros e' Ee. by simplify_eq.
        -- intros [[->|?] Hq]; [by left|by right].
Qed.

(** The event [poll] makes of what is ready. *)
Definition event_of (e : EmEvent) : Event := {| event_flags := ready_NotifyOn (ready_flags_ e); tag := user_data_ e |}.

Lemma Forall2_in {A C} (P Q : A -> C -> Prop) l k :
  Forall2 P l k -> (forall x y, x ∈ l -> P x y -> Q x y) -> Forall2 Q l k.
Proof.
  induction 1 as [|x y l k Hxy Hl IH]; intros HQ; constructor; [apply HQ; [by left|done]|].
  apply IH. intros. apply HQ; [by right|done].
Qed.

Lemma report_run l evs w :
  NoDup l -> (forall p, p ∈ l -> exists e, events w !! p = Some e /\ has EVM_SIGNAL (ready_flags_ e) = false) ->
  exists w' evs', report l evs w = (w', Ok (evs ++ evs', true)) /\ emees w' = emees w
    /\ Forall2 (fun p ev => exists e, events w !! p = Some e /\ ev = event_of e) l evs'
    /\ forall p, events w' !! p = if bool_decide (p ∈ l) then resetReadyFlags <$> events w !! p else events w !! p.
Proof.
  intros Hl. revert evs w. induction Hl as [|p l Hp Hl IH]; intros evs w Ha; cbn [report].
  - exists w, []. split; [by rewrite app_nil_r|]. split; [done|]. split; [constructor|]. intros p.
    by rewrite bool_decide_eq_false_2 by apply not_elem_of_nil.
  - destruct (Ha p) as (e & Ep & Es); [by left|].
    assert ((tag ← getEmEventUserData (Some p); flags ← toNotifyOn (Some p);
      mret {| event_flags := flags; tag := tag |}) w = (w, Ok (event_of e))) as ->.
    { unfold getEmEventUserData, not_null, toNotifyOn.
      rewrite (bind_Ok _ _ w w (user_data_ e)) by (by rewrite (bind_Ok _ _ _ _ _ (event_at_run _ _ _ Ep))).
      rewrite (bind_Ok _ _ w w (ready_NotifyOn (ready_flags_ e))); [done|].
      rewrite (bind_Ok _ _ _ _ _ (event_at_run _ _ _ Ep)). by rewrite Es. }
    unfold resetEmEventReadyFlags, not_null. rewrite (bind_Ok _ _ _ _ _ (update_run _ _ _ _ Ep)). set (w1 := set_events _ w).
    assert (forall q, events w1 !! q = if bool_decide (q = p) then resetReadyFlags <$> events w !! q else events w !! q) as Ew1.
    { intros q. cbn. destruct (decide (q = p)) as [->|Hd]; [by rewrite lookup_alter_eq, bool_decide_eq_true_2|].
      by rewrite lookup_alter_ne, bool_decide_eq_false_2. }
    destruct (IH (evs ++ [event_of e]) w1) as (w' & evs' & E & L & HF & He).
    { intros q Hq. rewrite Ew1. rewrite bool_decide_eq_false_2 by (intros ->; done). apply Ha. by right. }
    exists w', (event_of e :: evs'). split; [by rewrite E, <- app_assoc|]. split; [done|]. split.
    + constructor; [by exists e|]. eapply Forall2_in; [exact HF|].
      intros q ev Hq (e' & E' & ->). rewrite Ew1, bool_decide_eq_false_2 in E' by (intros ->; done). by exists e'.
    + intros q. rewrite He, Ew1. destruct (decide (q = p)) as [->|Hd].
      * rewrite (bool_decide_eq_true_2 (p = p)), (bool_decide_eq_true_2 (p ∈ p :: l)) by (done || by left).
        by rewrite bool_decide_eq_false_2.
      * rewrite (bool_decide_eq_false_2 (q = p)) by done. by rewrite (bool_decide_ext (q ∈ p :: l) (q ∈ l)) by set_solver.
Qed.

(** A poll without a timeout, up to the events it takes. *)
Lemma wait_run m em cbs w :
  quiet -> ready_state w -> emees w !! m = Some em -> (forall p f, (Some p, f) ∈ cbs -> p ∈ interest_ em \/ free p w) ->
  exists w', wait m None {| callbacks := cbs; dispatch_res := 0 |} w = (w', Ok None) /\ ready_state w'
    /\ emees w' !! m = Some (set_ready (fun r => r ∪ called (interest_ em) cbs) em)
    /\ flagged (fun q x => with_flags (events w !! q) (flags_for (interest_ em) q cbs) x) w w'.
Proof.
  intros Hq Hr Em Hc. unfold wait. rewrite (bind_Ok _ _ _ _ _ (do_call_run _ _)). set (w1 := add_trace _ w).
  assert (ready_state w1) as Hr1 by (destruct Hr as [Hw Hu Hn]; split; [|exact Hu|exact Hn];
    exact (similar_wf w w1 (similar_links w w1 eq_refl (fun _ => eq_refl) eq_refl) Hw)).
  destruct (callbacks_run m em cbs w1 Hq Hr1 Em Hc) as (w2 & E2 & Hr2 & L2 & F2). cbn [callbacks dispatch_res].
  rewrite (bind_Ok _ _ _ _ _ E2). exists w2. split; [done|]. split; [done|]. split; [|exact F2].
  rewrite L2, lookup_alter_eq. change (emees w1) with (emees w). by rewrite Em.
Qed.

Lemma getReady_run m em timeout cbs w :
  quiet -> ready_state w -> emees w !! m = Some em -> timeout <= 0 ->
  (forall p f, (Some p, f) ∈ cbs -> p ∈ interest_ em \/ free p w) ->
  let R := ready_ em ∪ called (interest_ em) cbs in
  let flags p e := with_flags (Some e) (flags_for (interest_ em) p cbs) (ready_flags_ e) in
  exists w', getReadyEmEvents m timeout [{| callbacks := cbs; dispatch_res := 0 |}] w = (w', Ok (Z.of_nat (size R), R))
    /\ (forall p, p ∈ R -> exists e c, events w !! p = Some e /\ events w' !! p = Some (set_counter c (setReadyFlags (flags p e) e)))
    /\ exists em', emees w' !! m = Some em' /\ ready_ em' = ∅
    /\ forall p, p ∈ interest_ em' <-> p ∈ interest_ em
         /\ (p ∈ R -> forall e, events w !! p = Some e -> has EVM_PERSIST (flags_ e) = true).
Proof.
  intros Hq Hr Em Ht Hc R flags. destruct (wait_run m em cbs w Hq Hr Em Hc) as (w1 & E1 & Hr1 & Em1 & F1).
  assert (forall p, p ∈ R -> exists e c, events w !! p = Some e /\ events w1 !! p = Some (set_counter c (setReadyFlags (flags p e) e)))
    as Hev.
  { intros p Hp. pose proof (wf_ready _ (rs_wf _ Hr1) _ _ Em1 p Hp) as Hi. cbn in Hi.
    pose proof (wf_member _ _ _ _ (rs_wf _ Hr) Em Hi) as Hp1. unfold impl_of in Hp1.
    destruct (events w !! p) as [e|] eqn:Ep; [|done].
    destruct (flagged_event _ _ _ _ _ F1 Ep) as [c Ec]. rewrite Ep in Ec. by exists e, c. }
  assert (exists w2, lockInterestMutex m w1 = (w2, Ok tt) /\ events w2 = events w1
    /\ emees w2 !! m = Some {| interest_ := interest_ em; ready_ := R; int_mut_locked_by_get_ready_em_events_ := true |})
    as (w2 & E2 & Ev2 & Em2).
  { unfold lockInterestMutex. rewrite (bind_Ok _ _ _ _ _ (guard_run _ _ _ Em1 (rs_unlocked _ Hr1 _ _ Em1))).
    rewrite (update_emee_run _ _ _ _ Em1). eexists. split; [done|]. split; [done|]. cbn. by rewrite lookup_alter_eq, Em1. }
  assert (exists w3 em3, (e ← emee_at m;
      if bool_decide (ready_ e = ∅) then mret (0, ∅)
      else
        let ready_evm_events_out := ready_ e in
        _ ← update_emee m (set_ready (fun _ => ∅));
        _ ← drop_not_persistent m (in_order ready_evm_events_out);
        mret (Z.of_nat (size ready_evm_events_out), ready_evm_events_out)) w2 = (w3, Ok (Z.of_nat (size R), R))
    /\ events w3 = events w1 /\ emees w3 !! m = Some em3 /\ ready_ em3 = ∅
    /\ forall p, p ∈ interest_ em3 <-> p ∈ interest_ em
         /\ (p ∈ R -> forall e, events w !! p = Some e -> has EVM_PERSIST (flags_ e) = true)) as (w3 & em3 & E3 & Ev3 & Em3 & R3 & I3).
  { rewrite (bind_Ok _ _ _ _ _ (emee_at_run _ _ _ Em2)). cbn [ready_]. case_bool_decide as HR.
    - rewrite HR. eexists _, _. split; [reflexivity|]. split; [done|]. split; [done|]. cbn. split; [done|]. set_solver.
    - cbv zeta. rewrite (bind_Ok _ _ _ _ _ (update_emee_run _ _ _ _ Em2)). set (w3 := set_emees _ w2).
      assert (emees w3 !! m = Some {| interest_ := interest_ em; ready_ := ∅; int_mut_locked_by_get_ready_em_events_ := true |})
        as Em3 by (cbn; by rewrite lookup_alter_eq, Em2).
      destruct (drop_run m (in_order R) w3) as (w4 & E4 & Ev4 & _ & X & L4 & HX).
      { by rewrite Em3. }
      { intros p. rewrite in_order_perm, elem_of_elements. intros Hp. destruct (Hev p Hp) as (e & c & _ & Ep).
        cbn. rewrite Ev2, Ep. by eexists. }
      rewrite (bind_Ok _ _ _ _ _ E4). eexists _, _. split; [reflexivity|]. split; [by rewrite Ev4|].
      split; [by rewrite L4, lookup_alter_eq, Em3|]. split; [done|]. intros p. cbn. rewrite elem_of_difference, HX.
      rewrite in_order_perm, elem_of_elements. cbn. rewrite Ev2. split; intros [Hi Hp]; (split; [done|]).
      + intros HpR e Ee. destruct (Hev p HpR) as (e' & c & Ep & Ep1). simplify_eq.
        destruct (has EVM_PERSIST (flags_ e)) eqn:Ef; [done|]. destruct Hp. split; [done|]. intros e2 E2'. by simplify_eq.
      + intros [HpR Hn]. destruct (Hev p HpR) as (e & c & Ep & Ep1). specialize (Hp HpR e Ep). specialize (Hn _ Ep1).
        cbn in Hn. congruence. }
  exists w3. split; [|split; [intros p Hp; rewrite Ev3; by apply Hev|by exists em3]].
  assert (getReadyEmEventsHelper m timeout {| callbacks := cbs; dispatch_res := 0 |} w = (w3, Ok (Z.of_nat (size R), R))) as Hh.
  { unfold getReadyEmEventsHelper, timed_wait. rewrite (proj2 (Z.ltb_ge _ _)) by done.
    rewrite (bind_Ok _ _ _ _ _ E1). rewrite (bind_Ok _ _ _ _ _ E2). exact E3. }
  cbn [getReadyEmEvents]. rewrite (bind_Ok _ _ _ _ _ Hh). by rewrite (proj2 (Z.ltb_ge _ _)) by lia.
Qed.

Lemma poll_run m em timeout cbs w :
  quiet -> ready_state w -> emees w !! m = Some em -> timeout <= 0 ->
  (forall p f, (Some p, f) ∈ cbs -> p ∈ interest_ em \/ free p w) ->
  let R := ready_ em ∪ called (interest_ em) cbs in
  let flags p e := with_flags (Some e) (flags_for (interest_ em) p cbs) (ready_flags_ e) in
  (forall p e, p ∈ R -> events w !! p = Some e -> has EVM_SIGNAL (flags p e) = false) ->
  exists w' evs, poll m timeout [{| callbacks := cbs; dispatch_res := 0 |}] [] w = (w', Ok (Z.of_nat (size R), evs))
    /\ Forall2 (fun p ev => exists e, events w !! p = Some e
         /\ ev = {| event_flags := ready_NotifyOn (flags p e); tag := user_data_ e |}) (in_order R) evs
    /\ (exists em', emees w' !! m = Some em' /\ ready_ em' = ∅ /\ int_mut_locked_by_get_ready_em_events_ em' = false
         /\ forall p, p ∈ interest_ em' <-> p ∈ interest_ em
              /\ (p ∈ R -> forall e, events w !! p = Some e -> has EVM_PERSIST (flags_ e) = true))
    /\ forall p, p ∈ R -> exists e', events w' !! p = Some e' /\ ready_flags_ e' = 0.
Proof.
  intros Hq Hr Em Ht Hc R flags Hs. destruct (getReady_run m em timeout cbs w Hq Hr Em Ht Hc) as (w1 & E1 & Hev & em1 & Em1 & R1 & I1).
  fold R in E1, Hev, I1. unfold poll. rewrite E1.
  destruct (report_run (in_order R) [] w1) as (w2 & evs & E2 & L2 & HF & He2).
  { rewrite in_order_perm. apply NoDup_elements. }
  { intros p. rewrite in_order_perm, elem_of_elements. intros Hp. destruct (Hev p Hp) as (e & c & Ep & Ep1).
    eexists. split; [exact Ep1|]. by apply (Hs p e). }
  assert (exists w3, (if (0 <? Z.of_nat (size R)) && negb (bool_decide (R = ∅)) then report (in_order R) []
      else mret ([], true)) w1 = (w3, Ok (evs, true)) /\ emees w3 = emees w1
    /\ forall p, p ∈ R -> exists e', events w3 !! p = Some e' /\ ready_flags_ e' = 0) as (w3 & E3 & L3 & Z3).
  { case_bool_decide as HR.
    - rewrite andb_false_r. exists w1. split; [|split; [done|set_solver]]. rewrite HR in HF.
      assert (in_order ∅ = []) as Hnil by (apply Permutation_nil; by rewrite in_order_perm, elements_empty).
      rewrite Hnil in HF. by apply Forall2_nil_inv_l in HF as ->.
    - assert (size R <> 0%nat) by (by intros ?%size_empty_inv%leibniz_equiv). rewrite (proj2 (Z.ltb_lt _ _)) by lia.
      exists w2. split; [exact E2|]. split; [done|]. intros p Hp. destruct (Hev p Hp) as (e & c & _ & Ep1).
      eexists. rewrite He2, bool_decide_eq_true_2 by (by rewrite in_order_perm, elem_of_elements). rewrite Ep1. done. }
  assert (emees w3 !! m = Some em1) as Em3 by by rewrite L3.
  rewrite (bind_Ok _ _ _ _ _ E3). cbv beta iota. unfold unlockInterestMutexIfLocked.
  rewrite (bind_Ok _ _ _ _ _ (update_emee_run _ _ _ _ Em3)).
  eexists _, evs. split; [|split; [|split]].
  - assert (length evs = size R) as Hlen.
    { apply Forall2_length in HF. rewrite <- HF. by rewrite in_order_perm. }
    unfold mret, M_ret. f_equal. f_equal. case_bool_decide as HR.
    + rewrite HR, size_empty in *. destruct evs; [done|done].
    + assert (size R <> 0%nat) by (by intros ?%size_empty_inv%leibniz_equiv).
      rewrite (proj2 (Z.leb_gt _ _)) by lia. by rewrite Hlen.
  - eapply Forall2_in; [exact HF|]. intros p ev. rewrite in_order_perm, elem_of_elements. intros Hp (e1 & E & ->).
    destruct (Hev p Hp) as (e & c & Ep & Ep1). rewrite E in Ep1. apply (inj Some) in Ep1 as ->. by exists e.
  - eexists. cbn. rewrite lookup_alter_eq, Em3. split; [reflexivity|]. done.
  - exact Z3.
Qed.
End Reported.

(** C27. A wait for events without a timeout reports each event that was ready, or that libevent
    called back for and that is registered here, once: with its tag and with all the flags
    of the callbacks together.  Callbacks for what is registered nowhere change nothing.
    Events that do not persist leave the interest list, no other does, nothing stays
    ready, and the mutex is free again. *)
Theorem em_poll_reports `{LibEvent, Addresses} m em timeout cbs w :
  quiet -> ready_state w -> emees w !! m = Some em -> timeout <= 0 ->
  (forall p f, (Some p, f) ∈ cbs -> p ∈ interest_ em \/ free p w) ->
  let R := ready_ em ∪ called (interest_ em) cbs in
  let flags p e := with_flags (Some e) (flags_for (interest_ em) p cbs) (ready_flags_ e) in
  (forall p e, p ∈ R -> events w !! p = Some e -> has EVM_SIGNAL (flags p e) = false) ->
  exists w' evs, poll m timeout [{| callbacks := cbs; dispatch_res := 0 |}] [] w = (w', Ok (Z.of_nat (size R), evs))
    /\ Forall2 (fun p ev => exists e, events w !! p = Some e
         /\ ev = {| event_flags := ready_NotifyOn (flags p e); tag := user_data_ e |}) (in_order R) evs
    /\ (exists em', emees w' !! m = Some em' /\ ready_ em' = ∅ /\ int_mut_locked_by_get_ready_em_events_ em' = false
         /\ forall p, p ∈ interest_ em' <-> p ∈ interest_ em
              /\ (p ∈ R -> forall e, events w !! p = Some e -> has EVM_PERSIST (flags_ e) = true))
    /\ forall p, p ∈ R -> exists e', events w' !! p = Some e' /\ ready_flags_ e' = 0.
Proof. intros. by apply poll_run. Qed.

(** A socket that is registered for one event, and a notification that stays. *)
Definition demo_ops : list op :=
  [NewPoller 128; NewEvent 7 0 F_SETFDL_NOTHING F_SETFDL_NOTHING; SetUserData (Some 2%nat) 70;
   Ctl Add 1 (Some 2%nat) 38 None; NewEventFd 0 1 2048; SetUserData (Some 3%nat) 71; Ctl Add 1 (Some 3%nat) 50 None].
Definition demo_world : World := Eval vm_compute in @after Demo.libevent Demo.addresses demo_ops World_new.
Definition demo_emee : EMEE := Eval vm_compute in
  {| interest_ := {[ 2%nat ]} ∪ {[ 3%nat ]}; ready_ := ∅; int_mut_locked_by_get_ready_em_events_ := false |}.

Lemma demo_ready : ready_state demo_world.
Proof.
  split.
  - apply (@reachable_wf Demo.libevent Demo.addresses).
    replace demo_world with (@after Demo.libevent Demo.addresses demo_ops World_new) by (vm_compute; reflexivity).
    apply reachable_after; [apply reachable_new| |vm_compute; reflexivity].
    repeat apply Forall_cons_2; try exact Logic.I. apply Forall_nil_2.
  - apply (bool_decide_unpack (map_Forall (fun _ em => int_mut_locked_by_get_ready_em_events_ em = false) (emees demo_world))).
    vm_compute. exact Logic.I.
  - apply (bool_decide_unpack (map_Forall (fun _ e => counter_held e = false) (events demo_world))). vm_compute. exact Logic.I.
Qed.

Lemma em_poll_reports_witness :
  exists w' evs, @poll Demo.libevent Demo.addresses 1 (-1)
    [{| callbacks := [(Some 2%nat, 2); (Some 3%nat, 2); (Some 2%nat, 4)]; dispatch_res := 0 |}] [] demo_world
    = (w', Ok (2, evs))
  /\ Forall2 (fun p ev => exists e, events demo_world !! p = Some e /\ tag ev = user_data_ e) [2%nat; 3%nat] evs.
Proof.
  destruct (@em_poll_reports Demo.libevent Demo.addresses 1 demo_emee (-1) [(Some 2%nat, 2); (Some 3%nat, 2); (Some 2%nat, 4)]
    demo_world) as (w' & evs & E & HF & _).
  - left. reflexivity.
  - apply demo_ready.
  - vm_compute. reflexivity.
  - lia.
  - intros p f Hp. left. apply list_elem_of_In in Hp. cbn in Hp.
    destruct Hp as [[= <- _]|[[= <- _]|[[= <- _]|[]]]]; apply (bool_decide_unpack (_ ∈ _)); vm_compute; exact Logic.I.
  - intros p e _. revert p e. apply (bool_decide_unpack (map_Forall _ (events demo_world))). vm_compute. exact Logic.I.
  - exists w', evs. split.
    + match type of E with _ = (_, Ok (?n, _)) => assert (n = 2) as En by (vm_compute; reflexivity); rewrite En in E end. exact E.
    + match type of HF with Forall2 _ ?l _ => assert (l = [2%nat; 3%nat]) as El by (vm_compute; reflexivity); rewrite El in HF end.
      eapply Forall2_in; [exact HF|]. intros p ev _ (e & Ee & ->). by exists e.
Defined.
