(* ===== verification/EmCounter.v ===== *)
(** * Counters against an eventfd, and the timer that is left behind

    The counter of an [EmEventFd] does what [eventfd(2)] does ([Poller.WRITE_EFD],
    [Poller.READ_EFD]), registered or not; a counter that blocks, the expiries of a timer,
    and a wait with a timeout that ends early. *)

From S2P Require Import Prelude Cxx Poller EmEvents EpollEquiv EmInvariant EmPolled.

Local Open Scope Z_scope.

(** ** Total runs

    [tot m Q w]: from [w], [m] returns, with [Q]. *)

Definition tot {A} (m : M World A) (Q : A -> World -> Prop) (w : World) : Prop :=
  match m w with (w', Ok a) => Q a w' | _ => False end.

(** Whether every call returns 0, or a pointer. *)
Definition all_succeed `{LibEvent} : Prop := forall t c, call_result t c = 0.

Section Tot.
Context `{LibEvent, Addresses}.

Lemma tot_ret {A} (a : A) (Q : A -> World -> Prop) w : Q a w -> tot (mret a) Q w.
Proof. done. Qed.
Lemma tot_bind {A C} (m : M World A) (k : A -> M World C) Q w : tot m (fun a => tot (k a) Q) w -> tot (m ≫= k) Q w.
Proof. unfold tot, mbind, M_bind. by destruct (m w) as [w' [a|e| |]]. Qed.
Lemma tot_mono {A} (m : M World A) (Q Q' : A -> World -> Prop) w :
  tot m Q w -> (forall a w', Q a w' -> Q' a w') -> tot m Q' w.
Proof. unfold tot. destruct (m w) as [w' [a|e| |]]; auto. Qed.
Lemma tot_get (Q : World -> World -> Prop) w : Q w w -> tot get Q w.
Proof. done. Qed.
Lemma tot_modify f (Q : unit -> World -> Prop) w : Q tt (f w) -> tot (modify f) Q w.
Proof. done. Qed.
Lemma tot_event_at p e (Q : EmEvent -> World -> Prop) w : events w !! p = Some e -> Q e w -> tot (event_at p) Q w.
Proof. intros E HQ. unfold tot. by rewrite (event_at_run _ _ _ E). Qed.
Lemma tot_emee_at m em (Q : EMEE -> World -> Prop) w : emees w !! m = Some em -> Q em w -> tot (emee_at m) Q w.
Proof. intros E HQ. unfold tot. by rewrite (emee_at_run _ _ _ E). Qed.
Lemma tot_update p e f (Q : unit -> World -> Prop) w :
  events w !! p = Some e -> Q tt (set_events (alter f p) w) -> tot (update p f) Q w.
Proof. intros E HQ. unfold tot. by rewrite (update_run _ _ _ _ E). Qed.
Lemma tot_update_emee m em f (Q : unit -> World -> Prop) w :
  emees w !! m = Some em -> Q tt (set_emees (alter f m) w) -> tot (update_emee m f) Q w.
Proof. intros E HQ. unfold tot. by rewrite (update_emee_run _ _ _ _ E). Qed.
Lemma tot_guard m em (Q : unit -> World -> Prop) w :
  emees w !! m = Some em -> int_mut_locked_by_get_ready_em_events_ em = false -> Q tt w -> tot (guard m) Q w.
Proof. intros E L HQ. unfold tot. by rewrite (guard_run _ _ _ E L). Qed.
Lemma tot_guard_counter p e (Q : unit -> World -> Prop) w :
  events w !! p = Some e -> counter_held e = false -> Q tt w -> tot (guard_counter p) Q w.
Proof. intros E L HQ. unfold tot. by rewrite (guard_counter_run _ _ _ E L). Qed.
Lemma tot_do_call c (Q : Z -> World -> Prop) w : all_succeed -> Q 0 (add_trace c w) -> tot (do_call c) Q w.
Proof. intros Ha HQ. unfold tot. rewrite do_call_run. by rewrite Ha. Qed.
Lemma tot_find m em p (Q : bool -> World -> Prop) w :
  emees w !! m = Some em -> int_mut_locked_by_get_ready_em_events_ em = false ->
  Q (bool_decide (p ∈ interest_ em)) w -> tot (findFdInInterest m p) Q w.
Proof.
  intros E L HQ. unfold findFdInInterest. apply tot_bind. eapply tot_guard; [done|done|].
  apply tot_bind. by eapply tot_emee_at.
Qed.
End Tot.

(** What is at an address after the steps so far. *)
Ltac look :=
  cbn [events emees set_events set_emees add_trace set_errno];
  repeat match goal with
  | |- context [alter ?f ?p ?m !! ?p] => rewrite (lookup_alter_eq f m p)
  end;
  (eassumption || (match goal with E : _ !! _ = Some _ |- _ => rewrite E end; reflexivity)).
Ltac tot :=
  repeat (lazymatch goal with
    | |- tot (mret _) _ _ => apply tot_ret
    | |- tot (_ ≫= _) _ _ => apply tot_bind
    | |- tot (event_at _) _ _ => eapply tot_event_at; [look|]
    | |- tot (emee_at _) _ _ => eapply tot_emee_at; [look|]
    | |- tot (update _ _) _ _ => eapply tot_update; [look|]
    | |- tot (update_emee _ _) _ _ => eapply tot_update_emee; [look|]
    | |- tot (guard _) _ _ => eapply tot_guard; [look|cbn; assumption|]
    | |- tot (findFdInInterest _ _) _ _ => eapply tot_find; [look|cbn; assumption|]
    | |- tot (do_call _) _ _ => apply tot_do_call; [assumption|]
    | |- tot get _ _ => apply tot_get
    | |- tot (modify _) _ _ => apply tot_modify
    end; cbv beta iota).

(** ** Counters *)

Lemma has_without g h f : Z.land g h = 0 -> has g (without h f) = has g f.
Proof.
  intros Hg. unfold has, without. do 2 f_equal. apply Z.bits_inj'. intros n Hn.
  rewrite !Z.land_spec, Z.ldiff_spec. assert (Z.testbit (Z.land g h) n = false) as Ht by (rewrite Hg; apply Z.bits_0).
  rewrite Z.land_spec in Ht. destruct (Z.testbit f n), (Z.testbit g n), (Z.testbit h n); done.
Qed.

(** A non-blocking counter of type [k] without a descriptor and not for writing, as
    [NotifyFd], the queues and the timers make and register it. *)
Record is_efd (k : EmEventType) (c : Z) (e : EmEvent) : Prop := {
  efd_kind : kind e = k;
  efd_nonblocking : blocking e = false;
  efd_counter : counter_val_ e = c;
  efd_flags : has EVM_WRITE (flags_ e) = false /\ has EVM_CLOSED (flags_ e) = false;
  efd_fd : getActualFdPrv e = -1 /\ requested_actual_fd_ e = -1 }.

Section Counter.
Context `{LibEvent, Addresses} (Hall : all_succeed) (k : EmEventType) (Hk : k <> EmEvReg).

(** How the store changes: one event, and what its poller has. *)
Record around (p : nat) (c : Z) (w w' : World) : Prop := {
  ar_event : exists e, events w' !! p = Some e /\ is_efd k c e /\ counter_held e = false;
  ar_others : forall q, q <> p -> events w' !! q = events w !! q;
  ar_unlocked : all_unlocked w -> all_unlocked w' }.

Lemma unlocked_alter w m f :
  (forall em, int_mut_locked_by_get_ready_em_events_ (f em) = int_mut_locked_by_get_ready_em_events_ em) ->
  all_unlocked w -> all_unlocked (set_emees (alter f m) w).
Proof.
  intros Hf Hu q em. cbn. destruct (decide (q = m)) as [->|Hn]; [|rewrite lookup_alter_ne by done; apply Hu].
  rewrite lookup_alter_eq. destruct (emees w !! m) as [em0|] eqn:E; [|done]. intros [= <-]. rewrite Hf. by apply (Hu m).
Qed.

Lemma evfd_flags_zero e : is_efd k 0 e -> evfd_flags e = 0.
Proof.
  intros [_ _ Cn [Fw _] _]. unfold evfd_flags, active_read, active_write. rewrite Cn, Fw, !andb_false_r. done.
Qed.

(** Renewing what is registered takes it out and puts it back. *)
Lemma tot_ctlEx_Del m em p e v w (Q : Z -> World -> Prop) :
  events w !! p = Some e -> ev_ e = Some v -> event_meth_epoll_equiv_impl_ e = Some m -> emees w !! m = Some em ->
  all_unlocked w ->
  (forall w', events w' = alter resetReadyFlags p (events w) -> emees w' = alter (erase p) m (emees w) -> Q 0 w') ->
  tot (ctlEx Del m (Some p) 0 None true) Q w.
Proof.
  intros Ep Ev Ei Em Hu HQ. pose proof (Hu _ _ Em) as Hl. unfold ctlEx, ctlEx_with. tot.
  rewrite (bool_decide_eq_false_2 (Del = Add)) by done. cbn [andb]. tot. unfold EmEvent_ctl, ctl_emee. tot.
  rewrite bool_decide_eq_true_2 by done. tot. rewrite (bool_decide_eq_true_2 (Del = Del)) by done. tot. cbn [negb]. tot.
  change (ev_ (resetReadyFlags e)) with (ev_ e). rewrite Ev. tot. cbn [Z.eqb negb]. tot.
  apply HQ; [done|]. cbn. exact (alter_emee_twice _ _ em _ _ Em).
Qed.

(** Adding a counter that has no [ev_]. *)
Lemma tot_ctlEx_Add m em p c e w flags (Q : Z -> World -> Prop) :
  events w !! p = Some e -> ev_ e = None -> event_meth_epoll_equiv_impl_ e = Some m -> is_efd k c e -> emees w !! m = Some em ->
  all_unlocked w -> p ∉ interest_ em -> has EVM_WRITE flags = false -> has EVM_CLOSED flags = false ->
  (forall w' v, events w' = alter resetReadyFlags p (alter (set_ev (Some v)) p (alter (set_flags_ (without EVM_TIMEOUT flags)) p (events w))) ->
     ev_fd v = -1 ->
     emees w' = alter (set_interest (fun i => i ∪ {[ p ]})) m (emees w) -> Q 0 w') ->
  tot (ctlEx Add m (Some p) flags None true) Q w.
Proof.
  intros Ep Ev Ei [K Bl Cn [Fw Fc] [Fd Fr]] Em Hu Hni Hw Hc HQ. pose proof (Hu _ _ Em) as Hl. unfold ctlEx, ctlEx_with. tot.
  rewrite (bool_decide_eq_false_2 (p ∈ interest_ em)) by done. rewrite andb_false_r. tot.
  unfold EmEvent_ctl, ctl_emee. tot. rewrite bool_decide_eq_true_2 by done. tot.
  rewrite (bool_decide_eq_false_2 (Add = Del)) by done. unfold ctl_ev. tot. rewrite Ev. unfold setFlags. tot. rewrite Ei.
  rewrite has_without by done. rewrite Hc. tot. cbn [set_flags_ requested_actual_fd_ flags_ kind]. rewrite Fd, Fr. cbn [Z.eqb negb andb].
  tot. rewrite !has_without by done. rewrite Hw, K. rewrite (bool_decide_eq_false_2 (k = EmEvReg)) by done.
  rewrite !andb_false_r. unfold new_ev. tot. cbn [set_flags_ event_meth_epoll_equiv_impl_]. rewrite Ei. tot. cbn [Z.ltb Z.compare]. tot.
  cbn [negb]. tot. cbn [resetReadyFlags setReadyFlags ev_ set_ev]. tot. cbn [Z.eqb negb]. tot.
  rewrite (bool_decide_eq_false_2 (p ∈ interest_ em)) by done. cbn [negb]. tot.
  eapply HQ; reflexivity.
Qed.

Lemma is_efd_ready c r e : is_efd k c e -> is_efd k c (setReadyFlags r e).
Proof. by intros []. Qed.
Lemma is_efd_impl c o e : is_efd k c e -> is_efd k c (set_impl o e).
Proof. by intros []. Qed.
Lemma is_efd_counter c c' e : is_efd k c e -> is_efd k c' (set_counter c' e).
Proof. by intros []. Qed.
Lemma is_efd_no_ev c e : is_efd k c e -> is_efd k c (set_ev None e).
Proof. by intros [? ? ? ? [? ?]]. Qed.
Lemma is_efd_ev c v e : ev_fd v = -1 -> is_efd k c e -> is_efd k c (set_ev (Some v) e).
Proof. intros Hv [? ? ? ? [? ?]]. split; try done. split; [|done]. unfold getActualFdPrv. cbn. by rewrite Hv. Qed.
Lemma is_efd_flags c e : is_efd k c e -> is_efd k c (set_flags_ (without EVM_TIMEOUT (flags_ e)) e).
Proof. intros [? ? ? [? ?] [? ?]]. split; try done. cbn. by rewrite !has_without. Qed.

(** The rest of [renewEv], where nothing is to be activated. *)
Ltac efd := repeat first [done | apply is_efd_no_ev | apply is_efd_impl | apply is_efd_ready].
Ltac renewed :=
  rewrite evfd_flags_zero by efd; cbn [Z.eqb negb]; tot;
  split; [eexists; split; [look|]; split; [efd|done] | intros; cbn; by rewrite ?lookup_alter_ne | done].

(** Renewing what is registered takes it out and puts it back. *)
Lemma renew_run p e w :
  events w !! p = Some e -> is_efd k 0 e -> counter_held e = false -> all_unlocked w -> tot (renewEv p) (fun _ => around p 0 w) w.
Proof.
  intros Ep He Hh Hu. unfold renewEv, getEventMethEpollEquivImpl, getEventMethEpollEquivImplFromEmeeSet. tot.
  destruct (event_meth_epoll_equiv_impl_ e) as [m|] eqn:Ei; tot; [case_bool_decide as Hm; tot|].
  - apply elem_of_dom in Hm as [em Em]. pose proof (Hu _ _ Em) as Hl. destruct (ev_ e) as [v|] eqn:Ev; tot.
    + case_bool_decide as Hin; tot.
      * eapply tot_ctlEx_Del; [done..|]. intros w1 E1 L1. cbn [Z.eqb negb].
        assert (events w1 !! p = Some (resetReadyFlags e)) as Ep1 by by rewrite E1, lookup_alter_eq, Ep.
        tot. change (ev_ (resetReadyFlags e)) with (ev_ e). rewrite Ev. tot. destruct He as [? ? ? Hf [? ?]] eqn:Eh. clear Eh.
        eapply (tot_ctlEx_Add m (erase p em) p 0 (set_ev None (resetReadyFlags e))).
        -- cbn. rewrite lookup_alter_eq, Ep1. done.
        -- done.
        -- exact Ei.
        -- by apply is_efd_no_ev, is_efd_ready.
        -- cbn. by rewrite L1, lookup_alter_eq, Em.
        -- intros q em'. cbn. rewrite L1. destruct (decide (q = m)) as [->|Hn]; [|rewrite lookup_alter_ne by done; apply Hu].
           rewrite lookup_alter_eq, Em. by intros [= <-].
        -- cbn. set_solver.
        -- apply Hf.
        -- apply Hf.
        -- intros w2 v2 E2 Hv2 L2. cbn [Z.eqb negb].
           set (e2 := resetReadyFlags (set_ev (Some v2) (set_flags_ (without EVM_TIMEOUT (flags_ e)) (set_ev None (resetReadyFlags e))))).
           assert (events w2 !! p = Some e2) as Ep2
             by (rewrite E2; cbn; by rewrite !lookup_alter_eq, Ep1).
           assert (is_efd k 0 e2) as He2.
           { apply is_efd_ready, is_efd_ev; [done|]. change (flags_ e) with (flags_ (set_ev None (resetReadyFlags e))).
             by apply is_efd_flags, is_efd_no_ev, is_efd_ready. }
           tot. cbn [e2 resetReadyFlags setReadyFlags set_ev ev_]. tot. rewrite evfd_flags_zero by exact He2. cbn [Z.eqb negb]. tot.
           split; [by exists e2| |].
           ++ intros q Hq. rewrite E2. cbn. rewrite !lookup_alter_ne by done. by rewrite E1, lookup_alter_ne.
           ++ intros _ q em'. rewrite L2. cbn. rewrite L1. destruct (decide (q = m)) as [->|Hn].
              ** rewrite !lookup_alter_eq, Em. by intros [= <-].
              ** rewrite !lookup_alter_ne by done. apply Hu.
      * rewrite Ev. tot. renewed.
    + renewed.
  - destruct (ev_ e) as [v|] eqn:Ev; tot; cbn [ev_ set_impl]; rewrite ?Ev; tot; renewed.
  - destruct (ev_ e) as [v|] eqn:Ev; tot; rewrite ?Ev; tot; renewed.
Qed.

Lemma read_run p c e w :
  events w !! p = Some e -> is_efd k c e -> counter_held e = false -> all_unlocked w -> 0 <= c ->
  tot (read_counter p) (fun r w' => r = (if c =? 0 then (-1, 0) else (8, c)) /\ around p 0 w w') w.
Proof.
  intros Ep He Hh Hu Hc. unfold read_counter, resetCounterValMutexAlreadyLocked. apply tot_bind.
  eapply tot_guard_counter; [done|done|]. tot. rewrite (efd_counter _ _ _ He). destruct (Z.eqb_spec c 0) as [->|Hn]; cbn [negb].
  - tot. cbn [Z.eqb negb]. tot. rewrite (efd_nonblocking _ _ _ He). cbn [negb]. unfold error. tot.
    split; [done|]. by split; [exists e| |].
  - tot. set (w1 := set_events _ w).
    apply (tot_mono _ (fun _ => around p 0 w)).
    + assert (events w1 !! p = Some (set_counter 0 e)) as Ep1 by (cbn; by rewrite lookup_alter_eq, Ep).
      assert (is_efd k 0 (set_counter 0 e)) as He1 by by eapply is_efd_counter.
      assert (around p 0 w w1) as Ha by (split; [by exists (set_counter 0 e)|intros; cbn; by rewrite lookup_alter_ne|done]).
      destruct (ev_ e); [|by tot]. rewrite (proj1 (efd_flags _ _ _ He)), andb_false_r. cbn [andb].
      destruct (has EVM_READ (flags_ e)); [|by tot].
      eapply tot_mono; [by apply (renew_run p _ w1 Ep1 He1)|]. intros _ w2 [Hev Hot Hun]. split; [done| |done].
      intros q Hq. rewrite Hot by done. cbn. by rewrite lookup_alter_ne.
    + intros _ w2 Ha. tot. rewrite (proj2 (Z.eqb_neq _ _) Hn). cbn [negb]. by tot.
Qed.

Lemma write_run p c e w val :
  events w !! p = Some e -> is_efd k c e -> counter_held e = false -> all_unlocked w ->
  0 <= c <= counter_max -> 0 <= val < 2 ^ 64 ->
  tot (writeProt p val) (fun r w' => r = (if c + val <=? counter_max then 8 else -1)
    /\ around p (if c + val <=? counter_max then c + val else c) w w') w.
Proof.
  intros Ep He Hh Hu Hc Hv. unfold writeProt.
  assert (around p c w w) as Hself by by split; [exists e| |].
  assert (forall n, tot (error n) (fun r w' => r = -1 /\ around p c w w') w) as Herr.
  { intros n. unfold error. tot. split; [done|]. by split; [exists e| |]. }
  destruct (Z.eqb_spec val 0) as [->|Hv0].
  { tot. rewrite Z.add_0_r, (proj2 (Z.leb_le _ _)) by lia. done. }
  destruct (Z.eqb_spec val (2 ^ 64 - 1)) as [->|Hv1].
  { rewrite (proj2 (Z.leb_gt _ _)) by (unfold counter_max; lia). apply Herr. }
  apply tot_bind. eapply tot_guard_counter; [done|done|]. tot. rewrite (efd_counter _ _ _ He), (efd_nonblocking _ _ _ He). cbn [andb negb].
  destruct (Z.ltb_spec (counter_max - c) val) as [Hlt|Hge].
  { rewrite (proj2 (Z.leb_gt _ _)) by lia. apply Herr. }
  rewrite (proj2 (Z.leb_le _ _)) by lia. tot.
  set (w1 := set_events _ w).
  assert (events w1 !! p = Some (set_counter (c + val) e)) as Ep1 by (cbn; by rewrite lookup_alter_eq, Ep).
  apply (tot_mono _ (fun _ => around p (c + val) w)); [|by intros _ w2 Ha; tot].
  assert (forall w2, events w2 = events w1 -> emees w2 = emees w -> around p (c + val) w w2) as Ha.
  { intros w2 E2 L2. split.
    - exists (set_counter (c + val) e). rewrite E2. split; [done|]. split; [by eapply is_efd_counter|done].
    - intros q Hq. rewrite E2. cbn. by rewrite lookup_alter_ne.
    - unfold all_unlocked. by rewrite L2. }
  cbn [ev_ set_counter flags_]. destruct (ev_ e); [|tot; by apply Ha].
  rewrite (proj1 (efd_flags _ _ _ He)), andb_false_r. cbn [andb].
  destruct (has EVM_READ (flags_ e) && (c =? 0)); tot; by apply Ha.
Qed.
End Counter.

(** ** Against an eventfd *)

Inductive efd_call : Set := CWrite (val : Z) | CRead.
Definition efd_range (c : efd_call) : Prop := match c with CWrite val => 0 <= val < 2 ^ 64 | CRead => True end.
Definition call_linux (c : efd_call) : M NotifyFd Z :=
  match c with CWrite val => Poller.WRITE_EFD val | CRead => Poller.READ_EFD end.
(** The results of some calls. *)
Fixpoint results {S} (f : efd_call -> M S Z) (l : list efd_call) : M S (list Z) :=
  match l with [] => mret [] | c :: l' => r ← f c; rs ← results f l'; mret (r :: rs) end.

Section Refinement.
Context `{LibEvent, Addresses}.

Definition call_em (p : nat) (c : efd_call) : M World Z :=
  match c with CWrite val => EpollEquiv.WRITE_EFD (Some p) val | CRead => EpollEquiv.READ_EFD (Some p) end.

(** The counter of [n] is the one at [p]. *)
Definition same_counter (p : nat) (n : NotifyFd) (w : World) : Prop :=
  (exists e, events w !! p = Some e /\ is_efd EmEvEventFd (counter n) e /\ counter_held e = false)
  /\ all_unlocked w /\ 0 <= counter n <= counter_max.

Lemma call_simulates p c n w :
  all_succeed -> same_counter p n w -> efd_range c ->
  exists n' r, call_linux c n = (n', Ok r)
    /\ tot (call_em p c) (fun r' w' => r' = r /\ same_counter p n' w' /\ forall q, q <> p -> events w' !! q = events w !! q) w.
Proof.
  intros Ha [(e & Ep & He & Hh) [Hu Hc]] Hr. destruct c as [val|]; cbn [call_linux call_em efd_range] in *.
  - pose proof (write_run Ha EmEvEventFd p _ e w val Ep He Hh Hu Hc Hr) as Hw.
    unfold Poller.WRITE_EFD, mbind, M_bind at 1, get. unfold EpollEquiv.WRITE_EFD, writeEfd, as_efd.
    change (2 ^ 64 - 2) with counter_max. destruct (Z.leb_spec (counter n + val) counter_max) as [Hle|Hgt].
    + eexists _, _. split; [reflexivity|]. tot. rewrite bool_decide_eq_true_2 by apply He. tot.
      eapply tot_mono; [exact Hw|]. intros r w' [-> [Hev Hot Hun]]. tot. split; [done|]. split; [|done].
      split; [done|]. split; [by apply Hun|cbn; lia].
    + eexists _, _. split; [reflexivity|]. tot. rewrite bool_decide_eq_true_2 by apply He. tot.
      eapply tot_mono; [exact Hw|]. intros r w' [-> [Hev Hot Hun]]. tot. split; [done|]. split; [|done].
      split; [done|]. split; [by apply Hun|done].
  - pose proof (read_run Ha EmEvEventFd ltac:(done) p _ e w Ep He Hh Hu (proj1 Hc)) as Hw.
    unfold Poller.READ_EFD, mbind, M_bind at 1, get. unfold EpollEquiv.READ_EFD, readEfd, as_efd.
    destruct (Z.eqb_spec (counter n) 0) as [Hz|Hz].
    all: eexists _, _; split; [reflexivity|]; tot; rewrite bool_decide_eq_true_2 by apply He; tot.
    all: eapply tot_mono; [exact Hw|]; intros r w' [-> [Hev Hot Hun]]; tot; split; [done|]; split; [|done].
    + split; [by rewrite Hz|]. split; [by apply Hun|done].
    + split; [done|]. split; [by apply Hun|cbn; unfold counter_max; lia].
Qed.

Lemma results_simulate p l n w :
  all_succeed -> same_counter p n w -> Forall efd_range l ->
  exists n' rs, results call_linux l n = (n', Ok rs)
    /\ tot (results (call_em p) l) (fun rs' w' => rs' = rs /\ same_counter p n' w'
         /\ forall q, q <> p -> events w' !! q = events w !! q) w.
Proof.
  intros Ha Hs Hl. revert n w Hs. induction Hl as [|c l Hc Hl IH]; intros n w Hs; cbn [results].
  - exists n, []. split; [done|]. by tot.
  - destruct (call_simulates p c n w Ha Hs Hc) as (n1 & r & E1 & T1). rewrite (bind_Ok _ _ _ _ _ E1).
    unfold tot in T1. destruct (call_em p c w) as [w1 [r'|e| |]] eqn:Er; try done. destruct T1 as (-> & Hs1 & O1).
    destruct (IH n1 w1 Hs1) as (n' & rs & E2 & T2). rewrite (bind_Ok _ _ _ _ _ E2). exists n', (r :: rs). split; [done|].
    unfold tot. rewrite (bind_Ok _ _ _ _ _ Er). apply tot_bind. eapply tot_mono; [exact T2|].
    intros rs' w' (-> & Hs2 & O2). tot. split; [done|]. split; [done|]. intros q Hq. by rewrite O2, O1.
Qed.
End Refinement.

(** C29. The calls [WRITE_EFD] and [READ_EFD] on an [EmEventFd] that does not block return what
    they return on an eventfd of Linux, in every order, if the event has no descriptor of
    its own and is registered with a poller for reading or not at all, and libevent's calls
    succeed; the counters stay the same, the limit included, and other events are left
    alone.  Registered for writing too it is no eventfd: [write_interest_breaks_read]. *)
Theorem em_eventfd_refines `{LibEvent, Addresses} p l n w :
  all_succeed -> same_counter p n w -> Forall efd_range l ->
  exists n' w' rs, results call_linux l n = (n', Ok rs) /\ results (call_em p) l w = (w', Ok rs)
    /\ same_counter p n' w' /\ forall q, q <> p -> events w' !! q = events w !! q.
Proof.
  intros Ha Hs Hl. destruct (results_simulate p l n w Ha Hs Hl) as (n' & rs & E1 & T1). unfold tot in T1.
  destruct (results (call_em p) l w) as [w' [rs'|e| |]] eqn:E2; try done. destruct T1 as (-> & Hs' & Ho).
  by exists n', w', rs.
Qed.

(** With a registered notification: two writes are one read, and one too many. *)
Lemma em_eventfd_refines_witness :
  exists w', @results World (@call_em Demo.libevent Demo.addresses 3)
    [CWrite 1; CWrite (2 ^ 64 - 3); CWrite 1; CRead; CRead; CWrite (2 ^ 64 - 1)] demo_world
  = (w', Ok [0; 0; -1; 0; -1; -1]).
Proof.
  destruct (@em_eventfd_refines Demo.libevent Demo.addresses 3
    [CWrite 1; CWrite (2 ^ 64 - 3); CWrite 1; CRead; CRead; CWrite (2 ^ 64 - 1)] {| event_fd := 5; counter := 0 |} demo_world)
    as (n' & w' & rs & E1 & E2 & _).
  - done.
  - split; [|split; [apply demo_ready|split; done]].
    eexists. split; [vm_compute; reflexivity|]. split; [|reflexivity]. split; try reflexivity; split; reflexivity.
  - repeat apply Forall_cons_2; cbn; try lia. apply Forall_nil_2.
  - exists w'. rewrite E2. f_equal. apply (f_equal snd) in E1. symmetry. vm_compute in E1. exact E1.
Defined.

(** [efd_flags] is needed: an event added for reading and modified for reading and writing
    is renewed when its counter is reset, and the [Add] of [renewEv] refuses an event for
    writing without a descriptor.  [READ_EFD] throws though every call of libevent
    succeeds, and the event is registered no more. *)
Lemma write_interest_breaks_read :
  let w := @after Demo.libevent Demo.addresses
    [NewPoller 128; NewEventFd 0 1 2048; Ctl Add 1 (Some 2%nat) (Z.lor EVM_READ (Z.lor EVM_PERSIST EVM_ET)) None;
     Ctl Mod 1 (Some 2%nat) (Z.lor EVM_READ (Z.lor EVM_WRITE (Z.lor EVM_PERSIST EVM_ET))) None; WriteEfd (Some 2%nat) 1] World_new in
  (exists em, emees w !! 1%nat = Some em /\ 2%nat ∈ interest_ em)
  /\ exists w' em', @readEfd Demo.libevent Demo.addresses (Some 2%nat) w = (w', Throw (RuntimeError (B "EvCtlAction::Add failed")))
     /\ emees w' !! 1%nat = Some em' /\ 2%nat ∉ interest_ em'.
Proof.
  split.
  - eexists. split; [vm_compute; reflexivity|]. apply (bool_decide_unpack (_ ∈ _)). vm_compute. exact Logic.I.
  - eexists _, _. split; [vm_compute; reflexivity|]. split; [vm_compute; reflexivity|].
    apply (bool_decide_unpack (_ ∉ _)). vm_compute. exact Logic.I.
Qed.
