(* ===== verification/EmTimers.v ===== *)
(** * Timers of the emulated poller

    What a wait with a timeout leaves behind if it ends early, how often a timer has
    expired, and what times become. *)

From S2P Require Import Prelude Cxx Poller EmEvents EpollEquiv EmInvariant EmPolled EmCounter.

Local Open Scope Z_scope.

Section Stale.
Context `{LibEvent, Addresses} (Hall : all_succeed).

Lemma tot_finally {A} (m : M World A) f Q w : tot m (fun a w' => tot f (fun _ => Q a) w') w -> tot (finally m f) Q w.
Proof. unfold tot, finally. destruct (m w) as [w' [a|e| |]]; try done. by destruct (f w') as [w'' [[]|e| |]]. Qed.

Lemma tot_alloc e (Q : nat -> World -> Prop) w :
  Q (next w) (set_events <[next w := e]> (set_next (S (next w)) w)) -> tot (alloc e) Q w.
Proof. done. Qed.

(** The timer of a wait: no flags, no descriptor. *)
Record bare (e : EmEvent) : Prop := {
  bare_kind : kind e = EmEvReg;
  bare_impl : event_meth_epoll_equiv_impl_ e = None;
  bare_ev : ev_ e = None;
  bare_fd : requested_actual_fd_ e = -1 }.

(** All but one event are as before. *)
Definition others (p : nat) (w w' : World) : Prop := forall q, q <> p -> events w' !! q = events w !! q.
Ltac others := intros ? ?; cbn; rewrite ?lookup_alter_ne, ?lookup_insert_ne by done; try done.

Lemma tot_make_timer (Q : nat -> World -> Prop) w :
  (forall w' e, events w' !! next w = Some e -> bare e -> others (next w) w w' -> emees w' = emees w -> Q (next w) w') ->
  tot (make_new (-1) 0 F_SETFDL_NOTHING F_SETFDL_NOTHING) Q w.
Proof.
  intros HQ. unfold make_new. apply tot_bind, tot_alloc. set (w1 := set_events _ _).
  assert (events w1 !! next w = Some (EmEvent_new EmEvReg 0)) as E1 by (cbn; by rewrite lookup_insert_eq).
  unfold init, setFdlFlagsIfNeededAndActualFd, setFlags.
  change (has EVM_SIGNAL 0) with false. change (-1 <? 0) with true. cbn [andb]. tot.
  cbn [event_meth_epoll_equiv_impl_ EmEvent_new set_actual_fd set_setfl set_setfd]. tot.
  eapply HQ; [look| | |done]; [by split|]. others.
Qed.

Lemma tot_add_timer m em p e ms w (Q : Z -> World -> Prop) :
  events w !! p = Some e -> bare e -> emees w !! m = Some em -> all_unlocked w -> p ∉ interest_ em ->
  (forall w' e' v, events w' !! p = Some e' -> ev_ e' = Some v -> ev_fd v = -1 -> others p w w' ->
     emees w' = alter (set_interest (fun i => i ∪ {[ p ]})) m (emees w) -> Q 0 w') ->
  tot (ctl Add m (Some p) 0 (Some ms)) Q w.
Proof.
  intros Ep [K Bi Bv Bf] Em Hu Hni HQ. pose proof (Hu _ _ Em) as Hl. unfold ctl, ctlEx, ctlEx_with. tot.
  rewrite (bool_decide_eq_false_2 (p ∈ interest_ em)) by done. rewrite andb_false_r. tot. unfold em_ctl. tot. rewrite K.
  unfold EmEvent_ctl, ctl_emee. tot. rewrite Bi. rewrite bool_decide_eq_false_2 by done. tot.
  rewrite (bool_decide_eq_false_2 (Add = Del)) by done. unfold ctl_ev. tot. cbn [ev_ set_impl]. rewrite Bv. unfold setFlags. tot.
  cbn [event_meth_epoll_equiv_impl_ set_impl]. change (has EVM_CLOSED (without EVM_TIMEOUT 0)) with false. tot.
  unfold getActualFdPrv. cbn [set_flags_ set_impl requested_actual_fd_ flags_ kind ev_]. rewrite Bv, Bf. tot.
  cbn [set_flags_ set_impl requested_actual_fd_ flags_ kind]. rewrite Bf. cbn [Z.eqb Pos.eqb negb andb]. tot.
  change (has _ (without EVM_TIMEOUT 0)) with false. rewrite andb_false_r. cbn [andb]. unfold new_ev. tot.
  cbn [event_meth_epoll_equiv_impl_ set_flags_ set_impl]. tot. change (0 <? 0) with false. tot.
  repeat (cbn [negb Z.eqb resetReadyFlags setReadyFlags set_prior_tv set_ev ev_]; progress tot).
  rewrite (bool_decide_eq_false_2 (p ∈ interest_ em)) by done. cbn [negb]. tot.
  repeat (cbn [negb Z.eqb]; progress tot).
  eapply HQ; [look|cbn; reflexivity|done|others|done].
Qed.

Lemma tot_delete_event p e v w (Q : unit -> World -> Prop) :
  events w !! p = Some e -> ev_ e = Some v -> ev_fd v = -1 ->
  (forall w', events w' !! p = None -> others p w w' -> emees w' = emees w -> Q tt w') -> tot (delete_event p) Q w.
Proof.
  intros Ep Ev Hv HQ. unfold delete_event, close. tot. rewrite Ev. unfold getActualFdPrv. rewrite Ev, Hv.
  change (if -1 <? 0 then -1 else -1) with (-1). tot. change (0 <? -1) with false. tot. change (0 <? 0) with false. tot.
  apply HQ; [cbn; by rewrite lookup_delete_eq| |done]. intros q Hq. cbn. rewrite lookup_delete_ne by done. by rewrite !lookup_alter_ne.
Qed.

(** The interest list keeps the address of the timer, and the timer is gone. *)
Definition stale (m p : nat) (w : World) : Prop := interested w m p /\ events w !! p = None.

Lemma helper_stale m em timeout r w :
  wf w -> all_unlocked w -> emees w !! m = Some em -> 0 < timeout -> r < 0 \/ r = 1 ->
  tot (getReadyEmEventsHelper m timeout {| callbacks := []; dispatch_res := r |})
    (fun res w' => res = (if r <? 0 then r else 0, ∅) /\ stale m (next w) w' /\ all_unlocked w') w.
Proof.
  intros Hw Hu Em Ht Hr. unfold getReadyEmEventsHelper, timed_wait. rewrite (proj2 (Z.ltb_lt _ _)) by done. tot.
  apply tot_make_timer. intros w1 e1 Ep1 Hb Ho1 L1. apply tot_finally. tot.
  assert (next w ∉ interest_ em) as Hni.
  { intros Hin. pose proof (wf_member _ _ _ _ Hw Em Hin) as Hi. unfold impl_of in Hi.
    by rewrite (proj1 (wf_next _ Hw (next w) (le_n _))) in Hi. }
  eapply (tot_add_timer m em); [done|done|by rewrite L1|unfold all_unlocked; by rewrite L1|done|].
  intros w2 e2 v2 Ep2 Ev2 Hv2 Ho2 L2. cbn [Z.eqb negb]. unfold wait. cbn [callbacks run_callbacks dispatch_res]. tot.
  assert (emees w2 !! m = Some (set_interest (fun i => i ∪ {[ next w ]}) em)) as Em2 by by rewrite L2, lookup_alter_eq, L1, Em.
  assert (all_unlocked w2) as Hu2.
  { intros q em'. rewrite L2, L1. destruct (decide (q = m)) as [->|Hn]; [|rewrite lookup_alter_ne by done; apply Hu].
    rewrite lookup_alter_eq, Em. intros [= <-]. exact (Hu m em Em). }
  assert (forall w3 w4, events w3 !! next w = None -> emees w3 = emees w4 -> emees w4 = emees w2 ->
    stale m (next w) w3 /\ all_unlocked w3) as Hst.
  { intros w3 w4 E3 L3 L4. split.
    - split; [|done]. exists (set_interest (fun i => i ∪ {[ next w ]}) em). rewrite L3, L4. split; [done|]. cbn. set_solver.
    - unfold all_unlocked. by rewrite L3, L4. }
  destruct (Z.ltb_spec r 0) as [Hneg|Hpos]; [|rewrite (proj2 (Z.eqb_eq r 1)) by lia]; tot.
  all: eapply tot_delete_event; [look|done|done|]; intros w3 E3 Ho3 L3; tot; split; [done|]; by eapply Hst.
Qed.
Lemma tot_detach p e w (Q : unit -> World -> Prop) :
  events w !! p = Some e -> (forall w', others p w w' -> Q tt w') -> tot (detachEventMethEpollEquivImmedFree p) Q w.
Proof.
  intros Ep HQ. unfold detachEventMethEpollEquivImmedFree. tot. destruct (ev_ e); tot; apply HQ; others.
Qed.
Lemma detach_all_stale l p w : p ∈ l -> events w !! p = None -> (detach_all l w).2 = UB.
Proof.
  revert w. induction l as [|q l IH]; intros w Hp E; [by apply elem_of_nil in Hp|]. cbn [detach_all].
  destruct (events w !! q) as [e|] eqn:Eq.
  - pose proof (tot_detach q e w (fun _ w' => others q w w') Eq ltac:(done)) as Ht. unfold tot in Ht.
    destruct (detachEventMethEpollEquivImmedFree q w) as [w1 [[]|x| |]] eqn:Ed; try done.
    rewrite (bind_Ok _ _ _ _ _ Ed). apply elem_of_cons in Hp as [->|Hp]; [congruence|]. apply IH; [done|].
    rewrite Ht; [done|]. congruence.
  - unfold detachEventMethEpollEquivImmedFree, event_at, mbind, M_bind, get. by rewrite Eq.
Qed.
Lemma delete_stale m p w : stale m p w -> all_unlocked w -> (EventMethEpollEquivImpl_delete m w).2 = UB.
Proof.
  intros [(em & Em & Hin) E] Hu. unfold EventMethEpollEquivImpl_delete. rewrite (bind_Ok _ _ _ _ _ (do_call_run _ _)).
  rewrite (bind_Ok _ _ _ _ _ (emee_at_run m em (add_trace (event_base_loopbreak m) w) Em)).
  rewrite (bind_Ok _ _ _ _ _ (guard_run m em (add_trace (event_base_loopbreak m) w) Em (Hu m em Em))).
  set (w1 := set_emees (delete m) (add_trace (event_base_loopbreak m) w)). assert ((detach_all (in_order (interest_ em)) w1).2 = UB) as Hd.
  { apply (detach_all_stale _ p); [by rewrite in_order_perm, elem_of_elements|done]. }
  rewrite (bind_Ok (modify _) _ _ w1 tt) by done. unfold mbind, M_bind.
  destruct (detach_all (in_order (interest_ em)) w1) as [w2 [[]|x| |]]; done.
Qed.
End Stale.

(** A wait with a timeout in which [event_base_loop] fails, or finds nothing to wait for,
    deletes the timer it made but leaves its address in the interest list; the destructor
    of the poller then uses the deleted timer. *)
Theorem em_stale_timer `{LibEvent, Addresses} m em timeout r w :
  all_succeed -> wf w -> all_unlocked w -> emees w !! m = Some em -> 0 < timeout -> r < 0 \/ r = 1 ->
  exists w', getReadyEmEventsHelper m timeout {| callbacks := []; dispatch_res := r |} w
      = (w', Ok (if r <? 0 then r else 0, ∅))
    /\ stale m (next w) w' /\ (EventMethEpollEquivImpl_delete m w').2 = UB.
Proof.
  intros Ha Hw Hu Em Ht Hr. pose proof (helper_stale Ha m em timeout r w Hw Hu Em Ht Hr) as Hs. unfold tot in Hs.
  destruct (getReadyEmEventsHelper _ _ _ w) as [w' [res|e| |]]; try done. destruct Hs as (-> & Hs & Hu').
  exists w'. split; [done|]. split; [done|]. by eapply delete_stale.
Qed.

Lemma em_stale_timer_witness :
  exists w', @getReadyEmEventsHelper Demo.libevent Demo.addresses 1 500 {| callbacks := []; dispatch_res := -1 |} demo_world
      = (w', Ok (-1, ∅))
    /\ stale 1 4 w' /\ (@EventMethEpollEquivImpl_delete Demo.libevent Demo.addresses 1 w').2 = UB.
Proof.
  destruct (@em_stale_timer Demo.libevent Demo.addresses 1 demo_emee 500 (-1) demo_world) as (w' & E & Hs & Hd).
  - done.
  - apply demo_ready.
  - apply demo_ready.
  - vm_compute. reflexivity.
  - lia.
  - left. lia.
  - exists w'. split; [exact E|]. split; [exact Hs|exact Hd].
Defined.

(** ** Expiries *)

Lemma from_to_bytes n z : 0 <= z < 256 ^ Z.of_nat n -> from_bytes (to_bytes n z) = z.
Proof.
  revert z. induction n as [|n IH]; intros z Hz; cbn [to_bytes from_bytes]; [cbn in Hz; lia|].
  rewrite Nat2Z.inj_succ, Z.pow_succ_r in Hz by lia.
  assert (uchar (chr z) = z mod 256) as ->.
  { replace (chr z) with (chr (z mod 256)) by (unfold chr; by rewrite Z.mod_mod). apply uchar_chr. lia. }
  rewrite IH; [pose proof (Z.div_mod z 256); lia|]. split; [apply Z.div_pos; lia|]. apply Z.div_lt_upper_bound; lia.
Qed.

Section Expiries.
Context `{LibEvent, Addresses} (Hall : all_succeed) (Het : has EV_FEATURE_ET event_base_features = true).

(** A timer that is registered with [m], and its count. *)
Record timer (m p : nat) (c : Z) (w : World) : Prop := {
  t_ready : ready_state w;
  t_in : interested w m p;
  t_event : exists e, events w !! p = Some e /\ is_efd EmEvTimer c e }.

Lemma tot_find_poller m em p w (Q : option nat -> World -> Prop) :
  wf w -> all_unlocked w -> emees w !! m = Some em -> p ∈ interest_ em -> Q (Some m) w -> tot (findEmEventInAnInterestSet p) Q w.
Proof.
  intros Hw Hu Em Hin HQ. destruct (find_run p w Hu) as (o & Eo & Ho). unfold tot. rewrite Eo.
  pose proof (wf_member _ _ _ _ Hw Em Hin) as Hi. destruct o as [m'|]; [|destruct (Ho m); by exists em].
  pose proof (wf_impl _ Hw _ _ Ho). by simplify_eq.
Qed.

Lemma timer_write p c e w :
  events w !! p = Some e -> is_efd EmEvTimer c e -> counter_held e = false -> all_unlocked w -> 0 <= c < counter_max ->
  tot (writeProt p 1) (fun _ w' => around EmEvTimer p (c + 1) w w' /\ emees w' = emees w) w.
Proof.
  intros Ep He Hh Hu Hc. pose proof (write_run Hall EmEvTimer p c e w 1 Ep He Hh Hu ltac:(lia) ltac:(lia)) as Hw.
  destruct (timer_write_run p e w Ep ltac:(unfold is_timer; by rewrite (efd_kind _ _ _ He)) Hh) as (w' & r & E & [L _]).
  unfold tot in *. rewrite E in *. rewrite (proj2 (Z.leb_le _ _)) in Hw by lia. by destruct Hw.
Qed.

(** One more expiry, one more in the count. *)
Lemma expire m p c w :
  timer m p c w -> 0 <= c < counter_max ->
  exists w', eventCallbackFn (Some p) EVM_TIMEOUT w = (w', Ok tt) /\ timer m p (c + 1) w'.
Proof.
  intros [Hr (em & Em & Hin) (e & Ep & He)] Hc. pose proof Hr as [Hw Hu Hn].
  destruct (callback_run m em (Some p) EVM_TIMEOUT w) as (w' & E & L & F); [by left|done|done|intros ? [= ->]; by left|].
  exists w'. split; [done|]. destruct (ready_state_callback _ _ _ _ _ Hr E) as [Hr' S]; [right; by eexists _, _|by eexists|].
  split; [done|apply (similar_interested _ _ _ _ S); by exists em|].
  assert (tot (eventCallbackFn (Some p) EVM_TIMEOUT)
    (fun _ w' => exists e, events w' !! p = Some e /\ is_efd EmEvTimer (c + 1) e) w) as Ht; [|unfold tot in Ht; by rewrite E in Ht].
  clear w' E L F Hr' S. unfold eventCallbackFn. apply tot_bind. eapply tot_find_poller; [done..|].
  unfold handleEventCallback. apply tot_bind. eapply tot_guard; [done|by apply (Hu m)|]. tot.
  rewrite bool_decide_eq_false_2 by (by intros ?). tot. unfold EmEvent_handleEventCallback. tot.
  unfold is_timer. rewrite (efd_kind _ _ _ He). rewrite bool_decide_eq_true_2 by done.
  unfold EmEventTmrFd_handleEventCallback. apply tot_bind. change (has EVM_TIMEOUT EVM_TIMEOUT) with true. cbv iota.
  apply tot_bind. eapply tot_mono; [exact (timer_write p c e w Ep He (Hn p e Ep) Hu Hc)|]. intros r w1 [[(e1 & Ep1 & He1 & _) _ _] L1].
  cbv beta. apply tot_ret. tot. rewrite Het. cbn [negb]. tot. unfold addEventToReadyInterestAlrdyLocked.
  assert (emees w1 !! m = Some em) as Em1 by by rewrite L1. tot. rewrite bool_decide_eq_false_2 by (by intros ?). tot.
  eexists. split; [look|]. by apply is_efd_ready.
Qed.

Lemma expires m p c n w :
  timer m p c w -> 0 <= c -> c + Z.of_nat n <= counter_max ->
  exists w', run_callbacks (replicate n (Some p, EVM_TIMEOUT)) w = (w', Ok tt) /\ timer m p (c + Z.of_nat n) w'.
Proof.
  revert c w. induction n as [|n IH]; intros c w Ht Hc Hn; cbn [replicate run_callbacks].
  - exists w. by rewrite Z.add_0_r.
  - destruct (expire m p c w Ht ltac:(lia)) as (w1 & E1 & Ht1). rewrite (bind_Ok _ _ _ _ _ E1).
    destruct (IH (c + 1) w1 Ht1) as (w2 & E2 & Ht2); [lia..|]. exists w2. split; [done|].
    by replace (c + Z.of_nat (S n)) with (c + 1 + Z.of_nat n) by lia.
Qed.

(** Reading takes the count. *)
Lemma read_timer m p c w :
  timer m p c w -> 0 < c <= counter_max ->
  exists w' buf, EmEvents.read (Some p) 8 w = (w', Ok (8, buf)) /\ length buf = 8%nat /\ from_bytes buf = c
    /\ exists e, events w' !! p = Some e /\ is_efd EmEvTimer 0 e.
Proof.
  intros [Hr _ (e & Ep & He)] Hc. pose proof Hr as [Hw Hu Hn].
  assert (tot (EmEvents.read (Some p) 8) (fun r w' => r = (8, to_bytes 8 c) /\ around EmEvTimer p 0 w w') w) as Ht.
  { unfold EmEvents.read. tot. rewrite (efd_kind _ _ _ He). unfold read_buf. change (8 <? 8)%nat with false. cbv iota. apply tot_bind.
    eapply tot_mono; [apply (read_run Hall EmEvTimer ltac:(done) p c e w Ep He (Hn p e Ep) Hu); lia|].
    intros r w' [-> Ha]. rewrite (proj2 (Z.eqb_neq _ _)) by lia. tot. cbn [Z.eqb Pos.eqb]. by rewrite app_nil_r. }
  unfold tot in Ht. destruct (EmEvents.read (Some p) 8 w) as [w' [r|x| |]]; try done. destruct Ht as [-> [(e' & E' & He' & _) _ _]].
  exists w', (to_bytes 8 c). split; [done|]. split; [done|]. split; [|by exists e'].
  apply from_to_bytes. unfold counter_max in Hc. cbn. lia.
Qed.
End Expiries.

(** C30. A timer counts the times it expired since it was last read, and reading it returns
    the count as the eight bytes of an integer and sets it to zero. *)
Theorem em_timer_counts `{LibEvent, Addresses} m p c n w :
  all_succeed -> has EV_FEATURE_ET event_base_features = true ->
  timer m p c w -> 0 <= c -> 0 < c + Z.of_nat n <= counter_max ->
  exists w1 w2 buf, run_callbacks (replicate n (Some p, EVM_TIMEOUT)) w = (w1, Ok tt)
    /\ EmEvents.read (Some p) 8 w1 = (w2, Ok (8, buf)) /\ from_bytes buf = c + Z.of_nat n
    /\ exists e, events w2 !! p = Some e /\ counter_val_ e = 0.
Proof.
  intros Ha He Ht Hc Hn. destruct (expires Ha He m p c n w Ht Hc ltac:(lia)) as (w1 & E1 & Ht1).
  destruct (read_timer Ha m p _ w1 Ht1 Hn) as (w2 & buf & E2 & _ & Hb & e & Ee & He2).
  exists w1, w2, buf. split; [done|]. split; [done|]. split; [done|]. exists e. split; [done|]. by apply He2.
Qed.

Definition timer_ops : list op :=
  [NewPoller 128; NewTimer 1 0 2048 (Some 1%nat); SetTime (Some 2%nat) (Some 100) None; Ctl Add 1 (Some 2%nat) 50 None].
Definition timer_world : World := Eval vm_compute in @after Demo.libevent Demo.addresses timer_ops World_new.

Lemma em_timer_counts_witness :
  exists w1 w2 buf,
    @run_callbacks Demo.libevent Demo.addresses [(Some 2%nat, EVM_TIMEOUT); (Some 2%nat, EVM_TIMEOUT); (Some 2%nat, EVM_TIMEOUT)] timer_world
      = (w1, Ok tt)
    /\ @EmEvents.read Demo.libevent Demo.addresses (Some 2%nat) 8 w1 = (w2, Ok (8, buf)) /\ from_bytes buf = 3.
Proof.
  destruct (@em_timer_counts Demo.libevent Demo.addresses 1 2 0 3 timer_world) as (w1 & w2 & buf & E1 & E2 & Eb & _).
  - done.
  - reflexivity.
  - split.
    + split.
      * apply (@reachable_wf Demo.libevent Demo.addresses).
        replace timer_world with (@after Demo.libevent Demo.addresses timer_ops World_new) by (vm_compute; reflexivity).
        apply reachable_after; [apply reachable_new| |vm_compute; reflexivity].
        repeat apply Forall_cons_2; try exact Logic.I. apply Forall_nil_2.
      * apply (bool_decide_unpack (map_Forall (fun _ em => int_mut_locked_by_get_ready_em_events_ em = false) (emees timer_world))).
        vm_compute. exact Logic.I.
      * apply (bool_decide_unpack (map_Forall (fun _ e => counter_held e = false) (events timer_world))). vm_compute. exact Logic.I.
    + eexists. split; [vm_compute; reflexivity|]. apply (bool_decide_unpack (_ ∈ _)). vm_compute. exact Logic.I.
    + eexists. split; [vm_compute; reflexivity|]. split; try reflexivity; split; reflexivity.
  - lia.
  - split; [reflexivity|]. vm_compute. discriminate.
  - exists w1, w2, buf. split; [exact E1|]. split; [exact E2|]. exact Eb.
Defined.
