(* ===== verification/SslAsync.v ===== *)
(** * TLS connections of the client: [ssl_async.cc], [sslclient.cc]

    A connection over OpenSSL that does not block.  The answers of OpenSSL and of the
    system are a parameter; every call is kept in a trace with its answer. *)

From S2P Require Import Prelude Cxx.

Local Open Scope Z_scope.

(** ** The calls *)

Definition SSL_ERROR_WANT_READ : Z := 2.
Definition SSL_ERROR_WANT_WRITE : Z := 3.
Definition SSL_ERROR_ZERO_RETURN : Z := 6.
Definition SSL_ERROR_WANT_RETRY_VERIFY : Z := 12.

Definition EBADF : Z := 9.
Definition EWOULDBLOCK : Z := 11.
Definition EINVAL : Z := 22.
Definition ENODATA : Z := 61.
Definition ECONNRESET : Z := 104.
Definition ETIMEDOUT : Z := 110.
Definition ECONNREFUSED : Z := 111.
Definition EHOSTUNREACH : Z := 113.
Definition EINPROGRESS : Z := 115.

Definition AF_INET : Z := 2.
Definition AF_INET6 : Z := 10.
Definition PST_O_NONBLOCK : Z := 2048.
Definition PST_FCNTL_GETFL_UNKNOWN : Z := -3468.

(** [select] with, for each set, whether the socket is in it ([None] for a null pointer),
    and its timeout in seconds and microseconds. *)
Inductive call : Set :=
  | steady_clock_now
  | select (read_fds write_fds : option bool) (timeout : Z * Z)
  | SSL_connect | SSL_read (count : Z) | SSL_write (buf : bytes)
  | SSL_get_error (res : Z) | ERR_get_error | SSL_pending
  | socket (domain : Z) | getaddrinfo (host : bytes) (port domain : Z) | freeaddrinfo
  | fcntl_getfl (fd : Z) | fcntl_setfl (fd flags : Z) | set_nodelay (fd : Z)
  | connect (fd : Z) (addr : bytes) | close (fd : Z)
  | SSLv23_method | SSL_CTX_new | SSL_CTX_set_verify | SSL_CTX_set_verify_depth (depth : Z) | SSL_CTX_set_options
  | SSL_CTX_load_verify_locations (file : bytes) | SSL_CTX_free
  | SSL_new | SSL_set_ex_data | SSL_set_tlsext_host_name (host : bytes) | SSL_set_hostflags | SSL_set1_host (host : bytes)
  | SSL_set_fd (fd : Z) | SSL_set_connect_state | SSL_free.

(** What a call gives: its result (of a clock in nanoseconds; of a pointer, zero where it
    is null), [errno] if it sets it, the bytes that are read, what is left in the sets of
    [select], the addresses that are found (empty where one is null). *)
Record answer : Set := {
  ret : Z;
  error_number : option Z;
  data : bytes;
  can_read : bool;
  can_write : bool;
  found : list bytes }.

Abbreviation log := (list (call * answer)).

Class OpenSsl := answer_of : log -> call -> answer.

(** ** [SslAsync] *)

(** The members, of the pointers whether they are set; then what the constructor has
    from [getaddrinfo], [errno], and the trace. *)
Record SslAsync : Set := {
  mFd : Z;
  mToWriteVec : bytes;
  mReadFromVec : bytes;
  mWantsTcpRead : bool;
  mWantsTcpWrite : bool;
  mCallSslReadForSslLib : bool;
  mCallSslWriteForSslLib : bool;
  mConnecting : bool;
  mDoVerification : bool;
  mSsl : bool;
  mCtxt : bool;
  addrinfo_ptr : bool;
  errno : Z;
  trace : log }.

Definition set_Fd (x : Z) (s : SslAsync) : SslAsync :=
  Build_SslAsync x (mToWriteVec s) (mReadFromVec s) (mWantsTcpRead s) (mWantsTcpWrite s) (mCallSslReadForSslLib s) (mCallSslWriteForSslLib s) (mConnecting s) (mDoVerification s) (mSsl s) (mCtxt s) (addrinfo_ptr s) (errno s) (trace s).
Definition set_ToWrite (x : bytes) (s : SslAsync) : SslAsync :=
  Build_SslAsync (mFd s) x (mReadFromVec s) (mWantsTcpRead s) (mWantsTcpWrite s) (mCallSslReadForSslLib s) (mCallSslWriteForSslLib s) (mConnecting s) (mDoVerification s) (mSsl s) (mCtxt s) (addrinfo_ptr s) (errno s) (trace s).
Definition set_ReadFrom (x : bytes) (s : SslAsync) : SslAsync :=
  Build_SslAsync (mFd s) (mToWriteVec s) x (mWantsTcpRead s) (mWantsTcpWrite s) (mCallSslReadForSslLib s) (mCallSslWriteForSslLib s) (mConnecting s) (mDoVerification s) (mSsl s) (mCtxt s) (addrinfo_ptr s) (errno s) (trace s).
Definition set_WantsTcpWrite (x : bool) (s : SslAsync) : SslAsync :=
  Build_SslAsync (mFd s) (mToWriteVec s) (mReadFromVec s) (mWantsTcpRead s) x (mCallSslReadForSslLib s) (mCallSslWriteForSslLib s) (mConnecting s) (mDoVerification s) (mSsl s) (mCtxt s) (addrinfo_ptr s) (errno s) (trace s).
Definition set_CallSslRead (x : bool) (s : SslAsync) : SslAsync :=
  Build_SslAsync (mFd s) (mToWriteVec s) (mReadFromVec s) (mWantsTcpRead s) (mWantsTcpWrite s) x (mCallSslWriteForSslLib s) (mConnecting s) (mDoVerification s) (mSsl s) (mCtxt s) (addrinfo_ptr s) (errno s) (trace s).
Definition set_CallSslWrite (x : bool) (s : SslAsync) : SslAsync :=
  Build_SslAsync (mFd s) (mToWriteVec s) (mReadFromVec s) (mWantsTcpRead s) (mWantsTcpWrite s) (mCallSslReadForSslLib s) x (mConnecting s) (mDoVerification s) (mSsl s) (mCtxt s) (addrinfo_ptr s) (errno s) (trace s).
Definition set_Connecting (x : bool) (s : SslAsync) : SslAsync :=
  Build_SslAsync (mFd s) (mToWriteVec s) (mReadFromVec s) (mWantsTcpRead s) (mWantsTcpWrite s) (mCallSslReadForSslLib s) (mCallSslWriteForSslLib s) x (mDoVerification s) (mSsl s) (mCtxt s) (addrinfo_ptr s) (errno s) (trace s).
Definition set_Ssl (x : bool) (s : SslAsync) : SslAsync :=
  Build_SslAsync (mFd s) (mToWriteVec s) (mReadFromVec s) (mWantsTcpRead s) (mWantsTcpWrite s) (mCallSslReadForSslLib s) (mCallSslWriteForSslLib s) (mConnecting s) (mDoVerification s) x (mCtxt s) (addrinfo_ptr s) (errno s) (trace s).
Definition set_Ctxt (x : bool) (s : SslAsync) : SslAsync :=
  Build_SslAsync (mFd s) (mToWriteVec s) (mReadFromVec s) (mWantsTcpRead s) (mWantsTcpWrite s) (mCallSslReadForSslLib s) (mCallSslWriteForSslLib s) (mConnecting s) (mDoVerification s) (mSsl s) x (addrinfo_ptr s) (errno s) (trace s).
Definition set_addrinfo (x : bool) (s : SslAsync) : SslAsync :=
  Build_SslAsync (mFd s) (mToWriteVec s) (mReadFromVec s) (mWantsTcpRead s) (mWantsTcpWrite s) (mCallSslReadForSslLib s) (mCallSslWriteForSslLib s) (mConnecting s) (mDoVerification s) (mSsl s) (mCtxt s) x (errno s) (trace s).
Definition set_errno (x : Z) (s : SslAsync) : SslAsync :=
  Build_SslAsync (mFd s) (mToWriteVec s) (mReadFromVec s) (mWantsTcpRead s) (mWantsTcpWrite s) (mCallSslReadForSslLib s) (mCallSslWriteForSslLib s) (mConnecting s) (mDoVerification s) (mSsl s) (mCtxt s) (addrinfo_ptr s) x (trace s).
Definition set_trace (x : log) (s : SslAsync) : SslAsync :=
  Build_SslAsync (mFd s) (mToWriteVec s) (mReadFromVec s) (mWantsTcpRead s) (mWantsTcpWrite s) (mCallSslReadForSslLib s) (mCallSslWriteForSslLib s) (mConnecting s) (mDoVerification s) (mSsl s) (mCtxt s) (addrinfo_ptr s) (errno s) x.

(** What the initializers of the constructor leave. *)
Definition SslAsync_init (doVerification : bool) : SslAsync :=
  {| mFd := -1; mToWriteVec := []; mReadFromVec := []; mWantsTcpRead := true; mWantsTcpWrite := true;
     mCallSslReadForSslLib := false; mCallSslWriteForSslLib := false; mConnecting := false;
     mDoVerification := doVerification; mSsl := false; mCtxt := false; addrinfo_ptr := false; errno := 0; trace := [] |}.

Inductive ACTION : Set := CONTINUE | BREAK | NEITHER.

(** Whether a vector is empty. *)
Definition empty (v : bytes) : bool := match v with [] => true | _ => false end.

(** What a round of the loop of [checkSocket] comes to: the next part of the round, the
    next round, or the end with a result. *)
Inductive step : Set := Go | Again | Stop (res : Z).

Section Operations.
Context `{OpenSsl}.

Definition do_call (c : call) : M SslAsync answer :=
  s ← get;
  let a := answer_of (trace s) c in
  _ ← modify (set_trace (trace s ++ [(c, a)]));
  _ ← match error_number a with Some e => modify (set_errno e) | None => mret tt end;
  mret a.

(** ** The handshake, reading and writing *)

Definition ssl_connect : M SslAsync ACTION :=
  result ← do_call SSL_connect;
  if ret result <=? 0 then
    ssl_error ← do_call (SSL_get_error (ret result));
    if ret result =? 0 then mret BREAK
    else if ret ssl_error =? SSL_ERROR_WANT_WRITE then _ ← modify (set_WantsTcpWrite true); mret CONTINUE
    else if ret ssl_error =? SSL_ERROR_WANT_READ then mret CONTINUE
    else if ret ssl_error =? SSL_ERROR_WANT_RETRY_VERIFY then mret CONTINUE
    else mret BREAK
  else _ ← modify (set_Connecting false); mret BREAK.

Definition ssl_read : M SslAsync ACTION :=
  _ ← modify (set_CallSslRead false);
  num ← do_call (SSL_read 1536);
  if ret num <=? 0 then
    ssl_error ← do_call (SSL_get_error (ret num));
    if ret ssl_error =? SSL_ERROR_WANT_WRITE then
      _ ← modify (set_WantsTcpWrite true);
      _ ← modify (set_CallSslWrite true);
      mret CONTINUE
    else if ret ssl_error =? SSL_ERROR_WANT_READ then mret CONTINUE
    else
      _ ← (if ret ssl_error =? SSL_ERROR_ZERO_RETURN then mret tt else _ ← do_call ERR_get_error; mret tt);
      _ ← modify (set_errno (if ret ssl_error =? SSL_ERROR_ZERO_RETURN then ECONNRESET else ENODATA));
      mret BREAK
  else
    s ← get;
    _ ← modify (set_ReadFrom (mReadFromVec s ++ take (Z.to_nat (ret num)) (data num)));
    mret NEITHER.

Definition ssl_write : M SslAsync ACTION :=
  s ← get;
  if mCallSslWriteForSslLib s && empty (mToWriteVec s) then mret BREAK
  else
    _ ← modify (set_CallSslWrite false);
    if empty (mToWriteVec s) then mret NEITHER
    else
      num ← do_call (SSL_write (mToWriteVec s));
      if ret num =? 0 then _ ← do_call ERR_get_error; mret BREAK
      else if ret num <? 0 then
        ssl_error ← do_call (SSL_get_error (ret num));
        if ret ssl_error =? SSL_ERROR_WANT_WRITE then _ ← modify (set_WantsTcpWrite true); mret CONTINUE
        else if ret ssl_error =? SSL_ERROR_WANT_READ then _ ← modify (set_CallSslRead true); mret CONTINUE
        else _ ← do_call ERR_get_error; mret BREAK
      else if Z.of_nat (length (mToWriteVec s)) <? ret num then
        _ ← modify (set_ToWrite []); _ ← modify (set_WantsTcpWrite true); mret NEITHER
      else
        _ ← modify (set_ToWrite (drop (Z.to_nat (ret num)) (mToWriteVec s)));
        _ ← modify (set_WantsTcpWrite false);
        mret NEITHER.

(** ** [checkSocket] *)

Definition of_action (action : ACTION) : step :=
  match action with CONTINUE => Again | BREAK => Stop 0 | NEITHER => Go end.

(** A round of the handshake; its end, also by success, is the end of [checkSocket]. *)
Definition connect_step : M SslAsync step :=
  action ← ssl_connect;
  match action with
  | BREAK => _ ← modify (set_errno ECONNREFUSED); mret (Stop (-1))
  | _ => mret (of_action action)
  end.

(** The socket is readable. *)
Definition readable (forAppRead : bool) : M SslAsync step :=
  s ← get;
  if mConnecting s then connect_step
  else if mCallSslWriteForSslLib s then action ← ssl_write; mret (of_action action)
  else
    action ← ssl_read;
    s ← get;
    match action with
    | NEITHER =>
        mret (if negb (negb forAppRead || mConnecting s || mCallSslWriteForSslLib s || mCallSslReadForSslLib s)
              then Stop 0 else Go)
    | _ => mret (of_action action)
    end.

(** Whether there is more to do after a write. *)
Definition more (forAppRead : bool) (s : SslAsync) : bool :=
  forAppRead || mConnecting s || mCallSslWriteForSslLib s || mCallSslReadForSslLib s.

(** The socket is writable. *)
Definition writable (forAppRead : bool) : M SslAsync step :=
  s ← get;
  if mConnecting s then _ ← modify (set_WantsTcpWrite false); connect_step
  else if mCallSslReadForSslLib s then action ← ssl_read; mret (of_action action)
  else
    action ← ssl_write;
    s ← get;
    match action with
    | NEITHER => mret (if negb (more forAppRead s) then Stop 0 else Go)
    | _ => mret (of_action action)
    end.

(** [select] found the socket ready, or was not called; with [use_nonzero_timeout] for the
    next round. *)
Definition ready (forAppRead read_isset write_isset : bool) : M SslAsync (bool * step) :=
  s ← get;
  let use_nonzero_timeout := mConnecting s in
  next ← (if read_isset then readable forAppRead else mret Go);
  next ← match next with Go => if write_isset then writable forAppRead else mret Go | _ => mret next end;
  mret (use_nonzero_timeout, next).

(** It did not. *)
Definition not_ready (forAppRead write_pending use_nonzero_timeout : bool) : M SslAsync (bool * step) :=
  s ← get;
  if mCallSslWriteForSslLib s then mret (true, Again)
  else if negb write_pending && negb (mConnecting s) then mret (use_nonzero_timeout, Stop 0)
  else if mConnecting s then mret (true, Again)
  else
    action ← ssl_write;
    s ← get;
    mret match action with
         | CONTINUE => (true, Again)
         | BREAK => (use_nonzero_timeout, Stop 0)
         | NEITHER => if negb (more forAppRead s) then (use_nonzero_timeout, Stop 0) else (false, Again)
         end.

(** Nanoseconds as seconds and microseconds. *)
Definition toTimeval (d : Z) : Z * Z := (Z.quot d (10 ^ 9), Z.quot (Z.rem d (10 ^ 9)) 1000).

(** Whether to read without asking [select]. *)
Definition assume_readable (loop_first forAppRead knowReadable : bool) : M SslAsync bool :=
  s ← get;
  if negb (mCallSslWriteForSslLib s) && negb (mConnecting s) then
    if loop_first && knowReadable then mret true
    else if forAppRead then ssl_pending_res ← do_call SSL_pending; mret (0 <? ret ssl_pending_res)
    else mret false
  else mret false.

(** A round of the loop. *)
Definition round (loop_first forAppRead knowReadable use_nonzero_timeout : bool) (start_time max_total_wait : Z)
    : M SslAsync (bool * step) :=
  s ← get;
  let write_pending := mWantsTcpWrite s || negb (empty (mToWriteVec s)) in
  now ← do_call steady_clock_now;
  let wait_so_far := ret now - start_time in
  if max_total_wait <=? wait_so_far then _ ← modify (set_errno ETIMEDOUT); mret (use_nonzero_timeout, Stop (-1))
  else
    let wait_duration := max_total_wait - wait_so_far in
    assume_read_select ← assume_readable loop_first forAppRead knowReadable;
    if (assume_read_select : bool) then ready forAppRead true false
    else
      let read_fs_rptr := forAppRead || mConnecting s || negb (mCallSslWriteForSslLib s) in
      let write_fs_rptr := forAppRead || mConnecting s || negb (mCallSslReadForSslLib s) in
      let timeout := if use_nonzero_timeout then toTimeval wait_duration else (0, 0) in
      select_res ← do_call (select (if read_fs_rptr then Some (mWantsTcpRead s) else None)
                                   (if write_fs_rptr then Some write_pending else None) timeout);
      (* on an error the sets are left as they are *)
      let left b := if ret select_res <? 0 then true else b in
      if negb (ret select_res =? 0) then
        ready forAppRead (read_fs_rptr && mWantsTcpRead s && left (can_read select_res))
                         (write_fs_rptr && write_pending && left (can_write select_res))
      else not_ready forAppRead write_pending use_nonzero_timeout.

Definition MAX_LOOP_COUNT : nat := 100.

(** The loop, over the rounds that remain. *)
Fixpoint check_loop (rounds : nat) (loop_first forAppRead knowReadable use_nonzero_timeout : bool)
    (start_time max_total_wait : Z) : M SslAsync Z :=
  match rounds with
  | O => _ ← modify (set_errno ETIMEDOUT); mret (-1)
  | S rounds' =>
      '(use_nonzero_timeout, next) ←
        round loop_first forAppRead knowReadable use_nonzero_timeout start_time max_total_wait;
      match next with
      | Stop res => mret res
      | _ => check_loop rounds' false forAppRead knowReadable use_nonzero_timeout start_time max_total_wait
      end
  end.

Definition checkSocket (forAppRead knowReadable : bool) : M SslAsync Z :=
  start_time ← do_call steady_clock_now;
  s ← get;
  let max_total_wait := (if mConnecting s then 65 else 45) * 10 ^ 9 in
  _ ← modify (set_errno 0);
  check_loop MAX_LOOP_COUNT true forAppRead knowReadable
    (mConnecting s || mCallSslWriteForSslLib s || mCallSslReadForSslLib s) (ret start_time) max_total_wait.

(** ** Sending and receiving *)

(** [vector::resize] *)
Definition resize (n : Z) (v : bytes) : result bytes :=
  if 2 ^ 63 - 1 <? n then Throw (LengthError (B "vector::_M_default_append"))
  else Ok (take (Z.to_nat n) v ++ replicate (Z.to_nat n - length v) (chr 0)).

(** The loop of [sslAppSend]: a result, or whether it used its rounds up and how much was
    written. *)
Fixpoint send_loop (rounds : nat) (length_ total_written : Z) : M SslAsync (Z + bool * Z) :=
  match rounds with
  | O => mret (inr (true, total_written))
  | S rounds' =>
      s ← get;
      let starting_size := Z.of_nat (length (mToWriteVec s)) in
      check_socket_res ← checkSocket false false;
      if negb (check_socket_res =? 0) then mret (inl (-1))
      else
        s ← get;
        let size := Z.of_nat (length (mToWriteVec s)) in
        if size =? 0 then mret (inl length_)
        else if starting_size <=? size then mret (inr (false, total_written))
        else send_loop rounds' length_ (total_written + (starting_size - size))
  end.

Definition sslAppSend (buffer : option bytes) (length_ : nat) : M SslAsync Z :=
  if (length_ =? 0)%nat then mret 0
  else
    match buffer with
    | None => _ ← modify (set_errno EINVAL); mret (-1)
    | Some buffer =>
        s ← get;
        let prior_size := Z.of_nat (length (mToWriteVec s)) in
        _ ← modify (set_ToWrite (mToWriteVec s ++ take length_ buffer));
        sent ← send_loop 256 (Z.of_nat length_) 0;
        match sent with
        | inl res => mret res
        | inr (used_up, total_written) =>
            if used_up || (total_written <=? prior_size) then
              s ← get;
              v ← lift (resize (wrapu 64 (prior_size - total_written)) (mToWriteVec s));
              _ ← modify (set_ToWrite v);
              _ ← modify (set_errno EWOULDBLOCK);
              mret (-1)
            else mret (total_written - prior_size)
        end
    end.

(** What is already there. *)
Definition take_received (length_ : nat) : M SslAsync (Z * bytes) :=
  s ← get;
  let bytes_received := Nat.min length_ (length (mReadFromVec s)) in
  _ ← modify (set_ReadFrom (drop bytes_received (mReadFromVec s)));
  mret (Z.of_nat bytes_received, take bytes_received (mReadFromVec s)).

(** With the bytes that are put into the buffer. *)
Definition sslAppRecv (buffer_null : bool) (length_ : nat) (knowReadable : bool) : M SslAsync (Z * bytes) :=
  if buffer_null || (length_ =? 0)%nat then _ ← modify (set_errno EINVAL); mret (-1, [])
  else
    s ← get;
    if empty (mReadFromVec s) then
      _ ← modify (set_errno EWOULDBLOCK);
      _ ← checkSocket true knowReadable;
      s ← get;
      if empty (mReadFromVec s) then
        if errno s =? ECONNRESET then mret (0, [])
        else _ ← (if errno s =? 0 then modify (set_errno EWOULDBLOCK) else mret tt); mret (-1, [])
      else take_received length_
    else take_received length_.

(** ** Connecting *)

(** [SSL_CLOSE_FD_AND_FREE_ADDRINFO] *)
Definition close_fd_and_free_addrinfo : M SslAsync unit :=
  s ← get;
  _ ← modify (set_Fd (-1));
  _ ← (if negb (mFd s =? -1) then _ ← do_call (close (mFd s)); mret tt else mret tt);
  if addrinfo_ptr s then _ ← do_call freeaddrinfo; modify (set_addrinfo false) else mret tt.

(** [SSL_LOG_WRN_CLOSE_AND_THROW] *)
Definition close_and_throw {A} (msg : bytes) : M SslAsync A :=
  _ ← close_fd_and_free_addrinfo; throw (RuntimeError msg).

(** The callback that OpenSSL calls to verify a certificate; [None] where the pointer to
    [mDoVerification] is null. *)
Definition verify_callback (preverify_ok : Z) (do_verification : option bool) : Z :=
  if preverify_ok =? 0 then
    match do_verification with
    | None => preverify_ok
    | Some do_verification => if do_verification then preverify_ok else 1
    end
  else preverify_ok.

(** Whether there is a context; [None] is a null pointer. *)
Definition makeSslCtx (hostChainPemFile : option bytes) : M SslAsync bool :=
  match hostChainPemFile with
  | None | Some [] => _ ← modify (set_errno EINVAL); mret false
  | Some file =>
      _ ← do_call SSLv23_method;
      _ ← do_call ERR_get_error;
      ctx ← do_call SSL_CTX_new;
      if ret ctx =? 0 then mret false
      else
        _ ← do_call SSL_CTX_set_verify;
        _ ← do_call (SSL_CTX_set_verify_depth 5);
        _ ← do_call SSL_CTX_set_options;
        _ ← do_call (SSL_CTX_load_verify_locations file);
        _ ← do_call ERR_get_error;
        mret true
  end.

(** The loop over the addresses: whether the socket is connecting, and whether there was no
    route to one of them. *)
Fixpoint connect_loop (l : list bytes) (fd : Z) (any_no_route_to_host : bool) : M SslAsync (bool * bool) :=
  match l with
  | [] => mret (false, any_no_route_to_host)
  | addr :: l' =>
      if empty addr then connect_loop l' fd any_no_route_to_host
      else
        connect_res ← do_call (connect fd addr);
        if ret connect_res =? 0 then mret (true, any_no_route_to_host)
        else if negb (ret connect_res =? -1) then
          _ ← modify (set_errno EINVAL); connect_loop l' fd any_no_route_to_host
        else
          s ← get;
          if errno s =? EINPROGRESS then mret (true, any_no_route_to_host)
          else connect_loop l' fd (any_no_route_to_host || (errno s =? EHOSTUNREACH))
  end.

(** [tryToConnectSocket], over the tries that are left after this one. *)
Fixpoint tryToConnectSocket (tries : nat) (hostName : bytes) (hostPort domain : Z) : M SslAsync Z :=
  r ← do_call (socket domain);
  let sfd := ret r in
  if sfd <? 0 then close_and_throw (B "Could not create socket")
  else
    _ ← modify (set_Fd sfd);
    res ← do_call (getaddrinfo hostName hostPort domain);
    _ ← modify (set_addrinfo (ret res =? 0));
    if negb (ret res =? 0) then close_and_throw (B "Local getaddrinfo failed")
    else
      r ← do_call (fcntl_getfl sfd);
      let flags := if ret r =? PST_FCNTL_GETFL_UNKNOWN then 0 else ret r in
      r ← do_call (fcntl_setfl sfd (Z.lor flags PST_O_NONBLOCK));
      if negb (ret r =? 0) then close_and_throw (B "Could not fcntl")
      else
        r ← do_call (set_nodelay sfd);
        if negb (ret r =? 0) then close_and_throw (B "Could not setsockopt")
        else
          _ ← modify (set_Connecting false);
          '(connecting, any_no_route_to_host) ← connect_loop (found res) sfd false;
          _ ← modify (set_Connecting connecting);
          if (connecting : bool) then mret sfd
          else
            match tries with
            | S tries' =>
                if (any_no_route_to_host : bool) then
                  if domain =? AF_INET then
                    _ ← close_fd_and_free_addrinfo; tryToConnectSocket tries' hostName hostPort AF_INET6
                  else if domain =? AF_INET6 then
                    _ ← close_fd_and_free_addrinfo; tryToConnectSocket tries' hostName hostPort AF_INET
                  else close_and_throw (B "Unexpected _domain")
                else close_and_throw (B "Failed to start connecting")
            | O => close_and_throw (B "Failed to start connecting")
            end.

(** A call for the new connection that must not answer zero. *)
Definition demand (c : call) (msg : bytes) : M SslAsync unit :=
  r ← do_call c; if ret r =? 0 then close_and_throw msg else mret tt.

(** The constructor, on what its initializers leave. *)
Definition SslAsync_construct (hostName : option bytes) (hostPort domain : Z) (hostChainPemFile : option bytes)
    : M SslAsync unit :=
  match hostName, hostChainPemFile with
  | None, _ => _ ← modify (set_errno EINVAL); close_and_throw (B "Null hostName")
  | Some _, None => _ ← modify (set_errno EINVAL); close_and_throw (B "Null hostChainPemFile")
  | Some hostName, Some _ =>
      let hostPort := if hostPort =? 0 then 443 else hostPort in
      ctx ← makeSslCtx hostChainPemFile;
      _ ← modify (set_Ctxt ctx);
      if negb ctx then close_and_throw (B "Could not SSL_CTX_new")
      else
        sfd ← tryToConnectSocket 1 hostName hostPort domain;
        if sfd <? 0 then close_and_throw (B "tryToConnectSocket failed")
        else
          _ ← demand SSL_new (B "Could not SSL_new");
          _ ← modify (set_Ssl true);
          _ ← do_call SSL_set_ex_data;
          _ ← demand (SSL_set_tlsext_host_name hostName) (B "Could not SSL_set_tlsext_host_name");
          _ ← do_call SSL_set_hostflags;
          _ ← demand (SSL_set1_host hostName) (B "Could not SSL_set1_host");
          _ ← demand (SSL_set_fd sfd) (B "Could not SSL_set_fd");
          _ ← do_call SSL_set_connect_state;
          _ ← checkSocket false false;
          s ← get;
          if addrinfo_ptr s then _ ← do_call freeaddrinfo; modify (set_addrinfo false) else mret tt
  end.

Definition SslAsync_destroy : M SslAsync unit :=
  s ← get;
  _ ← (if mSsl s then _ ← do_call SSL_free; modify (set_Ssl false) else mret tt);
  _ ← (if mCtxt s then _ ← do_call SSL_CTX_free; modify (set_Ctxt false) else mret tt);
  if negb (mFd s =? -1) then _ ← do_call (close (mFd s)); modify (set_Fd (-1)) else mret tt.
End Operations.

(** ** [SslConnectionImpl], behind [SslConnection] *)

(** The connection ([None] where it is closed), and [errno] where it is. *)
Record SslConnectionImpl : Set := {
  mHostName : bytes;
  mHostPort : Z;
  mHostResource : bytes;
  mSslAsync : option SslAsync;
  impl_errno : Z }.

Section Connection.
Context `{OpenSsl}.

Definition SslConnectionImpl_new (hostName : bytes) (hostPort domain : Z) (hostResource : bytes) (doVerification : bool)
    (hostChainPemFile : option bytes) : result SslConnectionImpl :=
  let hostPort := if hostPort =? 0 then 443 else hostPort in
  let '(cli, r) := SslAsync_construct (Some hostName) hostPort domain hostChainPemFile (SslAsync_init doVerification) in
  _ ← r;
  if mFd cli =? -1 then Throw (RuntimeError (B "Bad fd on open"))
  else Ok {| mHostName := hostName; mHostPort := hostPort; mHostResource := hostResource; mSslAsync := Some cli; impl_errno := 0 |}.

(** A call of the connection, with what it gives where it is closed. *)
Definition on_async {A} (m : M SslAsync A) (closed : A) : M SslConnectionImpl A := fun c =>
  let put async e := {| mHostName := mHostName c; mHostPort := mHostPort c; mHostResource := mHostResource c;
                        mSslAsync := async; impl_errno := e |} in
  match mSslAsync c with
  | None => (put None EBADF, Ok closed)
  | Some s => let '(s', r) := m s in (put (Some s') (errno s'), r)
  end.

Definition sslRawRecv (buffer_null : bool) (length_ : nat) (knowReadable : bool) : M SslConnectionImpl (Z * bytes) :=
  on_async (if buffer_null then _ ← modify (set_errno EINVAL); mret (-1, [])
            else sslAppRecv buffer_null length_ knowReadable) (-1, []).
Definition sslRawSend (buffer : option bytes) (length_ : nat) : M SslConnectionImpl Z :=
  on_async (match buffer with
            | None => _ ← modify (set_errno EINVAL); mret (-1)
            | Some _ => sslAppSend buffer length_
            end) (-1).
Definition getFd : M SslConnectionImpl Z :=
  c ← get; mret match mSslAsync c with None => -1 | Some s => mFd s end.

(** [close]: the last pointer to the connection goes. *)
Definition close_connection : M SslConnectionImpl Z := fun c =>
  let '(c', r) := on_async (_ ← SslAsync_destroy; mret 0) (-1) c in
  ({| mHostName := mHostName c'; mHostPort := mHostPort c'; mHostResource := mHostResource c';
      mSslAsync := None; impl_errno := impl_errno c' |}, r).
End Connection.
