(* ===== verification/SslStream.v ===== *)
(** * The bytes of a TLS connection

    The streams of bytes of both directions, for [SslAsync] over every behaviour of OpenSSL
    and of the system. *)

From S2P Require Import Prelude Cxx SslAsync.

Local Open Scope Z_scope.

(** ** What a trace says *)

(** The bytes OpenSSL took, and gave. *)
Definition sent (t : log) : bytes :=
  flat_map (fun e => match e with (SSL_write buf, a) => take (Z.to_nat (ret a)) buf | _ => [] end) t.
Definition received (t : log) : bytes :=
  flat_map (fun e => match e with (SSL_read _, a) => take (Z.to_nat (ret a)) (data a) | _ => [] end) t.

(** The handshake was completed. *)
Definition shaken (t : log) : Prop := exists a, (SSL_connect, a) ∈ t /\ 0 < ret a.
(** The calls for data of the application. *)
Definition app_call (c : call) : Prop :=
  match c with SSL_read _ | SSL_write _ | SSL_pending => True | _ => False end.
(** All of them after the handshake. *)
Definition guarded (t : log) : Prop := forall t1 e t2, t = t1 ++ e :: t2 -> app_call e.1 -> shaken t1.

(** The descriptors that are open, and the lists of addresses that are allocated. *)
Definition open_step (X : gset Z) (e : call * answer) : gset Z :=
  match e with
  | (socket _, a) => if ret a <? 0 then X else X ∪ {[ ret a ]}
  | (close fd, _) => X ∖ {[ fd ]}
  | _ => X
  end.
Definition opened (t : log) : gset Z := foldl open_step ∅ t.
Definition list_step (n : Z) (e : call * answer) : Z :=
  match e with
  | (getaddrinfo _ _ _, a) => if ret a =? 0 then n + 1 else n
  | (freeaddrinfo, _) => n - 1
  | _ => n
  end.
Definition lists (t : log) : Z := foldl list_step 0 t.

Lemma sent_snoc t e : sent (t ++ [e]) = sent t ++ sent [e].
Proof. apply flat_map_app. Qed.
Lemma received_snoc t e : received (t ++ [e]) = received t ++ received [e].
Proof. apply flat_map_app. Qed.
Lemma opened_snoc t e : opened (t ++ [e]) = open_step (opened t) e.
Proof. unfold opened. by rewrite foldl_app. Qed.
Lemma lists_snoc t e : lists (t ++ [e]) = list_step (lists t) e.
Proof. unfold lists. by rewrite foldl_app. Qed.

Lemma shaken_app t t' : shaken t -> shaken (t ++ t').
Proof. intros (a & Ha & Hr). exists a. split; [|done]. apply elem_of_app. by left. Qed.
Lemma shaken_connect t a : 0 < ret a -> shaken (t ++ [(SSL_connect, a)]).
Proof. intros Ha. exists a. split; [|done]. apply elem_of_app. right. by apply list_elem_of_singleton. Qed.

Lemma guarded_nil : guarded [].
Proof. intros [|? ?] e t2; by intros. Qed.
Lemma guarded_snoc t e : guarded t -> (app_call e.1 -> shaken t) -> guarded (t ++ [e]).
Proof.
  intros Hg He t1 e1 t2 E Hc. destruct t2 as [|e2 t2] using rev_ind.
  - apply app_inj_tail in E as [-> ->]. auto.
  - rewrite app_comm_cons, app_assoc in E. apply app_inj_tail in E as [-> _]. by eapply Hg.
Qed.

Create Rewrite HintDb trace.
#[export] Hint Rewrite sent_snoc received_snoc opened_snoc lists_snoc : trace.

(** ** Steps of a connection *)

(** While the connection is used: its trace is in order, and completed handshakes are in it. *)
Record safe (s : SslAsync) : Prop := {
  safe_guarded : guarded (trace s);
  safe_shaken : mConnecting s = false -> shaken (trace s) }.

(** What each operation keeps: no byte is lost, doubled or moved; the descriptor stays; the
    handshake is done once. *)
Record advances (s s' : SslAsync) : Prop := {
  adv_sent : sent (trace s') ++ mToWriteVec s' = sent (trace s) ++ mToWriteVec s;
  adv_received : exists new, received (trace s') = received (trace s) ++ new /\ mReadFromVec s' = mReadFromVec s ++ new;
  adv_opened : opened (trace s') = opened (trace s) /\ lists (trace s') = lists (trace s);
  adv_kept : mFd s' = mFd s /\ addrinfo_ptr s' = addrinfo_ptr s;
  adv_connecting : mConnecting s = false -> mConnecting s' = false;
  adv_safe : safe s -> safe s' }.

#[export] Instance advances_preorder : PreOrder advances.
Proof.
  split.
  - intros s. split; auto. exists []. by rewrite !app_nil_r.
  - intros s1 s2 s3 [S1 (n1 & R1 & V1) [O1 L1] [F1 A1] C1 I1] [S2 (n2 & R2 & V2) [O2 L2] [F2 A2] C2 I2]. split; [congruence| |split; congruence|split; congruence|auto|auto].
    exists (n1 ++ n2). by rewrite R2, R1, V2, V1, !app_assoc.
Qed.

(** A computation that returns with [Q], or throws with [E]. *)
Definition runsE {A} (E : SslAsync -> Prop) (m : M SslAsync A) (Q : A -> SslAsync -> Prop) (s : SslAsync) : Prop :=
  wp m Q (fun _ => E) s.
(** One that returns. *)
Abbreviation runs := (runsE (fun _ => False)).

(** The state after a call. *)
Definition called (c : call) (a : answer) (e : Z) (s : SslAsync) : SslAsync :=
  set_errno e (set_trace (trace s ++ [(c, a)]) s).

(** Calls that concern no descriptor. *)
Definition harmless (c : call) : bool :=
  match c with socket _ | close _ | getaddrinfo _ _ _ | freeaddrinfo => false | _ => true end.

Lemma advances_flags s s' :
  trace s' = trace s -> mToWriteVec s' = mToWriteVec s -> mReadFromVec s' = mReadFromVec s -> mFd s' = mFd s ->
  addrinfo_ptr s' = addrinfo_ptr s -> mConnecting s' = mConnecting s -> advances s s'.
Proof.
  intros T W R F A C. split; rewrite ?T, ?W, ?R, ?C; auto.
  - exists []. by rewrite !app_nil_r.
  - intros [Hg Hs]. split; by rewrite T, ?C.
Qed.

(** One call, with what follows from its answer. *)
Lemma advances_call c a s s' :
  trace s' = trace s ++ [(c, a)] -> harmless c = true ->
  sent [(c, a)] ++ mToWriteVec s' = mToWriteVec s -> mReadFromVec s' = mReadFromVec s ++ received [(c, a)] ->
  mFd s' = mFd s -> addrinfo_ptr s' = addrinfo_ptr s -> (app_call c -> mConnecting s = false) ->
  mConnecting s' = mConnecting s \/ (mConnecting s' = false /\ c = SSL_connect /\ 0 < ret a) -> advances s s'.
Proof.
  intros T Hc W R F A G C. split; rewrite ?T; autorewrite with trace.
  - by rewrite <- app_assoc, W.
  - by exists (received [(c, a)]).
  - by destruct c.
  - done.
  - destruct C as [C|[C _]]; congruence.
  - intros [Hg Hs]. split; rewrite T.
    + apply guarded_snoc; auto.
    + destruct C as [C|(C & -> & Ha)]; [|intros _; by apply shaken_connect]. rewrite C. intros E. apply shaken_app; auto.
Qed.

Section Steps.
Context `{OpenSsl} (E : SslAsync -> Prop).

Lemma runs_bind {A C} (m : M SslAsync A) (k : A -> M SslAsync C) Q s :
  runsE E m (fun a s' => runsE E (k a) Q s') s -> runsE E (m ≫= k) Q s.
Proof. intros Hm. by apply wp_bind. Qed.
Lemma runs_mono {A} (m : M SslAsync A) (Q Q' : A -> SslAsync -> Prop) s :
  runsE E m Q s -> (forall a s', Q a s' -> Q' a s') -> runsE E m Q' s.
Proof. intros Hm HQ. by eapply wp_mono. Qed.
Lemma runs_ret {A} (a : A) (Q : A -> SslAsync -> Prop) s : Q a s -> runsE E (mret a) Q s.
Proof. done. Qed.
Lemma runs_get (Q : SslAsync -> SslAsync -> Prop) s : Q s s -> runsE E get Q s.
Proof. done. Qed.
Lemma runs_modify f (Q : unit -> SslAsync -> Prop) s : Q tt (f s) -> runsE E (modify f) Q s.
Proof. done. Qed.
Lemma runs_call c (Q : answer -> SslAsync -> Prop) s :
  (forall a e, a = answer_of (trace s) c -> Q a (called c a e s)) -> runsE E (do_call c) Q s.
Proof.
  intros HQ. unfold runsE, wpg, do_call, mbind, M_bind, get, modify. cbn.
  destruct (error_number (answer_of (trace s) c)) as [e|]; cbn.
  - by apply HQ.
  - replace (set_trace (trace s ++ [(c, answer_of (trace s) c)]) s)
      with (called c (answer_of (trace s) c) (errno s) s) by (by destruct s). by apply HQ.
Qed.
End Steps.

(** Along the text of a computation. *)
Ltac runs_step :=
  lazymatch goal with
  | |- runsE _ (_ ≫= _) _ _ => apply runs_bind
  | |- runsE _ (do_call _) _ _ => apply runs_call; intros ? ? ?
  | |- runsE _ get _ _ => apply runs_get; cbv beta
  | |- runsE _ (modify _) _ _ => apply runs_modify; cbv beta
  | |- runsE _ (mret _) _ _ => apply runs_ret; cbv beta
  | |- runsE _ (if ?b then _ else _) _ _ => destruct b eqn:?
  | |- runsE _ (match ?x with _ => _ end) _ _ => destruct x eqn:?
  end.
Ltac runs_steps := repeat runs_step.

(** A call for data that gets none. *)
Lemma advances_refused c a e s : mConnecting s = false -> ret a <= 0 -> harmless c = true -> advances s (called c a e s).
Proof.
  intros Hs Ha Hc. apply (advances_call c a); cbn; auto.
  - destruct c; try done. cbn. by replace (Z.to_nat (ret a)) with 0%nat by lia.
  - destruct c; cbn; rewrite ?app_nil_r; try done. replace (Z.to_nat (ret a)) with 0%nat by lia. cbn. by rewrite app_nil_r.
Qed.

(** What changes whether the handshake is on. *)
Lemma connecting_called c a e s : mConnecting (called c a e s) = mConnecting s.
Proof. done. Qed.
Lemma connecting_errno x s : mConnecting (set_errno x s) = mConnecting s.
Proof. done. Qed.
Lemma connecting_wants x s : mConnecting (set_WantsTcpWrite x s) = mConnecting s.
Proof. done. Qed.
Lemma connecting_read x s : mConnecting (set_CallSslRead x s) = mConnecting s.
Proof. done. Qed.
Lemma connecting_write x s : mConnecting (set_CallSslWrite x s) = mConnecting s.
Proof. done. Qed.
Create Rewrite HintDb connecting.
#[export] Hint Rewrite connecting_called connecting_errno connecting_wants connecting_read connecting_write : connecting.

(** Changes of flags, calls without data. *)
Ltac general := lazymatch goal with |- advances ?s _ => generalize s; intros ? end.
Ltac flags := general; apply advances_flags; reflexivity.
Ltac plainly c a := general; apply (advances_call c a); cbn; rewrite ?app_nil_r; auto; done.
Ltac refused := apply advances_refused; [autorewrite with connecting; assumption|lia|reflexivity].
Ltac adv :=
  repeat lazymatch goal with
  | |- advances _ (called (SSL_read _) _ _ ?s) => transitivity s; [|refused]
  | |- advances _ (called (SSL_write _) _ _ ?s) => transitivity s; [|refused]
  | |- advances _ (called ?c ?a _ ?s) => transitivity s; [|plainly c a]
  | |- advances _ (set_errno _ ?s) => transitivity s; [|flags]
  | |- advances _ (set_WantsTcpWrite _ ?s) => transitivity s; [|flags]
  | |- advances _ (set_CallSslRead _ ?s) => transitivity s; [|flags]
  | |- advances _ (set_CallSslWrite _ ?s) => transitivity s; [|flags]
  | |- advances _ ?s => is_var s; reflexivity
  end.

Section Operations.
Context `{OpenSsl}.

Lemma connect_runs s :
  runs ssl_connect (fun r s' => advances s s' /\ mToWriteVec s' = mToWriteVec s /\ r <> NEITHER) s.
Proof.
  unfold ssl_connect. runs_steps; bool_to_prop; (split; [|split; [reflexivity|done]]); try solve [adv].
  apply (advances_call SSL_connect a); cbn; rewrite ?app_nil_r; auto. done.
Qed.

(** What reading does, after the handshake. *)
Lemma read_runs s : mConnecting s = false ->
  runs ssl_read (fun _ s' => advances s s' /\ mToWriteVec s' = mToWriteVec s) s.
Proof.
  intros Hc. unfold ssl_read. runs_steps; bool_to_prop; (split; [|reflexivity]); try solve [adv].
  transitivity (set_CallSslRead false s); [flags|]. apply (advances_call (SSL_read 1536) a); cbn; rewrite ?app_nil_r; auto.
Qed.

(** A write of OpenSSL is of the whole buffer, unless partial writes are turned on. *)
Definition whole_writes : Prop := forall t buf,
  let n := ret (answer_of t (SSL_write buf)) in n <= 0 \/ n = Z.of_nat (length buf).

(** What is to be written gets shorter; with such writes it stays or goes. *)
Definition all_or_nothing (s s' : SslAsync) : Prop :=
  (length (mToWriteVec s') <= length (mToWriteVec s))%nat
  /\ (whole_writes -> mToWriteVec s' = mToWriteVec s \/ mToWriteVec s' = []).
Definition moves (s s' : SslAsync) : Prop := advances s s' /\ all_or_nothing s s'.

Lemma nothing s s' : mToWriteVec s' = mToWriteVec s -> all_or_nothing s s'.
Proof. intros E. split; [by rewrite E|auto]. Qed.
Lemma moves_same s s' : advances s s' -> mToWriteVec s' = mToWriteVec s -> moves s s'.
Proof. intros Ha E. split; [done|by apply nothing]. Qed.

#[export] Instance moves_preorder : PreOrder moves.
Proof.
  split; [intros s; by apply moves_same|]. intros s1 s2 s3 [A1 [L1 W1]] [A2 [L2 W2]]. split; [by transitivity s2|]. split; [lia|].
  intros Hw. destruct (W1 Hw) as [E1|E1], (W2 Hw) as [E2|E2]; rewrite ?E2, ?E1; auto.
Qed.

Lemma write_runs s : mConnecting s = false -> runs ssl_write (fun _ s' => moves s s') s.
Proof.
  intros Hc. unfold ssl_write, moves. runs_steps; bool_to_prop;
    (split; [try solve [adv]|try (split; [reflexivity|intros _; left; reflexivity])]).
  - transitivity (set_CallSslWrite false s); [flags|]. apply (advances_call (SSL_write (mToWriteVec s)) a); cbn; auto.
    + rewrite !app_nil_r. apply take_ge. lia.
    + by rewrite app_nil_r.
  - split; cbn; [lia|auto].
  - transitivity (set_CallSslWrite false s); [flags|]. apply (advances_call (SSL_write (mToWriteVec s)) a); cbn; auto.
    + rewrite app_nil_r. apply take_drop.
    + by rewrite app_nil_r.
  - split; cbn; [rewrite length_drop; lia|]. intros Hw. right.
    destruct (Hw (trace s) (mToWriteVec s)) as [Hn|Hn]; subst a; cbn in *; [lia|].
    apply drop_ge. lia.
Qed.

(** ** The loop *)

(** How a round ends, and with what. *)
Definition ends (next : step) (s : SslAsync) : Prop :=
  match next with
  | Stop res => res = 0 \/ (res = -1 /\ (errno s = ETIMEDOUT \/ errno s = ECONNREFUSED))
  | _ => True
  end.

Definition good (s : SslAsync) (next : step) (s' : SslAsync) : Prop := moves s s' /\ ends next s'.

Lemma moves_wants x s : moves s (set_WantsTcpWrite x s).
Proof. apply moves_same; [flags|reflexivity]. Qed.
Lemma moves_errno x s : moves s (set_errno x s).
Proof. apply moves_same; [flags|reflexivity]. Qed.
Lemma good_trans s s' next s'' : moves s s' -> good s' next s'' -> good s next s''.
Proof. intros Hm [Hn He]. split; [by transitivity s'|done]. Qed.
Lemma ends_action action s : ends (of_action action) s.
Proof. destruct action; cbn; auto. Qed.

Lemma connect_step_runs s : runs connect_step (good s) s.
Proof.
  unfold connect_step. runs_step. eapply runs_mono; [apply connect_runs|]. intros action s' (Ha & Hw & Hn).
  pose proof (moves_same _ _ Ha Hw) as Hm. destruct action; runs_steps; [by split| |by split].
  split; [by etransitivity; [|apply moves_errno]|]. cbn. auto.
Qed.

Lemma readable_runs forAppRead s : runs (readable forAppRead) (good s) s.
Proof.
  unfold readable. runs_steps; [apply connect_step_runs| |].
  - eapply runs_mono; [by apply write_runs|]. intros action s' Hm. runs_steps. split; [done|apply ends_action].
  - eapply runs_mono; [by apply read_runs|]. intros action s' [Ha Hw]. pose proof (moves_same _ _ Ha Hw).
    runs_steps; (split; [done|]); cbn; auto. case_match; cbn; auto.
Qed.

Lemma writable_runs forAppRead s : runs (writable forAppRead) (good s) s.
Proof.
  unfold writable. runs_steps.
  - eapply runs_mono; [apply connect_step_runs|]. intros next s'. apply good_trans, moves_wants.
  - eapply runs_mono; [by apply read_runs|]. intros action s' [Ha Hw]. pose proof (moves_same _ _ Ha Hw).
    runs_steps. split; [done|apply ends_action].
  - eapply runs_mono; [by apply write_runs|]. intros action s' Hm.
    runs_steps; (split; [done|]); cbn; auto. case_match; cbn; auto.
Qed.

Lemma ready_runs forAppRead r w s : runs (ready forAppRead r w) (fun p => good s p.2) s.
Proof.
  unfold ready. do 2 runs_step. runs_step.
  assert (runs (if r then readable forAppRead else mret Go) (good s) s) as Hr.
  { destruct r; [apply readable_runs|]. runs_step. by split. }
  eapply runs_mono; [exact Hr|]. intros next s' Hg. runs_step.
  destruct next; [|runs_steps; done|runs_steps; done].
  destruct w; [|runs_steps; done]. eapply runs_mono; [apply writable_runs|]. intros next s'' Hg'.
  runs_steps. by apply (good_trans _ s'); [apply Hg|].
Qed.

Lemma not_ready_runs forAppRead pending timeout s :
  runs (not_ready forAppRead pending timeout) (fun p => good s p.2) s.
Proof.
  unfold not_ready. runs_steps; try (by split); [split; cbn; auto; done|].
  eapply runs_mono; [by apply write_runs|]. intros action s' Hm. runs_steps. destruct action; cbn; try case_match; split; cbn; auto.
Qed.

Lemma assume_runs first forAppRead know s :
  runs (assume_readable first forAppRead know) (fun _ s' => advances s s' /\ mToWriteVec s' = mToWriteVec s) s.
Proof.
  unfold assume_readable. runs_steps; bool_to_prop; (split; [|reflexivity]); try solve [adv].
  apply (advances_call SSL_pending a); cbn; rewrite ?app_nil_r; auto.
Qed.

Lemma moves_called c a e s : harmless c = true -> ~ app_call c -> moves s (called c a e s).
Proof.
  intros Hc Ha. apply moves_same; [|reflexivity].
  apply (advances_call c a); auto; destruct c; cbn in *; rewrite ?app_nil_r; tauto || done.
Qed.

Lemma round_runs first forAppRead know timeout start max s :
  runs (round first forAppRead know timeout start max) (fun p => good s p.2) s.
Proof.
  unfold round. do 4 runs_step. set (s1 := called _ _ _ _). assert (moves s s1) as M1 by (apply moves_called; cbn; tauto).
  runs_step; [runs_steps; split; [by etransitivity; [|apply moves_errno]|cbn; auto]|].
  runs_step. eapply runs_mono; [apply assume_runs|]. intros assume s2 [Ha Hw].
  pose proof (transitivity M1 (moves_same _ _ Ha Hw)) as M2. destruct assume.
  { eapply runs_mono; [apply ready_runs|]. intros p s3. by apply good_trans. }
  do 2 runs_step. set (s3 := called _ _ _ _). assert (moves s s3) as M3.
  { transitivity s2; [done|]. apply moves_called; cbn; tauto. }
  runs_step; (eapply runs_mono; [first [apply ready_runs|apply not_ready_runs]|]); intros p s4; by apply good_trans.
Qed.

(** A result of [checkSocket]. *)
Definition checked (s : SslAsync) (res : Z) (s' : SslAsync) : Prop := good s (Stop res) s'.

Lemma check_loop_runs n first forAppRead know timeout start max s :
  runs (check_loop n first forAppRead know timeout start max) (checked s) s.
Proof.
  revert first timeout s. induction n as [|n IH]; intros first timeout s; cbn [check_loop].
  - runs_steps. split; [apply moves_errno|cbn; auto].
  - runs_step. eapply runs_mono; [apply round_runs|]. intros [timeout' next] s' Hg. cbn in Hg.
    destruct next as [| |res]; [| |by runs_steps]; (eapply runs_mono; [apply IH|]); intros res s''; by apply good_trans, Hg.
Qed.

(** [checkSocket] returns, after at most [MAX_LOOP_COUNT] rounds. *)
Lemma checkSocket_runs forAppRead know s : runs (checkSocket forAppRead know) (checked s) s.
Proof.
  unfold checkSocket. do 6 runs_step. eapply runs_mono; [apply check_loop_runs|]. intros res s'. apply good_trans.
  etransitivity; [|apply moves_errno]. apply moves_called; cbn; tauto.
Qed.
End Operations.

(** ** Sending and receiving *)

(** What goes over the connection: [acc] was accepted for sending, [del] was delivered. *)
Record transfers (acc del : bytes) (s s' : SslAsync) : Prop := {
  tr_sent : sent (trace s') ++ mToWriteVec s' = sent (trace s) ++ mToWriteVec s ++ acc;
  tr_length : (length (mToWriteVec s') <= length (mToWriteVec s) + length acc)%nat;
  tr_received : exists new, received (trace s') = received (trace s) ++ new
                            /\ mReadFromVec s ++ new = del ++ mReadFromVec s';
  tr_opened : opened (trace s') = opened (trace s) /\ lists (trace s') = lists (trace s);
  tr_kept : mFd s' = mFd s /\ addrinfo_ptr s' = addrinfo_ptr s;
  tr_safe : safe s -> safe s' }.

Lemma transfers_trans a1 d1 a2 d2 s1 s2 s3 :
  transfers a1 d1 s1 s2 -> transfers a2 d2 s2 s3 -> transfers (a1 ++ a2) (d1 ++ d2) s1 s3.
Proof.
  intros [S1 L1 (n1 & R1 & V1) [O1 I1] [F1 A1] G1] [S2 L2 (n2 & R2 & V2) [O2 I2] [F2 A2] G2]. split.
  - by rewrite S2, !app_assoc, S1, !app_assoc.
  - rewrite length_app. lia.
  - exists (n1 ++ n2). split; [by rewrite R2, R1, app_assoc|]. by rewrite app_assoc, V1, <- app_assoc, V2, app_assoc.
  - split; congruence.
  - split; congruence.
  - auto.
Qed.

Lemma moves_transfers `{OpenSsl} s s' : moves s s' -> transfers [] [] s s'.
Proof.
  intros [[S (n & R & V) O K C G] [L _]]. split; auto.
  - by rewrite app_nil_r.
  - cbn. lia.
  - by exists n.
Qed.

(** The vectors, where nothing else changes. *)
Lemma transfers_write b s : transfers b [] s (set_ToWrite (mToWriteVec s ++ b) s).
Proof.
  split; cbn; auto.
  - rewrite length_app. lia.
  - exists []. by rewrite !app_nil_r.
  - by intros [].
Qed.
Lemma transfers_read n s : transfers [] (take n (mReadFromVec s)) s (set_ReadFrom (drop n (mReadFromVec s)) s).
Proof.
  split; cbn; auto.
  - by rewrite app_nil_r.
  - lia.
  - exists []. by rewrite !app_nil_r, take_drop.
  - by intros [].
Qed.
(** What is taken back was not sent. *)
Lemma transfers_undo b e s s' :
  transfers b [] s s' -> mToWriteVec s' = mToWriteVec s ++ b -> transfers [] [] s (set_errno e (set_ToWrite (mToWriteVec s) s')).
Proof.
  intros [S L R O K G] E. split; cbn; auto.
  - rewrite E in S. apply app_inv_tail in S. fold (sent (trace s')). by rewrite S, app_nil_r.
  - lia.
  - intros Hs. destruct (G Hs). by split.
Qed.

Section Transfers.
Context `{OpenSsl}.

(** How the loop of [sslAppSend] ends. *)
Definition sent_loop (s : SslAsync) (len : Z) (r : Z + bool * Z) (s' : SslAsync) : Prop :=
  moves s s' /\ match r with
                | inl res => (res = len /\ mToWriteVec s' = [])
                             \/ (res = -1 /\ (errno s' = ETIMEDOUT \/ errno s' = ECONNREFUSED))
                | inr (used_up, n) => used_up = false /\ n = 0 /\ mToWriteVec s' = mToWriteVec s
                end.

Lemma send_loop_runs n len s : whole_writes -> runs (send_loop (S n) len 0) (sent_loop s len) s.
Proof.
  intros Hw. cbn [send_loop]. do 3 runs_step. eapply runs_mono; [apply checkSocket_runs|]. intros res s' [Hm He].
  runs_step; bool_to_prop; [runs_step; split; [done|]; right; destruct He as [He|[_ He]]; auto; done|].
  do 2 runs_step. runs_step; bool_to_prop.
  - runs_step. split; [done|]. left. split; [done|]. apply nil_length_inv. lia.
  - assert (mToWriteVec s' = mToWriteVec s) as E.
    { destruct (proj2 (proj2 Hm) Hw) as [E|E]; [done|]. by rewrite E in *. }
    rewrite E, (proj2 (Z.leb_le _ _)) by lia. runs_step. by split.
Qed.

Lemma resize_prefix (v b : bytes) : Z.of_nat (length v) < 2 ^ 63 ->
  resize (wrapu 64 (Z.of_nat (length v) - 0)) (v ++ b) = Ok v.
Proof.
  intros Hv. rewrite wrapu_small by lia. unfold resize. rewrite Z.sub_0_r, (proj2 (Z.ltb_ge _ _)) by lia.
  rewrite Nat2Z.id, take_app_length, length_app. replace (_ - _)%nat with 0%nat by lia. by rewrite app_nil_r.
Qed.

(** How [sslAppSend] ends: all was sent; nothing was, and nothing is kept; or the loop gave
    up, and what was not sent is kept all the same. *)
Inductive sending (b : bytes) (s : SslAsync) (res : Z) (s' : SslAsync) : Prop :=
  | sent_all : res = Z.of_nat (length b) -> mToWriteVec s' = [] -> transfers b [] s s' -> sending b s res s'
  | sent_none : res = -1 -> errno s' = EWOULDBLOCK -> mToWriteVec s' = mToWriteVec s -> transfers [] [] s s' ->
      sending b s res s'
  | sent_later : res = -1 -> errno s' = ETIMEDOUT \/ errno s' = ECONNREFUSED -> transfers b [] s s' -> sending b s res s'.

Lemma send_runs b s : whole_writes -> b <> [] -> Z.of_nat (length (mToWriteVec s)) < 2 ^ 63 ->
  runs (sslAppSend (Some b) (length b)) (sending b s) s.
Proof.
  intros Hw Hb Hl. unfold sslAppSend. destruct b as [|c b']; [done|]. set (b := c :: b') in *.
  change (length b =? 0)%nat with false. cbv iota. rewrite firstn_all.
  do 5 runs_step. eapply runs_mono; [exact (send_loop_runs 255 _ _ Hw)|]. intros r s' [Hm Hr].
  pose proof (transfers_trans _ _ _ _ _ _ _ (transfers_write b s) (moves_transfers _ _ Hm)) as Ht.
  rewrite app_nil_r in Ht. destruct r as [res|[used n]].
  - runs_step. destruct Hr as [[-> E]|[-> He]]; [by apply sent_all|by apply sent_later].
  - destruct Hr as (-> & -> & E). cbn [set_ToWrite mToWriteVec] in E. cbn [orb].
    rewrite (proj2 (Z.leb_le 0 _)) by lia. do 2 runs_step. rewrite E.
    runs_step. apply (wp_lift _ _ (mToWriteVec s)); [by apply resize_prefix|]. do 5 runs_step.
    apply sent_none; [done|done|done|]. by apply (transfers_undo b).
Qed.

(** How [sslAppRecv] ends: with bytes; or there are none, at the end or for now. *)
Definition receiving (n : nat) (s : SslAsync) (r : Z * bytes) (s' : SslAsync) : Prop :=
  transfers [] r.2 s s'
  /\ ((r.1 = Z.of_nat (length r.2) /\ 0 < r.1 <= Z.of_nat n)
      \/ (r.2 = [] /\ mReadFromVec s' = []
          /\ ((r.1 = 0 /\ errno s' = ECONNRESET) \/ (r.1 = -1 /\ errno s' <> 0)))).

Lemma take_received_runs n s s0 : (0 < n)%nat -> mReadFromVec s <> [] -> transfers [] [] s0 s ->
  runs (take_received n) (receiving n s0) s.
Proof.
  intros Hn Hne Ht. unfold take_received. runs_steps. split; cbn.
  - apply (transfers_trans _ _ _ _ _ _ _ Ht), transfers_read.
  - left. rewrite length_take. destruct (mReadFromVec s); cbn in *; [done|lia].
Qed.

Lemma recv_runs n know s : (0 < n)%nat -> runs (sslAppRecv false n know) (receiving n s) s.
Proof.
  intros Hn. unfold sslAppRecv. cbn [orb]. rewrite (proj2 (Nat.eqb_neq n 0)) by lia. do 2 runs_step.
  runs_step; [|apply take_received_runs; [done|by destruct (mReadFromVec s)|by apply moves_transfers]].
  do 3 runs_step. eapply runs_mono; [apply checkSocket_runs|]. intros res s' [Hm _].
  pose proof (moves_transfers _ _ (transitivity (moves_errno EWOULDBLOCK s) Hm)) as Ht. do 2 runs_step.
  destruct (mReadFromVec s') as [|c v] eqn:E; cbn [empty]; [|apply take_received_runs; [done|by rewrite E|done]].
  runs_steps; bool_to_prop; (split; cbn; [|right]); auto.
  apply (transfers_trans [] [] [] [] _ _ _ Ht), moves_transfers, moves_errno.
Qed.
End Transfers.

(** ** Using a connection *)

(** What the client does with it. *)
Inductive ssl_op : Set := Send (b : bytes) | Recv (n : nat) (knowReadable : bool).

Section Using.
Context `{OpenSsl}.

(** An operation, with what it accepted and what it delivered: a send that ends with
    [EWOULDBLOCK] accepted nothing. *)
Definition run_op (o : ssl_op) : M SslAsync (bytes * bytes) :=
  match o with
  | Send b =>
      res ← sslAppSend (Some b) (length b);
      s ← get;
      mret (if (res =? -1) && (errno s =? EWOULDBLOCK) then [] else b, [])
  | Recv n knowReadable => '(_, d) ← sslAppRecv false n knowReadable; mret ([], d)
  end.
Fixpoint run_ops (l : list ssl_op) : M SslAsync (bytes * bytes) :=
  match l with
  | [] => mret ([], [])
  | o :: l' => '(acc, del) ← run_op o; '(acc', del') ← run_ops l'; mret (acc ++ acc', del ++ del')
  end.

Definition size_op (o : ssl_op) : nat := match o with Send b => length b | _ => 0 end.
(** What is offered fits into a vector. *)
Definition fits (l : list ssl_op) (s : SslAsync) : Prop :=
  Z.of_nat (length (mToWriteVec s) + sum_list_with size_op l) < 2 ^ 63.

Lemma run_op_runs o s : whole_writes -> fits [o] s ->
  runs (run_op o) (fun p s' => transfers p.1 p.2 s s' /\ (length p.1 <= size_op o)%nat) s.
Proof.
  intros Hw Hf. destruct o as [b|n know]; cbn [run_op].
  - destruct (decide (b = [])) as [->|Hb]; [runs_steps; cbn; (split; [|done]); by apply moves_transfers|].
    unfold fits in Hf. cbn in Hf.
    runs_step. eapply runs_mono; [apply send_runs; [done|done|lia]|]. intros res s' Hs. do 3 runs_step. cbn.
    destruct Hs as [-> _ Ht | -> He _ Ht | -> He Ht].
    + rewrite (proj2 (Z.eqb_neq _ _)) by lia. by split.
    + rewrite He. split; [done|cbn; lia].
    + destruct He as [-> | ->]; by split.
  - runs_step. destruct n as [|n].
    { unfold sslAppRecv. cbn [orb Nat.eqb]. do 4 runs_step. split; [apply moves_transfers, moves_errno|done]. }
    eapply runs_mono; [apply recv_runs; lia|]. intros [r d] s' [Ht _]. runs_step. by split; [|cbn; lia].
Qed.

Lemma run_ops_runs l s : whole_writes -> fits l s -> runs (run_ops l) (fun p s' => transfers p.1 p.2 s s') s.
Proof.
  intros Hw. revert s. induction l as [|o l IH]; intros s Hf; cbn [run_ops].
  - runs_step. by apply moves_transfers.
  - unfold fits in *. cbn in Hf. runs_step. eapply runs_mono; [apply run_op_runs; [done|unfold fits; cbn; lia]|].
    intros [a d] s1 [Ht Hl]. pose proof (tr_length _ _ _ _ Ht). cbn in *. runs_step.
    eapply runs_mono; [apply IH; lia|]. intros [a' d'] s2 Ht'. runs_step. by eapply transfers_trans.
Qed.
End Using.

(** C31. Whatever is sent and received: the operations return.  What OpenSSL took for sending,
    and then what waits, is what was accepted, in order; what was delivered, and then what
    waits, is what OpenSSL gave, in order.  A send is accepted unless it answers
    [EWOULDBLOCK]. *)
Theorem ssl_streams `{OpenSsl} l s :
  whole_writes -> fits l s ->
  exists s' acc del, run_ops l s = (s', Ok (acc, del))
    /\ sent (trace s') ++ mToWriteVec s' = sent (trace s) ++ mToWriteVec s ++ acc
    /\ exists new, received (trace s') = received (trace s) ++ new
                  /\ mReadFromVec s ++ new = del ++ mReadFromVec s'.
Proof.
  intros Hw Hf. pose proof (run_ops_runs l s Hw Hf) as Hr. unfold runsE, wpg in Hr.
  destruct (run_ops l s) as [s' [[acc del]|e| |]]; try done. exists s', acc, del. destruct Hr. auto.
Qed.

(** For examples: a peer that is always ready and sends [hello]. *)
Module Demo.
Definition reply (r : Z) : answer :=
  {| ret := r; error_number := None; data := []; can_read := true; can_write := true; found := [] |}.
#[local] Instance ssl : OpenSsl := fun t c =>
  match c with
  | steady_clock_now => reply (Z.of_nat (length t))
  | SSL_read _ => {| ret := 5; error_number := None; data := B "hello"; can_read := true; can_write := true; found := [] |}
  | SSL_write buf => reply (Z.of_nat (length buf))
  | getaddrinfo _ _ _ => {| ret := 0; error_number := None; data := []; can_read := true; can_write := true; found := [B "1.2.3.4"] |}
  | socket _ => reply 7
  | SSL_pending | fcntl_getfl _ | fcntl_setfl _ _ | set_nodelay _ | connect _ _ | close _ => reply 0
  | _ => reply 1
  end.
(** A connection of it. *)
Definition connection : SslAsync := Eval vm_compute in
  (SslAsync_construct (Some (B "host")) 0 AF_INET (Some (B "chain.pem")) (SslAsync_init true)).1.
Definition ops : list ssl_op := [Send (B "GET"); Recv 3 true; Recv 9 true; Send (B " /")].
End Demo.

Lemma demo_whole : @whole_writes Demo.ssl.
Proof. intros t buf. by right. Qed.
Lemma demo_fits : fits Demo.ops Demo.connection.
Proof. reflexivity. Qed.

Lemma ssl_streams_witness :
  exists s' acc del, @run_ops Demo.ssl Demo.ops Demo.connection = (s', Ok (acc, del))
    /\ sent (trace s') ++ mToWriteVec s' = sent (trace Demo.connection) ++ mToWriteVec Demo.connection ++ acc
    /\ exists new, received (trace s') = received (trace Demo.connection) ++ new
                  /\ mReadFromVec Demo.connection ++ new = del ++ mReadFromVec s'.
Proof. apply (@ssl_streams Demo.ssl); [exact demo_whole|exact demo_fits]. Defined.
