(* ===== verification/SslConnect.v ===== *)
(** * Making and closing a TLS connection

    The constructor of [SslAsync], the handshake, and the descriptors. *)

From S2P Require Import Prelude Cxx SslAsync SslStream.

Local Open Scope Z_scope.

(** ** Making a connection *)

(** The descriptor and the list of addresses that are held are the ones the object knows. *)
Record tidy (s : SslAsync) : Prop := {
  tidy_opened : opened (trace s) = if mFd s =? -1 then ∅ else {[ mFd s ]};
  tidy_lists : lists (trace s) = if addrinfo_ptr s then 1 else 0;
  tidy_guarded : guarded (trace s) }.
(** Neither is held. *)
Definition released (s : SslAsync) : Prop := tidy s /\ mFd s = -1 /\ addrinfo_ptr s = false.

(** A step that changes neither these nor what is to be written. *)
Record prep (s s' : SslAsync) : Prop := {
  prep_tidy : tidy s -> tidy s';
  prep_fd : mFd s' = mFd s;
  prep_addrinfo : addrinfo_ptr s' = addrinfo_ptr s;
  prep_connecting : mConnecting s' = mConnecting s;
  prep_write : mToWriteVec s' = mToWriteVec s }.
#[export] Instance prep_preorder : PreOrder prep.
Proof.
  split; [by split|]. intros s1 s2 s3 [] []. split; [auto|congruence..].
Qed.

Lemma prep_flags s s' :
  trace s' = trace s -> mFd s' = mFd s -> addrinfo_ptr s' = addrinfo_ptr s -> mConnecting s' = mConnecting s ->
  mToWriteVec s' = mToWriteVec s -> prep s s'.
Proof. intros T F A C W. split; auto. intros [O L G]. by split; rewrite ?T, ?F, ?A. Qed.
Lemma prep_called c a e s : harmless c = true -> ~ app_call c -> prep s (called c a e s).
Proof.
  intros Hc Ha. split; auto. intros [O L G].
  split; cbn [called set_errno set_trace trace mFd addrinfo_ptr]; autorewrite with trace.
  - by destruct c.
  - by destruct c.
  - apply guarded_snoc; tauto.
Qed.

(** The vector of bytes to write, and the phase of the connection, do not matter here. *)
Lemma tidy_connecting x s : tidy s -> tidy (set_Connecting x s).
Proof. by intros []. Qed.

Ltac prep :=
  repeat lazymatch goal with
  | |- prep _ (called _ _ _ ?s) => transitivity s; [|apply prep_called; [reflexivity|exact (fun h => h)]]
  | |- prep _ (_ _ ?s) => transitivity s; [|apply prep_flags; reflexivity]
  | |- prep _ ?s => is_var s; reflexivity
  end.

Section Making.
Context `{OpenSsl}.

Lemma close_runs E s : tidy s -> runsE E close_fd_and_free_addrinfo
  (fun _ s' => released s' /\ mToWriteVec s' = mToWriteVec s) s.
Proof.
  intros [O L G]. unfold close_fd_and_free_addrinfo, released.
  runs_steps; bool_to_prop; (split; [|reflexivity]); (split; [|done]);
    (split; cbn [trace mFd addrinfo_ptr called set_errno set_trace set_Fd set_addrinfo];
     rewrite ?Z.eqb_refl; autorewrite with trace; rewrite ?O, ?L; cbn [open_step list_step]);
    try (repeat (apply guarded_snoc; [|by intros []]); assumption);
    try (case_match; bool_to_prop; [done|set_solver]); by rewrite ?Heqb0, ?Heqb.
Qed.

Lemma throw_runs {A} msg (Q : A -> SslAsync -> Prop) s : tidy s -> runsE released (close_and_throw msg) Q s.
Proof.
  intros Ht. unfold close_and_throw. runs_step. eapply runs_mono; [by apply close_runs|]. by intros _ s' [Hr _].
Qed.

Lemma connect_loop_runs l fd any s :
  runsE released (connect_loop l fd any) (fun _ s' => prep s s') s.
Proof.
  revert any s. induction l as [|addr l IH]; intros any s; cbn [connect_loop].
  - by runs_step.
  - runs_step; [apply IH|]. do 2 runs_step. assert (prep s (called (connect fd addr) a e s)) as Hp by prep.
    runs_step; [by runs_step|]. runs_step.
    + do 2 runs_step. eapply runs_mono; [apply IH|]. intros p s' Hs. etransitivity; [|exact Hs]. prep.
    + do 2 runs_step. runs_step; [by runs_step|]. eapply runs_mono; [apply IH|]. intros p s' Hs. by etransitivity.
Qed.

(** A socket that is connecting. *)
Definition connecting (s0 : SslAsync) (fd : Z) (s : SslAsync) : Prop :=
  tidy s /\ mFd s = fd /\ 0 <= fd /\ mConnecting s = true /\ mToWriteVec s = mToWriteVec s0.

Lemma socket_tidy d a e s : released s -> 0 <= ret a -> tidy (set_Fd (ret a) (called (socket d) a e s)).
Proof.
  intros ([O L G] & F & A) Ha. rewrite F, A in *. split; cbn [trace mFd addrinfo_ptr called set_errno set_trace set_Fd];
    autorewrite with trace.
  - rewrite O. cbn. rewrite (proj2 (Z.ltb_ge _ _)), (proj2 (Z.eqb_neq _ _)) by lia. set_solver.
  - by rewrite L, A.
  - by apply guarded_snoc.
Qed.
Lemma getaddrinfo_tidy h p d a e s : tidy s -> addrinfo_ptr s = false ->
  tidy (set_addrinfo (ret a =? 0) (called (getaddrinfo h p d) a e s)).
Proof.
  intros [O L G] A. rewrite A in *. split; cbn [trace mFd addrinfo_ptr called set_errno set_trace set_addrinfo];
    autorewrite with trace; [done| |by apply guarded_snoc]. rewrite L. cbn. by destruct (ret a =? 0).
Qed.
Lemma socket_failed d a e s : tidy s -> ret a < 0 -> tidy (called (socket d) a e s).
Proof.
  intros [O L G] Ha. split; cbn [trace mFd addrinfo_ptr called set_errno set_trace]; autorewrite with trace.
  - cbn. by rewrite (proj2 (Z.ltb_lt _ _)).
  - done.
  - by apply guarded_snoc.
Qed.

(** What follows once the options of the socket are set. *)
Lemma after_loop s0 fd s l (k : bool * bool -> M SslAsync Z) :
  tidy s -> mFd s = fd -> 0 <= fd -> mToWriteVec s = mToWriteVec s0 ->
  (forall any s', tidy s' -> mToWriteVec s' = mToWriteVec s0 -> runsE released (k (false, any)) (connecting s0) s') ->
  (forall any s', connecting s0 fd (set_Connecting true s') -> runsE released (k (true, any)) (connecting s0) s') ->
  runsE released (connect_loop l fd false ≫= k) (connecting s0) s.
Proof.
  intros Ht F Hf W K0 K1. runs_step. eapply runs_mono; [apply connect_loop_runs|]. intros [[] any] s' [Pt Pf Pa Pc Pw].
  - apply K1. repeat split; try apply Pt; auto; cbn; congruence.
  - apply K0; [auto|congruence].
Qed.

Lemma try_runs tries host port domain s :
  released s -> runsE released (tryToConnectSocket tries host port domain) (connecting s) s.
Proof.
  assert (forall b (s : SslAsync), tidy s -> tidy (set_Connecting b s)) as Hc by (intros; by apply tidy_connecting).
  revert domain s. induction tries as [|tries IH]; intros domain s Hr; cbn [tryToConnectSocket]; do 2 runs_step;
    (runs_step; bool_to_prop; [by apply throw_runs, socket_failed, Heqb; apply Hr|]); do 4 runs_step;
    set (s1 := set_Fd _ _); (assert (tidy s1) as T1 by by apply socket_tidy);
    do 2 runs_step; set (s2 := set_addrinfo _ _);
    (assert (tidy s2) as T2 by (apply getaddrinfo_tidy; [done|apply Hr]));
    (runs_step; [by apply throw_runs|]); do 4 runs_step; set (s3 := called (fcntl_setfl _ _) _ _ _);
    (assert (prep s2 s3) as P3 by (unfold s3; prep));
    (runs_step; [by apply throw_runs, P3|]); do 2 runs_step; set (s4 := called (set_nodelay _) _ _ _);
    (assert (prep s2 s4) as P4 by (etransitivity; [exact P3|]; unfold s4; prep));
    (runs_step; [by apply throw_runs, P4|]); do 2 runs_step;
    (apply after_loop; [by apply Hc, P4|exact (prep_fd _ _ P4)|done|exact (prep_write _ _ P4)| |]);
    intros any s' Hs'; try (do 2 runs_step; runs_step; exact Hs'); intros W; do 2 runs_step;
    try (by apply throw_runs, Hc);
    assert (forall d', runsE released (_ ← close_fd_and_free_addrinfo; tryToConnectSocket tries host port d')
      (connecting s) (set_Connecting false s')) as Again.
  { intros d'. runs_step. eapply runs_mono; [by apply close_runs, Hc|]. intros _ s5 [Hr5 W5]. cbn in W5.
    eapply runs_mono; [by apply IH|]. intros fd s6 (Ht & Hf & H0f & Hm & W6). repeat split; try apply Ht; auto; congruence. }
  destruct any, (domain =? AF_INET), (domain =? AF_INET6); auto using throw_runs.
Qed.

Lemma ctx_runs file s : runs (makeSslCtx file) (fun _ s' => prep s s') s.
Proof. unfold makeSslCtx. runs_steps; prep. Qed.

Lemma demand_runs c msg s : harmless c = true -> ~ app_call c -> tidy s ->
  runsE released (demand c msg) (fun _ s' => prep s s') s.
Proof.
  intros Hc Ha Ht. unfold demand. do 2 runs_step. assert (prep s (called c a e s)) as Hp by by apply prep_called.
  runs_step; [by apply throw_runs, Hp|by runs_step].
Qed.

(** What the constructor leaves. *)
Definition constructed (s : SslAsync) : Prop :=
  tidy s /\ safe s /\ 0 <= mFd s /\ addrinfo_ptr s = false /\ mToWriteVec s = [].

Lemma connecting_prep s0 fd s s' : connecting s0 fd s -> prep s s' -> connecting s0 fd s'.
Proof. intros (Ht & F & Hf & C & W) []. repeat split; try apply (prep_tidy0 Ht); auto; congruence. Qed.

Lemma runs_weaken {A} E (m : M SslAsync A) Q s : runs m Q s -> runsE E m Q s.
Proof. intros Hm. by eapply wp_mono. Qed.

(** The calls that set the new connection up. *)
Lemma demand_bind {A} s0 fd s c msg (k : unit -> M SslAsync A) Q :
  harmless c = true -> ~ app_call c -> connecting s0 fd s ->
  (forall s', connecting s0 fd s' -> runsE released (k tt) Q s') -> runsE released (demand c msg ≫= k) Q s.
Proof.
  intros Hc Ha C Hk. runs_step. eapply runs_mono; [apply demand_runs; [done|done|apply C]|].
  intros [] s' P. by apply Hk, (connecting_prep _ _ s).
Qed.
Lemma call_bind {A} s0 fd s c (k : answer -> M SslAsync A) Q :
  harmless c = true -> ~ app_call c -> connecting s0 fd s ->
  (forall a s', connecting s0 fd s' -> runsE released (k a) Q s') -> runsE released (do_call c ≫= k) Q s.
Proof. intros Hc Ha C Hk. do 2 runs_step. by apply Hk, (connecting_prep _ _ s), prep_called. Qed.

(** The handshake begins. *)
Lemma begin_runs s0 fd s : connecting s0 fd s -> mToWriteVec s0 = [] ->
  runs (checkSocket false false) (fun _ s' => tidy s' /\ safe s' /\ 0 <= mFd s' /\ mToWriteVec s' = []) s.
Proof.
  intros ([O L G] & F & Hf & C & W) W0. eapply runs_mono; [apply checkSocket_runs|].
  intros res s' [[[_ _ [O' L'] [F' A'] _ S'] [Hl _]] _].
  assert (safe s') as Hs by (apply S'; split; [done|congruence]).
  split; [|split; [done|]]; [split; [by rewrite O', F'|by rewrite L', A'|apply Hs]|]. split; [lia|].
  rewrite W, W0 in Hl. by destruct (mToWriteVec s'); [|cbn in Hl; lia].
Qed.

Lemma finish_runs s : tidy s -> safe s -> 0 <= mFd s -> mToWriteVec s = [] ->
  runs (if addrinfo_ptr s then _ ← do_call freeaddrinfo; modify (set_addrinfo false) else mret tt)
    (fun _ => constructed) s.
Proof.
  intros [O L G] [_ Hs] Hf W. assert (guarded (trace s)) by done. destruct (addrinfo_ptr s) eqn:A.
  - do 3 runs_step. assert (guarded (trace s ++ [(freeaddrinfo, a)])) as G' by by apply guarded_snoc.
    repeat split; auto; cbn [trace mFd addrinfo_ptr called set_errno set_trace set_addrinfo]; autorewrite with trace; auto.
    + by rewrite L.
    + intros Hc. by apply shaken_app, Hs.
  - runs_step. repeat split; auto. by rewrite A.
Qed.

Lemma construct_runs host port domain chain v :
  runsE released (SslAsync_construct host port domain chain) (fun _ => constructed) (SslAsync_init v).
Proof.
  assert (forall b s, prep s (set_Ctxt b s)) as Pc by (intros; prep).
  assert (forall b s, prep s (set_Ssl b s)) as Pn by (intros; prep).
  assert (forall e s, prep s (set_errno e s)) as Pe by (intros; prep).
  assert (released (SslAsync_init v)) as R0 by (split; [split; [done|done|apply guarded_nil]|done]).
  unfold SslAsync_construct. destruct host as [host|], chain as [chain|];
    try (do 2 runs_step; apply throw_runs, (prep_tidy _ _ (Pe _ _)), R0).
  runs_step. apply runs_weaken. eapply runs_mono; [apply ctx_runs|]. intros ctx s1 P1. do 2 runs_step.
  pose proof (transitivity P1 (Pc ctx s1)) as P2. runs_step; [by apply throw_runs, P2, R0|].
  assert (released (set_Ctxt ctx s1)) as R2 by (split; [by apply P2, R0|split; [exact (prep_fd _ _ P2)|exact (prep_addrinfo _ _ P2)]]).
  runs_step. eapply runs_mono; [by apply try_runs|]. intros fd s3 C3. runs_step; [by apply throw_runs, C3|].
  eapply demand_bind; [done|exact id|exact C3|]. intros s4 C4. do 2 runs_step.
  eapply call_bind; [done|exact id|by eapply connecting_prep|]. intros _ s5 C5.
  eapply demand_bind; [done|exact id|exact C5|]. intros s6 C6.
  eapply call_bind; [done|exact id|exact C6|]. intros _ s7 C7.
  eapply demand_bind; [done|exact id|exact C7|]. intros s8 C8.
  eapply demand_bind; [done|exact id|exact C8|]. intros s9 C9.
  eapply call_bind; [done|exact id|exact C9|]. intros _ s10 C10.
  runs_step. apply runs_weaken. eapply runs_mono; [eapply begin_runs; [exact C10|exact (prep_write _ _ P2)]|].
  intros _ s11 (T & S & F & W). do 2 runs_step. by apply runs_weaken, finish_runs.
Qed.
End Making.

Lemma destroy_runs `{OpenSsl} s :
  tidy s -> runs SslAsync_destroy (fun _ s' => opened (trace s') = ∅ /\ mFd s' = -1) s.
Proof.
  intros [O L G]. unfold SslAsync_destroy.
  runs_steps; bool_to_prop; (split; [|first [reflexivity|assumption]]);
    cbn [trace mFd addrinfo_ptr called set_errno set_trace set_Fd set_Ssl set_Ctxt]; autorewrite with trace;
    rewrite ?O; cbn [open_step]; destruct (Z.eqb_spec (mFd s) (-1)); first [done|set_solver].
Qed.

Lemma transfers_tidy acc del s s' : transfers acc del s s' -> tidy s -> safe s -> tidy s'.
Proof.
  intros [_ _ _ [O L] [F A] S] [O0 L0 _] Hs. split; [by rewrite O, F|by rewrite L, A|by apply S].
Qed.

(** ** The handshake and the descriptors *)

(** C32. Whatever is done with a connection once it is made: OpenSSL is not asked to read or
    write the data of the application before the handshake is completed, and the connection
    does not take it for completed before. *)
Theorem ssl_handshake_first `{OpenSsl} host port domain chain v l s s' r :
  SslAsync_construct host port domain chain (SslAsync_init v) = (s, Ok tt) ->
  whole_writes -> fits l s -> run_ops l s = (s', r) ->
  guarded (trace s') /\ (mConnecting s' = false -> shaken (trace s')).
Proof.
  intros Es Hw Hf Er. pose proof (construct_runs host port domain chain v) as Hc. unfold runsE, wpg in Hc. rewrite Es in Hc.
  pose proof (run_ops_runs l s Hw Hf) as Hr. unfold runsE, wpg in Hr. rewrite Er in Hr.
  destruct r as [p|e| |]; try done. destruct (tr_safe _ _ _ _ Hr (proj1 (proj2 Hc))). done.
Qed.

Lemma ssl_handshake_first_witness :
  exists s', guarded (trace s') /\ (mConnecting s' = false -> shaken (trace s')).
Proof.
  destruct (@run_ops Demo.ssl Demo.ops Demo.connection) as [s' r] eqn:E. exists s'.
  apply (@ssl_handshake_first Demo.ssl (Some (B "host")) 0 AF_INET (Some (B "chain.pem")) true Demo.ops Demo.connection s' r);
    [vm_compute; reflexivity|exact demo_whole|exact demo_fits|exact E].
Defined.

(** C33. The constructor leaves one socket open, the connection's, or it throws and leaves none;
    the lists of addresses are freed; and destroying the connection after any use of it
    closes the socket. *)
Theorem ssl_descriptors `{OpenSsl} host port domain chain v :
  match SslAsync_construct host port domain chain (SslAsync_init v) with
  | (s, Ok _) => 0 <= mFd s /\ opened (trace s) = {[ mFd s ]} /\ lists (trace s) = 0
      /\ forall l, whole_writes -> fits l s ->
           exists s', (_ ← run_ops l; SslAsync_destroy) s = (s', Ok tt) /\ opened (trace s') = ∅
  | (s, Throw _) => opened (trace s) = ∅ /\ lists (trace s) = 0
  | _ => False
  end.
Proof.
  pose proof (construct_runs host port domain chain v) as Hc. unfold runsE, wpg in Hc.
  destruct (SslAsync_construct _ _ _ _ _) as [s [[]|e| |]]; try done.
  - destruct Hc as (T & S & F & A & W). pose proof T as [O L G]. rewrite A in L. split; [done|].
    rewrite (proj2 (Z.eqb_neq _ _)) in O by lia. split; [done|]. split; [done|]. intros l Hw Hf.
    assert (runs (_ ← run_ops l; SslAsync_destroy) (fun _ s' => opened (trace s') = ∅ /\ mFd s' = -1) s) as Hr.
    { runs_step. eapply runs_mono; [by apply run_ops_runs|]. intros p s' Ht. apply destroy_runs. exact (transfers_tidy _ _ _ _ Ht T S). }
    unfold runsE, wpg in Hr. destruct ((_ ← run_ops l; SslAsync_destroy) s) as [s' [[]|e| |]]; try done. exists s'. by destruct Hr.
  - destruct Hc as ([O L G] & F & A). rewrite F, A in *. done.
Qed.

Lemma ssl_descriptors_witness :
  exists s', @mbind (M SslAsync) _ _ _ (fun _ => @SslAsync_destroy Demo.ssl) (@run_ops Demo.ssl Demo.ops) Demo.connection
      = (s', Ok tt) /\ opened (trace s') = ∅.
Proof.
  pose proof (@ssl_descriptors Demo.ssl (Some (B "host")) 0 AF_INET (Some (B "chain.pem")) true) as Hd.
  assert (@SslAsync_construct Demo.ssl (Some (B "host")) 0 AF_INET (Some (B "chain.pem")) (SslAsync_init true)
          = (Demo.connection, Ok tt)) as E by (vm_compute; reflexivity).
  rewrite E in Hd. destruct Hd as (_ & _ & _ & Hd). exact (Hd Demo.ops demo_whole demo_fits).
Defined.
